(** * Etymoscope: the etymology graph engine

    A shallow embedding of the graph builder, the hub pruner, the statistics
    precomputer and the weighted random sampler of the Etymoscope server
    (the [MemStorage] class and the precompute script) and of its Lambda
    port (lambda/getWord, lambda/getRandom), with the properties the design
    document states about them; and of the code around them: the HTTP
    routes, the random-word Lambda variants and the client functions that
    filter and show the graphs.

    How the TypeScript is read.
    - A [number] that holds a depth, a count or a weight is a [Z]; the value
      of [Math.random()] is a rational [Q], and the product
      [Math.random() * totalWeight] is rounded to the nearest double
      ([doubleMul]).  [MemStorage.randomIndexOf] takes the product
      [Math.random() * length] exactly; [ConnectionSampler.randomIndexOf]
      rounds it.
    - A string is a sequence of UTF-16 code units below 256 (the Latin-1
      range); [toLowerCase] and [trim] are the JavaScript functions on such
      strings.  The proofs about graphs and sampling do not look inside
      [normalize].
    - The dictionary ([EtymologyData], a JSON object) is an association list
      in [Object.keys] order.  [data_get] looks a word up among the keys;
      [lookup] is [data[w]] as JavaScript evaluates it, which also finds
      the members that every object inherits ([constructor], [__proto__],
      ...).  [JsMemStorage], [JsLambda] and [JsLambdaBfsOnly] are the
      graph builders with [lookup]; [MemStorage], [Lambda] and
      [LambdaBfsOnly] are the same loops with lookups among the keys, and
      a run with [lookup] on [data] is the run among the keys of
      [lookupView data] ([server_run_on_view], [lambda_run_on_view]), so
      what is proved of the latter for every dictionary holds of the
      former.  On the dictionary object the server's [getWordGraph] can
      throw a [TypeError] ([server_throws_iff]).
    - [Set<string>] and [Map<string, _>] iterate in insertion order: they
      are lists without repetition ([set_add], [map_set], [addChild]).
    - A [while] loop runs on a budget of iterations (a [nat]) computed from
      its input; for every loop a lemma shows that the loop condition is
      false before the budget ends and that a larger budget gives the same
      state ([bfs_queue_empty], [lam_bfs_queue_empty], [closureLoop_spec],
      [sizeLoop_final], and the [_budget_irrelevant] lemmas).  The binary
      search, whose termination is itself a claim, reports a spent budget
      as [StillRunning]. *)

From Stdlib Require Import String Ascii List ZArith QArith Qround.
From Stdlib Require Import Bool Lia Arith.
From Stdlib Require Import Sorting.Sorted.
Import ListNotations.

Local Open Scope string_scope.
Local Open Scope list_scope.
Local Open Scope Z_scope.

(* ================================================================= *)
(** ** Strings: [toLowerCase] and [trim] *)

(** [String.prototype.toLowerCase] on one code unit below 256: the letters
    A-Z and the Latin-1 capitals U+00C0-U+00DE (without the sign U+00D7) move
    up by 32; every other code unit is left as it is. *)
Definition lowerChar (c : ascii) : ascii :=
  let n := nat_of_ascii c in
  if (Nat.leb 65 n && Nat.leb n 90
      || Nat.leb 192 n && Nat.leb n 222 && negb (Nat.eqb n 215))%bool
  then ascii_of_nat (n + 32) else c.

Fixpoint toLowerCase (s : string) : string :=
  match s with
  | EmptyString => EmptyString
  | String c s' => String (lowerChar c) (toLowerCase s')
  end.

(** White space and line terminators removed by [String.prototype.trim],
    among the code units below 256: TAB, LF, VT, FF, CR, the space and the
    no-break space U+00A0. *)
Definition isSpace (c : ascii) : bool :=
  let n := nat_of_ascii c in
  (Nat.leb 9 n && Nat.leb n 13 || Nat.eqb n 32 || Nat.eqb n 160)%bool.

Fixpoint trimStart (s : string) : string :=
  match s with
  | EmptyString => EmptyString
  | String c s' => if isSpace c then trimStart s' else s
  end.

Fixpoint allSpaces (s : string) : bool :=
  match s with
  | EmptyString => true
  | String c s' => (isSpace c && allSpaces s')%bool
  end.

Fixpoint trimEnd (s : string) : string :=
  match s with
  | EmptyString => EmptyString
  | String c s' => if allSpaces s then EmptyString else String c (trimEnd s')
  end.

Definition trim (s : string) : string := trimEnd (trimStart s).

(** [word.toLowerCase().trim()] *)
Definition normalize (word : string) : string := trim (toLowerCase word).

(* ================================================================= *)
(** ** Sets and maps with insertion order *)

(** [Set.prototype.has] *)
Definition set_has (s : list string) (x : string) : bool :=
  existsb (String.eqb x) s.

(** [Set.prototype.add] *)
Definition set_add (s : list string) (x : string) : list string :=
  if set_has s x then s else s ++ [x].

(** [Map.prototype.get] *)
Fixpoint map_get {V : Type} (m : list (string * V)) (k : string) : option V :=
  match m with
  | [] => None
  | (k', v) :: m' => if String.eqb k' k then Some v else map_get m' k
  end.

(** [Map.prototype.set] *)
Fixpoint map_set {V : Type} (m : list (string * V)) (k : string) (v : V)
  : list (string * V) :=
  match m with
  | [] => [(k, v)]
  | (k', v') :: m' =>
      if String.eqb k' k then (k', v) :: m' else (k', v') :: map_set m' k v
  end.

(** [a[i]] for a number [i]: [undefined] outside the array. *)
Definition at_index {A : Type} (l : list A) (i : Z) : option A :=
  if i <? 0 then None else nth_error l (Z.to_nat i).

(* ================================================================= *)
(** ** Data model (shared/schema.ts) *)

Record WordEntry := mkWordEntry {
  definition : string;
  relatedWords : list string
}.

(** The dictionary, in [Object.keys] order. *)
Definition EtymologyData := list (string * WordEntry).

(** [data[w]] *)
Definition data_get (data : EtymologyData) (w : string) : option WordEntry :=
  map_get data w.

(** [Object.keys(data)] *)
Definition data_keys (data : EtymologyData) : list string := map fst data.

(** *** Lookups on the dictionary object

    The dictionary is a plain object: [data[w]] finds the entry of the key
    [w] and, for a [w] that is no key, a member that every object inherits
    from [Object.prototype]. *)

(** The names of the inherited members. *)
Definition inheritedNames : list string :=
  ["constructor"; "__defineGetter__"; "__defineSetter__"; "hasOwnProperty";
   "__lookupGetter__"; "__lookupSetter__"; "isPrototypeOf";
   "propertyIsEnumerable"; "toString"; "valueOf"; "__proto__";
   "toLocaleString"].

(** The value of [data[w]]: the entry of a key; an inherited member (a
    function or the prototype object: truthy, and its [definition] and
    [relatedWords] are [undefined]); or [undefined]. *)
Inductive Lookup :=
| Entry (entry : WordEntry)
| Member
| Undefined.

Definition lookup (data : EtymologyData) (w : string) : Lookup :=
  match data_get data w with
  | Some entry => Entry entry
  | None => if set_has inheritedNames w then Member else Undefined
  end.

(** [data[w]] is truthy. *)
Definition resolves (data : EtymologyData) (w : string) : bool :=
  match lookup data w with
  | Undefined => false
  | _ => true
  end.

(** The dictionary as lookups see it: the keys, and after them the
    inherited members as words without related words. *)
Definition memberEntry : WordEntry := mkWordEntry "" [].

Definition lookupView (data : EtymologyData) : EtymologyData :=
  data ++ map (fun name => (name, memberEntry)) inheritedNames.

Record GraphNode := mkNode {
  id : string;
  word : string;
  node_definition : string;
  depth : Z;
  node_relatedWords : list string
}.

Record GraphEdge := mkEdge {
  from : string;
  to : string
}.

Record WordGraph := mkGraph {
  nodes : list GraphNode;
  edges : list GraphEdge
}.

(* ================================================================= *)
(** ** Hub pruning (shared by the server and the Lambda port) *)

Definition HUB_THRESHOLD : nat := 80.

(** [nodeDepthMap.get(x) || 0] *)
Definition depthOr0 (nodeDepthMap : list (string * Z)) (x : string) : Z :=
  match map_get nodeDepthMap x with
  | Some d => d
  | None => 0
  end.

(** [if (!m.has(p)) m.set(p, new Set()); m.get(p).add(c)] *)
Fixpoint addChild (m : list (string * list string)) (p c : string)
  : list (string * list string) :=
  match m with
  | [] => [(p, [c])]
  | (k, cs) :: m' =>
      if String.eqb k p then (k, set_add cs c) :: m'
      else (k, cs) :: addChild m' p c
  end.

(** One iteration of [for (const edge of edges)] that builds the
    parent -> children map. *)
Definition addEdgeToChildren (nodeDepthMap : list (string * Z))
  (m : list (string * list string)) (edge : GraphEdge)
  : list (string * list string) :=
  let sourceDepth := depthOr0 nodeDepthMap (from edge) in
  let targetDepth := depthOr0 nodeDepthMap (to edge) in
  if sourceDepth <? targetDepth then addChild m (from edge) (to edge)
  else if targetDepth <? sourceDepth then addChild m (to edge) (from edge)
  else m.

Definition buildChildrenByParent (nodeDepthMap : list (string * Z))
  (es : list GraphEdge) : list (string * list string) :=
  fold_left (addEdgeToChildren nodeDepthMap) es [].

(** The loop that marks the direct children of every hub. *)
Definition markHub (nodeDepthMap : list (string * Z))
  (nodesToRemove : list string) (entry : string * list string)
  : list string :=
  let (nodeId, children) := entry in
  match map_get nodeDepthMap nodeId with
  | Some nodeDepth =>
      if ((1 <=? nodeDepth) && Nat.leb HUB_THRESHOLD (length children))%bool
      then fold_left set_add children nodesToRemove
      else nodesToRemove
  | None => nodesToRemove
  end.

Definition markHubChildren (nodeDepthMap : list (string * Z))
  (childrenByParent : list (string * list string)) : list string :=
  fold_left (markHub nodeDepthMap) childrenByParent [].

(** The body of [for (const childId of children)] inside the [while]. *)
Definition markChild (acc : list string * bool) (childId : string)
  : list string * bool :=
  let (nodesToRemove, changed) := acc in
  if set_has nodesToRemove childId then (nodesToRemove, changed)
  else (set_add nodesToRemove childId, true).

(** The body of [for (const [parentId, children] of childrenByParent)]. *)
Definition markDescendants (acc : list string * bool)
  (entry : string * list string) : list string * bool :=
  let (parentId, children) := entry in
  if set_has (fst acc) parentId then fold_left markChild children acc
  else acc.

(** One pass of the [while (changed)] loop, started with [changed = false]. *)
Definition closurePass (childrenByParent : list (string * list string))
  (nodesToRemove : list string) : list string * bool :=
  fold_left markDescendants childrenByParent (nodesToRemove, false).

(** [while (changed) { changed = false; ... }] *)
Fixpoint closureLoop (budget : nat)
  (childrenByParent : list (string * list string))
  (nodesToRemove : list string) : list string :=
  match budget with
  | O => nodesToRemove
  | S budget' =>
      let (nodesToRemove', changed) :=
        closurePass childrenByParent nodesToRemove in
      if changed then closureLoop budget' childrenByParent nodesToRemove'
      else nodesToRemove'
  end.

(** Every changing pass marks a child that was not marked before, so the
    number of children in the map bounds the number of changing passes. *)
Definition closureBudget (childrenByParent : list (string * list string))
  : nat :=
  S (length (concat (map snd childrenByParent))).

Definition nodesToRemoveOf (nodeDepthMap : list (string * Z))
  (es : list GraphEdge) : list string :=
  let childrenByParent := buildChildrenByParent nodeDepthMap es in
  closureLoop (closureBudget childrenByParent) childrenByParent
    (markHubChildren nodeDepthMap childrenByParent).

(** From [const HUB_THRESHOLD = 80] to the [return] of [getWordGraph]. *)
Definition pruneHubs (nodeDepthMap : list (string * Z))
  (ns : list GraphNode) (es : list GraphEdge) : WordGraph :=
  let nodesToRemove := nodesToRemoveOf nodeDepthMap es in
  let filteredNodes :=
    filter (fun node => negb (set_has nodesToRemove (id node))) ns in
  let filteredEdges :=
    filter (fun edge => (negb (set_has nodesToRemove (from edge)) &&
                         negb (set_has nodesToRemove (to edge)))%bool) es in
  mkGraph filteredNodes filteredEdges.

(* ================================================================= *)
(** ** The server: the [MemStorage] class

    In this module [data[w]] is a lookup among the keys; [JsMemStorage]
    has [getWordGraph] with the lookups of the dictionary object. *)

Module MemStorage.

(** [getWordEntry(word)]: [this.etymologyData[word.toLowerCase().trim()]]. *)
Definition getWordEntry (data : EtymologyData) (word : string) : Lookup :=
  lookup data (normalize word).

(** The local variables of [getWordGraph] that the BFS loop updates. *)
Record BfsState := mkState {
  st_nodes : list GraphNode;
  st_edges : list GraphEdge;
  st_visited : list string;
  st_nodeDepthMap : list (string * Z);
  st_queue : list (string * Z)
}.

(** [edges.some(e => (e.from === a && e.to === b) ||
                     (e.from === b && e.to === a))] *)
Definition edgeExists (es : list GraphEdge) (a b : string) : bool :=
  existsb (fun e => (String.eqb (from e) a && String.eqb (to e) b
                     || String.eqb (from e) b && String.eqb (to e) a)%bool) es.

(** The body of [for (const relatedWord of entry.relatedWords)]. *)
Definition processRelated (data : EtymologyData) (maxDepth : Z)
  (currentWord : string) (currentDepth : Z)
  (st : BfsState) (relatedWord : string) : BfsState :=
  let normalizedRelated := normalize relatedWord in
  match data_get data normalizedRelated with
  | None => st
  | Some _ =>
      let edges' :=
        if edgeExists (st_edges st) currentWord normalizedRelated
        then st_edges st
        else st_edges st ++ [mkEdge currentWord normalizedRelated] in
      if set_has (st_visited st) normalizedRelated
      then mkState (st_nodes st) edges' (st_visited st)
                   (st_nodeDepthMap st) (st_queue st)
      else
        let newDepth := currentDepth + 1 in
        if newDepth <=? maxDepth
        then mkState (st_nodes st) edges'
                     (set_add (st_visited st) normalizedRelated)
                     (map_set (st_nodeDepthMap st) normalizedRelated newDepth)
                     (st_queue st ++ [(normalizedRelated, newDepth)])
        else mkState (st_nodes st) edges' (st_visited st)
                     (st_nodeDepthMap st) (st_queue st)
  end.

(** The body of [while (queue.length > 0)], after [queue.shift()] returned
    [(currentWord, currentDepth)] and left [rest]. *)
Definition visit (data : EtymologyData) (maxDepth : Z)
  (currentWord : string) (currentDepth : Z) (st : BfsState) : BfsState :=
  if currentDepth >? maxDepth then st
  else
    match data_get data currentWord with
    | None => st
    | Some entry =>
        let node := mkNode currentWord currentWord (definition entry)
                           currentDepth (relatedWords entry) in
        fold_left (processRelated data maxDepth currentWord currentDepth)
          (relatedWords entry)
          (mkState (st_nodes st ++ [node]) (st_edges st) (st_visited st)
                   (st_nodeDepthMap st) (st_queue st))
    end.

Definition shift (st : BfsState) (rest : list (string * Z)) : BfsState :=
  mkState (st_nodes st) (st_edges st) (st_visited st) (st_nodeDepthMap st) rest.

(** [while (queue.length > 0) { ... }] *)
Fixpoint bfsLoop (budget : nat) (data : EtymologyData) (maxDepth : Z)
  (st : BfsState) : BfsState :=
  match budget with
  | O => st
  | S budget' =>
      match st_queue st with
      | [] => st
      | (currentWord, currentDepth) :: rest =>
          bfsLoop budget' data maxDepth
            (visit data maxDepth currentWord currentDepth (shift st rest))
      end
  end.

(** A word enters the queue when it enters [visited], and only keys of the
    dictionary do: the loop body runs at most once per key. *)
Definition bfsBudget (data : EtymologyData) : nat := S (length data).

Definition initial (normalizedWord : string) : BfsState :=
  mkState [] [] [normalizedWord] [(normalizedWord, 0)] [(normalizedWord, 0)].

(** The state when the BFS loop is left. *)
Definition bfs (data : EtymologyData) (normalizedWord : string) (maxDepth : Z)
  : BfsState :=
  bfsLoop (bfsBudget data) data maxDepth (initial normalizedWord).

Definition getWordGraph (data : EtymologyData) (word : string) (maxDepth : Z)
  : WordGraph :=
  let normalizedWord := normalize word in
  match data_get data normalizedWord with
  | None => mkGraph [] []
  | Some _ =>
      let st := bfs data normalizedWord maxDepth in
      pruneHubs (st_nodeDepthMap st) (st_nodes st) (st_edges st)
  end.

(** *** [getRandomWord]: a random word, then a random related word *)

Definition maxAttempts : nat := 100.

(** [Math.floor(u * n)], for [u] the value of a call of [Math.random()]. *)
Definition randomIndexOf (u : Q) (n : nat) : Z :=
  Qfloor (u * inject_Z (Z.of_nat n)).

(** Step 1, with [attemptsLeft = maxAttempts - attempts]; [rand k] is the
    value of the [k]-th call of [Math.random()] and [calls] the number of
    calls made so far.  [Math.random()] lies in [0,1), so the index is one
    of the array; for any other value the attempt counts as failed. *)
Fixpoint pickX (attemptsLeft : nat) (data : EtymologyData)
  (ws : list string) (rand : nat -> Q) (calls : nat)
  : option (string * WordEntry) * nat :=
  match attemptsLeft with
  | O => (None, calls)
  | S attemptsLeft' =>
      let randomIndex := randomIndexOf (rand calls) (length ws) in
      match at_index ws randomIndex with
      | Some candidate =>
          match data_get data candidate with
          | Some entry =>
              if Nat.ltb 0 (length (relatedWords entry))
              then (Some (candidate, entry), S calls)
              else pickX attemptsLeft' data ws rand (S calls)
          | None => pickX attemptsLeft' data ws rand (S calls)
          end
      | None => pickX attemptsLeft' data ws rand (S calls)
      end
  end.

(** Steps 2 and 3. *)
Fixpoint pickY (attemptsLeft : nat) (data : EtymologyData)
  (entryX : WordEntry) (rand : nat -> Q) (calls : nat) : option string :=
  match attemptsLeft with
  | O => None
  | S attemptsLeft' =>
      let randomRelatedIndex :=
        randomIndexOf (rand calls) (length (relatedWords entryX)) in
      match at_index (relatedWords entryX) randomRelatedIndex with
      | Some relatedWord =>
          let candidateY := normalize relatedWord in
          match data_get data candidateY with
          | Some entryY =>
              if Nat.ltb 0 (length (relatedWords entryY))
              then Some candidateY
              else pickY attemptsLeft' data entryX rand (S calls)
          | None => pickY attemptsLeft' data entryX rand (S calls)
          end
      | None => pickY attemptsLeft' data entryX rand (S calls)
      end
  end.

(** A string is falsy when it is empty. *)
Definition truthy (s : string) : bool := negb (String.eqb s "").

(** [getRandomWord()]; [None] is [undefined]. *)
Definition getRandomWord (data : EtymologyData) (rand : nat -> Q)
  : option string :=
  let ws := data_keys data in
  if Nat.eqb (length ws) 0 then None
  else
    match pickX maxAttempts data ws rand 0 with
    | (Some (wordX, entryX), calls) =>
        if truthy wordX then
          match pickY maxAttempts data entryX rand calls with
          | Some wordY => if truthy wordY then Some wordY else Some wordX
          | None => Some wordX
          end
        else None
    | (None, _) => None
    end.

End MemStorage.

(* ================================================================= *)
(** ** The Lambda port (lambda/getWord/storage.ts)

    In this module [data[w]] is a lookup among the keys; [JsLambda] has
    the port with the lookups of the dictionary object. *)

Module Lambda.

Record BfsState := mkState {
  st_nodes : list GraphNode;
  st_edges : list GraphEdge;
  st_visited : list string;
  st_queue : list (string * Z)
}.

(** The body of [for (const relatedWord of related)]. *)
Definition processRelated (data : EtymologyData) (maxDepth : Z)
  (currentWord : string) (currentDepth : Z)
  (st : BfsState) (relatedWord : string) : BfsState :=
  let normalizedRelated := normalize relatedWord in
  match data_get data normalizedRelated with
  | Some _ =>
      if set_has (st_visited st) normalizedRelated then st
      else
        let edges' := st_edges st ++ [mkEdge currentWord normalizedRelated] in
        if currentDepth <? maxDepth
        then mkState (st_nodes st) edges' (st_visited st)
                     (st_queue st ++ [(normalizedRelated, currentDepth + 1)])
        else mkState (st_nodes st) edges' (st_visited st) (st_queue st)
  | None => st
  end.

(** The body of [while (queue.length > 0)], after [queue.shift()]. *)
Definition visit (data : EtymologyData) (maxDepth : Z)
  (currentWord : string) (currentDepth : Z) (st : BfsState) : BfsState :=
  if (set_has (st_visited st) currentWord || (currentDepth >? maxDepth))%bool
  then st
  else
    let visited' := set_add (st_visited st) currentWord in
    match data_get data currentWord with
    | None => mkState (st_nodes st) (st_edges st) visited' (st_queue st)
    | Some entry =>
        let node := mkNode currentWord currentWord (definition entry)
                           currentDepth (relatedWords entry) in
        fold_left (processRelated data maxDepth currentWord currentDepth)
          (relatedWords entry)
          (mkState (st_nodes st ++ [node]) (st_edges st) visited' (st_queue st))
    end.

Definition shift (st : BfsState) (rest : list (string * Z)) : BfsState :=
  mkState (st_nodes st) (st_edges st) (st_visited st) rest.

Fixpoint bfsLoop (budget : nat) (data : EtymologyData) (maxDepth : Z)
  (st : BfsState) : BfsState :=
  match budget with
  | O => st
  | S budget' =>
      match st_queue st with
      | [] => st
      | (currentWord, currentDepth) :: rest =>
          bfsLoop budget' data maxDepth
            (visit data maxDepth currentWord currentDepth (shift st rest))
      end
  end.

(** The queue may hold a word several times.  Visiting a new word takes one
    iteration and queues at most one entry per related word; every other
    iteration only removes an entry. *)
Definition bfsBudget (data : EtymologyData) : nat :=
  S (fold_right (fun kv n => (S (S (length (relatedWords (snd kv)))) + n)%nat)
       O data).

Definition initial (normalizedWord : string) : BfsState :=
  mkState [] [] [] [(normalizedWord, 0)].

Definition bfs (data : EtymologyData) (normalizedWord : string) (maxDepth : Z)
  : BfsState :=
  bfsLoop (bfsBudget data) data maxDepth (initial normalizedWord).

(** [for (const node of nodes) nodeDepthMap.set(node.id, node.depth)] *)
Definition depthMapOf (ns : list GraphNode) : list (string * Z) :=
  fold_left (fun m node => map_set m (id node) (depth node)) ns [].

(** lambda/getWord/storage.ts, with [ENABLE_HUB_PRUNING = true]. *)
Definition getWordGraph (data : EtymologyData) (word : string) (maxDepth : Z)
  : WordGraph :=
  let normalizedWord := normalize word in
  match data_get data normalizedWord with
  | None => mkGraph [] []
  | Some _ =>
      let st := bfs data normalizedWord maxDepth in
      pruneHubs (depthMapOf (st_nodes st)) (st_nodes st) (st_edges st)
  end.

End Lambda.

(** The version of the port's [getWordGraph] that returns what the BFS built,
    without hub pruning. *)
Module LambdaBfsOnly.

Definition getWordGraph (data : EtymologyData) (word : string)
  (maxDepth : Z) : WordGraph :=
  let normalizedWord := normalize word in
  match data_get data normalizedWord with
  | None => mkGraph [] []
  | Some _ =>
      let st := Lambda.bfs data normalizedWord maxDepth in
      mkGraph (Lambda.st_nodes st) (Lambda.st_edges st)
  end.

End LambdaBfsOnly.

(* ================================================================= *)
(** ** The statistics precomputer ([computeGraphSize] and [main]) *)

Record WordStats := mkWordStats {
  ws_word : string;
  ws_numConnections : Z;
  ws_graphSize : Z
}.

(** An entry of [word-stats.json]. *)
Record SamplingEntry := mkEntry {
  entry_word : string;
  numConnections : Z;
  graphSize : Z;
  cumulativeWeight : Z
}.

(** [word-stats.json]: [{ totalWeight, words }]. *)
Record SamplingTable := mkTable {
  totalWeight : Z;
  words : list SamplingEntry
}.

Module StatsPrecomputer.

(** The local variables of [computeGraphSize] that its loop updates. *)
Record SizeState := mkState {
  st_visited : list string;
  st_queue : list (string * Z)
}.

(** The body of [for (const relatedWord of related)]. *)
Definition processRelated (data : EtymologyData) (maxDepth : Z)
  (currentDepth : Z) (st : SizeState) (relatedWord : string) : SizeState :=
  let normalizedRelated := normalize relatedWord in
  if (negb (set_has (st_visited st) normalizedRelated)
      && resolves data normalizedRelated
      && (currentDepth <? maxDepth))%bool
  then mkState (st_visited st)
               (st_queue st ++ [(normalizedRelated, currentDepth + 1)])
  else st.

(** The body of [while (queue.length > 0)], after [queue.shift()]. *)
Definition visit (data : EtymologyData) (maxDepth : Z)
  (currentWord : string) (currentDepth : Z) (st : SizeState) : SizeState :=
  if (set_has (st_visited st) currentWord || (currentDepth >? maxDepth))%bool
  then st
  else
    let visited' := set_add (st_visited st) currentWord in
    match lookup data currentWord with
    | Undefined => mkState visited' (st_queue st)
    | Member =>
        (* [entry.relatedWords || []] is the empty array *)
        fold_left (processRelated data maxDepth currentDepth)
          [] (mkState visited' (st_queue st))
    | Entry entry =>
        fold_left (processRelated data maxDepth currentDepth)
          (relatedWords entry) (mkState visited' (st_queue st))
    end.

Fixpoint sizeLoop (budget : nat) (data : EtymologyData) (maxDepth : Z)
  (st : SizeState) : SizeState :=
  match budget with
  | O => st
  | S budget' =>
      match st_queue st with
      | [] => st
      | (currentWord, currentDepth) :: rest =>
          sizeLoop budget' data maxDepth
            (visit data maxDepth currentWord currentDepth
               (mkState (st_visited st) rest))
      end
  end.

(** [computeGraphSize(word, depth, data)]; the loop is the one of the Lambda
    port and runs on its budget, with one iteration more for every
    inherited member, which can enter the queue as well. *)
Definition computeGraphSize (word : string) (maxDepth : Z)
  (data : EtymologyData) : Z :=
  let normalizedWord := normalize word in
  if resolves data normalizedWord then
    let st := sizeLoop (Lambda.bfsBudget (lookupView data)) data maxDepth
                (mkState [] [(normalizedWord, 0)]) in
    Z.of_nat (length (st_visited st))
  else 0.

(** [for (const word of words) { ... stats.push(...) }] *)
Definition collectStats (data : EtymologyData) : list WordStats :=
  flat_map (fun w =>
    match data_get data w with
    | None => []
    | Some entry =>
        [mkWordStats w (Z.of_nat (length (relatedWords entry)))
                     (computeGraphSize w 3 data)]
    end) (data_keys data).

Definition MAX_NODES : Z := 850.

(** [s => s.graphSize > 1 && s.numConnections > 0
         && s.graphSize <= MAX_NODES] *)
Definition manageable (s : WordStats) : bool :=
  ((ws_graphSize s >? 1) && (ws_numConnections s >? 0)
   && (ws_graphSize s <=? MAX_NODES))%bool.

(** [filtered.sort((a, b) => a.graphSize - b.graphSize)]: [Array.prototype.sort]
    is stable, and the stable sort of a list is unique; it is computed here
    by insertion. *)
Fixpoint insertByGraphSize (s : WordStats) (l : list WordStats)
  : list WordStats :=
  match l with
  | [] => [s]
  | x :: l' =>
      if ws_graphSize s <=? ws_graphSize x then s :: l
      else x :: insertByGraphSize s l'
  end.

Definition sortByGraphSize (l : list WordStats) : list WordStats :=
  fold_right insertByGraphSize [] l.

(** [filtered.map(s => { cumulative += s.numConnections; return {...} })],
    started with the current value of [cumulative]; returns the mapped array
    and the final value of [cumulative]. *)
Fixpoint withCumulative (cumulative : Z) (l : list WordStats)
  : list SamplingEntry * Z :=
  match l with
  | [] => ([], cumulative)
  | s :: l' =>
      let cumulative' := cumulative + ws_numConnections s in
      let (rest, final) := withCumulative cumulative' l' in
      (mkEntry (ws_word s) (ws_numConnections s) (ws_graphSize s) cumulative'
         :: rest, final)
  end.

(** The [output] object that [main] writes to [word-stats.json]. *)
Definition main (data : EtymologyData) : SamplingTable :=
  let stats := collectStats data in
  let filtered := sortByGraphSize (filter manageable stats) in
  let (wordsWithCumulative, cumulative) := withCumulative 0 filtered in
  mkTable cumulative wordsWithCumulative.

End StatsPrecomputer.

(* ================================================================= *)
(** ** Weighted random sampling *)

(** How a call can end. *)
Inductive Outcome (A : Type) : Type :=
| Returns (a : A)
| TypeError          (* a property of [undefined] was read *)
| ErrorThrown        (* [throw new Error(...)] *)
| StillRunning.      (* the loop had not ended when the budget ran out *)
Arguments Returns {A} a.
Arguments TypeError {A}.
Arguments ErrorThrown {A}.
Arguments StillRunning {A}.

(** Sequencing: the rest of the code runs when the first part returns. *)
Definition andThen {A B : Type} (o : Outcome A) (k : A -> Outcome B)
  : Outcome B :=
  match o with
  | Returns a => k a
  | TypeError => TypeError
  | ErrorThrown => ErrorThrown
  | StillRunning => StillRunning
  end.

(** [x < y] on rationals. *)
Definition Qltb (x y : Q) : bool := negb (Qle_bool y x).

(** [while (left < right) { ... }] of the binary search; returns [left]. *)
Fixpoint searchLoop (budget : nat) (ws : list SamplingEntry) (random : Q)
  (left right : Z) : Outcome Z :=
  if left <? right then
    match budget with
    | O => StillRunning
    | S budget' =>
        let mid := (left + right) / 2 in
        match at_index ws mid with
        | None => TypeError
        | Some e =>
            if Qltb (inject_Z (cumulativeWeight e)) random
            then searchLoop budget' ws random (mid + 1) right
            else searchLoop budget' ws random left mid
        end
    end
  else Returns left.

(** The fast path of [getRandomWord], for [words.length > 0]; [random] is
    the value of [Math.random() * totalWeight]. *)
Definition sampleAt (ws : list SamplingEntry) (random : Q)
  : Outcome string :=
  andThen (searchLoop (length ws) ws random 0 (Z.of_nat (length ws) - 1))
    (fun index =>
       match at_index ws index with
       | Some e => Returns (entry_word e)
       | None => TypeError
       end).

(** *** Double-precision products

    A finite double is [m * 2 ^ e] for integers [m] and [e] with
    [|m| < 2 ^ 53] and [e >= -1074]; an arithmetic operation on doubles
    returns the double nearest to the exact result, the one with the even
    [m] when two are equally near. *)

(** [2 ^ e] for any integer [e]. *)
Definition pow2 (e : Z) : Q :=
  if e <? 0 then 1 # Z.to_pos (2 ^ (- e)) else inject_Z (2 ^ e).

(** The largest [k] with [2 ^ k <= n / d], for [n] and [d] above 0. *)
Definition floorLog2 (n d : Z) : Z :=
  let k := Z.log2 n - Z.log2 d in
  if (if k <? 0 then d <=? n * 2 ^ (- k) else d * 2 ^ k <=? n)
  then k else k - 1.

(** The integer nearest to [n / d], the even one of two equally near, for
    [n >= 0] and [d > 0]. *)
Definition roundHalfEven (n d : Z) : Z :=
  let f := n / d in
  let r := n mod d in
  if 2 * r <? d then f
  else if d <? 2 * r then f + 1
  else if Z.even f then f else f + 1.

(** The double nearest to [q], for [q] of magnitude below [2 ^ 1024]. *)
Definition toDouble (q : Q) : Q :=
  let n := Z.abs (Qnum q) in
  let d := Zpos (Qden q) in
  if n =? 0 then 0
  else
    let e := Z.max (floorLog2 n d - 52) (-1074) in
    let m := if e <? 0 then roundHalfEven (n * 2 ^ (- e)) d
             else roundHalfEven n (d * 2 ^ e) in
    inject_Z (if Qnum q <? 0 then - m else m) * pow2 e.

(** [x * y] on two doubles. *)
Definition doubleMul (x y : Q) : Q := toDouble (x * y).

(** [SamplingTable.sample(randomUnit)]: [randomUnit] is the value of
    [Math.random()]; the target is the double [randomUnit * totalWeight]. *)
Definition sample (stats : SamplingTable) (randomUnit : Q) : Outcome string :=
  sampleAt (words stats)
    (doubleMul randomUnit (inject_Z (totalWeight stats))).

(** [for (const word of words) { if (entry && entry.relatedWords.length > 0)
    return word; }]; [None] when the loop ends without returning. *)
Fixpoint firstConnected (data : EtymologyData) (ks : list string)
  : option string :=
  match ks with
  | [] => None
  | w :: ks' =>
      match data_get data w with
      | Some entry =>
          if Nat.ltb 0 (length (relatedWords entry)) then Some w
          else firstConnected data ks'
      | None => firstConnected data ks'
      end
  end.

Module MemStorageStats.

(** [MemStorage.getRandomWord] of lambda/getWord/index.ts; [wordStats] is the
    field after [loadWordStats()] ([None] for [null]), [randomUnit] the value
    of [Math.random()]; [Returns None] is [undefined]. *)
Definition getRandomWord (data : EtymologyData)
  (wordStats : option SamplingTable) (randomUnit : Q)
  : Outcome (option string) :=
  let fallback := Returns (firstConnected data (data_keys data)) in
  match wordStats with
  | Some stats =>
      if Nat.ltb 0 (length (words stats)) then
        andThen (sample stats randomUnit) (fun w => Returns (Some w))
      else fallback
  | None => fallback
  end.

End MemStorageStats.

Module LambdaRandom.

(** [loadWordStats()] of lambda/getRandom/storage.ts: [parsed] is the content
    of word-stats.json, [None] when it cannot be read; a table whose
    [totalWeight] is falsy is refused. *)
Definition loadWordStats (parsed : option SamplingTable)
  : option SamplingTable :=
  match parsed with
  | Some t => if totalWeight t =? 0 then None else Some t
  | None => None
  end.

(** [getRandomWord()] of lambda/getRandom/storage.ts.  Every run calls
    [Math.random()] once, in the fast path or in the last resort;
    [randomUnit] is the value of that call. *)
Definition getRandomWord (data : EtymologyData)
  (parsed : option SamplingTable) (randomUnit : Q)
  : Outcome (option string) :=
  let fallback :=
    let ws := data_keys data in
    match firstConnected data ws with
    | Some w => Returns (Some w)
    | None =>
        if Nat.ltb 0 (length ws)
        then Returns (at_index ws
                        (Qfloor (randomUnit * inject_Z (Z.of_nat (length ws)))))
        else ErrorThrown
    end in
  match loadWordStats parsed with
  | Some stats =>
      if Nat.ltb 0 (length (words stats)) then
        andThen (sample stats randomUnit) (fun w => Returns (Some w))
      else fallback
  | None => fallback
  end.

End LambdaRandom.

(* ================================================================= *)
(** ** Vocabulary of the properties *)

(** Entries in nondecreasing order of cumulative weight. *)
Definition nondecreasing (ws : list SamplingEntry) : Prop :=
  forall i j ei ej,
    i <= j -> at_index ws i = Some ei -> at_index ws j = Some ej ->
    cumulativeWeight ei <= cumulativeWeight ej.

(** [i] is the smallest index whose cumulative weight reaches [target]. *)
Definition smallest_reaching (ws : list SamplingEntry) (target : Q) (i : Z)
  : Prop :=
  (exists e, at_index ws i = Some e
             /\ (target <= inject_Z (cumulativeWeight e))%Q)
  /\ forall j ej, at_index ws j = Some ej ->
                  (target <= inject_Z (cumulativeWeight ej))%Q -> i <= j.

(** [sample] returns the word of the smallest index that reaches
    [randomUnit * totalWeight]. *)
Definition samples_smallest (stats : SamplingTable) (randomUnit : Q) : Prop :=
  exists i e,
    smallest_reaching (words stats)
      (randomUnit * inject_Z (totalWeight stats)) i
    /\ at_index (words stats) i = Some e
    /\ sample stats randomUnit = Returns (entry_word e).

(** The cumulative weight of the last entry. *)
Definition lastCumulativeWeight (ws : list SamplingEntry) : Z :=
  match at_index ws (Z.of_nat (length ws) - 1) with
  | Some e => cumulativeWeight e
  | None => 0
  end.

(** [sample] returns the word of the smallest index that reaches the
    double [randomUnit * totalWeight]. *)
Definition samples_smallest_double (stats : SamplingTable) (randomUnit : Q)
  : Prop :=
  exists i e,
    smallest_reaching (words stats)
      (doubleMul randomUnit (inject_Z (totalWeight stats))) i
    /\ at_index (words stats) i = Some e
    /\ sample stats randomUnit = Returns (entry_word e).

(** The table that the precomputer writes for the index
    [{p: [q, q], q: [p]}], and a value of [Math.random()] whose product with
    the total weight 3 is [2 + 2 ^ -52], half way between the doubles [2]
    and [2 + 2 ^ -51]. *)
Definition tieTable : SamplingTable :=
  mkTable 3 [mkEntry "p" 2 2 2; mkEntry "q" 1 2 3].

Definition tieUnit : Q := 3002399751580331 # 4503599627370496.

(** Scenario D of the design document. *)
Definition scenarioD : SamplingTable :=
  mkTable 4 [mkEntry "a" 1 2 1; mkEntry "b" 3 2 4].

(** The statistics an entry of the table was made from. *)
Definition statsOfEntry (e : SamplingEntry) : WordStats :=
  mkWordStats (entry_word e) (numConnections e) (graphSize e).

(** Running sums: every cumulative weight is the one before it (or [start]
    for the first entry) plus the entry's [numConnections]. *)
Fixpoint runningSums (start : Z) (es : list SamplingEntry) : Prop :=
  match es with
  | [] => True
  | e :: es' =>
      cumulativeWeight e = start + numConnections e
      /\ runningSums (cumulativeWeight e) es'
  end.

(** Scenario A of the design document. *)
Definition scenarioA : EtymologyData :=
  [("a", mkWordEntry "A" ["b"; "c"]);
   ("b", mkWordEntry "B" ["a"]);
   ("c", mkWordEntry "C" ["a"])].

(** Some key of the dictionary has at least one related word. *)
Definition hasConnectedWord (data : EtymologyData) : Prop :=
  exists w entry,
    In w (data_keys data) /\ data_get data w = Some entry
    /\ relatedWords entry <> [].

(** A dictionary with one word, which has no related word. *)
Definition lonelyData : EtymologyData := [("a", mkWordEntry "A" [])].

(** The derived parent -> child relation of the hub pruner: [p] and [c] are
    the two ends of an edge and [p] has the strictly smaller depth (a word
    without an entry in the depth map counts as depth 0). *)
Definition derivedChild (nodeDepthMap : list (string * Z))
  (es : list GraphEdge) (p c : string) : Prop :=
  exists e, In e es
            /\ ((from e = p /\ to e = c) \/ (to e = p /\ from e = c))
            /\ depthOr0 nodeDepthMap p < depthOr0 nodeDepthMap c.

(** [x] is [c] or is reached from [c] along parent -> child steps. *)
Inductive descends (nodeDepthMap : list (string * Z)) (es : list GraphEdge)
  (c : string) : string -> Prop :=
| descends_here : descends nodeDepthMap es c c
| descends_step (y z : string) :
    descends nodeDepthMap es c y ->
    derivedChild nodeDepthMap es y z ->
    descends nodeDepthMap es c z.

(** [N] is a hub: it has a depth of at least 1 and at least [HUB_THRESHOLD]
    distinct direct children. *)
Definition isHub (nodeDepthMap : list (string * Z)) (es : list GraphEdge)
  (N : string) : Prop :=
  (exists d, map_get nodeDepthMap N = Some d /\ 1 <= d)
  /\ exists cs, NoDup cs /\ (HUB_THRESHOLD <= length cs)%nat
                /\ forall c, In c cs -> derivedChild nodeDepthMap es N c.

(** [x] does not occur in the graph [g], neither as a node nor as an end of
    an edge. *)
Definition absentFrom (g : WordGraph) (x : string) : Prop :=
  ~ In x (map id (nodes g))
  /\ forall e, In e (edges g) -> from e <> x /\ to e <> x.

(** The children recorded for [p] in a parent -> children map. *)
Definition childrenOf (m : list (string * list string)) (p : string)
  : list string :=
  match map_get m p with
  | Some cs => cs
  | None => []
  end.

(** A set of marks is closed when the recorded children of a marked parent
    are marked. *)
Definition closedUnder (m : list (string * list string)) (marks : list string)
  : Prop :=
  forall p cs, In (p, cs) m -> In p marks -> forall c, In c cs -> In c marks.

(** Every recorded child satisfies [R]. *)
Definition recordsOnly (R : string -> string -> Prop)
  (m : list (string * list string)) : Prop :=
  forall p cs c, In (p, cs) m -> In c cs -> R p c.

(** Scenario B of the design document: the root ["r"], its only related
    word ["h"], and the 80 related words ["x01"] ... ["x80"] of ["h"]. *)
Definition digitChar (n : nat) : ascii := ascii_of_nat (48 + n).

Definition hubChildName (i : nat) : string :=
  String "x"%char
    (String (digitChar (i / 10)) (String (digitChar (i mod 10)) EmptyString)).

Definition scenarioB : EtymologyData :=
  ("r", mkWordEntry "R" ["h"])
  :: ("h", mkWordEntry "H" (map hubChildName (seq 1 80)))
  :: map (fun i => (hubChildName i, mkWordEntry "X" [])) (seq 1 80).

(** ** Vocabulary of the traversal *)

(** [v] is a related word of [u], normalized, and a key of the dictionary. *)
Definition linked (data : EtymologyData) (u v : string) : Prop :=
  exists entry r,
    data_get data u = Some entry /\ In r (relatedWords entry)
    /\ v = normalize r /\ data_get data v <> None.

(** [w] is reached from [root] in [k] hops. *)
Inductive hops (data : EtymologyData) (root : string) : string -> Z -> Prop :=
| hops_root : hops data root root 0
| hops_next (u v : string) (k : Z) :
    hops data root u k -> linked data u v -> hops data root v (k + 1).

(** [d] is the minimum hop count from [root] to [w]. *)
Definition minHops (data : EtymologyData) (root w : string) (d : Z) : Prop :=
  hops data root w d /\ forall k, hops data root w k -> d <= k.

(** What C1 says of a node list: depths are minimum hop counts (and within
    the limit), no word occurs twice, and every word within [maxDepth] hops
    occurs. *)
Definition bfsCorrect (data : EtymologyData) (root : string) (maxDepth : Z)
  (ns : list GraphNode) : Prop :=
  (forall n, In n ns ->
     minHops data root (id n) (depth n) /\ depth n <= maxDepth)
  /\ NoDup (map id ns)
  /\ (forall w k, hops data root w k -> k <= maxDepth -> In w (map id ns)).

(** Two edges for the same unordered pair of words. *)
Definition samePair (e1 e2 : GraphEdge) : Prop :=
  (from e1 = from e2 /\ to e1 = to e2) \/ (from e1 = to e2 /\ to e1 = from e2).

(** No two entries of the list are for the same unordered pair. *)
Definition distinctPairs (es : list GraphEdge) : Prop :=
  forall i j ei ej,
    nth_error es i = Some ei -> nth_error es j = Some ej ->
    samePair ei ej -> i = j.

(** Keys of the dictionary that are not in [visited]. *)
Definition unvisitedCount (data : EtymologyData) (visited : list string)
  : nat :=
  length (filter (fun k => negb (set_has visited k)) (data_keys data)).

(** A depth given to [v]: [v] waits in the queue at depth [d], or it is a
    node of depth [d]. *)
Definition assigned (ns : list GraphNode) (q : list (string * Z))
  (v : string) (d : Z) : Prop :=
  In (v, d) q \/ exists n, In n ns /\ id n = v /\ depth n = d.

(** The invariant of the server's BFS.  [lvl] is the depth of the word being
    processed, [cur] that word and [todo] the related words of [cur] that the
    inner loop has not reached yet. *)
Record MemInv (data : EtymologyData) (root : string) (maxDepth : Z)
  (lvl : Z) (cur : string) (todo : list string)
  (st : MemStorage.BfsState) : Prop := mkMemInv {
  mi_visited : forall w,
    In w (MemStorage.st_visited st)
    <-> In w (map id (MemStorage.st_nodes st))
        \/ In w (map fst (MemStorage.st_queue st));
  mi_nodup :
    NoDup (map id (MemStorage.st_nodes st)
           ++ map fst (MemStorage.st_queue st));
  mi_queue : forall w d,
    In (w, d) (MemStorage.st_queue st) ->
    data_get data w <> None /\ d <= maxDepth /\ hops data root w d
    /\ map_get (MemStorage.st_nodeDepthMap st) w = Some d;
  mi_nodes : forall n,
    In n (MemStorage.st_nodes st) ->
    hops data root (id n) (depth n) /\ depth n <= maxDepth
    /\ map_get (MemStorage.st_nodeDepthMap st) (id n) = Some (depth n)
    /\ exists entry, data_get data (id n) = Some entry
                     /\ node_relatedWords n = relatedWords entry;
  mi_level_nodes : forall n,
    In n (MemStorage.st_nodes st) -> depth n <= lvl;
  mi_level_queue : forall w d,
    In (w, d) (MemStorage.st_queue st) -> lvl <= d <= lvl + 1;
  mi_sorted : StronglySorted Z.le (map snd (MemStorage.st_queue st));
  mi_closed : forall n r,
    In n (MemStorage.st_nodes st) -> In r (node_relatedWords n) ->
    (id n = cur -> ~ In r todo) ->
    data_get data (normalize r) <> None -> depth n + 1 <= maxDepth ->
    exists d, d <= depth n + 1
              /\ assigned (MemStorage.st_nodes st) (MemStorage.st_queue st)
                   (normalize r) d;
  mi_depths : forall w d,
    map_get (MemStorage.st_nodeDepthMap st) w = Some d ->
    0 <= d /\ In w (MemStorage.st_visited st);
  mi_root :
    map_get (MemStorage.st_nodeDepthMap st) root = Some 0
    /\ In root (MemStorage.st_visited st);
  mi_edges : forall e,
    In e (MemStorage.st_edges st) ->
    data_get data (to e) <> None
    /\ exists n, In n (MemStorage.st_nodes st) /\ id n = from e
                 /\ (In (to e) (MemStorage.st_visited st)
                     \/ depth n = maxDepth);
  mi_pairs : distinctPairs (MemStorage.st_edges st)
}.

(** What is left to do for the server's BFS: the queue, and the keys that
    may still enter it. *)
Definition memMeasure (data : EtymologyData) (st : MemStorage.BfsState)
  : nat :=
  (length (MemStorage.st_queue st)
   + unvisitedCount data (MemStorage.st_visited st))%nat.

(** A chain a -> b -> c. *)
Definition chainData : EtymologyData :=
  [("a", mkWordEntry "A" ["b"]);
   ("b", mkWordEntry "B" ["c"]);
   ("c", mkWordEntry "C" [])].

(** A word whose list of related words names the same word twice. *)
Definition repeatedData : EtymologyData :=
  [("a", mkWordEntry "A" ["b"; "b"]);
   ("b", mkWordEntry "B" [])].

(** The invariant of the Lambda port's BFS, in which a word is marked when
    it leaves the queue and may wait in the queue several times. *)
Record LamInv (data : EtymologyData) (root : string) (maxDepth : Z)
  (lvl : Z) (cur : string) (todo : list string)
  (st : Lambda.BfsState) : Prop := mkLamInv {
  li_visited : Lambda.st_visited st = map id (Lambda.st_nodes st);
  li_nodup : NoDup (map id (Lambda.st_nodes st));
  li_queue : forall w d,
    In (w, d) (Lambda.st_queue st) ->
    data_get data w <> None /\ d <= maxDepth /\ hops data root w d;
  li_nodes : forall n,
    In n (Lambda.st_nodes st) ->
    hops data root (id n) (depth n) /\ depth n <= maxDepth
    /\ exists entry, data_get data (id n) = Some entry
                     /\ node_relatedWords n = relatedWords entry;
  li_level_nodes : forall n,
    In n (Lambda.st_nodes st) -> depth n <= lvl;
  li_level_queue : forall w d,
    In (w, d) (Lambda.st_queue st) -> lvl <= d <= lvl + 1;
  li_sorted : StronglySorted Z.le (map snd (Lambda.st_queue st));
  li_closed : forall n r,
    In n (Lambda.st_nodes st) -> In r (node_relatedWords n) ->
    (id n = cur -> ~ In r todo) ->
    data_get data (normalize r) <> None -> depth n + 1 <= maxDepth ->
    exists d, d <= depth n + 1
              /\ assigned (Lambda.st_nodes st) (Lambda.st_queue st)
                   (normalize r) d;
  li_root :
    exists d, d <= 0
              /\ assigned (Lambda.st_nodes st) (Lambda.st_queue st) root d
}.

(** What visiting the unvisited keys can still add to the queue, plus one
    iteration for the visit and one for the entry that is removed. *)
Definition potential (data : EtymologyData) (visited : list string) : nat :=
  fold_right
    (fun kv n =>
       if set_has visited (fst kv) then n
       else (S (S (length (relatedWords (snd kv)))) + n)%nat)
    O data.

Definition lamMeasure (data : EtymologyData) (st : Lambda.BfsState) : nat :=
  (length (Lambda.st_queue st) + potential data (Lambda.st_visited st))%nat.

(** The counting loop and the Lambda port's loop are in step: same visited
    set, same queue. *)
Definition inStep (s : StatsPrecomputer.SizeState) (l : Lambda.BfsState)
  : Prop :=
  StatsPrecomputer.st_visited s = Lambda.st_visited l
  /\ StatsPrecomputer.st_queue s = Lambda.st_queue l.

(** Scenario C of the design document: a related word that is not a key. *)
Definition scenarioC : EtymologyData := [("a", mkWordEntry "A" ["ghost"])].

(* ================================================================= *)
(** ** The graph builders with the lookups of a JavaScript object

    [MemStorage], [Lambda] and [LambdaBfsOnly] read [data[w]] as a lookup
    among the keys ([data_get]).  The modules below are the same functions
    with [data[w]] as JavaScript evaluates it on a plain object ([lookup]),
    where the name of an inherited member is truthy without being a key.
    The two agree on [lookupView data]: a run of a function below that
    returns is the run of its counterpart on [lookupView data]
    ([server_run_on_view], [lambda_run_on_view]). *)

(** A node as the Lambda port builds it: [definition] and [relatedWords]
    are [entry.definition] and [entry.relatedWords], which are [undefined]
    ([None]) when [entry] is an inherited member. *)
Record JsGraphNode := mkJsNode {
  jid : string;
  jword : string;
  jdefinition : option string;
  jdepth : Z;
  jrelatedWords : option (list string)
}.

Record JsWordGraph := mkJsGraph {
  jnodes : list JsGraphNode;
  jedges : list GraphEdge
}.

(** The node of the Lambda port for a node built from [lookupView data]:
    the fields of a word that is no key are [undefined]. *)
Definition jsNodeOf (data : EtymologyData) (n : GraphNode) : JsGraphNode :=
  match data_get data (id n) with
  | Some _ =>
      mkJsNode (id n) (word n) (Some (node_definition n)) (depth n)
               (Some (node_relatedWords n))
  | None => mkJsNode (id n) (word n) None (depth n) None
  end.

Definition jsGraphOf (data : EtymologyData) (g : WordGraph) : JsWordGraph :=
  mkJsGraph (map (jsNodeOf data) (nodes g)) (edges g).

(** A node made from what [data[id]] is: the fields of the entry of a
    key; [undefined] fields for an inherited member. *)
Definition nodeOfLookup (data : EtymologyData) (n : JsGraphNode) : Prop :=
  jword n = jid n
  /\ match lookup data (jid n) with
     | Entry entry =>
         jdefinition n = Some (definition entry)
         /\ jrelatedWords n = Some (relatedWords entry)
     | Member => jdefinition n = None /\ jrelatedWords n = None
     | Undefined => False
     end.

(** [v] is a related word of the key [u], normalized, and [data[v]] is
    truthy. *)
Definition resolvedLink (data : EtymologyData) (u v : string) : Prop :=
  exists entry r,
    data_get data u = Some entry /\ In r (relatedWords entry)
    /\ v = normalize r /\ resolves data v = true.

(** [w] is reached from [root] in [k] hops along such links. *)
Inductive resolvedHops (data : EtymologyData) (root : string)
  : string -> Z -> Prop :=
| resolvedHops_root : resolvedHops data root root 0
| resolvedHops_next (u v : string) (k : Z) :
    resolvedHops data root u k -> resolvedLink data u v ->
    resolvedHops data root v (k + 1).

(** [d] is the minimum number of such hops from [root] to [w]. *)
Definition minResolvedHops (data : EtymologyData) (root w : string) (d : Z)
  : Prop :=
  resolvedHops data root w d
  /\ forall k, resolvedHops data root w k -> d <= k.

(** A list of words with depths: every depth is the minimum hop count and
    within the limit, no word occurs twice, and every word within
    [maxDepth] hops occurs. *)
Definition bfsCorrectResolved (data : EtymologyData) (root : string)
  (maxDepth : Z) (ws : list (string * Z)) : Prop :=
  (forall w d, In (w, d) ws ->
     minResolvedHops data root w d /\ d <= maxDepth)
  /\ NoDup (map fst ws)
  /\ (forall w k, resolvedHops data root w k -> k <= maxDepth ->
                  In w (map fst ws)).

(** An inherited member lies within [maxDepth] hops of [root]. *)
Definition memberWithin (data : EtymologyData) (root : string)
  (maxDepth : Z) : Prop :=
  exists w k, resolvedHops data root w k /\ k <= maxDepth
              /\ lookup data w = Member.

(* ----------------------------------------------------------------- *)
(** *** The server *)

Module JsMemStorage.

(** The body of [for (const relatedWord of entry.relatedWords)]. *)
Definition processRelated (data : EtymologyData) (maxDepth : Z)
  (currentWord : string) (currentDepth : Z)
  (st : MemStorage.BfsState) (relatedWord : string) : MemStorage.BfsState :=
  let normalizedRelated := normalize relatedWord in
  if resolves data normalizedRelated then
    let edges' :=
      if MemStorage.edgeExists (MemStorage.st_edges st) currentWord
           normalizedRelated
      then MemStorage.st_edges st
      else MemStorage.st_edges st ++ [mkEdge currentWord normalizedRelated] in
    if set_has (MemStorage.st_visited st) normalizedRelated
    then MemStorage.mkState (MemStorage.st_nodes st) edges'
           (MemStorage.st_visited st) (MemStorage.st_nodeDepthMap st)
           (MemStorage.st_queue st)
    else
      let newDepth := currentDepth + 1 in
      if newDepth <=? maxDepth
      then MemStorage.mkState (MemStorage.st_nodes st) edges'
             (set_add (MemStorage.st_visited st) normalizedRelated)
             (map_set (MemStorage.st_nodeDepthMap st) normalizedRelated
                newDepth)
             (MemStorage.st_queue st ++ [(normalizedRelated, newDepth)])
      else MemStorage.mkState (MemStorage.st_nodes st) edges'
             (MemStorage.st_visited st) (MemStorage.st_nodeDepthMap st)
             (MemStorage.st_queue st)
  else st.

(** The body of [while (queue.length > 0)], after [queue.shift()].  When
    [entry] is an inherited member, [entry.relatedWords] is [undefined] and
    [for (... of entry.relatedWords)] throws. *)
Definition visit (data : EtymologyData) (maxDepth : Z)
  (currentWord : string) (currentDepth : Z) (st : MemStorage.BfsState)
  : Outcome MemStorage.BfsState :=
  if currentDepth >? maxDepth then Returns st
  else
    match lookup data currentWord with
    | Undefined => Returns st
    | Member => TypeError
    | Entry entry =>
        let node := mkNode currentWord currentWord (definition entry)
                           currentDepth (relatedWords entry) in
        Returns
          (fold_left (processRelated data maxDepth currentWord currentDepth)
             (relatedWords entry)
             (MemStorage.mkState (MemStorage.st_nodes st ++ [node])
                (MemStorage.st_edges st) (MemStorage.st_visited st)
                (MemStorage.st_nodeDepthMap st) (MemStorage.st_queue st)))
    end.

(** [while (queue.length > 0) { ... }] *)
Fixpoint bfsLoop (budget : nat) (data : EtymologyData) (maxDepth : Z)
  (st : MemStorage.BfsState) : Outcome MemStorage.BfsState :=
  match budget with
  | O =>
      match MemStorage.st_queue st with
      | [] => Returns st
      | _ :: _ => StillRunning
      end
  | S budget' =>
      match MemStorage.st_queue st with
      | [] => Returns st
      | (currentWord, currentDepth) :: rest =>
          andThen
            (visit data maxDepth currentWord currentDepth
               (MemStorage.shift st rest))
            (bfsLoop budget' data maxDepth)
      end
  end.

(** A word enters the queue when it enters [visited]; keys and inherited
    members do. *)
Definition bfsBudget (data : EtymologyData) : nat :=
  MemStorage.bfsBudget (lookupView data).

Definition bfs (data : EtymologyData) (normalizedWord : string)
  (maxDepth : Z) : Outcome MemStorage.BfsState :=
  bfsLoop (bfsBudget data) data maxDepth (MemStorage.initial normalizedWord).

Definition getWordGraph (data : EtymologyData) (word : string)
  (maxDepth : Z) : Outcome WordGraph :=
  let normalizedWord := normalize word in
  if resolves data normalizedWord then
    andThen (bfs data normalizedWord maxDepth)
      (fun st =>
         Returns (pruneHubs (MemStorage.st_nodeDepthMap st)
                    (MemStorage.st_nodes st) (MemStorage.st_edges st)))
  else Returns (mkGraph [] []).

End JsMemStorage.

(* ----------------------------------------------------------------- *)
(** *** The Lambda port *)

(** The [depth] argument of the port's [getWordGraph].  The handler passes
    on what [parseInt] returned for the query parameter, unchecked: an
    integer ([Limit d]) or [NaN]. *)
Inductive DepthArg :=
| Limit (d : Z)
| NotANumberDepth.

(** [currentDepth > depth]; a comparison with [NaN] is false. *)
Definition depthAbove (currentDepth : Z) (depth : DepthArg) : bool :=
  match depth with
  | Limit d => currentDepth >? d
  | NotANumberDepth => false
  end.

(** [currentDepth < depth] *)
Definition depthBelow (currentDepth : Z) (depth : DepthArg) : bool :=
  match depth with
  | Limit d => currentDepth <? d
  | NotANumberDepth => false
  end.

Module JsLambda.

Record BfsState := mkState {
  st_nodes : list JsGraphNode;
  st_edges : list GraphEdge;
  st_visited : list string;
  st_queue : list (string * Z)
}.

(** The body of [for (const relatedWord of related)]. *)
Definition processRelated (data : EtymologyData) (depth : DepthArg)
  (currentWord : string) (currentDepth : Z)
  (st : BfsState) (relatedWord : string) : BfsState :=
  let normalizedRelated := normalize relatedWord in
  if (negb (set_has (st_visited st) normalizedRelated)
      && resolves data normalizedRelated)%bool
  then
    let edges' := st_edges st ++ [mkEdge currentWord normalizedRelated] in
    if depthBelow currentDepth depth
    then mkState (st_nodes st) edges' (st_visited st)
                 (st_queue st ++ [(normalizedRelated, currentDepth + 1)])
    else mkState (st_nodes st) edges' (st_visited st) (st_queue st)
  else st.

(** The body of [while (queue.length > 0)], after [queue.shift()].  For an
    inherited member the node has no [definition] and no [relatedWords],
    and [entry.relatedWords || []] is the empty array. *)
Definition visit (data : EtymologyData) (depth : DepthArg)
  (currentWord : string) (currentDepth : Z) (st : BfsState) : BfsState :=
  if (set_has (st_visited st) currentWord
      || depthAbove currentDepth depth)%bool
  then st
  else
    let visited' := set_add (st_visited st) currentWord in
    match lookup data currentWord with
    | Undefined => mkState (st_nodes st) (st_edges st) visited' (st_queue st)
    | Member =>
        let node := mkJsNode currentWord currentWord None currentDepth None in
        fold_left (processRelated data depth currentWord currentDepth)
          []
          (mkState (st_nodes st ++ [node]) (st_edges st) visited' (st_queue st))
    | Entry entry =>
        let node := mkJsNode currentWord currentWord
                      (Some (definition entry)) currentDepth
                      (Some (relatedWords entry)) in
        fold_left (processRelated data depth currentWord currentDepth)
          (relatedWords entry)
          (mkState (st_nodes st ++ [node]) (st_edges st) visited' (st_queue st))
    end.

Definition shift (st : BfsState) (rest : list (string * Z)) : BfsState :=
  mkState (st_nodes st) (st_edges st) (st_visited st) rest.

Fixpoint bfsLoop (budget : nat) (data : EtymologyData) (depth : DepthArg)
  (st : BfsState) : BfsState :=
  match budget with
  | O => st
  | S budget' =>
      match st_queue st with
      | [] => st
      | (currentWord, currentDepth) :: rest =>
          bfsLoop budget' data depth
            (visit data depth currentWord currentDepth (shift st rest))
      end
  end.

(** The budget of [Lambda.bfsLoop], with two iterations more for every
    inherited member. *)
Definition bfsBudget (data : EtymologyData) : nat :=
  Lambda.bfsBudget (lookupView data).

Definition initial (normalizedWord : string) : BfsState :=
  mkState [] [] [] [(normalizedWord, 0)].

Definition bfs (data : EtymologyData) (normalizedWord : string)
  (depth : DepthArg) : BfsState :=
  bfsLoop (bfsBudget data) data depth (initial normalizedWord).

(** [for (const node of nodes) nodeDepthMap.set(node.id, node.depth)] *)
Definition depthMapOf (ns : list JsGraphNode) : list (string * Z) :=
  fold_left (fun m node => map_set m (jid node) (jdepth node)) ns [].

(** The hub pruning at the end of [getWordGraph]. *)
Definition pruneHubs (nodeDepthMap : list (string * Z))
  (ns : list JsGraphNode) (es : list GraphEdge) : JsWordGraph :=
  let nodesToRemove := nodesToRemoveOf nodeDepthMap es in
  let filteredNodes :=
    filter (fun node => negb (set_has nodesToRemove (jid node))) ns in
  let filteredEdges :=
    filter (fun edge => (negb (set_has nodesToRemove (from edge)) &&
                         negb (set_has nodesToRemove (to edge)))%bool) es in
  mkJsGraph filteredNodes filteredEdges.

(** lambda/getWord/storage.ts, with [ENABLE_HUB_PRUNING = true]. *)
Definition getWordGraph (data : EtymologyData) (word : string)
  (depth : DepthArg) : JsWordGraph :=
  let normalizedWord := normalize word in
  if resolves data normalizedWord then
    let st := bfs data normalizedWord depth in
    pruneHubs (depthMapOf (st_nodes st)) (st_nodes st) (st_edges st)
  else mkJsGraph [] [].

End JsLambda.

(** The state of the port's loop for a state of the loop on
    [lookupView data]. *)
Definition jsStateOf (data : EtymologyData) (st : Lambda.BfsState)
  : JsLambda.BfsState :=
  JsLambda.mkState (map (jsNodeOf data) (Lambda.st_nodes st))
    (Lambda.st_edges st) (Lambda.st_visited st) (Lambda.st_queue st).

(** The version of the port's [getWordGraph] without hub pruning. *)
Module JsLambdaBfsOnly.

Definition getWordGraph (data : EtymologyData) (word : string)
  (depth : DepthArg) : JsWordGraph :=
  let normalizedWord := normalize word in
  if resolves data normalizedWord then
    let st := JsLambda.bfs data normalizedWord depth in
    mkJsGraph (JsLambda.st_nodes st) (JsLambda.st_edges st)
  else mkJsGraph [] [].

End JsLambdaBfsOnly.

(** The index of the inherited-member scenario: the only related word of
    ["a"] is the name of an inherited member. *)
Definition memberData : EtymologyData :=
  [("a", mkWordEntry "A" ["constructor"])].

(* ================================================================= *)
(** ** More vocabulary *)

(** [x] is a child of a hub or descends from one. *)
Definition hubDescendant (nodeDepthMap : list (string * Z))
  (es : list GraphEdge) (x : string) : Prop :=
  exists N c, isHub nodeDepthMap es N
              /\ derivedChild nodeDepthMap es N c
              /\ descends nodeDepthMap es c x.

(** A node made from the entry of its word: [id] and [word] are the key,
    [definition] and [relatedWords] are the entry's. *)
Definition nodeOfEntry (data : EtymologyData) (n : GraphNode) : Prop :=
  word n = id n
  /\ exists entry, data_get data (id n) = Some entry
                   /\ node_definition n = definition entry
                   /\ node_relatedWords n = relatedWords entry.

(** No list of related words names the same normalized word twice. *)
Definition noRepeatedRelated (data : EtymologyData) : Prop :=
  forall w entry,
    data_get data w = Some entry -> NoDup (map normalize (relatedWords entry)).

(** The invariant of the Lambda port's edge list while the related words of
    [cur] are being processed; [done] are the ones already handled. *)
Definition lamEdgesInv (cur : string) (done : list string)
  (st : Lambda.BfsState) : Prop :=
  (forall e, In e (Lambda.st_edges st) ->
             In (from e) (Lambda.st_visited st))
  /\ distinctPairs (Lambda.st_edges st)
  /\ (forall e, In e (Lambda.st_edges st) -> from e = cur ->
                In (to e) (map normalize done)).

(** The client's choice of the node to select when a graph arrives:
    [data.nodes.find(n => n.depth === 0)]. *)
Definition findRootNode (ns : list GraphNode) : option GraphNode :=
  find (fun n => depth n =? 0) ns.

(* ================================================================= *)
(** ** The client's depth filter (lib/graphUtils) *)

(** [filterGraphByDepth(nodes, edges, maxDepth)], for a limit that is a
    number other than [NaN]. *)
Definition filterGraphByDepth (ns : list GraphNode) (es : list GraphEdge)
  (maxDepth : Z) : WordGraph :=
  let filteredNodes := filter (fun node => depth node <=? maxDepth) ns in
  let validNodeIds := fold_left set_add (map id filteredNodes) [] in
  let filteredEdges :=
    filter (fun edge => (set_has validNodeIds (from edge)
                         && set_has validNodeIds (to edge))%bool) es in
  mkGraph filteredNodes filteredEdges.

(* ================================================================= *)
(** ** Numbers in URLs: [parseInt] and [toString] *)

Definition isDigit (c : ascii) : bool :=
  let n := nat_of_ascii c in (Nat.leb 48 n && Nat.leb n 57)%bool.

Definition digitValue (c : ascii) : Z := Z.of_nat (nat_of_ascii c) - 48.

(** The longest prefix made of decimal digits. *)
Fixpoint leadingDigits (s : string) : string :=
  match s with
  | EmptyString => EmptyString
  | String c s' =>
      if isDigit c then String c (leadingDigits s') else EmptyString
  end.

(** Every character is a decimal digit. *)
Fixpoint allDigits (s : string) : bool :=
  match s with
  | EmptyString => true
  | String c s' => (isDigit c && allDigits s')%bool
  end.

(** The value of a string of decimal digits, read after [acc]. *)
Fixpoint mathInt (acc : Z) (digits : string) : Z :=
  match digits with
  | EmptyString => acc
  | String c s' => mathInt (10 * acc + digitValue c) s'
  end.

(** A number, as far as a depth needs it: [NaN]; an integer of magnitude at
    most [2 ^ 53], each of which a number holds exactly ([Integer 0] stands
    for both zeros); or a number beyond them, finite or infinite, of which
    only the sign is kept. *)
Inductive DepthNumber :=
| NotANumber
| Integer (z : Z)
| Beyond (negative : bool).

Definition maxExact : Z := 2 ^ 53.

(** [parseInt(input, 10)]: leading white space is skipped, one sign is read,
    then the longest run of digits, whose value is rounded to a number. *)
Definition parseInt10 (input : string) : DepthNumber :=
  let s := trimStart input in
  let '(negative, s1) :=
    match s with
    | EmptyString => (false, s)
    | String c rest =>
        if Ascii.eqb c "-" then (true, rest)
        else if Ascii.eqb c "+" then (false, rest) else (false, s)
    end in
  match leadingDigits s1 with
  | EmptyString => NotANumber
  | String c ds =>
      let value := mathInt 0 (String c ds) in
      if value <=? maxExact
      then Integer (if negative then - value else value)
      else Beyond negative
  end.

(** The decimal digits of [n >= 0] in front of [acc], most significant
    first; [fuel] bounds the number of digits. *)
Fixpoint decimalDigits (fuel : nat) (n : Z) (acc : string) : string :=
  match fuel with
  | O => acc
  | S fuel' =>
      let acc' := String (digitChar (Z.to_nat (n mod 10))) acc in
      if n / 10 =? 0 then acc' else decimalDigits fuel' (n / 10) acc'
  end.

(** [x.toString()] for [NaN] and for the integers that a number holds
    exactly, which print in plain decimal; [None] for a number beyond them,
    whose digits depend on how it was rounded. *)
Definition numberToString (x : DepthNumber) : option string :=
  match x with
  | NotANumber => Some "NaN"
  | Integer z =>
      if Z.abs z <=? maxExact then
        Some (if z <? 0
              then String "-"
                     (decimalDigits (S (Z.to_nat (Z.log2 (- z)))) (- z) "")
              else decimalDigits (S (Z.to_nat (Z.log2 z))) z "")
      else None
  | Beyond _ => None
  end.

(** HomePage: the initial value of the [depth] state,
    [depthParam ? parseInt(depthParam, 10) : 2], where [depthParam] is
    [params.get('depth')] ([None] for [null]). *)
Definition depthFromUrl (depthParam : option string) : DepthNumber :=
  match depthParam with
  | Some s => if MemStorage.truthy s then parseInt10 s else Integer 2
  | None => Integer 2
  end.

(* ================================================================= *)
(** ** The HTTP API (server/routes.ts) *)

Inductive Body :=
| ErrorBody (error : string)
| WordBody (w : string)
| GraphBody (g : WordGraph).

(** [res.status(s).json(b)]; [res.json(b)] answers with status 200. *)
Record Response := mkResponse {
  status : Z;
  body : Body
}.

Module Routes.

Definition maxDepth : Z := 3.

(** [depthParam ? parseInt(depthParam as string, 10) : maxDepth], for a
    [depth] query parameter that is absent ([None]) or one string. *)
Definition requestedDepth (depthParam : option string) : DepthNumber :=
  match depthParam with
  | Some s => if MemStorage.truthy s then parseInt10 s else Integer maxDepth
  | None => Integer maxDepth
  end.

Definition invalidDepth : Response :=
  mkResponse 400
    (ErrorBody "Invalid depth parameter. Must be a number between 1 and 3.").

Definition serverError : Response :=
  mkResponse 500
    (ErrorBody "Internal server error while fetching word graph.").

(** [GET /api/words/:word], over the loaded dictionary.  A number beyond
    the exact integers is below 1 or above [maxDepth]; what [getWordGraph]
    throws is caught and answered with status 500. *)
Definition getWords (data : EtymologyData) (word : string)
  (depthParam : option string) : Response :=
  if (negb (MemStorage.truthy word)
      || Nat.eqb (String.length (trim word)) 0)%bool
  then mkResponse 400 (ErrorBody "Word parameter is required.")
  else
    match requestedDepth depthParam with
    | NotANumber => invalidDepth
    | Beyond _ => invalidDepth
    | Integer depth =>
        if ((depth <? 1) || (depth >? maxDepth))%bool then invalidDepth
        else
          match JsMemStorage.getWordGraph data word depth with
          | Returns result =>
              if Nat.eqb (length (nodes result)) 0
              then mkResponse 404
                     (ErrorBody
                        (String.append "Word '"
                           (String.append word
                              "' not found in the etymology database.")))
              else mkResponse 200 (GraphBody result)
          | _ => serverError
          end
    end.


End Routes.

(* ================================================================= *)
(** ** The random-word Lambda that samples connections *)

(** A value of [Math.random()]: a double that is at least 0 and below 1,
    so at most [1 - 2 ^ -53], the largest double below 1. *)
Definition randomValue (u : Q) : Prop :=
  (0 <= u)%Q /\ (u <= 1 - (1 # 9007199254740992))%Q.

Module ConnectionSampler.

Definition MIN_CONNECTIONS : nat := 1.
Definition MAX_NODES : Z := 850.
Definition MAX_ATTEMPTS : nat := 100.

(** [getGraphSize(word, depth, data)]: the counting loop of the
    precomputer's [computeGraphSize], copied into this file. *)
Definition getGraphSize (word : string) (depth : Z) (data : EtymologyData)
  : Z :=
  StatsPrecomputer.computeGraphSize word depth data.

(** [Math.floor(Math.random() * n)] for the value [u] of
    [Math.random()]; the product is a double. *)
Definition randomIndexOf (u : Q) (n : nat) : Z :=
  Qfloor (doubleMul u (inject_Z (Z.of_nat n))).

(** The [connections] array: for every key with related words, in key
    order, one pair per related word [r] for which [data[normalized r]] is
    truthy.  ([word] is a key, so [data[word]] is its entry.) *)
Definition connectionsOf (data : EtymologyData) : list (string * string) :=
  flat_map (fun word =>
    match data_get data word with
    | Some entry =>
        if Nat.ltb 0 (length (relatedWords entry)) then
          flat_map (fun relatedWord =>
            let normalized := normalize relatedWord in
            if resolves data normalized then [(word, normalized)] else [])
            (relatedWords entry)
        else []
    | None => []
    end) (data_keys data).

(** [entry && entry.relatedWords.length >= MIN_CONNECTIONS] and then
    [(await getGraphSize(w, 3, data)) <= MAX_NODES]; for an inherited
    member [entry.relatedWords] is [undefined], and reading its [length]
    throws. *)
Definition acceptable (data : EtymologyData) (w : string) : Outcome bool :=
  match lookup data w with
  | Entry entry =>
      Returns (Nat.leb MIN_CONNECTIONS (length (relatedWords entry))
               && (getGraphSize w 3 data <=? MAX_NODES))%bool
  | Member => TypeError
  | Undefined => Returns false
  end.

(** [for (let attempt = 0; attempt < MAX_ATTEMPTS; attempt++)], with
    [attemptsLeft = MAX_ATTEMPTS - attempt]; [Returns None] when the loop
    ends without returning.  Taking [connections[randomIndex]] apart throws
    when the index is outside the array. *)
Fixpoint attempts (attemptsLeft : nat) (data : EtymologyData)
  (connections : list (string * string)) (rand : nat -> Q) (calls : nat)
  : Outcome (option string) :=
  match attemptsLeft with
  | O => Returns None
  | S attemptsLeft' =>
      let randomIndex := randomIndexOf (rand calls) (length connections) in
      match at_index connections randomIndex with
      | None => TypeError
      | Some (word1, word2) =>
          andThen (acceptable data word1) (fun ok1 =>
            if ok1 then Returns (Some word1)
            else
              andThen (acceptable data word2) (fun ok2 =>
                if ok2 then Returns (Some word2)
                else attempts attemptsLeft' data connections rand
                       (S calls)))
      end
  end.

(** [getRandomWord()]; [rand k] is the value of the [k]-th call of
    [Math.random()]; [Returns None] is [undefined]. *)
Definition getRandomWord (data : EtymologyData) (rand : nat -> Q)
  : Outcome (option string) :=
  let ws := data_keys data in
  if Nat.eqb (length ws) 0 then ErrorThrown
  else
    let connections := connectionsOf data in
    if Nat.eqb (length connections) 0
    then Returns (at_index ws (randomIndexOf (rand O) (length ws)))
    else
      match attempts MAX_ATTEMPTS data connections rand 0 with
      | Returns None =>
          match firstConnected data ws with
          | Some w => Returns (Some w)
          | None =>
              Returns (at_index ws
                         (randomIndexOf (rand MAX_ATTEMPTS) (length ws)))
          end
      | o => o
      end.

End ConnectionSampler.

(* ================================================================= *)
(** ** The client (pages/HomePage, components/WordDetailPanel) *)

Module HomePage.

(** [searchValue.trim().toLowerCase()] of [handleSearch]. *)
Definition searchedWord (searchValue : string) : string :=
  toLowerCase (trim searchValue).

Definition EXAMPLE_WORDS : list string := ["etymology"; "language"].

(** [recentSearches.includes(word)] *)
Definition includes (recentSearches : list string) (word : string) : bool :=
  existsb (String.eqb word) recentSearches.

(** The next value of the [recentSearches] state after
    [if (!recentSearches.includes(word))
       setRecentSearches([word, ...recentSearches.slice(0, 4)])]. *)
Definition addRecent (recentSearches : list string) (word : string)
  : list string :=
  if includes recentSearches word then recentSearches
  else word :: firstn 4 recentSearches.

(** The next value of the state after [handleRemoveRecent(word)]. *)
Definition handleRemoveRecent (recentSearches : list string) (word : string)
  : list string :=
  filter (fun w => negb (String.eqb w word)) recentSearches.

(** What the user does to the list of recent searches. *)
Inductive RecentAction :=
| Searched (word : string)
| Removed (word : string).

Definition applyRecent (recentSearches : list string) (a : RecentAction)
  : list string :=
  match a with
  | Searched word => addRecent recentSearches word
  | Removed word => handleRemoveRecent recentSearches word
  end.

End HomePage.

Module WordDetailPanel.

(** [relatedWords.length > 30] *)
Definition shouldTruncate (relatedWords : list string) : bool :=
  Nat.ltb 30 (length relatedWords).

(** [l.slice(-k)] *)
Definition sliceLast {A : Type} (k : nat) (l : list A) : list A :=
  skipn (length l - k) l.

Definition displayedWords (relatedWords : list string) (isExpanded : bool)
  : list string :=
  if (shouldTruncate relatedWords && negb isExpanded)%bool
  then firstn 20 relatedWords ++ sliceLast 10 relatedWords
  else relatedWords.

Definition hiddenCount (relatedWords : list string) : Z :=
  if shouldTruncate relatedWords
  then Z.of_nat (length relatedWords) - 30 else 0.

(** The buttons before the "... (n more)" button:
    [displayedWords.slice(0, shouldTruncate && !isExpanded ? 20
                                : displayedWords.length)]. *)
Definition shownBefore (relatedWords : list string) (isExpanded : bool)
  : list string :=
  let displayed := displayedWords relatedWords isExpanded in
  firstn (if (shouldTruncate relatedWords && negb isExpanded)%bool
          then 20%nat else length displayed) displayed.

(** The buttons after it:
    [shouldTruncate && !isExpanded && displayedWords.slice(20)]. *)
Definition shownAfter (relatedWords : list string) (isExpanded : bool)
  : list string :=
  if (shouldTruncate relatedWords && negb isExpanded)%bool
  then skipn 20 (displayedWords relatedWords isExpanded) else [].

End WordDetailPanel.

(* ================================================================= *)
(** ** Vocabulary of the edge lists *)

(** Every edge of the Lambda port's BFS is a link of the dictionary that
    starts at a node; its target was visited, waits in the queue, or the
    source lies at the depth limit. *)
Definition lamEdgeEnds (data : EtymologyData) (maxDepth : Z)
  (st : Lambda.BfsState) : Prop :=
  forall e, In e (Lambda.st_edges st) ->
    linked data (from e) (to e)
    /\ exists n, In n (Lambda.st_nodes st) /\ id n = from e
                 /\ (In (to e) (Lambda.st_visited st)
                     \/ In (to e) (map fst (Lambda.st_queue st))
                     \/ depth n = maxDepth).

(* ================================================================= *)
(** * Properties *)

(** ** The binary search of the sampler *)

Section BinarySearch.

Variable ws : list SamplingEntry.
Variable random : Q.

Let len : Z := Z.of_nat (length ws).

Lemma Qltb_lt (x y : Q) : Qltb x y = true <-> (x < y)%Q.
Proof.
  unfold Qltb. rewrite negb_true_iff.
  split; intro H.
  - apply Qnot_le_lt. intro Hle. apply Qle_bool_iff in Hle. congruence.
  - destruct (Qle_bool y x) eqn:E; [|reflexivity].
    apply Qle_bool_iff in E. exfalso. exact (Qlt_not_le _ _ H E).
Qed.

Lemma Qltb_ge (x y : Q) : Qltb x y = false <-> (y <= x)%Q.
Proof.
  unfold Qltb. rewrite negb_false_iff. apply Qle_bool_iff.
Qed.

Lemma at_index_in_range (i : Z) :
  0 <= i < len -> exists e, at_index ws i = Some e.
Proof.
  intros [H0 H1]. unfold at_index.
  destruct (i <? 0) eqn:E; [apply Z.ltb_lt in E; lia|].
  destruct (nth_error ws (Z.to_nat i)) eqn:N; [eauto|].
  apply nth_error_None in N. unfold len in H1. lia.
Qed.

Lemma at_index_some (i : Z) (e : SamplingEntry) :
  at_index ws i = Some e -> 0 <= i < len.
Proof.
  unfold at_index. destruct (i <? 0) eqn:E; [discriminate|].
  intro N. apply Z.ltb_ge in E.
  assert (Hn : nth_error ws (Z.to_nat i) <> None) by congruence.
  apply nth_error_Some in Hn. unfold len. lia.
Qed.

(** The loop ends within [right - left] iterations, never reads outside the
    array, and leaves [left] between the bounds it started from. *)
Lemma searchLoop_returns (budget : nat) :
  forall left right,
    0 <= left -> left <= right -> right < len ->
    (Z.to_nat (right - left) <= budget)%nat ->
    exists i, searchLoop budget ws random left right = Returns i
              /\ left <= i <= right.
Proof.
  induction budget as [|b IH]; intros left right H0 Hlr Hr Hb.
  - assert (left = right) by lia. subst right.
    exists left. simpl. rewrite Z.ltb_irrefl. split; [reflexivity|lia].
  - simpl. destruct (left <? right) eqn:E.
    + apply Z.ltb_lt in E.
      assert (Hmid : left <= (left + right) / 2 < right).
      { split; [apply Z.div_le_lower_bound|apply Z.div_lt_upper_bound]; lia. }
      destruct (at_index_in_range ((left + right) / 2)) as [e He]; [lia|].
      rewrite He.
      destruct (Qltb (inject_Z (cumulativeWeight e)) random).
      * destruct (IH ((left + right) / 2 + 1) right) as [i [Hi Hb']];
          try lia.
        exists i. split; [exact Hi|lia].
      * destruct (IH left ((left + right) / 2)) as [i [Hi Hb']]; try lia.
        exists i. split; [exact Hi|lia].
    + exists left. split; [reflexivity|lia].
Qed.

(** Once the loop has returned, a larger budget returns the same index. *)
Lemma searchLoop_budget_irrelevant (budget : nat) :
  forall left right i,
    searchLoop budget ws random left right = Returns i ->
    forall budget', (budget <= budget')%nat ->
    searchLoop budget' ws random left right = Returns i.
Proof.
  induction budget as [|b IH]; intros left right i H budget' Hle.
  - simpl in H. destruct (left <? right) eqn:E; [discriminate|].
    destruct budget'; simpl; rewrite E; exact H.
  - destruct budget' as [|b']; [lia|].
    simpl in *. destruct (left <? right); [|exact H].
    destruct (at_index ws ((left + right) / 2)); [|discriminate].
    destruct (Qltb (inject_Z (cumulativeWeight s)) random);
      apply IH with (budget' := b') in H; auto; lia.
Qed.

Lemma searchLoop_smallest (budget : nat) :
  nondecreasing ws ->
  forall left right,
    0 <= left -> left <= right -> right < len ->
    (Z.to_nat (right - left) <= budget)%nat ->
    (forall j ej, j < left -> at_index ws j = Some ej ->
                  (inject_Z (cumulativeWeight ej) < random)%Q) ->
    (exists er, at_index ws right = Some er
                /\ (random <= inject_Z (cumulativeWeight er))%Q) ->
    exists i, searchLoop budget ws random left right = Returns i
              /\ smallest_reaching ws random i.
Proof.
  intro Hmono.
  induction budget as [|b IH]; intros left right H0 Hlr Hr Hb Hlow Hhigh.
  - assert (left = right) by lia. subst right.
    exists left. simpl. rewrite Z.ltb_irrefl. split; [reflexivity|].
    split; [exact Hhigh|].
    intros j ej Hj Hge. destruct (Z_lt_le_dec j left) as [Hlt|]; [|assumption].
    exfalso. exact (Qlt_not_le _ _ (Hlow j ej Hlt Hj) Hge).
  - simpl. destruct (left <? right) eqn:E.
    + apply Z.ltb_lt in E.
      assert (Hmid : left <= (left + right) / 2 < right).
      { split; [apply Z.div_le_lower_bound|apply Z.div_lt_upper_bound]; lia. }
      destruct (at_index_in_range ((left + right) / 2)) as [e He]; [lia|].
      rewrite He.
      destruct (Qltb (inject_Z (cumulativeWeight e)) random) eqn:C.
      * apply Qltb_lt in C.
        apply IH; try lia; [|exact Hhigh].
        intros j ej Hj Hat.
        apply Qle_lt_trans with (y := inject_Z (cumulativeWeight e));
          [|exact C].
        rewrite <- Zle_Qle. apply (Hmono j ((left + right) / 2)); auto; lia.
      * apply Qltb_ge in C.
        apply IH; try lia; [exact Hlow|]. eauto.
    + apply Z.ltb_ge in E. assert (left = right) by lia. subst right.
      exists left. split; [reflexivity|]. split; [exact Hhigh|].
      intros j ej Hj Hge.
      destruct (Z_lt_le_dec j left) as [Hlt|]; [|assumption].
      exfalso. exact (Qlt_not_le _ _ (Hlow j ej Hlt Hj) Hge).
Qed.

End BinarySearch.

Lemma sampleAt_of_search (ws : list SamplingEntry) (random : Q) (i : Z)
  (e : SamplingEntry) :
  searchLoop (length ws) ws random 0 (Z.of_nat (length ws) - 1) = Returns i ->
  at_index ws i = Some e ->
  sampleAt ws random = Returns (entry_word e).
Proof.
  intros Hs He. unfold sampleAt. rewrite Hs. simpl. rewrite He. reflexivity.
Qed.

Lemma nonempty_length (A : Type) (l : list A) :
  l <> [] -> (0 < length l)%nat.
Proof.
  destruct l; [congruence|simpl; lia].
Qed.

Lemma at_index_In (ws : list SamplingEntry) (i : Z) (e : SamplingEntry) :
  at_index ws i = Some e -> In e ws.
Proof.
  unfold at_index. destruct (i <? 0); [discriminate|]. apply nth_error_In.
Qed.

Lemma sampleAt_returns_entry (ws : list SamplingEntry) (random : Q) :
  ws <> [] ->
  exists e, In e ws /\ sampleAt ws random = Returns (entry_word e).
Proof.
  intro Hne. pose proof (nonempty_length _ _ Hne) as Hlen.
  destruct (searchLoop_returns ws random (length ws)
              0 (Z.of_nat (length ws) - 1)) as [i [Hi Hb]]; try lia.
  destruct (at_index_in_range ws i) as [e He]; [lia|].
  exists e. split; [eapply at_index_In; eauto|].
  eapply sampleAt_of_search; eauto.
Qed.

(** C10: for a table with at least one entry and any value of
    [Math.random() * totalWeight], the binary search loop of [getRandomWord]
    terminates (it returns within [words.length] iterations, and with any
    larger budget), the index it returns lies in [0, words.length - 1], and
    [words[left].word] reads an entry of the array; nothing is assumed about
    the cumulative weights. *)
Theorem search_terminates_in_bounds :
  forall (stats : SamplingTable) (random : Q),
    words stats <> [] ->
    exists i e,
      (forall budget, (length (words stats) <= budget)%nat ->
         searchLoop budget (words stats) random
           0 (Z.of_nat (length (words stats)) - 1) = Returns i)
      /\ 0 <= i <= Z.of_nat (length (words stats)) - 1
      /\ at_index (words stats) i = Some e
      /\ sampleAt (words stats) random = Returns (entry_word e).
Proof.
  intros stats random Hne.
  pose proof (nonempty_length _ _ Hne) as Hlen.
  destruct (searchLoop_returns (words stats) random (length (words stats))
              0 (Z.of_nat (length (words stats)) - 1))
    as [i [Hi Hb]]; try lia.
  destruct (at_index_in_range (words stats) i) as [e He]; [lia|].
  exists i, e. repeat split; try lia; auto.
  - intros budget Hle.
    eapply searchLoop_budget_irrelevant; eauto.
  - eapply sampleAt_of_search; eauto.
Qed.

Lemma search_terminates_in_bounds_witness :
  words scenarioD <> []
  /\ exists i e,
      (forall budget, (length (words scenarioD) <= budget)%nat ->
         searchLoop budget (words scenarioD) (1 # 2)
           0 (Z.of_nat (length (words scenarioD)) - 1) = Returns i)
      /\ 0 <= i <= Z.of_nat (length (words scenarioD)) - 1
      /\ at_index (words scenarioD) i = Some e
      /\ sampleAt (words scenarioD) (1 # 2) = Returns (entry_word e).
Proof.
  split.
  - simpl. discriminate.
  - apply (search_terminates_in_bounds scenarioD (1 # 2)).
    simpl. discriminate.
Defined.

(** The fast path of [getRandomWord] returns a word of the table whenever the
    table has an entry. *)
Lemma getRandomWord_fast_path (data : EtymologyData) (stats : SamplingTable)
  (randomUnit : Q) :
  words stats <> [] ->
  exists e, In e (words stats)
            /\ MemStorageStats.getRandomWord data (Some stats) randomUnit
               = Returns (Some (entry_word e)).
Proof.
  intro Hne.
  destruct (sampleAt_returns_entry (words stats)
              (doubleMul randomUnit (inject_Z (totalWeight stats))) Hne)
    as [e [Hin Hs]].
  exists e. split; [exact Hin|].
  unfold MemStorageStats.getRandomWord.
  destruct (words stats) eqn:W; [congruence|].
  simpl Nat.ltb. cbv iota. unfold sample. rewrite W, Hs. reflexivity.
Qed.

(** ** The weighted choice *)

Lemma lastCumulativeWeight_reached (ws : list SamplingEntry) (target : Q) :
  ws <> [] ->
  (target <= inject_Z (lastCumulativeWeight ws))%Q ->
  exists er, at_index ws (Z.of_nat (length ws) - 1) = Some er
             /\ (target <= inject_Z (cumulativeWeight er))%Q.
Proof.
  intros Hne Hle. pose proof (nonempty_length _ _ Hne) as Hlen.
  destruct (at_index_in_range ws (Z.of_nat (length ws) - 1)) as [er Her];
    [lia|].
  exists er. split; [exact Her|].
  unfold lastCumulativeWeight in Hle. rewrite Her in Hle. exact Hle.
Qed.

Lemma sampleAt_smallest (ws : list SamplingEntry) (target : Q) :
  ws <> [] -> nondecreasing ws ->
  (target <= inject_Z (lastCumulativeWeight ws))%Q ->
  exists i e, smallest_reaching ws target i
              /\ at_index ws i = Some e
              /\ sampleAt ws target = Returns (entry_word e).
Proof.
  intros Hne Hmono Hle. pose proof (nonempty_length _ _ Hne) as Hlen.
  destruct (searchLoop_smallest ws target (length ws) Hmono
              0 (Z.of_nat (length ws) - 1)) as [i [Hi Hsm]]; try lia.
  - intros j ej Hj Hat. apply at_index_some in Hat. lia.
  - apply lastCumulativeWeight_reached; assumption.
  - destruct Hsm as [[e [He Hge]] Hmin].
    exists i, e. split; [split; eauto|]. split; [exact He|].
    eapply sampleAt_of_search; eauto.
Qed.

Lemma target_below_total (u : Q) (t : Z) :
  (u < 1)%Q -> 0 <= t -> (u * inject_Z t <= inject_Z t)%Q.
Proof.
  intros Hu Ht.
  setoid_replace (inject_Z t) with (1 * inject_Z t)%Q at 2 by ring.
  apply Qmult_le_compat_r.
  - apply Qlt_le_weak. exact Hu.
  - change 0%Q with (inject_Z 0). rewrite <- Zle_Qle. exact Ht.
Qed.

(** ** Rounding to a double *)

Lemma roundHalfEven_below (n d k : Z) :
  0 < d -> n <= k * d -> roundHalfEven n d <= k.
Proof.
  intros Hd Hle. unfold roundHalfEven.
  pose proof (Z.div_mod n d ltac:(lia)) as E.
  pose proof (Z.mod_pos_bound n d Hd) as R.
  assert (F : n / d <= k) by (apply Z.div_le_upper_bound; nia).
  destruct (Z.eq_dec (n / d) k) as [Ek|Nk].
  - assert (n mod d = 0) by nia.
    assert (L : (2 * (n mod d) <? d) = true) by (apply Z.ltb_lt; lia).
    rewrite L. lia.
  - destruct (2 * (n mod d) <? d); [lia|].
    destruct (d <? 2 * (n mod d)); [lia|].
    destruct (Z.even (n / d)); lia.
Qed.

Lemma floorLog2_lower (n d : Z) :
  0 < n -> 0 < d -> 0 <= floorLog2 n d -> 2 ^ floorLog2 n d * d <= n.
Proof.
  intros Hn Hd. unfold floorLog2.
  set (k := Z.log2 n - Z.log2 d).
  destruct (Z.log2_spec n Hn) as [Ln _].
  destruct (Z.log2_spec d Hd) as [_ Ud].
  pose proof (Z.log2_nonneg n) as An. pose proof (Z.log2_nonneg d) as Ad.
  destruct (k <? 0) eqn:Kneg.
  - apply Z.ltb_lt in Kneg.
    destruct (d <=? n * 2 ^ (- k)); intro H; lia.
  - apply Z.ltb_ge in Kneg.
    destruct (d * 2 ^ k <=? n) eqn:T; intro H.
    + apply Z.leb_le in T. lia.
    + assert (E : 2 ^ Z.log2 n = 2 ^ (k - 1) * 2 ^ Z.succ (Z.log2 d)).
      { rewrite <- Z.pow_add_r by lia. f_equal. unfold k. lia. }
      assert (0 < 2 ^ (k - 1)) by (apply Z.pow_pos_nonneg; lia).
      nia.
Qed.

(** Rounding to a double does not step over a small integer: a value that
    is at most the integer [k < 2 ^ 53] rounds to at most [k]. *)
Lemma toDouble_below (x : Q) (k : Z) :
  (0 <= x)%Q -> (x <= inject_Z k)%Q -> k < 2 ^ 53 ->
  (toDouble x <= inject_Z k)%Q.
Proof.
  destruct x as [n p]. unfold Qle. cbn [Qnum Qden inject_Z].
  intros H0 Hk Hsafe. rewrite Z.mul_1_r in *.
  assert (Hn : 0 <= n) by lia.
  unfold toDouble. cbn [Qnum Qden]. rewrite (Z.abs_eq n) by exact Hn.
  destruct (n =? 0) eqn:Z0.
  { cbn [Qnum Qden inject_Z]. nia. }
  apply Z.eqb_neq in Z0.
  assert (Neg : (n <? 0) = false) by (apply Z.ltb_ge; exact Hn).
  rewrite Neg.
  set (e := Z.max (floorLog2 n (Z.pos p) - 52) (-1074)).
  destruct (e <? 0) eqn:E.
  - apply Z.ltb_lt in E. unfold pow2.
    assert (E' : (e <? 0) = true) by (apply Z.ltb_lt; exact E).
    rewrite E'.
    assert (P : 0 < 2 ^ (- e)) by (apply Z.pow_pos_nonneg; lia).
    cbn [Qmult Qnum Qden inject_Z]. rewrite Pos.mul_1_l, Z.mul_1_r.
    rewrite Z2Pos.id by exact P.
    apply roundHalfEven_below; [lia|]. nia.
  - apply Z.ltb_ge in E. unfold pow2.
    assert (E' : (e <? 0) = false) by (apply Z.ltb_ge; exact E).
    rewrite E'.
    assert (F : 52 <= floorLog2 n (Z.pos p)) by (unfold e in E; lia).
    pose proof (floorLog2_lower n (Z.pos p) ltac:(lia) ltac:(lia)
                  ltac:(lia)) as L.
    assert (Fe : floorLog2 n (Z.pos p) = 52).
    { destruct (Z.eq_dec (floorLog2 n (Z.pos p)) 52) as [|Ne]; [assumption|].
      exfalso.
      assert (M : 2 ^ 53 <= 2 ^ floorLog2 n (Z.pos p))
        by (apply Z.pow_le_mono_r; lia).
      nia. }
    assert (e = 0) by (unfold e; lia).
    replace e with 0 by lia.
    cbn [Qmult Qnum Qden inject_Z]. change (2 ^ 0) with 1.
    rewrite !Z.mul_1_r.
    apply roundHalfEven_below; [lia|]. lia.
Qed.

(** C5, as stated, fails: on the table of the index [{p: [q, q], q: [p]}]
    (nondecreasing, [totalWeight] equal to the last cumulative weight) and
    the value [tieUnit] of [Math.random()], the exact product is
    [2 + 2 ^ -52], so the smallest index whose cumulative weight reaches it
    is 1; the double product is [2], and [sample] returns the word of
    index 0. *)
Lemma sample_rounds_target_at_tie :
  words tieTable <> []
  /\ nondecreasing (words tieTable)
  /\ totalWeight tieTable = lastCumulativeWeight (words tieTable)
  /\ (0 <= tieUnit)%Q /\ (tieUnit < 1)%Q
  /\ smallest_reaching (words tieTable)
       (tieUnit * inject_Z (totalWeight tieTable)) 1
  /\ sample tieTable tieUnit = Returns "p"
  /\ ~ samples_smallest tieTable tieUnit.
Proof.
  assert (Idx : forall i e, at_index (words tieTable) i = Some e ->
                  (i = 0 /\ e = mkEntry "p" 2 2 2)
                  \/ (i = 1 /\ e = mkEntry "q" 1 2 3)).
  { intros i e Hi. pose proof (at_index_some _ _ _ Hi) as Ri. simpl in Ri.
    assert (C : i = 0 \/ i = 1) by lia.
    destruct C; subst; cbv in Hi; injection Hi as <-; auto. }
  assert (Above : ~ (tieUnit * inject_Z (totalWeight tieTable)
                     <= inject_Z 2)%Q) by (vm_compute; congruence).
  assert (Run : sample tieTable tieUnit = Returns "p")
    by (vm_compute; reflexivity).
  split; [simpl; discriminate|].
  split.
  { intros i j ei ej Hij Hi Hj.
    destruct (Idx i ei Hi) as [[-> ->]|[-> ->]];
      destruct (Idx j ej Hj) as [[-> ->]|[-> ->]]; simpl; lia. }
  split; [reflexivity|]. split; [discriminate|]. split; [reflexivity|].
  split.
  { split.
    - exists (mkEntry "q" 1 2 3). split; [reflexivity|].
      vm_compute. discriminate.
    - intros j ej Hj Hge.
      destruct (Idx j ej Hj) as [[-> ->]|[-> ->]]; [|lia].
      exfalso. apply Above. exact Hge. }
  split; [exact Run|].
  intros [i [e [[[e' [Hat Hge]] _] [Hi Hs]]]].
  rewrite Run in Hs.
  destruct (Idx i e Hi) as [[-> ->]|[-> ->]].
  - rewrite Hi in Hat. injection Hat as <-. apply Above. exact Hge.
  - discriminate Hs.
Qed.

(** C5, amended: for every table with at least one entry, nondecreasing
    cumulative weights and a [totalWeight] that is not negative, is below
    [2 ^ 53] and does not exceed the last cumulative weight, and every
    [randomUnit] in [0,1), [sample] returns [entries[i].word] for the
    smallest [i] whose cumulative weight is at least the double
    [randomUnit * totalWeight], the product as the code computes it; and
    Scenario D evaluates to ["a"], ["b"], ["b"]. *)
Theorem sample_smallest_index :
  (forall (stats : SamplingTable) (randomUnit : Q),
     words stats <> [] ->
     nondecreasing (words stats) ->
     0 <= totalWeight stats ->
     totalWeight stats < 2 ^ 53 ->
     totalWeight stats <= lastCumulativeWeight (words stats) ->
     (0 <= randomUnit)%Q -> (randomUnit < 1)%Q ->
     samples_smallest_double stats randomUnit)
  /\ sample scenarioD (1 # 10) = Returns "a"
  /\ sample scenarioD (1 # 2) = Returns "b"
  /\ sample scenarioD (95 # 100) = Returns "b".
Proof.
  split; [|repeat split; vm_compute; reflexivity].
  intros stats u Hne Hmono Ht Hsafe Hlast Hu0 Hu1.
  unfold samples_smallest_double, sample.
  apply sampleAt_smallest; auto.
  apply Qle_trans with (y := inject_Z (totalWeight stats)).
  - unfold doubleMul. apply toDouble_below; [| |exact Hsafe].
    + apply Qmult_le_0_compat; [exact Hu0|].
      change 0%Q with (inject_Z 0). rewrite <- Zle_Qle. exact Ht.
    + apply target_below_total; assumption.
  - rewrite <- Zle_Qle. exact Hlast.
Qed.

Lemma scenarioD_nondecreasing : nondecreasing (words scenarioD).
Proof.
  intros i j ei ej Hij Hi Hj.
  pose proof (at_index_some _ _ _ Hi) as Ri.
  pose proof (at_index_some _ _ _ Hj) as Rj.
  simpl in Ri, Rj.
  assert (Ci : i = 0 \/ i = 1) by lia.
  assert (Cj : j = 0 \/ j = 1) by lia.
  destruct Ci, Cj; subst; cbv in Hi, Hj;
    injection Hi as <-; injection Hj as <-; simpl; lia.
Qed.

Lemma sample_smallest_index_witness :
  (words scenarioD <> []
   /\ nondecreasing (words scenarioD)
   /\ 0 <= totalWeight scenarioD
   /\ totalWeight scenarioD < 2 ^ 53
   /\ totalWeight scenarioD <= lastCumulativeWeight (words scenarioD)
   /\ (0 <= 1 # 2)%Q /\ (1 # 2 < 1)%Q)
  /\ samples_smallest_double scenarioD (1 # 2).
Proof.
  assert (H1 : words scenarioD <> []) by (simpl; discriminate).
  assert (H2 : 0 <= totalWeight scenarioD) by (simpl; lia).
  assert (Hs : totalWeight scenarioD < 2 ^ 53) by (vm_compute; reflexivity).
  assert (H3 : totalWeight scenarioD <= lastCumulativeWeight (words scenarioD))
    by (vm_compute; discriminate).
  assert (H4 : (0 <= 1 # 2)%Q) by discriminate.
  assert (H5 : (1 # 2 < 1)%Q) by reflexivity.
  split.
  - repeat split; auto. exact scenarioD_nondecreasing.
  - exact (proj1 sample_smallest_index scenarioD (1 # 2) H1
             scenarioD_nondecreasing H2 Hs H3 H4 H5).
Defined.

(** ** The table of the statistics precomputer *)

Section CumulativeWeights.

Import StatsPrecomputer.

Lemma withCumulative_entries (l : list WordStats) :
  forall c, map statsOfEntry (fst (withCumulative c l)) = l.
Proof.
  induction l as [|s l IH]; intro c; simpl; [reflexivity|].
  specialize (IH (c + ws_numConnections s)).
  destruct (withCumulative (c + ws_numConnections s) l) as [rest final].
  simpl in *. rewrite IH. destruct s; reflexivity.
Qed.

Lemma withCumulative_runningSums (l : list WordStats) :
  forall c, runningSums c (fst (withCumulative c l)).
Proof.
  induction l as [|s l IH]; intro c; simpl; [exact I|].
  specialize (IH (c + ws_numConnections s)).
  destruct (withCumulative (c + ws_numConnections s) l) as [rest final].
  simpl in *. split; [reflexivity|exact IH].
Qed.

Lemma last_default_irrelevant (x : Z) (l : list Z) (d d' : Z) :
  last (x :: l) d = last (x :: l) d'.
Proof.
  revert x. induction l as [|y l IH]; intro x; [reflexivity|].
  change (last (y :: l) d = last (y :: l) d'). apply IH.
Qed.

Lemma withCumulative_total (l : list WordStats) :
  forall c, snd (withCumulative c l)
            = last (map cumulativeWeight (fst (withCumulative c l))) c.
Proof.
  induction l as [|s l IH]; intro c; simpl; [reflexivity|].
  specialize (IH (c + ws_numConnections s)).
  destruct (withCumulative (c + ws_numConnections s) l) as [rest final].
  simpl fst in *. simpl snd in *. rewrite IH.
  destruct rest as [|e rest]; [reflexivity|].
  simpl map.
  rewrite (last_default_irrelevant _ _ _ c). reflexivity.
Qed.

Lemma insertByGraphSize_In (s x : WordStats) (l : list WordStats) :
  In x (insertByGraphSize s l) <-> x = s \/ In x l.
Proof.
  induction l as [|y l IH]; simpl.
  - intuition.
  - destruct (ws_graphSize s <=? ws_graphSize y); simpl; rewrite ?IH;
      intuition.
Qed.

Lemma sortByGraphSize_In (x : WordStats) (l : list WordStats) :
  In x (sortByGraphSize l) <-> In x l.
Proof.
  induction l as [|y l IH]; simpl; [tauto|].
  rewrite insertByGraphSize_In, IH. intuition.
Qed.

Lemma manageable_connected (s : WordStats) :
  manageable s = true -> 0 < ws_numConnections s.
Proof.
  unfold manageable. rewrite !andb_true_iff. intros [[_ H] _]. lia.
Qed.

Lemma runningSums_first (c : Z) (es : list SamplingEntry) (e : SamplingEntry) :
  runningSums c es -> nth_error es 0 = Some e ->
  cumulativeWeight e = c + numConnections e.
Proof.
  destruct es as [|e' es]; simpl; [discriminate|].
  intros [H _] [= <-]. exact H.
Qed.

Lemma runningSums_step (es : list SamplingEntry) :
  forall c n p e,
    runningSums c es ->
    nth_error es n = Some p -> nth_error es (S n) = Some e ->
    cumulativeWeight e = cumulativeWeight p + numConnections e.
Proof.
  induction es as [|e' es IH]; intros c n p e Hrs Hp He.
  - destruct n; discriminate.
  - destruct Hrs as [_ Hrs]. destruct n as [|n].
    + injection Hp as <-. simpl in He.
      eapply runningSums_first; eauto.
    + simpl in Hp, He. eapply IH; eauto.
Qed.

Lemma runningSums_above (es : list SamplingEntry) :
  forall c e,
    runningSums c es ->
    (forall x, In x es -> 0 < numConnections x) ->
    In e es -> c < cumulativeWeight e.
Proof.
  induction es as [|e' es IH]; intros c e Hrs Hpos Hin; [contradiction|].
  destruct Hrs as [H1 Hrs].
  assert (0 < numConnections e') by (apply Hpos; left; reflexivity).
  destruct Hin as [<-|Hin]; [lia|].
  assert (cumulativeWeight e' < cumulativeWeight e);
    [apply IH; auto; intros; apply Hpos; right; assumption|lia].
Qed.

Lemma runningSums_increasing (es : list SamplingEntry) :
  forall c m n p e,
    runningSums c es ->
    (forall x, In x es -> 0 < numConnections x) ->
    (m < n)%nat ->
    nth_error es m = Some p -> nth_error es n = Some e ->
    cumulativeWeight p < cumulativeWeight e.
Proof.
  induction es as [|e' es IH]; intros c m n p e Hrs Hpos Hmn Hp He.
  - destruct m; discriminate.
  - destruct Hrs as [H1 Hrs]. destruct n as [|n]; [lia|]. simpl in He.
    destruct m as [|m].
    + injection Hp as <-.
      eapply runningSums_above; eauto using nth_error_In.
      intros; apply Hpos; right; assumption.
    + simpl in Hp. eapply (IH _ m n); eauto; [|lia].
      intros; apply Hpos; right; assumption.
Qed.

Lemma at_index_nth (A : Type) (l : list A) (i : Z) (x : A) :
  at_index l i = Some x -> 0 <= i /\ nth_error l (Z.to_nat i) = Some x.
Proof.
  unfold at_index. destruct (i <? 0) eqn:E; [discriminate|].
  apply Z.ltb_ge in E. auto.
Qed.

Lemma last_cumulativeWeight (es : list SamplingEntry) :
  last (map cumulativeWeight es) 0 = lastCumulativeWeight es.
Proof.
  unfold lastCumulativeWeight, at_index.
  destruct es as [|e es]; [reflexivity|].
  assert (E : (Z.of_nat (length (e :: es)) - 1 <? 0) = false)
    by (apply Z.ltb_ge; simpl length; lia).
  rewrite E.
  replace (Z.to_nat (Z.of_nat (length (e :: es)) - 1)) with (length es)
    by (simpl length; lia).
  clear E. revert e. induction es as [|e' es IH]; intro e; [reflexivity|].
  change (last (map cumulativeWeight (e :: e' :: es)) 0)
    with (last (map cumulativeWeight (e' :: es)) 0).
  rewrite IH. reflexivity.
Qed.

Lemma main_words (data : EtymologyData) :
  words (main data)
  = fst (withCumulative 0
           (sortByGraphSize (filter manageable (collectStats data)))).
Proof.
  unfold main.
  destruct (withCumulative 0 _) as [ws c]. reflexivity.
Qed.

Lemma main_totalWeight (data : EtymologyData) :
  totalWeight (main data)
  = snd (withCumulative 0
           (sortByGraphSize (filter manageable (collectStats data)))).
Proof.
  unfold main.
  destruct (withCumulative 0 _) as [ws c]. reflexivity.
Qed.

Lemma main_connected (data : EtymologyData) (e : SamplingEntry) :
  In e (words (main data)) -> 0 < numConnections e.
Proof.
  intro Hin.
  assert (Hs : In (statsOfEntry e)
                  (sortByGraphSize (filter manageable (collectStats data)))).
  { rewrite <- (withCumulative_entries _ 0), <- main_words.
    apply in_map. exact Hin. }
  apply sortByGraphSize_In, filter_In in Hs. destruct Hs as [_ Hs].
  apply manageable_connected in Hs. exact Hs.
Qed.

End CumulativeWeights.

(** C6: in the table the precomputer writes, the entries are the filtered
    (and sorted) statistics; [cumulativeWeight[0] = numConnections[0]];
    [cumulativeWeight[i] = cumulativeWeight[i-1] + numConnections[i]] for
    [i >= 1]; [totalWeight] is the last cumulative weight, and 0 when no
    entry survives the filter; every entry has [numConnections > 0], so the
    cumulative weights are strictly increasing. *)
Theorem stats_cumulative_weights :
  forall (data : EtymologyData),
    let t := StatsPrecomputer.main data in
    map statsOfEntry (words t)
    = StatsPrecomputer.sortByGraphSize
        (filter StatsPrecomputer.manageable
           (StatsPrecomputer.collectStats data))
    /\ (forall e, at_index (words t) 0 = Some e ->
                  cumulativeWeight e = numConnections e)
    /\ (forall i p e, 1 <= i ->
          at_index (words t) (i - 1) = Some p ->
          at_index (words t) i = Some e ->
          cumulativeWeight e = cumulativeWeight p + numConnections e)
    /\ totalWeight t = lastCumulativeWeight (words t)
    /\ (words t = [] -> totalWeight t = 0)
    /\ (forall e, In e (words t) -> 0 < numConnections e)
    /\ (forall i j ei ej, i < j ->
          at_index (words t) i = Some ei ->
          at_index (words t) j = Some ej ->
          cumulativeWeight ei < cumulativeWeight ej).
Proof.
  intros data t.
  assert (Hrs : runningSums 0 (words t)).
  { unfold t. rewrite main_words.
    apply withCumulative_runningSums. }
  assert (Htot : totalWeight t = lastCumulativeWeight (words t)).
  { unfold t. rewrite main_totalWeight, main_words,
      withCumulative_total. apply last_cumulativeWeight. }
  split; [unfold t; rewrite main_words; apply withCumulative_entries|].
  split.
  { intros e He. apply at_index_nth in He. destruct He as [_ He].
    simpl in He. pose proof (runningSums_first _ _ _ Hrs He). lia. }
  split.
  { intros i p e Hi Hp He.
    apply at_index_nth in Hp, He. destruct Hp as [_ Hp], He as [_ He].
    replace (Z.to_nat i) with (S (Z.to_nat (i - 1))) in He by lia.
    eapply runningSums_step; eauto. }
  split; [exact Htot|].
  split; [intro E; rewrite Htot, E; reflexivity|].
  split; [apply main_connected|].
  intros i j ei ej Hij Hi Hj.
  apply at_index_nth in Hi, Hj. destruct Hi as [Hi0 Hi], Hj as [Hj0 Hj].
  eapply (runningSums_increasing _ 0 (Z.to_nat i) (Z.to_nat j)); eauto.
  - apply main_connected.
  - lia.
Qed.

Lemma stats_cumulative_weights_witness :
  totalWeight (StatsPrecomputer.main scenarioA) = 4
  /\ totalWeight (StatsPrecomputer.main scenarioA)
     = lastCumulativeWeight (words (StatsPrecomputer.main scenarioA)).
Proof.
  split; [reflexivity|].
  exact (proj1 (proj2 (proj2 (proj2
           (stats_cumulative_weights scenarioA))))).
Defined.

(** ** [getRandomWord] *)

Lemma firstConnected_some (data : EtymologyData) (ks : list string) :
  (exists w entry, In w ks /\ data_get data w = Some entry
                   /\ relatedWords entry <> []) ->
  exists w, firstConnected data ks = Some w.
Proof.
  induction ks as [|k ks IH]; intros [w [entry [Hin [Hget Hrel]]]].
  - contradiction.
  - simpl. destruct (data_get data k) as [ek|] eqn:Ek.
    + destruct (Nat.ltb 0 (length (relatedWords ek))) eqn:L; [eauto|].
      apply Nat.ltb_ge in L.
      destruct Hin as [->|Hin].
      * rewrite Hget in Ek. injection Ek as <-.
        destruct (relatedWords entry); [congruence|simpl in L; lia].
      * apply IH. eauto.
    + destruct Hin as [->|Hin]; [congruence|]. apply IH. eauto.
Qed.

Lemma firstConnected_none (data : EtymologyData) (ks : list string) :
  (forall w entry, In w ks -> data_get data w = Some entry ->
                   relatedWords entry = []) ->
  firstConnected data ks = None.
Proof.
  induction ks as [|k ks IH]; intro H; [reflexivity|].
  simpl. destruct (data_get data k) as [ek|] eqn:Ek.
  - rewrite (H k ek (or_introl eq_refl) Ek). simpl.
    apply IH. intros w entry Hin. apply H. right. exact Hin.
  - apply IH. intros w entry Hin. apply H. right. exact Hin.
Qed.

Lemma at_index_member (A : Type) (l : list A) (i : Z) (x : A) :
  at_index l i = Some x -> In x l.
Proof.
  unfold at_index. destruct (i <? 0); [discriminate|]. apply nth_error_In.
Qed.

Lemma pickX_none (attemptsLeft : nat) (data : EtymologyData)
  (ws : list string) (rand : nat -> Q) :
  (forall w entry, In w ws -> data_get data w = Some entry ->
                   relatedWords entry = []) ->
  forall calls, fst (MemStorage.pickX attemptsLeft data ws rand calls) = None.
Proof.
  intro H. induction attemptsLeft as [|k IH]; intro calls; [reflexivity|].
  simpl.
  destruct (at_index ws _) as [candidate|] eqn:A; [|apply IH].
  destruct (data_get data candidate) as [entry|] eqn:G; [|apply IH].
  rewrite (H candidate entry (at_index_member _ _ _ _ A) G). simpl.
  apply IH.
Qed.

(** C7, as stated, fails: the dictionary with the single word ["a"], which
    has no related word, is not empty, and both [getRandomWord] of the server
    return [undefined] on it: the one with the sampling table when the table
    is unavailable, the one that samples pairs whatever [Math.random()]
    returns. *)
Lemma getRandomWord_absent_on_lonely_word :
  data_keys lonelyData <> []
  /\ (forall randomUnit,
        MemStorageStats.getRandomWord lonelyData None randomUnit
        = Returns None)
  /\ (forall rand, MemStorage.getRandomWord lonelyData rand = None).
Proof.
  split; [simpl; discriminate|].
  split; [reflexivity|].
  intro rand. unfold MemStorage.getRandomWord.
  simpl Nat.eqb. cbv iota.
  pose proof (pickX_none MemStorage.maxAttempts lonelyData
                (data_keys lonelyData) rand) as H.
  destruct (MemStorage.pickX _ _ _ _ _) as [[[wordX entryX]|] calls] eqn:P;
    [|reflexivity].
  specialize (H ltac:(intros w entry [<-|[]] G; cbv in G;
                      injection G as <-; reflexivity) 0%nat).
  rewrite P in H. discriminate.
Qed.

(** C7, amended: [getRandomWord] with the sampling table returns some word
    for every dictionary in which at least one word has a related word,
    whether the table is unavailable, empty or usable; when no word has a
    related word it returns [undefined] unless the table has an entry, and
    so does, for every dictionary without related words, the [getRandomWord]
    that samples pairs. *)
Theorem getRandomWord_some_when_connected :
  (forall (data : EtymologyData) (wordStats : option SamplingTable)
          (randomUnit : Q),
     hasConnectedWord data ->
     exists w, MemStorageStats.getRandomWord data wordStats randomUnit
               = Returns (Some w))
  /\ (forall (data : EtymologyData) (wordStats : option SamplingTable)
             (randomUnit : Q),
        ~ hasConnectedWord data ->
        (wordStats = None \/ exists t, wordStats = Some (mkTable t [])) ->
        MemStorageStats.getRandomWord data wordStats randomUnit
        = Returns None)
  /\ (forall (data : EtymologyData) (rand : nat -> Q),
        ~ hasConnectedWord data ->
        MemStorage.getRandomWord data rand = None).
Proof.
  split; [|split].
  - intros data wordStats u Hc.
    assert (Hf : exists w, firstConnected data (data_keys data) = Some w)
      by (apply firstConnected_some; exact Hc).
    destruct Hf as [w Hw].
    destruct wordStats as [stats|].
    + destruct (words stats) as [|e ws] eqn:W.
      * exists w. unfold MemStorageStats.getRandomWord. rewrite W.
        simpl. rewrite Hw. reflexivity.
      * destruct (getRandomWord_fast_path data stats u) as [e' [_ He']];
          [congruence|]. eauto.
    + exists w. simpl. rewrite Hw. reflexivity.
  - intros data wordStats u Hn Ht.
    assert (Hf : firstConnected data (data_keys data) = None).
    { apply firstConnected_none. intros w entry Hin Hget.
      destruct (relatedWords entry) eqn:R; [reflexivity|].
      exfalso. apply Hn. exists w, entry. repeat split; auto. congruence. }
    destruct Ht as [->|[t ->]]; simpl; rewrite Hf; reflexivity.
  - intros data rand Hn. unfold MemStorage.getRandomWord.
    destruct (Nat.eqb (length (data_keys data)) 0); [reflexivity|].
    pose proof (pickX_none MemStorage.maxAttempts data (data_keys data) rand)
      as H.
    destruct (MemStorage.pickX _ _ _ _ _) as [[[wordX entryX]|] calls] eqn:P;
      [|reflexivity].
    assert (Hall : forall w entry, In w (data_keys data) ->
                     data_get data w = Some entry -> relatedWords entry = []).
    { intros w entry Hin Hget.
      destruct (relatedWords entry) eqn:R; [reflexivity|].
      exfalso. apply Hn. exists w, entry. repeat split; auto. congruence. }
    specialize (H Hall 0%nat). rewrite P in H. discriminate.
Qed.

Lemma scenarioA_connected : hasConnectedWord scenarioA.
Proof.
  exists "a", (mkWordEntry "A" ["b"; "c"]).
  split; [left; reflexivity|]. split; [reflexivity|discriminate].
Qed.

Lemma getRandomWord_some_when_connected_witness :
  hasConnectedWord scenarioA
  /\ exists w, MemStorageStats.getRandomWord scenarioA None (1 # 2)
               = Returns (Some w).
Proof.
  split.
  - exact scenarioA_connected.
  - exact (proj1 getRandomWord_some_when_connected scenarioA None (1 # 2)
             scenarioA_connected).
Defined.

(** *** The Lambda port's [getRandomWord] *)

Lemma randomIndex_in_range (u : Q) (n : nat) :
  (0 <= u)%Q -> (u < 1)%Q -> (0 < n)%nat ->
  0 <= Qfloor (u * inject_Z (Z.of_nat n)) < Z.of_nat n.
Proof.
  intros H0 H1 Hn.
  assert (Hn' : (0 < inject_Z (Z.of_nat n))%Q).
  { change 0%Q with (inject_Z 0). rewrite <- Zlt_Qlt. lia. }
  split.
  - change 0 with (Qfloor 0). apply Qfloor_resp_le.
    apply Qmult_le_0_compat; [exact H0|apply Qlt_le_weak; exact Hn'].
  - rewrite Zlt_Qlt.
    apply Qle_lt_trans with (y := (u * inject_Z (Z.of_nat n))%Q);
      [apply Qfloor_le|].
    setoid_replace (inject_Z (Z.of_nat n))
      with (1 * inject_Z (Z.of_nat n))%Q at 2 by ring.
    apply Qmult_lt_compat_r; assumption.
Qed.

Lemma at_index_string_in_range (l : list string) (i : Z) :
  0 <= i < Z.of_nat (length l) -> exists x, at_index l i = Some x.
Proof.
  intros [H0 H1]. unfold at_index.
  destruct (i <? 0) eqn:E; [apply Z.ltb_lt in E; lia|].
  destruct (nth_error l (Z.to_nat i)) eqn:N; [eauto|].
  apply nth_error_None in N. lia.
Qed.

(** The Lambda port's [getRandomWord] has a last resort: it returns a word
    for every dictionary that is not empty. *)
Lemma lambda_getRandomWord_some (data : EtymologyData)
  (parsed : option SamplingTable) (randomUnit : Q) :
  data_keys data <> [] -> (0 <= randomUnit)%Q -> (randomUnit < 1)%Q ->
  exists w, LambdaRandom.getRandomWord data parsed randomUnit
            = Returns (Some w).
Proof.
  intros Hne H0 H1. pose proof (nonempty_length _ _ Hne) as Hlen.
  assert (Hfb : exists w,
             match firstConnected data (data_keys data) with
             | Some w => Returns (Some w)
             | None =>
                 if Nat.ltb 0 (length (data_keys data))
                 then Returns
                        (at_index (data_keys data)
                           (Qfloor (randomUnit
                                    * inject_Z
                                        (Z.of_nat (length (data_keys data))))))
                 else ErrorThrown
             end = Returns (Some w)).
  { destruct (firstConnected data (data_keys data)) as [w|]; [eauto|].
    assert (E : Nat.ltb 0 (length (data_keys data)) = true)
      by (apply Nat.ltb_lt; exact Hlen).
    rewrite E.
    destruct (at_index_string_in_range (data_keys data)
                (Qfloor (randomUnit
                         * inject_Z (Z.of_nat (length (data_keys data))))))
      as [w Hw]; [apply randomIndex_in_range; assumption|].
    exists w. rewrite Hw. reflexivity. }
  unfold LambdaRandom.getRandomWord.
  destruct (LambdaRandom.loadWordStats parsed) as [stats|]; [|exact Hfb].
  destruct (words stats) as [|e ws] eqn:W; [exact Hfb|].
  destruct (sampleAt_returns_entry (words stats)
              (doubleMul randomUnit (inject_Z (totalWeight stats))))
    as [e' [_ He']]; [congruence|].
  exists (entry_word e'). simpl Nat.ltb. cbv iota.
  unfold sample. rewrite He'. reflexivity.
Qed.

(** ** Sets and maps *)

Lemma set_has_In (s : list string) (x : string) :
  set_has s x = true <-> In x s.
Proof.
  unfold set_has. rewrite existsb_exists. split.
  - intros [y [Hin Heq]]. apply String.eqb_eq in Heq. subst. exact Hin.
  - intro Hin. exists x. split; [exact Hin|apply String.eqb_refl].
Qed.

Lemma set_has_not_In (s : list string) (x : string) :
  set_has s x = false <-> ~ In x s.
Proof.
  rewrite <- set_has_In. destruct (set_has s x); split; congruence.
Qed.

Lemma set_add_In (s : list string) (x y : string) :
  In y (set_add s x) <-> In y s \/ y = x.
Proof.
  unfold set_add. destruct (set_has s x) eqn:E.
  - apply set_has_In in E. split; [auto|]. intros [H| ->]; assumption.
  - rewrite in_app_iff. simpl. intuition.
Qed.

Lemma set_add_NoDup (s : list string) (x : string) :
  NoDup s -> NoDup (set_add s x).
Proof.
  intro H. unfold set_add. destruct (set_has s x) eqn:E; [exact H|].
  apply set_has_not_In in E.
  apply NoDup_app; [exact H|repeat constructor; simpl; tauto|].
  intros y Hy [<-|[]]. exact (E Hy).
Qed.

Lemma fold_set_add_In (cs s : list string) (y : string) :
  In y (fold_left set_add cs s) <-> In y s \/ In y cs.
Proof.
  revert s. induction cs as [|c cs IH]; intro s; simpl; [tauto|].
  rewrite IH, set_add_In. intuition.
Qed.

Lemma fold_set_add_NoDup (cs s : list string) :
  NoDup s -> NoDup (fold_left set_add cs s).
Proof.
  revert s. induction cs as [|c cs IH]; intros s H; simpl; [exact H|].
  apply IH, set_add_NoDup, H.
Qed.

Lemma map_get_In (V : Type) (m : list (string * V)) (k : string) (v : V) :
  map_get m k = Some v -> In (k, v) m.
Proof.
  induction m as [|[k' v'] m IH]; simpl; [discriminate|].
  destruct (String.eqb k' k) eqn:E.
  - apply String.eqb_eq in E. intros [= <-]. left. congruence.
  - intro H. right. apply IH, H.
Qed.

Lemma map_get_set_same (V : Type) (m : list (string * V)) (k : string)
  (v : V) : map_get (map_set m k v) k = Some v.
Proof.
  induction m as [|[k' v'] m IH]; simpl.
  - rewrite String.eqb_refl. reflexivity.
  - destruct (String.eqb k' k) eqn:E; simpl; rewrite E; auto.
Qed.

Lemma map_get_set_other (V : Type) (m : list (string * V)) (k k' : string)
  (v : V) : k <> k' -> map_get (map_set m k v) k' = map_get m k'.
Proof.
  intro Hne. induction m as [|[k0 v0] m IH]; simpl.
  - destruct (String.eqb k k') eqn:E; [|reflexivity].
    apply String.eqb_eq in E. contradiction.
  - destruct (String.eqb k0 k) eqn:E; simpl.
    + apply String.eqb_eq in E. subst k0.
      destruct (String.eqb k k') eqn:E'; [|reflexivity].
      apply String.eqb_eq in E'. contradiction.
    + rewrite IH. reflexivity.
Qed.

(** ** The parent -> children map *)

Section ChildrenByParent.

Variable nodeDepthMap : list (string * Z).

Lemma addChild_recordsOnly (R : string -> string -> Prop)
  (m : list (string * list string)) (p c : string) :
  recordsOnly R m -> R p c -> recordsOnly R (addChild m p c).
Proof.
  intros Hm Hpc. induction m as [|[k ks] m IH]; simpl.
  - intros p' cs' c' [[= <- <-]|[]] [<-|[]]. exact Hpc.
  - destruct (String.eqb k p) eqn:E.
    + apply String.eqb_eq in E. subst k.
      intros p' cs' c' [[= <- <-]|Hin] Hc.
      * apply set_add_In in Hc. destruct Hc as [Hc| ->]; [|exact Hpc].
        apply (Hm p ks); [left; reflexivity|exact Hc].
      * apply (Hm p' cs'); [right; exact Hin|exact Hc].
    + intros p' cs' c' [[= <- <-]|Hin] Hc.
      * apply (Hm k ks); [left; reflexivity|exact Hc].
      * apply IH with (cs := cs'); auto.
        intros p0 cs0 c0 H0. apply (Hm p0 cs0). right. exact H0.
Qed.

Lemma childrenOf_addChild (m : list (string * list string))
  (p c p' c' : string) :
  In c' (childrenOf (addChild m p c) p')
  <-> In c' (childrenOf m p') \/ (p' = p /\ c' = c).
Proof.
  unfold childrenOf. induction m as [|[k ks] m IH]; simpl.
  - destruct (String.eqb p p') eqn:E.
    + apply String.eqb_eq in E. subst. simpl. intuition.
    + simpl. split; [tauto|]. intros [[]|[-> _]].
      rewrite String.eqb_refl in E. discriminate.
  - destruct (String.eqb k p) eqn:E; simpl.
    + apply String.eqb_eq in E. subst k.
      destruct (String.eqb p p') eqn:E'.
      * apply String.eqb_eq in E'. subst.
        rewrite set_add_In. intuition.
      * split; [tauto|]. intros [H|[-> _]]; [exact H|].
        rewrite String.eqb_refl in E'. discriminate.
    + destruct (String.eqb k p') eqn:E'.
      * apply String.eqb_eq in E'. subst k.
        split; [tauto|]. intros [H|[-> _]]; [exact H|].
        rewrite String.eqb_refl in E. discriminate.
      * exact IH.
Qed.

Lemma addChild_NoDup (m : list (string * list string)) (p c : string) :
  (forall k ks, In (k, ks) m -> NoDup ks) ->
  forall k ks, In (k, ks) (addChild m p c) -> NoDup ks.
Proof.
  induction m as [|[k0 ks0] m IH]; simpl; intros Hm k ks.
  - intros [[= <- <-]|[]]. repeat constructor. simpl. tauto.
  - destruct (String.eqb k0 p).
    + intros [[= <- <-]|Hin].
      * apply set_add_NoDup. apply (Hm k0). left. reflexivity.
      * apply (Hm k). right. exact Hin.
    + intros [[= <- <-]|Hin].
      * apply (Hm k0). left. reflexivity.
      * apply (IH (fun k' ks' H => Hm k' ks' (or_intror H)) k). exact Hin.
Qed.

Lemma derivedChild_cons (e : GraphEdge) (es : list GraphEdge)
  (p c : string) :
  derivedChild nodeDepthMap (es ++ [e]) p c
  <-> derivedChild nodeDepthMap es p c
      \/ (((from e = p /\ to e = c) \/ (to e = p /\ from e = c))
          /\ depthOr0 nodeDepthMap p < depthOr0 nodeDepthMap c).
Proof.
  unfold derivedChild. split.
  - intros [e' [Hin [Hends Hd]]]. apply in_app_iff in Hin.
    destruct Hin as [Hin|[<-|[]]]; [left; eauto|right; auto].
  - intros [[e' [Hin H]]|H].
    + exists e'. split; [apply in_app_iff; left; exact Hin|exact H].
    + exists e. split; [apply in_app_iff; right; left; reflexivity|exact H].
Qed.

Lemma addEdgeToChildren_childrenOf (m : list (string * list string))
  (e : GraphEdge) (p c : string) :
  In c (childrenOf (addEdgeToChildren nodeDepthMap m e) p)
  <-> In c (childrenOf m p)
      \/ (((from e = p /\ to e = c) \/ (to e = p /\ from e = c))
          /\ depthOr0 nodeDepthMap p < depthOr0 nodeDepthMap c).
Proof.
  unfold addEdgeToChildren.
  destruct (depthOr0 nodeDepthMap (from e) <? depthOr0 nodeDepthMap (to e))
    eqn:E1.
  - apply Z.ltb_lt in E1. rewrite childrenOf_addChild.
    split; (intros [H|H]; [left; exact H|right]).
    + destruct H as [-> ->]. auto.
    + destruct H as [[[<- <-]|[<- <-]] Hd]; [auto|lia].
  - apply Z.ltb_ge in E1.
    destruct (depthOr0 nodeDepthMap (to e) <? depthOr0 nodeDepthMap (from e))
      eqn:E2.
    + apply Z.ltb_lt in E2. rewrite childrenOf_addChild.
      split; (intros [H|H]; [left; exact H|right]).
      * destruct H as [-> ->]. auto.
      * destruct H as [[[<- <-]|[<- <-]] Hd]; [lia|auto].
    + apply Z.ltb_ge in E2. split; [auto|].
      intros [H|[[[<- <-]|[<- <-]] Hd]]; [exact H|lia|lia].
Qed.

Lemma fold_addEdge_childrenOf (es : list GraphEdge) :
  forall (done : list GraphEdge) (m : list (string * list string)),
    (forall p c, In c (childrenOf m p)
                 <-> derivedChild nodeDepthMap done p c) ->
    forall p c,
      In c (childrenOf (fold_left (addEdgeToChildren nodeDepthMap) es m) p)
      <-> derivedChild nodeDepthMap (done ++ es) p c.
Proof.
  induction es as [|e es IH]; intros done m Hm p c; simpl.
  - rewrite app_nil_r. apply Hm.
  - replace (done ++ e :: es) with ((done ++ [e]) ++ es)
      by (rewrite <- app_assoc; reflexivity).
    apply IH. intros p' c'.
    rewrite addEdgeToChildren_childrenOf, derivedChild_cons, Hm. tauto.
Qed.

(** The map records exactly the derived children. *)
Lemma buildChildrenByParent_childrenOf (es : list GraphEdge) (p c : string) :
  In c (childrenOf (buildChildrenByParent nodeDepthMap es) p)
  <-> derivedChild nodeDepthMap es p c.
Proof.
  unfold buildChildrenByParent.
  apply (fold_addEdge_childrenOf es []).
  intros p' c'. unfold childrenOf, derivedChild. simpl.
  split; [tauto|]. intros [e [[] _]].
Qed.

Lemma fold_addEdge_recordsOnly (R : string -> string -> Prop)
  (es : list GraphEdge) :
  (forall e, In e es ->
     depthOr0 nodeDepthMap (from e) <> depthOr0 nodeDepthMap (to e) ->
     if depthOr0 nodeDepthMap (from e) <? depthOr0 nodeDepthMap (to e)
     then R (from e) (to e) else R (to e) (from e)) ->
  forall m, recordsOnly R m ->
    recordsOnly R (fold_left (addEdgeToChildren nodeDepthMap) es m).
Proof.
  induction es as [|e es IH]; intros He m Hm; simpl; [exact Hm|].
  apply IH; [intros e' Hin; apply He; right; exact Hin|].
  unfold addEdgeToChildren.
  pose proof (He e (or_introl eq_refl)) as H.
  destruct (depthOr0 nodeDepthMap (from e) <? depthOr0 nodeDepthMap (to e))
    eqn:E1.
  - apply addChild_recordsOnly; [exact Hm|]. apply H.
    apply Z.ltb_lt in E1. lia.
  - destruct (depthOr0 nodeDepthMap (to e) <? depthOr0 nodeDepthMap (from e))
      eqn:E2; [|exact Hm].
    apply addChild_recordsOnly; [exact Hm|]. apply H.
    apply Z.ltb_lt in E2. lia.
Qed.

(** Every recorded child is a derived child of its parent. *)
Lemma buildChildrenByParent_sound (es : list GraphEdge) :
  recordsOnly (derivedChild nodeDepthMap es)
    (buildChildrenByParent nodeDepthMap es).
Proof.
  apply fold_addEdge_recordsOnly; [|intros p cs c []].
  intros e Hin Hne.
  destruct (depthOr0 nodeDepthMap (from e) <? depthOr0 nodeDepthMap (to e))
    eqn:E1.
  - apply Z.ltb_lt in E1. exists e. auto.
  - apply Z.ltb_ge in E1. exists e. split; [exact Hin|]. split; [auto|lia].
Qed.

Lemma fold_addEdge_NoDup (es : list GraphEdge) :
  forall m, (forall k ks, In (k, ks) m -> NoDup ks) ->
    forall k ks,
      In (k, ks) (fold_left (addEdgeToChildren nodeDepthMap) es m) ->
      NoDup ks.
Proof.
  induction es as [|e es IH]; intros m Hm; simpl; [exact Hm|].
  apply IH. unfold addEdgeToChildren.
  destruct (_ <? _); [apply addChild_NoDup, Hm|].
  destruct (_ <? _); [apply addChild_NoDup, Hm|exact Hm].
Qed.

End ChildrenByParent.

(** ** Marking hubs and closing the marks *)

Lemma markChild_fold_spec (cs : list string) :
  forall (r : list string) (ch : bool),
    let res := fold_left markChild cs (r, ch) in
    incl r (fst res)
    /\ (forall x, In x (fst res) -> In x r \/ In x cs)
    /\ (NoDup r -> NoDup (fst res))
    /\ (snd res = false ->
        ch = false /\ fst res = r /\ forall c, In c cs -> In c r)
    /\ (snd res = true -> ch = true \/ (length r < length (fst res))%nat)
    /\ (length r <= length (fst res))%nat.
Proof.
  induction cs as [|c cs IH]; intros r ch; simpl.
  - repeat split; auto using incl_refl; try tauto; try contradiction.
  - unfold markChild at 2. destruct (set_has r c) eqn:E.
    + apply set_has_In in E.
      destruct (IH r ch) as (I1 & I2 & I3 & I4 & I5 & I6).
      repeat split; auto.
      * intros x Hx. destruct (I2 x Hx); auto.
      * apply I4; assumption.
      * apply I4; assumption.
      * intros c' [<-|Hc]; [exact E|]. apply I4; assumption.
    + assert (Hadd : set_add r c = r ++ [c])
        by (unfold set_add; rewrite E; reflexivity).
      destruct (IH (set_add r c) true) as (I1 & I2 & I3 & I4 & I5 & I6).
      assert (Hlen : (length r < length (set_add r c))%nat)
        by (rewrite Hadd, length_app; simpl; lia).
      repeat split.
      * intros x Hx. apply I1, set_add_In. left. exact Hx.
      * intros x Hx. destruct (I2 x Hx) as [H|H]; [|auto].
        apply set_add_In in H. destruct H as [H| ->]; auto.
      * intro Hnd. apply I3, set_add_NoDup, Hnd.
      * destruct (I4 H) as [Habs _]. discriminate.
      * destruct (I4 H) as [Habs _]. discriminate.
      * destruct (I4 H) as [Habs _]. discriminate.
      * intros _. right. lia.
      * lia.
Qed.

Lemma markDescendants_fold_spec (m : list (string * list string)) :
  forall (r : list string) (ch : bool),
    let res := fold_left markDescendants m (r, ch) in
    incl r (fst res)
    /\ (forall x, In x (fst res) ->
          In x r \/ exists p cs, In (p, cs) m /\ In x cs)
    /\ (NoDup r -> NoDup (fst res))
    /\ (snd res = false -> ch = false /\ fst res = r /\ closedUnder m r)
    /\ (snd res = true -> ch = true \/ (length r < length (fst res))%nat)
    /\ (length r <= length (fst res))%nat.
Proof.
  induction m as [|[p cs] m IH]; intros r ch; simpl.
  - repeat split; auto using incl_refl; try tauto.
    intros p cs [].
  - unfold markDescendants at 2. simpl fst.
    destruct (set_has r p) eqn:E.
    + pose proof (markChild_fold_spec cs r ch) as M. simpl in M.
      destruct (fold_left markChild cs (r, ch)) as [r1 ch1] eqn:F.
      simpl in M. destruct M as (M1 & M2 & M3 & M4 & M5 & M6).
      destruct (IH r1 ch1) as (I1 & I2 & I3 & I4 & I5 & I6).
      repeat split.
      * intros x Hx. apply I1, M1, Hx.
      * intros x Hx. destruct (I2 x Hx) as [H|[p' [cs' [H1 H2]]]].
        -- destruct (M2 x H) as [H'|H']; [auto|].
           right. exists p, cs. auto.
        -- right. exists p', cs'. auto.
      * intro Hnd. auto.
      * destruct (I4 H) as [Hch1 _]. apply M4, Hch1.
      * destruct (I4 H) as [Hch1 [Hr1 _]].
        destruct (M4 Hch1) as [_ [Hr _]]. congruence.
      * destruct (I4 H) as [Hch1 [Hr1 Hcl]].
        destruct (M4 Hch1) as [_ [Hr Hcs]]. subst r1.
        intros p' cs' [[= <- <-]|Hin] Hp c Hc; [auto|].
        apply (Hcl p' cs'); auto.
      * intro H. destruct (I5 H) as [Hch1|Hlt]; [|right; lia].
        destruct (M5 Hch1) as [?|?]; [auto|right; lia].
      * lia.
    + apply set_has_not_In in E.
      destruct (IH r ch) as (I1 & I2 & I3 & I4 & I5 & I6).
      repeat split; auto.
      * intros x Hx. destruct (I2 x Hx) as [H|[p' [cs' [H1 H2]]]]; [auto|].
        right. exists p', cs'. auto.
      * apply I4; assumption.
      * apply I4; assumption.
      * destruct (I4 H) as [_ [_ Hcl]].
        intros p' cs' [[= <- <-]|Hin] Hp c Hc; [contradiction|].
        apply (Hcl p' cs'); auto.
Qed.

Lemma closurePass_spec (m : list (string * list string))
  (r : list string) :
  let res := closurePass m r in
  incl r (fst res)
  /\ (forall x, In x (fst res) ->
        In x r \/ exists p cs, In (p, cs) m /\ In x cs)
  /\ (NoDup r -> NoDup (fst res))
  /\ (snd res = false -> fst res = r /\ closedUnder m r)
  /\ (snd res = true -> (length r < length (fst res))%nat).
Proof.
  unfold closurePass.
  destruct (markDescendants_fold_spec m r false)
    as (I1 & I2 & I3 & I4 & I5 & I6).
  repeat split; auto.
  - apply I4; assumption.
  - apply I4; assumption.
  - intro H. destruct (I5 H) as [?|?]; [discriminate|assumption].
Qed.

(** All children recorded in the map. *)
Lemma In_all_children (m : list (string * list string)) (x : string) :
  In x (concat (map snd m)) <-> exists p cs, In (p, cs) m /\ In x cs.
Proof.
  rewrite in_concat. split.
  - intros [cs [Hcs Hx]]. apply in_map_iff in Hcs.
    destruct Hcs as [[p cs'] [<- Hin]]. eauto.
  - intros [p [cs [Hin Hx]]]. exists cs. split; [|exact Hx].
    apply in_map_iff. exists (p, cs). auto.
Qed.

(** The loop leaves with [changed = false] before the budget ends: the marks
    it returns are closed, extend the ones it started from, and only add
    recorded children. *)
Lemma closureLoop_spec (m : list (string * list string)) (budget : nat) :
  forall r,
    NoDup r -> incl r (concat (map snd m)) ->
    (length (concat (map snd m)) - length r < budget)%nat ->
    let r' := closureLoop budget m r in
    closedUnder m r' /\ incl r r' /\ incl r' (concat (map snd m))
    /\ NoDup r'.
Proof.
  induction budget as [|b IH]; intros r Hnd Hincl Hb; [lia|].
  simpl.
  destruct (closurePass_spec m r) as (P1 & P2 & P3 & P4 & P5).
  destruct (closurePass m r) as [r1 changed]. simpl in *.
  assert (Hincl1 : incl r1 (concat (map snd m))).
  { intros x Hx. destruct (P2 x Hx) as [H|H]; [auto|].
    apply In_all_children. exact H. }
  destruct changed.
  - specialize (P5 eq_refl).
    pose proof (NoDup_incl_length (P3 Hnd) Hincl1) as Hle.
    destruct (IH r1) as (C1 & C2 & C3 & C4); auto; [lia|].
    repeat split; auto. intros x Hx. apply C2, P1, Hx.
  - destruct (P4 eq_refl) as [-> Hcl]. repeat split; auto using incl_refl.
Qed.

(** A larger budget than the one of [nodesToRemoveOf] changes nothing. *)
Lemma closureLoop_budget_irrelevant (m : list (string * list string))
  (budget : nat) :
  forall r,
    NoDup r -> incl r (concat (map snd m)) ->
    (length (concat (map snd m)) - length r < budget)%nat ->
    forall budget', (budget <= budget')%nat ->
    closureLoop budget' m r = closureLoop budget m r.
Proof.
  induction budget as [|b IH]; intros r Hnd Hincl Hb budget' Hle; [lia|].
  destruct budget' as [|b']; [lia|]. simpl.
  destruct (closurePass_spec m r) as (P1 & P2 & P3 & P4 & P5).
  destruct (closurePass m r) as [r1 changed]. simpl in *.
  destruct changed; [|reflexivity].
  specialize (P5 eq_refl).
  assert (Hincl1 : incl r1 (concat (map snd m))).
  { intros x Hx. destruct (P2 x Hx) as [H|H]; [auto|].
    apply In_all_children. exact H. }
  pose proof (NoDup_incl_length (P3 Hnd) Hincl1) as Hlen.
  apply IH; auto; lia.
Qed.

Section MarkHubs.

Variable nodeDepthMap : list (string * Z).

Lemma markHub_fold_spec (m : list (string * list string)) :
  forall r,
    let r' := fold_left (markHub nodeDepthMap) m r in
    incl r r'
    /\ (forall x, In x r' -> In x r \/ exists p cs, In (p, cs) m /\ In x cs)
    /\ (NoDup r -> NoDup r')
    /\ (forall p cs d c,
          In (p, cs) m -> map_get nodeDepthMap p = Some d -> 1 <= d ->
          (HUB_THRESHOLD <= length cs)%nat -> In c cs -> In c r').
Proof.
  induction m as [|[p cs] m IH]; intro r; simpl.
  - repeat split; auto using incl_refl. intros p cs d c [].
  - destruct (IH (markHub nodeDepthMap r (p, cs))) as (I1 & I2 & I3 & I4).
    assert (Hm : incl r (markHub nodeDepthMap r (p, cs))
                 /\ (forall x, In x (markHub nodeDepthMap r (p, cs)) ->
                       In x r \/ In x cs)
                 /\ (NoDup r -> NoDup (markHub nodeDepthMap r (p, cs)))).
    { unfold markHub. destruct (map_get nodeDepthMap p) as [d|];
        [|repeat split; auto using incl_refl].
      destruct (_ && _)%bool; [|repeat split; auto using incl_refl].
      repeat split.
      - intros x Hx. apply fold_set_add_In. auto.
      - intros x Hx. apply fold_set_add_In in Hx. exact Hx.
      - apply fold_set_add_NoDup. }
    destruct Hm as (M1 & M2 & M3).
    repeat split.
    + intros x Hx. apply I1, M1, Hx.
    + intros x Hx. destruct (I2 x Hx) as [H|[p' [cs' [H1 H2]]]].
      * destruct (M2 x H); [auto|]. right. exists p, cs. auto.
      * right. exists p', cs'. auto.
    + auto.
    + intros p' cs' d c [[= <- <-]|Hin] Hd H1 Hlen Hc.
      * apply I1. unfold markHub. rewrite Hd.
        assert (E : ((1 <=? d) && Nat.leb HUB_THRESHOLD (length cs))%bool
                    = true).
        { apply andb_true_iff. split; [apply Z.leb_le; exact H1|].
          apply Nat.leb_le. exact Hlen. }
        rewrite E. apply fold_set_add_In. auto.
      * eapply I4; eauto.
Qed.

Variable es : list GraphEdge.

(** The marks of the hub pruner: closed under the recorded children, they
    hold the children of every hub, and every mark is a derived child of some
    word. *)
Lemma nodesToRemoveOf_spec :
  let m := buildChildrenByParent nodeDepthMap es in
  let marks := nodesToRemoveOf nodeDepthMap es in
  closedUnder m marks
  /\ (forall p cs d c,
        In (p, cs) m -> map_get nodeDepthMap p = Some d -> 1 <= d ->
        (HUB_THRESHOLD <= length cs)%nat -> In c cs -> In c marks)
  /\ (forall x, In x marks -> exists p, derivedChild nodeDepthMap es p x).
Proof.
  intros m marks.
  destruct (markHub_fold_spec m []) as (H1 & H2 & H3 & H4).
  fold (markHubChildren nodeDepthMap m) in H1, H2, H3, H4.
  assert (Hincl : incl (markHubChildren nodeDepthMap m)
                    (concat (map snd m))).
  { intros x Hx. destruct (H2 x Hx) as [[]|H].
    apply In_all_children. exact H. }
  destruct (closureLoop_spec m (closureBudget m)
              (markHubChildren nodeDepthMap m))
    as (C1 & C2 & C3 & C4); auto.
  { apply H3. constructor. }
  { unfold closureBudget. lia. }
  repeat split.
  - exact C1.
  - intros p cs d c Hin Hd Hd1 Hlen Hc. apply C2. eapply H4; eauto.
  - intros x Hx. apply C3, In_all_children in Hx.
    destruct Hx as [p [cs [Hin Hc]]]. exists p.
    exact (buildChildrenByParent_sound nodeDepthMap es p cs x Hin Hc).
Qed.

(** The children of a hub are marked. *)
Lemma hub_children_marked (N c : string) :
  isHub nodeDepthMap es N -> derivedChild nodeDepthMap es N c ->
  In c (nodesToRemoveOf nodeDepthMap es).
Proof.
  intros [[d [Hd Hd1]] [l [Hnd [Hlen Hl]]]] Hc.
  destruct nodesToRemoveOf_spec as (_ & Hhub & _).
  apply buildChildrenByParent_childrenOf in Hc.
  unfold childrenOf in Hc.
  destruct (map_get (buildChildrenByParent nodeDepthMap es) N) as [cs|] eqn:G;
    [|contradiction].
  apply (Hhub N cs d c); auto.
  - apply map_get_In. exact G.
  - apply Nat.le_trans with (m := length l); [exact Hlen|].
    apply NoDup_incl_length; [exact Hnd|].
    intros y Hy. apply Hl, buildChildrenByParent_childrenOf in Hy.
    unfold childrenOf in Hy. rewrite G in Hy. exact Hy.
Qed.

(** A derived child of a marked word is marked. *)
Lemma marked_child_marked (p c : string) :
  In p (nodesToRemoveOf nodeDepthMap es) ->
  derivedChild nodeDepthMap es p c ->
  In c (nodesToRemoveOf nodeDepthMap es).
Proof.
  intros Hp Hc.
  destruct nodesToRemoveOf_spec as (Hcl & _ & _).
  apply buildChildrenByParent_childrenOf in Hc.
  unfold childrenOf in Hc.
  destruct (map_get (buildChildrenByParent nodeDepthMap es) p) as [cs|] eqn:G;
    [|contradiction].
  apply (Hcl p cs); auto. apply map_get_In. exact G.
Qed.

Lemma descendant_marked (c x : string) :
  In c (nodesToRemoveOf nodeDepthMap es) ->
  descends nodeDepthMap es c x ->
  In x (nodesToRemoveOf nodeDepthMap es).
Proof.
  intros Hc Hd. induction Hd as [|y z _ IH Hyz]; [exact Hc|].
  eapply marked_child_marked; eauto.
Qed.

(** A marked word is absent from the pruned graph. *)
Lemma marked_absent (ns : list GraphNode) (x : string) :
  In x (nodesToRemoveOf nodeDepthMap es) ->
  absentFrom (pruneHubs nodeDepthMap ns es) x.
Proof.
  intro Hx. unfold absentFrom, pruneHubs. simpl. split.
  - intro Hin. apply in_map_iff in Hin. destruct Hin as [n [<- Hn]].
    apply filter_In in Hn. destruct Hn as [_ Hn].
    apply negb_true_iff, set_has_not_In in Hn. contradiction.
  - intros e He. apply filter_In in He. destruct He as [_ He].
    apply andb_true_iff in He. destruct He as [Hf Ht].
    apply negb_true_iff, set_has_not_In in Hf.
    apply negb_true_iff, set_has_not_In in Ht.
    split; intros <-; contradiction.
Qed.

(** A word whose depth is 0 or unknown is never marked. *)
Lemma depth0_not_marked (x : string) :
  (forall p, 0 <= depthOr0 nodeDepthMap p) ->
  depthOr0 nodeDepthMap x = 0 ->
  ~ In x (nodesToRemoveOf nodeDepthMap es).
Proof.
  intros Hnn Hx Hin.
  destruct nodesToRemoveOf_spec as (_ & _ & Hsound).
  destruct (Hsound x Hin) as [p [e [_ [_ Hd]]]].
  specialize (Hnn p). lia.
Qed.

End MarkHubs.

(** ** Hub pruning: the hub invariant *)

Lemma isHub_computed (nodeDepthMap : list (string * Z)) (es : list GraphEdge)
  (N : string) (d : Z) :
  map_get nodeDepthMap N = Some d -> 1 <= d ->
  (HUB_THRESHOLD
   <= length (childrenOf (buildChildrenByParent nodeDepthMap es) N))%nat ->
  isHub nodeDepthMap es N.
Proof.
  intros Hd Hd1 Hlen. split; [eauto|].
  exists (childrenOf (buildChildrenByParent nodeDepthMap es) N).
  split; [|split; [exact Hlen|]].
  - unfold childrenOf.
    destruct (map_get (buildChildrenByParent nodeDepthMap es) N)
      as [cs|] eqn:G; [|constructor].
    apply map_get_In in G.
    eapply (fold_addEdge_NoDup nodeDepthMap es []); [|exact G].
    intros k ks [].
  - intros c Hc. apply buildChildrenByParent_childrenOf. exact Hc.
Qed.

(** C2: if a node [N] of depth >= 1 has at least 80 distinct direct children
    under the depth-comparison parent relation, then no child [c] of [N], and
    no [x] reached from such a child along parent -> child steps, is a node
    of the pruned output or an end of one of its edges; for every depth map,
    node list and edge list handed to the pruner, and so for the graphs that
    [getWordGraph] of the server and of the Lambda port return. *)
Theorem hub_children_pruned :
  (forall (nodeDepthMap : list (string * Z)) (ns : list GraphNode)
          (es : list GraphEdge) (N c x : string),
     isHub nodeDepthMap es N ->
     derivedChild nodeDepthMap es N c ->
     descends nodeDepthMap es c x ->
     absentFrom (pruneHubs nodeDepthMap ns es) x)
  /\ (forall (data : EtymologyData) (word : string) (maxDepth : Z)
             (N c x : string),
        let st := MemStorage.bfs data (normalize word) maxDepth in
        isHub (MemStorage.st_nodeDepthMap st) (MemStorage.st_edges st) N ->
        derivedChild (MemStorage.st_nodeDepthMap st) (MemStorage.st_edges st)
          N c ->
        descends (MemStorage.st_nodeDepthMap st) (MemStorage.st_edges st)
          c x ->
        absentFrom (MemStorage.getWordGraph data word maxDepth) x)
  /\ (forall (data : EtymologyData) (word : string) (maxDepth : Z)
             (N c x : string),
        let st := Lambda.bfs data (normalize word) maxDepth in
        let nodeDepthMap := Lambda.depthMapOf (Lambda.st_nodes st) in
        isHub nodeDepthMap (Lambda.st_edges st) N ->
        derivedChild nodeDepthMap (Lambda.st_edges st) N c ->
        descends nodeDepthMap (Lambda.st_edges st) c x ->
        absentFrom (Lambda.getWordGraph data word maxDepth) x).
Proof.
  assert (G : forall nodeDepthMap ns es N c x,
             isHub nodeDepthMap es N ->
             derivedChild nodeDepthMap es N c ->
             descends nodeDepthMap es c x ->
             absentFrom (pruneHubs nodeDepthMap ns es) x).
  { intros dm ns es N c x Hhub Hc Hx.
    apply marked_absent. eapply descendant_marked; [|exact Hx].
    eapply hub_children_marked; eauto. }
  split; [exact G|]. split.
  - intros data word maxDepth N c x st Hhub Hc Hx.
    unfold MemStorage.getWordGraph.
    destruct (data_get data (normalize word)).
    + eapply G; eauto.
    + split; simpl; [tauto|intros e []].
  - intros data word maxDepth N c x st dm Hhub Hc Hx.
    unfold Lambda.getWordGraph.
    destruct (data_get data (normalize word)).
    + eapply G; eauto.
    + split; simpl; [tauto|intros e []].
Qed.

Lemma scenarioB_graph :
  MemStorage.getWordGraph scenarioB "r" 2
  = mkGraph [mkNode "r" "r" "R" 0 ["h"];
             mkNode "h" "h" "H" 1 (map hubChildName (seq 1 80))]
            [mkEdge "r" "h"].
Proof. vm_compute. reflexivity. Qed.

Lemma scenarioB_hub :
  isHub
    (MemStorage.st_nodeDepthMap (MemStorage.bfs scenarioB (normalize "r") 2))
    (MemStorage.st_edges (MemStorage.bfs scenarioB (normalize "r") 2))
    "h".
Proof.
  apply isHub_computed with (d := 1).
  - vm_compute. reflexivity.
  - lia.
  - vm_compute. lia.
Qed.

Lemma scenarioB_child :
  derivedChild
    (MemStorage.st_nodeDepthMap (MemStorage.bfs scenarioB (normalize "r") 2))
    (MemStorage.st_edges (MemStorage.bfs scenarioB (normalize "r") 2))
    "h" "x07".
Proof.
  refine (proj1 (buildChildrenByParent_childrenOf _ _ _ _) _).
  refine (proj1 (set_has_In _ _) _).
  vm_compute. reflexivity.
Qed.

Lemma hub_children_pruned_witness :
  (isHub
     (MemStorage.st_nodeDepthMap (MemStorage.bfs scenarioB (normalize "r") 2))
     (MemStorage.st_edges (MemStorage.bfs scenarioB (normalize "r") 2))
     "h"
   /\ derivedChild
        (MemStorage.st_nodeDepthMap
           (MemStorage.bfs scenarioB (normalize "r") 2))
        (MemStorage.st_edges (MemStorage.bfs scenarioB (normalize "r") 2))
        "h" "x07"
   /\ descends
        (MemStorage.st_nodeDepthMap
           (MemStorage.bfs scenarioB (normalize "r") 2))
        (MemStorage.st_edges (MemStorage.bfs scenarioB (normalize "r") 2))
        "x07" "x07")
  /\ absentFrom (MemStorage.getWordGraph scenarioB "r" 2) "x07".
Proof.
  assert (D : descends
                (MemStorage.st_nodeDepthMap
                   (MemStorage.bfs scenarioB (normalize "r") 2))
                (MemStorage.st_edges
                   (MemStorage.bfs scenarioB (normalize "r") 2))
                "x07" "x07")
    by constructor.
  split.
  - split; [exact scenarioB_hub|]. split; [exact scenarioB_child|exact D].
  - exact (proj1 (proj2 hub_children_pruned) scenarioB "r" 2 "h" "x07" "x07"
             scenarioB_hub scenarioB_child D).
Defined.

(** ** Hops, lists of edges, and the measure of the traversals *)

Lemma hops_nonneg (data : EtymologyData) (root w : string) (k : Z) :
  hops data root w k -> 0 <= k.
Proof.
  induction 1; lia.
Qed.

Lemma data_get_key (data : EtymologyData) (w : string) :
  data_get data w <> None -> In w (data_keys data).
Proof.
  unfold data_get, data_keys. induction data as [|[k e] data IH]; simpl.
  - congruence.
  - destruct (String.eqb k w) eqn:E.
    + apply String.eqb_eq in E. auto.
    + intro H. right. apply IH, H.
Qed.

Lemma NoDup_map_eq (A B : Type) (f : A -> B) (l : list A) (x y : A) :
  NoDup (map f l) -> In x l -> In y l -> f x = f y -> x = y.
Proof.
  induction l as [|a l IH]; simpl; intros Hnd Hx Hy Hf; [contradiction|].
  inversion Hnd as [|? ? Hnotin Hnd']; subst.
  destruct Hx as [<-|Hx], Hy as [<-|Hy]; auto.
  - exfalso. apply Hnotin. rewrite Hf. apply in_map, Hy.
  - exfalso. apply Hnotin. rewrite <- Hf. apply in_map, Hx.
Qed.

Lemma StronglySorted_snoc (l : list Z) (x : Z) :
  StronglySorted Z.le l -> (forall y, In y l -> y <= x) ->
  StronglySorted Z.le (l ++ [x]).
Proof.
  induction 1 as [|a l Hs IH Ha]; intro Hx; simpl.
  - repeat constructor.
  - constructor.
    + apply IH. intros y Hy. apply Hx. right. exact Hy.
    + apply Forall_app. split; [exact Ha|].
      constructor; [|constructor]. apply Hx. left. reflexivity.
Qed.

(** *** Distinct unordered pairs *)

Lemma samePair_sym (e1 e2 : GraphEdge) : samePair e1 e2 -> samePair e2 e1.
Proof.
  unfold samePair. intros [[-> ->]|[-> ->]]; auto.
Qed.

Lemma edgeExists_false (es : list GraphEdge) (a b : string) :
  MemStorage.edgeExists es a b = false ->
  forall e, In e es -> ~ samePair e (mkEdge a b).
Proof.
  unfold MemStorage.edgeExists. intros H e Hin Hsame.
  assert (Hex : existsb
                  (fun e => (String.eqb (from e) a && String.eqb (to e) b
                             || String.eqb (from e) b && String.eqb (to e) a)
                            %bool) es = true).
  { apply existsb_exists. exists e. split; [exact Hin|].
    destruct Hsame as [[Hf Ht]|[Hf Ht]]; simpl in Hf, Ht; rewrite Hf, Ht;
      rewrite !String.eqb_refl; simpl; auto using orb_true_r. }
  congruence.
Qed.

Lemma distinctPairs_nil : distinctPairs [].
Proof.
  intros i j ei ej Hi. destruct i; discriminate.
Qed.

Lemma distinctPairs_snoc (es : list GraphEdge) (e : GraphEdge) :
  distinctPairs es -> (forall e', In e' es -> ~ samePair e' e) ->
  distinctPairs (es ++ [e]).
Proof.
  intros Hd Hnew i j ei ej Hi Hj Hs.
  assert (Li : (i < length (es ++ [e]))%nat)
    by (apply nth_error_Some; congruence).
  assert (Lj : (j < length (es ++ [e]))%nat)
    by (apply nth_error_Some; congruence).
  rewrite length_app in Li, Lj. simpl in Li, Lj.
  destruct (Nat.lt_ge_cases i (length es)) as [Hil|Hil],
           (Nat.lt_ge_cases j (length es)) as [Hjl|Hjl].
  - rewrite nth_error_app1 in Hi, Hj by assumption. eapply Hd; eauto.
  - rewrite nth_error_app1 in Hi by assumption.
    rewrite nth_error_app2 in Hj by assumption.
    replace (j - length es)%nat with 0%nat in Hj by lia.
    injection Hj as <-. exfalso.
    eapply Hnew; [eapply nth_error_In; eauto|exact Hs].
  - rewrite nth_error_app2 in Hi by assumption.
    rewrite nth_error_app1 in Hj by assumption.
    replace (i - length es)%nat with 0%nat in Hi by lia.
    injection Hi as <-. exfalso.
    eapply Hnew; [eapply nth_error_In; eauto|apply samePair_sym; exact Hs].
  - lia.
Qed.

(** Filtering keeps the pairs distinct. *)
Lemma distinctPairs_filter (f : GraphEdge -> bool) (es : list GraphEdge) :
  distinctPairs es -> distinctPairs (filter f es).
Proof.
  induction es as [|e es IH]; intro Hd; simpl; [exact distinctPairs_nil|].
  assert (Hd' : distinctPairs es).
  { intros i j ei ej Hi Hj Hs.
    assert (S i = S j) by (eapply Hd; eauto). lia. }
  assert (Hhead : forall e', In e' es -> ~ samePair e e').
  { intros e' Hin Hs. apply In_nth_error in Hin. destruct Hin as [k Hk].
    assert (H : 0%nat = S k) by (eapply Hd; eauto; reflexivity).
    discriminate. }
  destruct (f e); [|apply IH, Hd'].
  intros i j ei ej Hi Hj Hs.
  destruct i as [|i], j as [|j]; simpl in Hi, Hj.
  - reflexivity.
  - injection Hi as <-. exfalso.
    apply (Hhead ej); [|exact Hs].
    apply nth_error_In in Hj. apply filter_In in Hj. tauto.
  - injection Hj as <-. exfalso.
    apply (Hhead ei); [|apply samePair_sym; exact Hs].
    apply nth_error_In in Hi. apply filter_In in Hi. tauto.
  - f_equal. eapply (IH Hd'); eauto.
Qed.

(** *** Unvisited keys *)

Lemma filter_length_mono (A : Type) (f g : A -> bool) (l : list A) :
  (forall x, g x = true -> f x = true) ->
  (length (filter g l) <= length (filter f l))%nat.
Proof.
  intro H. induction l as [|a l IH]; simpl; [lia|].
  destruct (g a) eqn:G.
  - rewrite (H a G). simpl. lia.
  - destruct (f a); simpl; lia.
Qed.

Lemma filter_length_strict (A : Type) (f g : A -> bool) (l : list A) (a : A) :
  (forall x, g x = true -> f x = true) ->
  In a l -> f a = true -> g a = false ->
  (length (filter g l) < length (filter f l))%nat.
Proof.
  intros H Hin Hf Hg. induction l as [|b l IH]; simpl; [contradiction|].
  destruct Hin as [->|Hin].
  - rewrite Hf, Hg. simpl.
    pose proof (filter_length_mono A f g l H). lia.
  - specialize (IH Hin). destruct (g b) eqn:G.
    + rewrite (H b G). simpl. lia.
    + destruct (f b); simpl; lia.
Qed.

Lemma unvisitedCount_le (data : EtymologyData) (vs : list string) :
  (unvisitedCount data vs <= length data)%nat.
Proof.
  unfold unvisitedCount, data_keys.
  induction data as [|kv data IH]; simpl; [lia|].
  destruct (negb (set_has vs (fst kv))); simpl; lia.
Qed.

Lemma unvisitedCount_add (data : EtymologyData) (vs : list string)
  (v : string) :
  (unvisitedCount data (set_add vs v) <= unvisitedCount data vs)%nat.
Proof.
  apply filter_length_mono. intros x Hx.
  apply negb_true_iff, set_has_not_In in Hx.
  apply negb_true_iff, set_has_not_In. intro Hin. apply Hx.
  apply set_add_In. auto.
Qed.

Lemma unvisitedCount_add_new (data : EtymologyData) (vs : list string)
  (v : string) :
  data_get data v <> None -> set_has vs v = false ->
  (unvisitedCount data (set_add vs v) < unvisitedCount data vs)%nat.
Proof.
  intros Hkey Hnew.
  apply filter_length_strict with (a := v).
  - intros x Hx.
    apply negb_true_iff, set_has_not_In in Hx.
    apply negb_true_iff, set_has_not_In. intro Hin. apply Hx.
    apply set_add_In. auto.
  - apply data_get_key, Hkey.
  - rewrite Hnew. reflexivity.
  - apply negb_false_iff, set_has_In, set_add_In. auto.
Qed.

Lemma sorted_nth (A : Type) (R : A -> A -> Prop) (l : list A) :
  StronglySorted R l ->
  forall i j a b, (i < j)%nat ->
    nth_error l i = Some a -> nth_error l j = Some b -> R a b.
Proof.
  induction 1 as [|x l Hs IH Hall]; intros i j a b Hij Hi Hj.
  - destruct i; discriminate.
  - destruct j as [|j]; [lia|]. simpl in Hj. destruct i as [|i].
    + injection Hi as <-. rewrite Forall_forall in Hall.
      apply Hall. eapply nth_error_In; eauto.
    + simpl in Hi. apply (IH i j); auto. lia.
Qed.

Lemma filter_length_bound (A : Type) (f : A -> bool) (l : list A) :
  (length (filter f l) <= length l)%nat.
Proof.
  induction l as [|x l IH]; simpl; [lia|].
  destruct (f x); simpl; lia.
Qed.


(** ** The server's BFS: termination *)

Section MemTermination.

Import MemStorage.

Variable data : EtymologyData.
Variable maxDepth : Z.

Lemma processRelated_measure (cw : string) (cd : Z) (st : BfsState)
  (r : string) :
  (memMeasure data (processRelated data maxDepth cw cd st r)
   <= memMeasure data st)%nat.
Proof.
  unfold processRelated, memMeasure.
  destruct (data_get data (normalize r)) eqn:G; [|lia].
  destruct (set_has (st_visited st) (normalize r)) eqn:V; simpl; [lia|].
  destruct (cd + 1 <=? maxDepth); simpl; [|lia].
  rewrite length_app. simpl.
  assert (Hlt : (unvisitedCount data (set_add (st_visited st) (normalize r))
                 < unvisitedCount data (st_visited st))%nat)
    by (apply unvisitedCount_add_new; congruence).
  lia.
Qed.

Lemma fold_processRelated_measure (cw : string) (cd : Z) (rs : list string) :
  forall st,
    (memMeasure data (fold_left (processRelated data maxDepth cw cd) rs st)
     <= memMeasure data st)%nat.
Proof.
  induction rs as [|r rs IH]; intro st; simpl; [lia|].
  eapply Nat.le_trans; [apply IH|apply processRelated_measure].
Qed.

Lemma visit_measure (cw : string) (cd : Z) (st : BfsState) :
  (memMeasure data (visit data maxDepth cw cd st) <= memMeasure data st)%nat.
Proof.
  unfold visit. destruct (cd >? maxDepth); [lia|].
  destruct (data_get data cw); [|lia].
  eapply Nat.le_trans; [apply fold_processRelated_measure|].
  unfold memMeasure. simpl. lia.
Qed.

(** The loop leaves with an empty queue before its budget ends. *)
Lemma bfsLoop_queue_empty (budget : nat) :
  forall st, (memMeasure data st <= budget)%nat ->
             st_queue (bfsLoop budget data maxDepth st) = [].
Proof.
  induction budget as [|b IH]; intros st Hm.
  - simpl. unfold memMeasure in Hm.
    destruct (st_queue st); [reflexivity|simpl in Hm; lia].
  - simpl. destruct (st_queue st) as [|[cw cd] rest] eqn:Q; [exact Q|].
    apply IH.
    eapply Nat.le_trans; [apply visit_measure|].
    unfold memMeasure, shift in *. rewrite Q in Hm. simpl in *. lia.
Qed.

(** A larger budget gives the same final state. *)
Lemma bfsLoop_budget_irrelevant (budget : nat) :
  forall st budget',
    (memMeasure data st <= budget)%nat -> (budget <= budget')%nat ->
    bfsLoop budget' data maxDepth st = bfsLoop budget data maxDepth st.
Proof.
  induction budget as [|b IH]; intros st budget' Hm Hle.
  - unfold memMeasure in Hm.
    destruct (st_queue st) eqn:Q; [|simpl in Hm; lia].
    destruct budget'; simpl; rewrite ?Q; reflexivity.
  - destruct budget' as [|b']; [lia|]. simpl.
    destruct (st_queue st) as [|[cw cd] rest] eqn:Q; [reflexivity|].
    apply IH; [|lia].
    eapply Nat.le_trans; [apply visit_measure|].
    unfold memMeasure, shift in *. rewrite Q in Hm. simpl in *. lia.
Qed.

Lemma initial_measure (root : string) :
  (memMeasure data (initial root) <= bfsBudget data)%nat.
Proof.
  unfold memMeasure, initial, bfsBudget. simpl.
  pose proof (unvisitedCount_le data [root]). lia.
Qed.

Lemma bfs_queue_empty (root : string) :
  st_queue (bfs data root maxDepth) = [].
Proof.
  apply bfsLoop_queue_empty, initial_measure.
Qed.

End MemTermination.

(** ** The server's BFS: the invariant *)

Section MemInvariant.

Import MemStorage.

Variable data : EtymologyData.
Variable root : string.
Variable maxDepth : Z.

Lemma assigned_queue_snoc (ns : list GraphNode) (q : list (string * Z))
  (x : string * Z) (v : string) (d : Z) :
  assigned ns q v d -> assigned ns (q ++ [x]) v d.
Proof.
  intros [H|H]; [left; apply in_app_iff; auto|right; exact H].
Qed.

(** The closure obligations after one more related word of [ncur] has been
    handled. *)
Lemma closed_after_related (lvl : Z) (ncur : GraphNode) (r : string)
  (todo : list string) (ns : list GraphNode) (q q' : list (string * Z)) :
  NoDup (map id ns) -> In ncur ns -> depth ncur = lvl ->
  (forall n r0,
     In n ns -> In r0 (node_relatedWords n) ->
     (id n = id ncur -> ~ In r0 (r :: todo)) ->
     data_get data (normalize r0) <> None -> depth n + 1 <= maxDepth ->
     exists d, d <= depth n + 1 /\ assigned ns q (normalize r0) d) ->
  (forall v d, assigned ns q v d -> assigned ns q' v d) ->
  (data_get data (normalize r) <> None -> lvl + 1 <= maxDepth ->
   exists d, d <= lvl + 1 /\ assigned ns q' (normalize r) d) ->
  forall n r0,
    In n ns -> In r0 (node_relatedWords n) ->
    (id n = id ncur -> ~ In r0 todo) ->
    data_get data (normalize r0) <> None -> depth n + 1 <= maxDepth ->
    exists d, d <= depth n + 1 /\ assigned ns q' (normalize r0) d.
Proof.
  intros Hnd Hncur Hlvl Icl Hmono Hnew n r0 Hn Hr0 Htodo Hget Hd.
  destruct (string_dec (id n) (id ncur)) as [Hid|Hid].
  - assert (n = ncur) by (eapply NoDup_map_eq; eauto). subst n.
    destruct (string_dec r0 r) as [->|Hne].
    + rewrite Hlvl in *. apply Hnew; assumption.
    + destruct (Icl ncur r0 Hn Hr0) as [d [Hd1 Hd2]]; auto.
      { intros _ Hin. destruct Hin as [Heq|Hin]; [congruence|].
        exact (Htodo Hid Hin). }
      exists d. auto.
  - destruct (Icl n r0 Hn Hr0) as [d [Hd1 Hd2]]; auto;
      try (intro; contradiction).
    exists d. auto.
Qed.

Lemma processRelated_inv (lvl : Z) (ncur : GraphNode) (r : string)
  (todo : list string) (st : BfsState) :
  MemInv data root maxDepth lvl (id ncur) (r :: todo) st ->
  In ncur (st_nodes st) -> depth ncur = lvl ->
  In r (node_relatedWords ncur) ->
  MemInv data root maxDepth lvl (id ncur) todo
    (processRelated data maxDepth (id ncur) lvl st r).
Proof.
  intros Inv Hncur Hlvl Hr.
  destruct Inv as [Ivis Ind Iq Ins Iln Ilq Isort Icl Idep Iroot Ied Ipairs].
  assert (Hnd_ns : NoDup (map id (st_nodes st)))
    by (eapply NoDup_app_remove_r; eauto).
  unfold processRelated.
  destruct (data_get data (normalize r)) as [entryR|] eqn:G.
  2:{ constructor; auto.
      eapply closed_after_related with (q := st_queue st); eauto.
      intros Habs. congruence. }
  set (v := normalize r) in *.
  set (es' := if edgeExists (st_edges st) (id ncur) v
              then st_edges st
              else st_edges st ++ [mkEdge (id ncur) v]).
  assert (Hes' : forall e, In e es' -> In e (st_edges st)
                                       \/ e = mkEdge (id ncur) v).
  { intros e. unfold es'. destruct (edgeExists _ _ _); [auto|].
    rewrite in_app_iff. simpl. intuition. }
  assert (Hpairs' : distinctPairs es').
  { unfold es'. destruct (edgeExists _ _ _) eqn:E; [exact Ipairs|].
    apply distinctPairs_snoc; [exact Ipairs|].
    apply edgeExists_false. exact E. }
  assert (Hgv : data_get data v <> None) by congruence.
  destruct (Ins ncur Hncur) as (Hhops & Hmax & Hdm & entryC & HgetC & HrelC).
  assert (Hlinked : linked data (id ncur) v).
  { exists entryC, r. rewrite <- HrelC. auto. }
  destruct (set_has (st_visited st) v) eqn:V.
  - (* already visited *)
    apply set_has_In in V.
    constructor; simpl; auto.
    + eapply closed_after_related with (q := st_queue st); eauto.
      intros _ _. apply Ivis in V. destruct V as [V|V].
      * apply in_map_iff in V. destruct V as [n' [Hid Hn']].
        exists (depth n'). split; [pose proof (Iln n' Hn'); lia|].
        right. exists n'. auto.
      * apply in_map_iff in V. destruct V as [[w d] [Hid Hq]].
        simpl in Hid. subst w. exists d.
        split; [pose proof (Ilq v d Hq); lia|]. left. exact Hq.
    + intros e He. destruct (Hes' e He) as [Hold| ->]; [auto|].
      simpl. split; [exact Hgv|]. exists ncur. auto.
  - destruct (lvl + 1 <=? maxDepth) eqn:L.
    + (* enqueue *)
      apply Z.leb_le in L. apply set_has_not_In in V.
      assert (Hvn : ~ In v (map id (st_nodes st)))
        by (intro; apply V, Ivis; auto).
      assert (Hvq : ~ In v (map fst (st_queue st)))
        by (intro; apply V, Ivis; auto).
      assert (Hlvl0 : 0 <= lvl)
        by (rewrite <- Hlvl; eapply hops_nonneg; eauto).
      constructor; simpl.
      * intro w. rewrite set_add_In, Ivis, map_app, in_app_iff. simpl.
        intuition.
      * rewrite map_app, app_assoc. simpl.
        apply NoDup_app; [exact Ind|repeat constructor; simpl; tauto|].
        intros x Hx [<-|[]]. apply in_app_iff in Hx. tauto.
      * intros w d Hin. apply in_app_iff in Hin.
        destruct Hin as [Hin|[[= <- <-]|[]]].
        -- destruct (Iq w d Hin) as (Q1 & Q2 & Q3 & Q4).
           repeat split; auto. rewrite map_get_set_other; [exact Q4|].
           intros <-. apply Hvq. apply in_map_iff. exists (v, d). auto.
        -- repeat split; auto.
           ++ rewrite <- Hlvl. econstructor; eauto.
           ++ apply map_get_set_same.
      * intros n Hn. destruct (Ins n Hn) as (N1 & N2 & N3 & N4).
        repeat split; auto. rewrite map_get_set_other; [exact N3|].
        intro E. apply Hvn. rewrite E. apply in_map. exact Hn.
      * exact Iln.
      * intros w d Hin. apply in_app_iff in Hin.
        destruct Hin as [Hin|[[= <- <-]|[]]]; [exact (Ilq w d Hin)|lia].
      * rewrite map_app. simpl. apply StronglySorted_snoc; [exact Isort|].
        intros y Hy. apply in_map_iff in Hy. destruct Hy as [[w d] [<- Hq]].
        simpl. pose proof (Ilq w d Hq). lia.
      * eapply closed_after_related with (q := st_queue st); eauto.
        -- intros. apply assigned_queue_snoc. assumption.
        -- intros _ _. exists (lvl + 1). split; [lia|].
           left. apply in_app_iff. right. left. reflexivity.
      * intros w d Hget.
        destruct (string_dec v w) as [<-|Hne].
        -- rewrite map_get_set_same in Hget. injection Hget as <-.
           split; [lia|]. apply set_add_In. auto.
        -- rewrite map_get_set_other in Hget by assumption.
           destruct (Idep w d Hget). split; [assumption|].
           apply set_add_In. auto.
      * destruct Iroot as [R1 R2]. split; [|apply set_add_In; auto].
        rewrite map_get_set_other; [exact R1|]. intros ->. contradiction.
      * intros e He. destruct (Hes' e He) as [Hold| ->].
        -- destruct (Ied e Hold) as [E1 [n [E2 [E3 E4]]]].
           split; [exact E1|]. exists n. repeat split; auto.
           destruct E4; [left; apply set_add_In|]; auto.
        -- simpl. split; [exact Hgv|]. exists ncur. repeat split; auto.
           left. apply set_add_In. auto.
      * exact Hpairs'.
    + (* beyond the depth limit *)
      apply Z.leb_gt in L.
      constructor; simpl; auto.
      * eapply closed_after_related with (q := st_queue st); eauto.
        intros _ Habs. lia.
      * intros e He. destruct (Hes' e He) as [Hold| ->]; [auto|].
        simpl. split; [exact Hgv|]. exists ncur. repeat split; auto.
        right. lia.
Qed.


Lemma processRelated_nodes (cw : string) (cd : Z) (st : BfsState)
  (r : string) :
  st_nodes (processRelated data maxDepth cw cd st r) = st_nodes st.
Proof.
  unfold processRelated.
  destruct (data_get data (normalize r)); [|reflexivity].
  destruct (set_has _ _); [reflexivity|].
  destruct (_ <=? _); reflexivity.
Qed.

Lemma fold_processRelated_nodes (cw : string) (cd : Z) (rs : list string) :
  forall st,
    st_nodes (fold_left (processRelated data maxDepth cw cd) rs st)
    = st_nodes st.
Proof.
  induction rs as [|r rs IH]; intro st; simpl; [reflexivity|].
  rewrite IH. apply processRelated_nodes.
Qed.

Lemma fold_processRelated_inv (lvl : Z) (ncur : GraphNode)
  (rs : list string) :
  forall st,
    MemInv data root maxDepth lvl (id ncur) rs st ->
    In ncur (st_nodes st) -> depth ncur = lvl ->
    (forall r, In r rs -> In r (node_relatedWords ncur)) ->
    MemInv data root maxDepth lvl (id ncur) []
      (fold_left (processRelated data maxDepth (id ncur) lvl) rs st).
Proof.
  induction rs as [|r rs IH]; intros st Inv Hncur Hlvl Hrs; simpl;
    [exact Inv|].
  apply IH; auto.
  - apply processRelated_inv; auto. apply Hrs. left. reflexivity.
  - rewrite processRelated_nodes. exact Hncur.
  - intros r' Hr'. apply Hrs. right. exact Hr'.
Qed.

Lemma visit_inv (lvl : Z) (cur : string) (st : BfsState)
  (u : string) (du : Z) (rest : list (string * Z)) :
  MemInv data root maxDepth lvl cur [] st ->
  st_queue st = (u, du) :: rest ->
  MemInv data root maxDepth du u []
    (visit data maxDepth u du (shift st rest)).
Proof.
  intros Inv Q.
  destruct Inv as [Ivis Ind Iq Ins Iln Ilq Isort Icl Idep Iroot Ied Ipairs].
  rewrite Q in *.
  destruct (Iq u du (or_introl eq_refl)) as (Hget & Hmax & Hhops & Hdm).
  unfold visit.
  assert (E : (du >? maxDepth) = false)
    by (rewrite Z.gtb_ltb; apply Z.ltb_ge; lia).
  rewrite E. unfold shift. simpl.
  destruct (data_get data u) as [entry|] eqn:G; [|congruence].
  set (ncur := mkNode u u (definition entry) du (relatedWords entry)).
  pose proof (Ilq u du (or_introl eq_refl)) as Hlu.
  simpl in Isort. inversion Isort as [|? ? Hs Hall]; subst.
  assert (Hrest : forall w d, In (w, d) rest -> du <= d).
  { intros w d Hin. rewrite Forall_forall in Hall. apply Hall.
    apply in_map_iff. exists (w, d). auto. }
  apply (fold_processRelated_inv du ncur (relatedWords entry)); simpl; auto.
  2:{ apply in_app_iff. right. left. reflexivity. }
  constructor; simpl.
  - intro w. rewrite Ivis, map_app, in_app_iff. simpl. tauto.
  - rewrite map_app, <- app_assoc. simpl. exact Ind.
  - intros w d Hin. apply Iq. right. exact Hin.
  - intros n Hn. apply in_app_iff in Hn. destruct Hn as [Hn|[<-|[]]]; auto.
    simpl. repeat split; auto. exists entry. auto.
  - intros n Hn. apply in_app_iff in Hn. destruct Hn as [Hn|[<-|[]]].
    + pose proof (Iln n Hn). lia.
    + simpl. lia.
  - intros w d Hin. pose proof (Hrest w d Hin).
    pose proof (Ilq w d (or_intror Hin)). lia.
  - exact Hs.
  - intros n r Hn Hr Htodo Hgr Hd.
    apply in_app_iff in Hn. destruct Hn as [Hn|[<-|[]]].
    + destruct (Icl n r Hn Hr) as [d [Hd1 Hd2]]; auto.
      exists d. split; [exact Hd1|].
      destruct Hd2 as [[[= -> ->]|Hin]|[n' [Hn' [Hid Hdep]]]].
      * right. exists ncur. split; [|auto].
        apply in_app_iff. right. left. reflexivity.
      * left. exact Hin.
      * right. exists n'. split; [|auto]. apply in_app_iff. auto.
    + exfalso. simpl in Htodo, Hr. exact (Htodo eq_refl Hr).
  - exact Idep.
  - exact Iroot.
  - intros e He. destruct (Ied e He) as [E1 [n [E2 E3]]].
    split; [exact E1|]. exists n. split; [|exact E3].
    apply in_app_iff. auto.
  - exact Ipairs.
Qed.

Lemma bfsLoop_inv (budget : nat) :
  forall st lvl cur,
    MemInv data root maxDepth lvl cur [] st ->
    exists lvl' cur',
      MemInv data root maxDepth lvl' cur' []
        (bfsLoop budget data maxDepth st).
Proof.
  induction budget as [|b IH]; intros st lvl cur Inv; simpl; [eauto|].
  destruct (st_queue st) as [|[u du] rest] eqn:Q; [eauto|].
  eapply IH. eapply visit_inv; eauto.
Qed.

Lemma initial_inv :
  0 <= maxDepth -> data_get data root <> None ->
  MemInv data root maxDepth 0 "" [] (initial root).
Proof.
  intros Hd Hroot. constructor; simpl.
  - intro w. tauto.
  - repeat constructor. simpl. tauto.
  - intros w d [[= <- <-]|[]]. repeat split; auto; try lia.
    + constructor.
    + rewrite String.eqb_refl. reflexivity.
  - intros n [].
  - intros n [].
  - intros w d [[= <- <-]|[]]. lia.
  - repeat constructor.
  - intros n r [].
  - intros w d. destruct (String.eqb root w) eqn:E; [|discriminate].
    apply String.eqb_eq in E. intros [= <-]. split; [lia|auto].
  - rewrite String.eqb_refl. auto.
  - intros e [].
  - exact distinctPairs_nil.
Qed.

(** The invariant holds when the loop is left. *)
Lemma bfs_inv :
  0 <= maxDepth -> data_get data root <> None ->
  exists lvl cur,
    MemInv data root maxDepth lvl cur [] (bfs data root maxDepth).
Proof.
  intros Hd Hroot. unfold bfs. eapply bfsLoop_inv, initial_inv; auto.
Qed.

End MemInvariant.

(** ** From the invariant to the claims about the server's graph *)

Section BfsCorrect.

Variable data : EtymologyData.
Variable root : string.
Variable maxDepth : Z.
Variable ns : list GraphNode.

Hypothesis ns_nodup : NoDup (map id ns).
Hypothesis ns_root :
  0 <= maxDepth -> exists n, In n ns /\ id n = root /\ depth n = 0.
Hypothesis ns_hops :
  forall n, In n ns -> hops data root (id n) (depth n) /\ depth n <= maxDepth.
Hypothesis ns_closed :
  forall n v, In n ns -> linked data (id n) v -> depth n + 1 <= maxDepth ->
              exists n', In n' ns /\ id n' = v /\ depth n' <= depth n + 1.

Lemma closed_reaches (w : string) (k : Z) :
  hops data root w k -> k <= maxDepth ->
  exists n, In n ns /\ id n = w /\ depth n <= k.
Proof.
  induction 1 as [|u v k Hu IH Hl]; intro Hk.
  - destruct (ns_root Hk) as [n [Hn [Hid Hd]]]. exists n.
    repeat split; auto. lia.
  - destruct IH as [n [Hn [Hid Hd]]]; [lia|].
    subst u. destruct (ns_closed n v Hn Hl) as [n' [Hn' [Hid' Hd']]]; [lia|].
    exists n'. repeat split; auto. lia.
Qed.

Lemma closed_bfsCorrect : bfsCorrect data root maxDepth ns.
Proof.
  split; [|split; [exact ns_nodup|]].
  - intros n Hn. destruct (ns_hops n Hn) as [Hh Hd].
    split; [|exact Hd].
    split; [exact Hh|]. intros k Hk.
    destruct (Z_le_gt_dec k maxDepth) as [Hle|Hgt]; [|lia].
    destruct (closed_reaches (id n) k Hk Hle) as [n' [Hn' [Hid Hd']]].
    assert (n' = n) by (eapply NoDup_map_eq; eauto). subst n'. exact Hd'.
  - intros w k Hk Hle.
    destruct (closed_reaches w k Hk Hle) as [n [Hn [Hid _]]].
    subst w. apply in_map. exact Hn.
Qed.

End BfsCorrect.

Lemma bfsCorrect_nil (data : EtymologyData) (root : string) (maxDepth : Z) :
  maxDepth < 0 -> bfsCorrect data root maxDepth [].
Proof.
  intro Hneg. split; [intros n []|]. split; [constructor|].
  intros w k Hk Hle. apply hops_nonneg in Hk. lia.
Qed.

Section MemResult.

Import MemStorage.

Variable data : EtymologyData.
Variable root : string.
Variable maxDepth : Z.

Lemma bfsLoop_queue_nil (budget : nat) (st : BfsState) :
  st_queue st = [] -> bfsLoop budget data maxDepth st = st.
Proof.
  intro Q. destruct budget; simpl; [reflexivity|]. rewrite Q. reflexivity.
Qed.

(** With a negative depth limit the root is dropped and nothing is built. *)
Lemma bfs_negative_depth :
  maxDepth < 0 ->
  bfs data root maxDepth = mkState [] [] [root] [(root, 0)] [].
Proof.
  intro Hneg. unfold bfs, bfsBudget. simpl.
  unfold visit.
  assert (E : (0 >? maxDepth) = true)
    by (rewrite Z.gtb_ltb; apply Z.ltb_lt; lia).
  rewrite E. apply bfsLoop_queue_nil. reflexivity.
Qed.

(** What the loop leaves when the root is a key and the limit is not
    negative. *)
Lemma bfs_final :
  0 <= maxDepth -> data_get data root <> None ->
  let st := bfs data root maxDepth in
  st_queue st = []
  /\ NoDup (map id (st_nodes st))
  /\ (forall w, In w (st_visited st) <-> In w (map id (st_nodes st)))
  /\ (exists n, In n (st_nodes st) /\ id n = root /\ depth n = 0)
  /\ (forall n, In n (st_nodes st) ->
        hops data root (id n) (depth n) /\ depth n <= maxDepth)
  /\ (forall n v, In n (st_nodes st) -> linked data (id n) v ->
        depth n + 1 <= maxDepth ->
        exists n', In n' (st_nodes st) /\ id n' = v
                   /\ depth n' <= depth n + 1)
  /\ (forall p, 0 <= depthOr0 (st_nodeDepthMap st) p)
  /\ depthOr0 (st_nodeDepthMap st) root = 0
  /\ (forall e, In e (st_edges st) ->
        data_get data (to e) <> None
        /\ exists n, In n (st_nodes st) /\ id n = from e
                     /\ (In (to e) (map id (st_nodes st))
                         \/ depth n = maxDepth))
  /\ distinctPairs (st_edges st).
Proof.
  intros Hd Hroot st.
  pose proof (bfs_queue_empty data maxDepth root) as Q. fold st in Q.
  destruct (bfs_inv data root maxDepth Hd Hroot) as [lvl [cur Inv]].
  fold st in Inv.
  destruct Inv as [Ivis Ind Iq Ins Iln Ilq Isort Icl Idep Iroot Ied Ipairs].
  rewrite Q in *. simpl in *. rewrite app_nil_r in Ind.
  assert (Hvis : forall w, In w (st_visited st) <-> In w (map id (st_nodes st)))
    by (intro w; rewrite Ivis; tauto).
  split; [reflexivity|]. split; [exact Ind|]. split; [exact Hvis|].
  split.
  { destruct Iroot as [R1 R2]. apply Hvis, in_map_iff in R2.
    destruct R2 as [n [Hid Hn]]. exists n. repeat split; auto.
    destruct (Ins n Hn) as (_ & _ & Hdm & _). rewrite Hid, R1 in Hdm.
    congruence. }
  split.
  { intros n Hn. destruct (Ins n Hn) as (H1 & H2 & _). auto. }
  split.
  { intros n v Hn [entry [r [Hget [Hr [-> Hv]]]]] Hdep.
    destruct (Ins n Hn) as (_ & _ & _ & entry' & Hget' & Hrel).
    assert (entry' = entry) by congruence. subst entry'.
    destruct (Icl n r Hn) as [d [Hd1 [[]|[n' [Hn' [Hid' Hd']]]]]]; auto.
    - rewrite Hrel. exact Hr.
    - exists n'. repeat split; auto. lia. }
  split.
  { intro p. unfold depthOr0.
    destruct (map_get (st_nodeDepthMap st) p) as [d|] eqn:G; [|lia].
    apply (Idep p d G). }
  split.
  { unfold depthOr0. destruct Iroot as [R1 _]. rewrite R1. reflexivity. }
  split; [|exact Ipairs].
  intros e He. destruct (Ied e He) as [E1 [n [E2 [E3 E4]]]].
  split; [exact E1|]. exists n. repeat split; auto.
  destruct E4 as [E4|E4]; [left; apply Hvis; exact E4|right; exact E4].
Qed.

(** The node list of the server's BFS is correct in the sense of C1. *)
Lemma mem_bfsCorrect :
  data_get data root <> None ->
  bfsCorrect data root maxDepth (st_nodes (bfs data root maxDepth)).
Proof.
  intro Hroot. destruct (Z_lt_le_dec maxDepth 0) as [Hneg|Hpos].
  - rewrite bfs_negative_depth by assumption. apply bfsCorrect_nil. exact Hneg.
  - destruct (bfs_final Hpos Hroot)
      as (_ & Hnd & _ & Hr & Hh & Hc & _).
    apply closed_bfsCorrect; auto.
Qed.

End MemResult.

(** ** The graph the server returns *)

Section MemGraph.

Variable data : EtymologyData.
Variable word : string.
Variable maxDepth : Z.

Lemma pruneHubs_nil (nodeDepthMap : list (string * Z)) :
  pruneHubs nodeDepthMap [] [] = mkGraph [] [].
Proof. reflexivity. Qed.

Lemma getWordGraph_absent :
  data_get data (normalize word) = None ->
  MemStorage.getWordGraph data word maxDepth = mkGraph [] [].
Proof.
  intro H. unfold MemStorage.getWordGraph. rewrite H. reflexivity.
Qed.

Lemma getWordGraph_negative_depth :
  maxDepth < 0 ->
  MemStorage.getWordGraph data word maxDepth = mkGraph [] [].
Proof.
  intro H. unfold MemStorage.getWordGraph.
  destruct (data_get data (normalize word)); [|reflexivity].
  rewrite bfs_negative_depth by assumption. reflexivity.
Qed.

Lemma getWordGraph_present :
  data_get data (normalize word) <> None ->
  MemStorage.getWordGraph data word maxDepth
  = let st := MemStorage.bfs data (normalize word) maxDepth in
    pruneHubs (MemStorage.st_nodeDepthMap st) (MemStorage.st_nodes st)
      (MemStorage.st_edges st).
Proof.
  intro H. unfold MemStorage.getWordGraph.
  destruct (data_get data (normalize word)); [reflexivity|congruence].
Qed.

Lemma pruneHubs_node_kept (dm : list (string * Z)) (ns : list GraphNode)
  (es : list GraphEdge) (n : GraphNode) :
  In n ns -> ~ In (id n) (nodesToRemoveOf dm es) ->
  In n (nodes (pruneHubs dm ns es)).
Proof.
  intros Hn Hnot. unfold pruneHubs. simpl. apply filter_In.
  split; [exact Hn|]. apply negb_true_iff, set_has_not_In. exact Hnot.
Qed.

Lemma pruneHubs_edge_kept (dm : list (string * Z)) (ns : list GraphNode)
  (es : list GraphEdge) (e : GraphEdge) :
  In e (edges (pruneHubs dm ns es)) ->
  In e es /\ ~ In (from e) (nodesToRemoveOf dm es)
  /\ ~ In (to e) (nodesToRemoveOf dm es).
Proof.
  unfold pruneHubs. simpl. intro H. apply filter_In in H.
  destruct H as [He Hb]. apply andb_true_iff in Hb. destruct Hb as [H1 H2].
  apply negb_true_iff, set_has_not_In in H1.
  apply negb_true_iff, set_has_not_In in H2. auto.
Qed.

(** The root is a node of the result, at depth 0. *)
Lemma getWordGraph_root :
  0 <= maxDepth -> data_get data (normalize word) <> None ->
  exists n, In n (nodes (MemStorage.getWordGraph data word maxDepth))
            /\ id n = normalize word /\ depth n = 0.
Proof.
  intros Hd Hroot. rewrite getWordGraph_present by assumption. cbv zeta.
  destruct (bfs_final data (normalize word) maxDepth Hd Hroot)
    as (_ & _ & _ & [n [Hn [Hid Hdep]]] & _ & _ & Hnn & Hr0 & _).
  exists n. split; [|auto].
  apply pruneHubs_node_kept; [exact Hn|].
  rewrite Hid. apply depth0_not_marked; assumption.
Qed.

Lemma getWordGraph_distinctPairs :
  distinctPairs (edges (MemStorage.getWordGraph data word maxDepth)).
Proof.
  destruct (Z_lt_le_dec maxDepth 0) as [Hneg|Hd].
  { rewrite getWordGraph_negative_depth by assumption.
    exact distinctPairs_nil. }
  destruct (data_get data (normalize word)) as [entry|] eqn:G.
  2:{ rewrite getWordGraph_absent by assumption. exact distinctPairs_nil. }
  assert (Hroot : data_get data (normalize word) <> None) by congruence.
  rewrite getWordGraph_present by assumption. cbv zeta.
  apply distinctPairs_filter.
  apply (bfs_final data (normalize word) maxDepth Hd Hroot).
Qed.

End MemGraph.

(** C9, as stated, fails: on the chain a -> b -> c, [getWordGraph("a", 1)]
    returns the edge from ["b"] to ["c"], and ["c"] is not a returned node. *)
Lemma getWordGraph_dangling_edge :
  In (mkEdge "b" "c") (edges (MemStorage.getWordGraph chainData "a" 1))
  /\ ~ In "c" (map id (nodes (MemStorage.getWordGraph chainData "a" 1))).
Proof.
  split.
  - vm_compute. right. left. reflexivity.
  - vm_compute. intros [H|[H|[]]]; discriminate.
Qed.

(** With lookups among the keys: the [from] end of every edge is the id of
    a returned node and the [to] end is a key; the [to] end is the id of a
    returned node too, unless the edge leaves a returned node at the maximum
    depth. *)
Lemma mem_edge_endpoints (data : EtymologyData) (word : string)
  (maxDepth : Z) (e : GraphEdge) :
  let g := MemStorage.getWordGraph data word maxDepth in
  In e (edges g) ->
  In (from e) (map id (nodes g))
  /\ data_get data (to e) <> None
  /\ (In (to e) (map id (nodes g))
      \/ exists n, In n (nodes g) /\ id n = from e /\ depth n = maxDepth).
Proof.
  intros g. unfold g. clear g.
  destruct (Z_lt_le_dec maxDepth 0) as [Hneg|Hd].
  { rewrite getWordGraph_negative_depth by assumption. intros []. }
  destruct (data_get data (normalize word)) as [entry|] eqn:G.
  2:{ rewrite getWordGraph_absent by assumption. intros []. }
  assert (Hroot : data_get data (normalize word) <> None) by congruence.
  rewrite getWordGraph_present by assumption. cbv zeta.
  destruct (bfs_final data (normalize word) maxDepth Hd Hroot)
    as (_ & _ & _ & _ & _ & _ & _ & _ & Hed & _).
  intro He. apply pruneHubs_edge_kept in He. destruct He as [He [Hf Ht]].
  destruct (Hed e He) as [E1 [n [Hn [Hid Hto]]]].
  assert (Hkept : In n (nodes (pruneHubs
                    (MemStorage.st_nodeDepthMap
                       (MemStorage.bfs data (normalize word) maxDepth))
                    (MemStorage.st_nodes
                       (MemStorage.bfs data (normalize word) maxDepth))
                    (MemStorage.st_edges
                       (MemStorage.bfs data (normalize word) maxDepth))))).
  { apply pruneHubs_node_kept; [exact Hn|]. rewrite Hid. exact Hf. }
  split; [rewrite <- Hid; apply in_map; exact Hkept|].
  split; [exact E1|].
  destruct Hto as [Hto|Hto].
  - left. apply in_map_iff in Hto. destruct Hto as [n' [Hid' Hn']].
    rewrite <- Hid'. apply in_map.
    apply pruneHubs_node_kept; [exact Hn'|]. rewrite Hid'. exact Ht.
  - right. exists n. auto.
Qed.

(** The server's result has at most one edge per unordered pair of words. *)
Lemma server_edges_distinct (data : EtymologyData) (word : string)
  (maxDepth : Z) :
  distinctPairs (edges (MemStorage.getWordGraph data word maxDepth)).
Proof.
  apply getWordGraph_distinctPairs.
Qed.

(** C4 holds for the server and fails for the Lambda port, which has no test
    for an existing edge: when a list of related words names a word twice
    before that word is visited, the port returns the edge twice. *)
Theorem lambda_duplicate_edge :
  edges (Lambda.getWordGraph repeatedData "a" 1)
  = [mkEdge "a" "b"; mkEdge "a" "b"]
  /\ ~ distinctPairs (edges (Lambda.getWordGraph repeatedData "a" 1))
  /\ edges (MemStorage.getWordGraph repeatedData "a" 1) = [mkEdge "a" "b"].
Proof.
  split; [reflexivity|]. split; [|reflexivity].
  intro H.
  assert (E : 0%nat = 1%nat).
  { apply (H 0%nat 1%nat (mkEdge "a" "b") (mkEdge "a" "b")).
    - reflexivity.
    - reflexivity.
    - left. split; reflexivity. }
  discriminate.
Qed.

(** ** The scenarios of the design document *)

Lemma scenarioA_graph :
  MemStorage.getWordGraph scenarioA "a" 1
  = mkGraph [mkNode "a" "a" "A" 0 ["b"; "c"];
             mkNode "b" "b" "B" 1 ["a"];
             mkNode "c" "c" "C" 1 ["a"]]
            [mkEdge "a" "b"; mkEdge "a" "c"].
Proof. reflexivity. Qed.

Lemma scenarioA_graph_lambda :
  Lambda.getWordGraph scenarioA " A " 1
  = MemStorage.getWordGraph scenarioA "a" 1.
Proof. reflexivity. Qed.

Lemma scenarioC_graph :
  MemStorage.getWordGraph scenarioC "a" 1
  = mkGraph [mkNode "a" "a" "A" 0 ["ghost"]] [].
Proof. reflexivity. Qed.

(** ** The Lambda port's BFS: termination *)

Lemma potential_add (data : EtymologyData) (vs : list string) (u : string) :
  (potential data (set_add vs u) <= potential data vs)%nat.
Proof.
  induction data as [|[k e] data IH]; simpl; [lia|].
  destruct (set_has vs k) eqn:E.
  - assert (E' : set_has (set_add vs u) k = true).
    { apply set_has_In, set_add_In. left. apply set_has_In. exact E. }
    rewrite E'. exact IH.
  - destruct (set_has (set_add vs u) k); lia.
Qed.

Lemma potential_add_key (data : EtymologyData) (vs : list string)
  (u : string) (entry : WordEntry) :
  data_get data u = Some entry -> set_has vs u = false ->
  (potential data (set_add vs u) + 2 + length (relatedWords entry)
   <= potential data vs)%nat.
Proof.
  unfold data_get.
  induction data as [|[k e] data IH]; simpl; [discriminate|].
  intros Hget Hnew. destruct (String.eqb k u) eqn:K.
  - apply String.eqb_eq in K. subst k. injection Hget as <-.
    rewrite Hnew.
    assert (E' : set_has (set_add vs u) u = true).
    { apply set_has_In, set_add_In. auto. }
    rewrite E'. pose proof (potential_add data vs u). lia.
  - specialize (IH Hget Hnew).
    destruct (set_has vs k) eqn:E.
    + assert (E' : set_has (set_add vs u) k = true).
      { apply set_has_In, set_add_In. left. apply set_has_In. exact E. }
      rewrite E'. exact IH.
    + destruct (set_has (set_add vs u) k); lia.
Qed.

Lemma potential_empty (data : EtymologyData) :
  S (potential data []) = Lambda.bfsBudget data.
Proof.
  reflexivity.
Qed.

Section LamTermination.

Import Lambda.

Variable data : EtymologyData.
Variable maxDepth : Z.

Lemma lam_processRelated_visited (cw : string) (cd : Z) (st : BfsState)
  (r : string) :
  st_visited (processRelated data maxDepth cw cd st r) = st_visited st.
Proof.
  unfold processRelated.
  destruct (data_get data (normalize r)); [|reflexivity].
  destruct (set_has _ _); [reflexivity|].
  destruct (_ <? _); reflexivity.
Qed.

Lemma lam_processRelated_queue_length (cw : string) (cd : Z) (st : BfsState)
  (r : string) :
  (length (st_queue (processRelated data maxDepth cw cd st r))
   <= S (length (st_queue st)))%nat.
Proof.
  unfold processRelated.
  destruct (data_get data (normalize r)); [|lia].
  destruct (set_has _ _); [lia|].
  destruct (_ <? _); simpl; [rewrite length_app; simpl|]; lia.
Qed.

Lemma lam_fold_processRelated_measure (cw : string) (cd : Z)
  (rs : list string) :
  forall st,
    st_visited (fold_left (processRelated data maxDepth cw cd) rs st)
    = st_visited st
    /\ (length (st_queue (fold_left (processRelated data maxDepth cw cd)
                            rs st))
        <= length rs + length (st_queue st))%nat.
Proof.
  induction rs as [|r rs IH]; intro st; simpl; [split; [reflexivity|lia]|].
  destruct (IH (processRelated data maxDepth cw cd st r)) as [H1 H2].
  rewrite H1, lam_processRelated_visited. split; [reflexivity|].
  pose proof (lam_processRelated_queue_length cw cd st r). lia.
Qed.

Lemma lam_visit_measure (cw : string) (cd : Z) (st : BfsState) :
  (lamMeasure data (visit data maxDepth cw cd st) <= lamMeasure data st)%nat.
Proof.
  unfold visit.
  destruct (set_has (st_visited st) cw) eqn:V; simpl; [lia|].
  destruct (cd >? maxDepth); simpl; [lia|].
  destruct (data_get data cw) as [entry|] eqn:G.
  - unfold lamMeasure.
    destruct (lam_fold_processRelated_measure cw cd (relatedWords entry)
                (mkState (st_nodes st
                          ++ [mkNode cw cw (definition entry) cd
                                (relatedWords entry)])
                   (st_edges st) (set_add (st_visited st) cw) (st_queue st)))
      as [H1 H2].
    rewrite H1. simpl in *.
    pose proof (potential_add_key data (st_visited st) cw entry G V). lia.
  - unfold lamMeasure. simpl.
    pose proof (potential_add data (st_visited st) cw). lia.
Qed.

(** The loop leaves with an empty queue before its budget ends. *)
Lemma lam_bfsLoop_queue_empty (budget : nat) :
  forall st, (lamMeasure data st <= budget)%nat ->
             st_queue (bfsLoop budget data maxDepth st) = [].
Proof.
  induction budget as [|b IH]; intros st Hm.
  - simpl. unfold lamMeasure in Hm.
    destruct (st_queue st); [reflexivity|simpl in Hm; lia].
  - simpl. destruct (st_queue st) as [|[cw cd] rest] eqn:Q; [exact Q|].
    apply IH.
    eapply Nat.le_trans; [apply lam_visit_measure|].
    unfold lamMeasure, shift in *. rewrite Q in Hm. simpl in *. lia.
Qed.

(** A larger budget gives the same final state. *)
Lemma lam_bfsLoop_budget_irrelevant (budget : nat) :
  forall st budget',
    (lamMeasure data st <= budget)%nat -> (budget <= budget')%nat ->
    bfsLoop budget' data maxDepth st = bfsLoop budget data maxDepth st.
Proof.
  induction budget as [|b IH]; intros st budget' Hm Hle.
  - unfold lamMeasure in Hm.
    destruct (st_queue st) eqn:Q; [|simpl in Hm; lia].
    destruct budget'; simpl; rewrite ?Q; reflexivity.
  - destruct budget' as [|b']; [lia|]. simpl.
    destruct (st_queue st) as [|[cw cd] rest] eqn:Q; [reflexivity|].
    apply IH; [|lia].
    eapply Nat.le_trans; [apply lam_visit_measure|].
    unfold lamMeasure, shift in *. rewrite Q in Hm. simpl in *. lia.
Qed.

Lemma lam_initial_measure (root : string) :
  (lamMeasure data (initial root) <= bfsBudget data)%nat.
Proof.
  unfold lamMeasure, initial. simpl. rewrite <- potential_empty. lia.
Qed.

Lemma lam_bfs_queue_empty (root : string) :
  st_queue (bfs data root maxDepth) = [].
Proof.
  apply lam_bfsLoop_queue_empty, lam_initial_measure.
Qed.

End LamTermination.

(** ** The Lambda port's BFS: the invariant *)

Section LamInvariant.

Import Lambda.

Variable data : EtymologyData.
Variable root : string.
Variable maxDepth : Z.

Lemma lam_processRelated_nodes (cw : string) (cd : Z) (st : BfsState)
  (r : string) :
  st_nodes (processRelated data maxDepth cw cd st r) = st_nodes st.
Proof.
  unfold processRelated.
  destruct (data_get data (normalize r)); [|reflexivity].
  destruct (set_has _ _); [reflexivity|].
  destruct (_ <? _); reflexivity.
Qed.

Lemma lam_processRelated_inv (lvl : Z) (ncur : GraphNode) (r : string)
  (todo : list string) (st : BfsState) :
  LamInv data root maxDepth lvl (id ncur) (r :: todo) st ->
  In ncur (st_nodes st) -> depth ncur = lvl ->
  In r (node_relatedWords ncur) ->
  LamInv data root maxDepth lvl (id ncur) todo
    (processRelated data maxDepth (id ncur) lvl st r).
Proof.
  intros Inv Hncur Hlvl Hr.
  destruct Inv as [Ivis Ind Iq Ins Iln Ilq Isort Icl Iroot].
  unfold processRelated.
  destruct (data_get data (normalize r)) as [entryR|] eqn:G.
  2:{ constructor; auto.
      eapply closed_after_related with (q := st_queue st); eauto.
      intros Habs. congruence. }
  set (v := normalize r) in *.
  assert (Hgv : data_get data v <> None) by congruence.
  destruct (Ins ncur Hncur) as (Hhops & Hmax & entryC & HgetC & HrelC).
  assert (Hlinked : linked data (id ncur) v).
  { exists entryC, r. rewrite <- HrelC. auto. }
  destruct (set_has (st_visited st) v) eqn:V.
  - (* already visited *)
    apply set_has_In in V. rewrite Ivis in V.
    constructor; auto.
    eapply closed_after_related with (q := st_queue st); eauto.
    intros _ _. apply in_map_iff in V. destruct V as [n' [Hid Hn']].
    exists (depth n'). split; [pose proof (Iln n' Hn'); lia|].
    right. exists n'. auto.
  - destruct (lvl <? maxDepth) eqn:L.
    + (* enqueue *)
      apply Z.ltb_lt in L.
      constructor; simpl; auto.
      * intros w d Hin. apply in_app_iff in Hin.
        destruct Hin as [Hin|[[= <- <-]|[]]]; [auto|].
        repeat split; auto; [lia|].
        rewrite <- Hlvl. econstructor; eauto.
      * intros w d Hin. apply in_app_iff in Hin.
        destruct Hin as [Hin|[[= <- <-]|[]]]; [exact (Ilq w d Hin)|lia].
      * rewrite map_app. simpl. apply StronglySorted_snoc; [exact Isort|].
        intros y Hy. apply in_map_iff in Hy. destruct Hy as [[w d] [<- Hq]].
        simpl. pose proof (Ilq w d Hq). lia.
      * eapply closed_after_related with (q := st_queue st); eauto.
        -- intros. apply assigned_queue_snoc. assumption.
        -- intros _ _. exists (lvl + 1). split; [lia|].
           left. apply in_app_iff. right. left. reflexivity.
      * destruct Iroot as [d [Hd Ha]]. exists d. split; [exact Hd|].
        apply assigned_queue_snoc. exact Ha.
    + (* at the depth limit *)
      apply Z.ltb_ge in L.
      constructor; simpl; auto.
      eapply closed_after_related with (q := st_queue st); eauto.
      intros _ Habs. lia.
Qed.

Lemma lam_fold_processRelated_inv (lvl : Z) (ncur : GraphNode)
  (rs : list string) :
  forall st,
    LamInv data root maxDepth lvl (id ncur) rs st ->
    In ncur (st_nodes st) -> depth ncur = lvl ->
    (forall r, In r rs -> In r (node_relatedWords ncur)) ->
    LamInv data root maxDepth lvl (id ncur) []
      (fold_left (processRelated data maxDepth (id ncur) lvl) rs st).
Proof.
  induction rs as [|r rs IH]; intros st Inv Hncur Hlvl Hrs; simpl;
    [exact Inv|].
  apply IH; auto.
  - apply lam_processRelated_inv; auto. apply Hrs. left. reflexivity.
  - rewrite lam_processRelated_nodes. exact Hncur.
  - intros r' Hr'. apply Hrs. right. exact Hr'.
Qed.

(** An entry that leaves the queue for a word that is already a node: what
    was promised by the entry is kept by the node. *)
Lemma assigned_after_skip (ns : list GraphNode) (rest : list (string * Z))
  (u : string) (du : Z) (nu : GraphNode) (v : string) (d : Z) :
  In nu ns -> id nu = u -> depth nu <= du ->
  assigned ns ((u, du) :: rest) v d ->
  exists d', d' <= d /\ assigned ns rest v d'.
Proof.
  intros Hnu Hid Hdep [[[= -> ->]|Hin]|Hn].
  - exists (depth nu). split; [exact Hdep|]. right. exists nu. auto.
  - exists d. split; [lia|]. left. exact Hin.
  - exists d. split; [lia|]. right. exact Hn.
Qed.

(** An entry that leaves the queue and becomes the node [ncur]. *)
Lemma assigned_after_visit (ns : list GraphNode) (rest : list (string * Z))
  (ncur : GraphNode) (v : string) (d : Z) :
  assigned ns ((id ncur, depth ncur) :: rest) v d ->
  assigned (ns ++ [ncur]) rest v d.
Proof.
  intros [[[= <- <-]|Hin]|[n' [Hn' H]]].
  - right. exists ncur. split; [|auto].
    apply in_app_iff. right. left. reflexivity.
  - left. exact Hin.
  - right. exists n'. split; [|exact H]. apply in_app_iff. auto.
Qed.

Lemma lam_visit_inv (lvl : Z) (cur : string) (st : BfsState)
  (u : string) (du : Z) (rest : list (string * Z)) :
  LamInv data root maxDepth lvl cur [] st ->
  st_queue st = (u, du) :: rest ->
  LamInv data root maxDepth du u []
    (visit data maxDepth u du (shift st rest)).
Proof.
  intros Inv Q.
  destruct Inv as [Ivis Ind Iq Ins Iln Ilq Isort Icl Iroot].
  rewrite Q in *.
  destruct (Iq u du (or_introl eq_refl)) as (Hget & Hmax & Hhops).
  pose proof (Ilq u du (or_introl eq_refl)) as Hlu.
  simpl in Isort. inversion Isort as [|? ? Hs Hall]; subst.
  assert (Hrest : forall w d, In (w, d) rest -> du <= d <= du + 1).
  { intros w d Hin. rewrite Forall_forall in Hall.
    assert (du <= d) by (apply Hall, in_map_iff; exists (w, d); auto).
    pose proof (Ilq w d (or_intror Hin)). lia. }
  unfold visit, shift. simpl.
  assert (E : (du >? maxDepth) = false)
    by (rewrite Z.gtb_ltb; apply Z.ltb_ge; lia).
  rewrite E, orb_false_r.
  destruct (set_has (st_visited st) u) eqn:V.
  - (* the word is a node already *)
    apply set_has_In in V. rewrite Ivis in V.
    apply in_map_iff in V. destruct V as [nu [Hid Hnu]].
    assert (Hdu : depth nu <= du) by (pose proof (Iln nu Hnu); lia).
    constructor; simpl; auto.
    + intros w d Hin. apply Iq. right. exact Hin.
    + intros n Hn. pose proof (Iln n Hn). lia.
    + intros n r Hn Hr _ Hgr Hd.
      destruct (Icl n r Hn Hr) as [d [Hd1 Hd2]]; auto.
      destruct (assigned_after_skip _ _ _ _ nu _ _ Hnu Hid Hdu Hd2)
        as [d' [Hd' Ha]].
      exists d'. split; [lia|exact Ha].
    + destruct Iroot as [d [Hd1 Hd2]].
      destruct (assigned_after_skip _ _ _ _ nu _ _ Hnu Hid Hdu Hd2)
        as [d' [Hd' Ha]].
      exists d'. split; [lia|exact Ha].
  - (* a new node *)
    destruct (data_get data u) as [entry|] eqn:G; [|congruence].
    set (ncur := mkNode u u (definition entry) du (relatedWords entry)).
    assert (Hadd : set_add (st_visited st) u = st_visited st ++ [u])
      by (unfold set_add; rewrite V; reflexivity).
    apply set_has_not_In in V.
    apply (lam_fold_processRelated_inv du ncur (relatedWords entry));
      simpl; auto.
    2:{ apply in_app_iff. right. left. reflexivity. }
    constructor; simpl.
    + rewrite Hadd, map_app, Ivis. reflexivity.
    + rewrite map_app. simpl.
      apply NoDup_app; [exact Ind|repeat constructor; simpl; tauto|].
      intros x Hx [<-|[]]. apply V. rewrite Ivis. exact Hx.
    + intros w d Hin. apply Iq. right. exact Hin.
    + intros n Hn. apply in_app_iff in Hn. destruct Hn as [Hn|[<-|[]]]; auto.
      simpl. repeat split; auto. exists entry. auto.
    + intros n Hn. apply in_app_iff in Hn. destruct Hn as [Hn|[<-|[]]].
      * pose proof (Iln n Hn). lia.
      * simpl. lia.
    + exact Hrest.
    + exact Hs.
    + intros n r Hn Hr Htodo Hgr Hd.
      apply in_app_iff in Hn. destruct Hn as [Hn|[<-|[]]].
      * destruct (Icl n r Hn Hr) as [d [Hd1 Hd2]]; auto.
        exists d. split; [exact Hd1|].
        apply (assigned_after_visit _ _ ncur). exact Hd2.
      * exfalso. simpl in Htodo, Hr. exact (Htodo eq_refl Hr).
    + destruct Iroot as [d [Hd1 Hd2]]. exists d. split; [exact Hd1|].
      apply (assigned_after_visit _ _ ncur). exact Hd2.
Qed.

Lemma lam_bfsLoop_inv (budget : nat) :
  forall st lvl cur,
    LamInv data root maxDepth lvl cur [] st ->
    exists lvl' cur',
      LamInv data root maxDepth lvl' cur' []
        (bfsLoop budget data maxDepth st).
Proof.
  induction budget as [|b IH]; intros st lvl cur Inv; simpl; [eauto|].
  destruct (st_queue st) as [|[u du] rest] eqn:Q; [eauto|].
  eapply IH. eapply lam_visit_inv; eauto.
Qed.

Lemma lam_initial_inv :
  0 <= maxDepth -> data_get data root <> None ->
  LamInv data root maxDepth 0 "" [] (initial root).
Proof.
  intros Hd Hroot. constructor; simpl.
  - reflexivity.
  - constructor.
  - intros w d [[= <- <-]|[]]. repeat split; auto. constructor.
  - intros n [].
  - intros n [].
  - intros w d [[= <- <-]|[]]. lia.
  - repeat constructor.
  - intros n r [].
  - exists 0. split; [lia|]. left. left. reflexivity.
Qed.

Lemma lam_bfsLoop_queue_nil (budget : nat) (st : BfsState) :
  st_queue st = [] -> bfsLoop budget data maxDepth st = st.
Proof.
  intro Q. destruct budget; simpl; [reflexivity|]. rewrite Q. reflexivity.
Qed.

(** With a negative depth limit the root is dropped and nothing is built. *)
Lemma lam_bfs_negative_depth :
  maxDepth < 0 -> bfs data root maxDepth = mkState [] [] [] [].
Proof.
  intro Hneg. unfold bfs, bfsBudget. simpl.
  unfold visit. simpl.
  assert (E : (0 >? maxDepth) = true)
    by (rewrite Z.gtb_ltb; apply Z.ltb_lt; lia).
  rewrite E. apply lam_bfsLoop_queue_nil. reflexivity.
Qed.

(** What the loop leaves when the root is a key and the limit is not
    negative. *)
Lemma lam_bfs_final :
  0 <= maxDepth -> data_get data root <> None ->
  let st := bfs data root maxDepth in
  st_queue st = []
  /\ st_visited st = map id (st_nodes st)
  /\ NoDup (map id (st_nodes st))
  /\ (exists n, In n (st_nodes st) /\ id n = root /\ depth n = 0)
  /\ (forall n, In n (st_nodes st) ->
        hops data root (id n) (depth n) /\ depth n <= maxDepth)
  /\ (forall n v, In n (st_nodes st) -> linked data (id n) v ->
        depth n + 1 <= maxDepth ->
        exists n', In n' (st_nodes st) /\ id n' = v
                   /\ depth n' <= depth n + 1).
Proof.
  intros Hd Hroot st.
  pose proof (lam_bfs_queue_empty data maxDepth root) as Q. fold st in Q.
  assert (Inv : exists lvl cur, LamInv data root maxDepth lvl cur [] st)
    by (eapply lam_bfsLoop_inv, lam_initial_inv; auto).
  destruct Inv as [lvl [cur Inv]].
  destruct Inv as [Ivis Ind Iq Ins Iln Ilq Isort Icl Iroot].
  rewrite Q in *.
  split; [reflexivity|]. split; [exact Ivis|]. split; [exact Ind|].
  split.
  { destruct Iroot as [d [Hd0 [[]|[n [Hn [Hid Hdep]]]]]].
    exists n. repeat split; auto.
    destruct (Ins n Hn) as (Hh & _). apply hops_nonneg in Hh. lia. }
  split.
  { intros n Hn. destruct (Ins n Hn) as (H1 & H2 & _). auto. }
  intros n v Hn [entry [r [Hget [Hr [-> Hv]]]]] Hdep.
  destruct (Ins n Hn) as (_ & _ & entry' & Hget' & Hrel).
  assert (entry' = entry) by congruence. subst entry'.
  destruct (Icl n r Hn) as [d [Hd1 [[]|[n' [Hn' [Hid' Hd']]]]]]; auto.
  - rewrite Hrel. exact Hr.
  - exists n'. repeat split; auto. lia.
Qed.

(** The node list of the Lambda port's BFS is correct in the sense of C1. *)
Lemma lam_bfsCorrect :
  data_get data root <> None ->
  bfsCorrect data root maxDepth (st_nodes (bfs data root maxDepth)).
Proof.
  intro Hroot. destruct (Z_lt_le_dec maxDepth 0) as [Hneg|Hpos].
  - rewrite lam_bfs_negative_depth by assumption.
    apply bfsCorrect_nil. exact Hneg.
  - destruct (lam_bfs_final Hpos Hroot) as (_ & _ & Hnd & Hr & Hh & Hc).
    apply closed_bfsCorrect; auto.
Qed.

End LamInvariant.

(** Dropping nodes keeps the ids distinct. *)
Lemma filtered_ids_distinct (keep : GraphNode -> bool) (ns : list GraphNode) :
  NoDup (map id ns) -> NoDup (map id (filter keep ns)).
Proof.
  induction ns as [|n ns IH]; simpl; intro Hnd; [constructor|].
  apply NoDup_cons_iff in Hnd. destruct Hnd as [Hfresh Hnd].
  destruct (keep n); simpl; [|apply IH, Hnd].
  apply NoDup_cons_iff. split; [|apply IH, Hnd].
  intro Hin. apply Hfresh. apply in_map_iff in Hin.
  destruct Hin as [m [Hid Hm]]. apply filter_In in Hm.
  apply in_map_iff. exists m. tauto.
Qed.

(** ** Lookups on the object and lookups among the keys *)

Lemma map_get_app (V : Type) (a b : list (string * V)) (k : string) :
  map_get (a ++ b) k
  = match map_get a k with Some v => Some v | None => map_get b k end.
Proof.
  induction a as [|[k' v] a IH]; simpl; [reflexivity|].
  destruct (String.eqb k' k); [reflexivity|exact IH].
Qed.

Lemma map_get_names (V : Type) (v : V) (names : list string) (k : string) :
  map_get (map (fun name => (name, v)) names) k
  = if set_has names k then Some v else None.
Proof.
  unfold set_has. induction names as [|n names IH]; simpl; [reflexivity|].
  rewrite (String.eqb_sym k n).
  destruct (String.eqb n k); [reflexivity|exact IH].
Qed.

(** [lookupView data] has the entry [lookup] finds. *)
Lemma data_get_lookupView (data : EtymologyData) (w : string) :
  data_get (lookupView data) w
  = match lookup data w with
    | Entry entry => Some entry
    | Member => Some memberEntry
    | Undefined => None
    end.
Proof.
  unfold data_get, lookupView, lookup, data_get.
  rewrite map_get_app, map_get_names.
  destruct (map_get data w); [reflexivity|].
  destruct (set_has inheritedNames w); reflexivity.
Qed.

Lemma resolves_lookupView (data : EtymologyData) (w : string) :
  resolves data w = true <-> data_get (lookupView data) w <> None.
Proof.
  rewrite data_get_lookupView. unfold resolves.
  destruct (lookup data w); split; congruence.
Qed.

Lemma resolves_key (data : EtymologyData) (w : string) (entry : WordEntry) :
  data_get data w = Some entry -> resolves data w = true.
Proof.
  intro H. unfold resolves, lookup. rewrite H. reflexivity.
Qed.

Lemma lookup_key (data : EtymologyData) (w : string) (entry : WordEntry) :
  lookup data w = Entry entry <-> data_get data w = Some entry.
Proof.
  unfold lookup. destruct (data_get data w).
  - split; congruence.
  - destruct (set_has inheritedNames w); split; congruence.
Qed.

Lemma lookup_member (data : EtymologyData) (w : string) :
  lookup data w = Member
  <-> data_get data w = None /\ In w inheritedNames.
Proof.
  unfold lookup. destruct (data_get data w).
  - split; [congruence|intros [H _]; congruence].
  - destruct (set_has inheritedNames w) eqn:S.
    + split; [|reflexivity]. intros _. split; [reflexivity|].
      unfold set_has in S. apply existsb_exists in S.
      destruct S as [x [Hx E]]. apply String.eqb_eq in E. subst. exact Hx.
    + split; [congruence|]. intros [_ Hin]. exfalso.
      assert (T : set_has inheritedNames w = true).
      { unfold set_has. apply existsb_exists. exists w.
        split; [exact Hin|apply String.eqb_refl]. }
      congruence.
Qed.

(** The links of [lookupView data] are the links through related words that
    resolve. *)
Lemma linked_lookupView (data : EtymologyData) (u v : string) :
  linked (lookupView data) u v <-> resolvedLink data u v.
Proof.
  unfold linked, resolvedLink. split.
  - intros (entry & r & Hu & Hr & Hv & Hk).
    rewrite data_get_lookupView in Hu.
    destruct (lookup data u) as [entry'| |] eqn:L; try discriminate.
    + injection Hu as <-. apply lookup_key in L.
      exists entry', r. repeat split; try assumption.
      apply resolves_lookupView. exact Hk.
    + injection Hu as <-. destruct Hr.
  - intros (entry & r & Hu & Hr & Hv & Hk).
    exists entry, r. repeat split; try assumption.
    + rewrite data_get_lookupView.
      apply lookup_key in Hu. rewrite Hu. reflexivity.
    + apply resolves_lookupView. exact Hk.
Qed.

Lemma hops_lookupView (data : EtymologyData) (root w : string) (k : Z) :
  hops (lookupView data) root w k <-> resolvedHops data root w k.
Proof.
  split; intro H.
  - induction H as [|u v k H IH L]; [constructor|].
    econstructor; [exact IH|]. apply linked_lookupView. exact L.
  - induction H as [|u v k H IH L]; [constructor|].
    econstructor; [exact IH|]. apply linked_lookupView. exact L.
Qed.

(** ** A run of the server is the run on [lookupView data] *)

Section ServerOnView.

Variable data : EtymologyData.
Variable maxDepth : Z.

Lemma js_processRelated_view (cw : string) (cd : Z)
  (st : MemStorage.BfsState) (r : string) :
  JsMemStorage.processRelated data maxDepth cw cd st r
  = MemStorage.processRelated (lookupView data) maxDepth cw cd st r.
Proof.
  unfold JsMemStorage.processRelated, MemStorage.processRelated.
  rewrite data_get_lookupView. unfold resolves.
  destruct (lookup data (normalize r)); reflexivity.
Qed.

Lemma js_fold_processRelated_view (cw : string) (cd : Z) (rs : list string) :
  forall st,
    fold_left (JsMemStorage.processRelated data maxDepth cw cd) rs st
    = fold_left (MemStorage.processRelated (lookupView data) maxDepth cw cd)
        rs st.
Proof.
  induction rs as [|r rs IH]; intro st; simpl; [reflexivity|].
  rewrite js_processRelated_view. apply IH.
Qed.

(** An iteration that completes is the iteration on [lookupView data]. *)
Lemma js_visit_view (cw : string) (cd : Z) (st st' : MemStorage.BfsState) :
  JsMemStorage.visit data maxDepth cw cd st = Returns st' ->
  st' = MemStorage.visit (lookupView data) maxDepth cw cd st.
Proof.
  unfold JsMemStorage.visit, MemStorage.visit.
  destruct (cd >? maxDepth); [congruence|].
  rewrite data_get_lookupView.
  destruct (lookup data cw) as [entry| |]; try congruence.
  rewrite js_fold_processRelated_view. congruence.
Qed.

(** An iteration throws exactly at an inherited member within the depth
    limit; it neither fails otherwise nor runs on. *)
Lemma js_visit_outcome (cw : string) (cd : Z) (st : MemStorage.BfsState) :
  (exists st', JsMemStorage.visit data maxDepth cw cd st = Returns st')
  \/ (JsMemStorage.visit data maxDepth cw cd st = TypeError
      /\ cd <= maxDepth /\ lookup data cw = Member).
Proof.
  unfold JsMemStorage.visit.
  destruct (cd >? maxDepth) eqn:C; [left; eauto|].
  destruct (lookup data cw); [left; eauto| |left; eauto].
  right. split; [reflexivity|]. split; [lia|reflexivity].
Qed.

Lemma js_bfsLoop_view (budget : nat) :
  forall st st',
    JsMemStorage.bfsLoop budget data maxDepth st = Returns st' ->
    st' = MemStorage.bfsLoop budget (lookupView data) maxDepth st
    /\ MemStorage.st_queue st' = [].
Proof.
  induction budget as [|b IH]; intros st st'; simpl.
  - destruct (MemStorage.st_queue st) eqn:Q; [|discriminate].
    intro H. injection H as <-. auto.
  - destruct (MemStorage.st_queue st) as [|[cw cd] rest] eqn:Q.
    + intro H. injection H as <-. auto.
    + destruct (JsMemStorage.visit data maxDepth cw cd
                  (MemStorage.shift st rest)) as [st1| | |] eqn:V;
        simpl; try discriminate.
      apply js_visit_view in V. rewrite <- V. apply IH.
Qed.

(** The loop does not outrun its budget: whenever the run is still going, the run on [lookupView data] has words left in its queue. *)
Lemma js_bfsLoop_running (budget : nat) :
  forall st,
    JsMemStorage.bfsLoop budget data maxDepth st = StillRunning ->
    MemStorage.st_queue
      (MemStorage.bfsLoop budget (lookupView data) maxDepth st) <> [].
Proof.
  induction budget as [|b IH]; intros st; simpl.
  - destruct (MemStorage.st_queue st) eqn:Q; [discriminate|].
    intros _. discriminate.
  - destruct (MemStorage.st_queue st) as [|[cw cd] rest] eqn:Q;
      [discriminate|].
    destruct (JsMemStorage.visit data maxDepth cw cd
                (MemStorage.shift st rest)) as [st1| | |] eqn:V;
      simpl; try discriminate.
    + apply js_visit_view in V. rewrite <- V. apply IH.
    + destruct (js_visit_outcome cw cd (MemStorage.shift st rest))
        as [[st' E]|[E _]]; congruence.
Qed.

Lemma js_bfsLoop_no_error (budget : nat) :
  forall st, JsMemStorage.bfsLoop budget data maxDepth st <> ErrorThrown.
Proof.
  induction budget as [|b IH]; intros st; simpl.
  - destruct (MemStorage.st_queue st); discriminate.
  - destruct (MemStorage.st_queue st) as [|[cw cd] rest]; [discriminate|].
    destruct (js_visit_outcome cw cd (MemStorage.shift st rest))
      as [[st' E]|[E _]]; rewrite E; simpl; [apply IH|discriminate].
Qed.

(** The nodes of a loop only grow. *)
Lemma mem_processRelated_nodes_same (D : EtymologyData) (cw : string)
  (cd : Z) (st : MemStorage.BfsState) (r : string) :
  MemStorage.st_nodes (MemStorage.processRelated D maxDepth cw cd st r)
  = MemStorage.st_nodes st.
Proof.
  unfold MemStorage.processRelated.
  destruct (data_get D (normalize r)); [|reflexivity].
  destruct (set_has (MemStorage.st_visited st) (normalize r));
    [reflexivity|].
  destruct (cd + 1 <=? maxDepth); reflexivity.
Qed.

Lemma mem_fold_nodes_same (D : EtymologyData) (cw : string) (cd : Z)
  (rs : list string) :
  forall st,
    MemStorage.st_nodes
      (fold_left (MemStorage.processRelated D maxDepth cw cd) rs st)
    = MemStorage.st_nodes st.
Proof.
  induction rs as [|r rs IH]; intro st; simpl; [reflexivity|].
  rewrite IH. apply mem_processRelated_nodes_same.
Qed.

Lemma mem_visit_nodes_grow (D : EtymologyData) (cw : string) (cd : Z)
  (st : MemStorage.BfsState) (n : GraphNode) :
  In n (MemStorage.st_nodes st) ->
  In n (MemStorage.st_nodes (MemStorage.visit D maxDepth cw cd st)).
Proof.
  intro H. unfold MemStorage.visit.
  destruct (cd >? maxDepth); [exact H|].
  destruct (data_get D cw); [|exact H].
  rewrite mem_fold_nodes_same. simpl. apply in_or_app. left. exact H.
Qed.

Lemma mem_bfsLoop_nodes_grow (D : EtymologyData) (budget : nat) :
  forall st n,
    In n (MemStorage.st_nodes st) ->
    In n (MemStorage.st_nodes (MemStorage.bfsLoop budget D maxDepth st)).
Proof.
  induction budget as [|b IH]; intros st n H; simpl; [exact H|].
  destruct (MemStorage.st_queue st) as [|[cw cd] rest]; [exact H|].
  apply IH, mem_visit_nodes_grow. exact H.
Qed.

(** When the loop throws, the run on [lookupView data] has a node for an
    inherited member. *)
Lemma js_bfsLoop_throws (budget : nat) :
  forall st,
    JsMemStorage.bfsLoop budget data maxDepth st = TypeError ->
    exists n,
      In n (MemStorage.st_nodes
              (MemStorage.bfsLoop budget (lookupView data) maxDepth st))
      /\ lookup data (id n) = Member.
Proof.
  induction budget as [|b IH]; intros st; simpl.
  - destruct (MemStorage.st_queue st); discriminate.
  - destruct (MemStorage.st_queue st) as [|[cw cd] rest]; [discriminate|].
    destruct (js_visit_outcome cw cd (MemStorage.shift st rest))
      as [[st' E]|[E [Hd Hm]]]; rewrite E; simpl.
    + apply js_visit_view in E. rewrite <- E. apply IH.
    + intros _.
      exists (mkNode cw cw (definition memberEntry) cd
                (relatedWords memberEntry)).
      split; [|exact Hm].
      apply mem_bfsLoop_nodes_grow. unfold MemStorage.visit.
      replace (cd >? maxDepth) with false by lia.
      rewrite data_get_lookupView, Hm.
      rewrite mem_fold_nodes_same. simpl. apply in_or_app. right.
      left. reflexivity.
Qed.

(** The nodes of a run that returns are built from keys. *)
Lemma js_visit_nodes_keys (cw : string) (cd : Z)
  (st st' : MemStorage.BfsState) :
  JsMemStorage.visit data maxDepth cw cd st = Returns st' ->
  (forall n, In n (MemStorage.st_nodes st) -> data_get data (id n) <> None) ->
  forall n, In n (MemStorage.st_nodes st') -> data_get data (id n) <> None.
Proof.
  intros V Hst n Hn.
  pose proof (js_visit_view cw cd st st' V) as E. subst st'.
  revert V Hn. unfold JsMemStorage.visit, MemStorage.visit.
  destruct (cd >? maxDepth); [intros _; apply Hst|].
  rewrite data_get_lookupView.
  destruct (lookup data cw) as [entry| |] eqn:L;
    [|discriminate|intros _; apply Hst].
  intros _. rewrite mem_fold_nodes_same. simpl. intro Hn.
  apply in_app_or in Hn. destruct Hn as [Hn|[<-|[]]]; [apply Hst, Hn|].
  simpl. apply lookup_key in L. congruence.
Qed.

Lemma js_bfsLoop_nodes_keys (budget : nat) :
  forall st st',
    JsMemStorage.bfsLoop budget data maxDepth st = Returns st' ->
    (forall n, In n (MemStorage.st_nodes st) ->
               data_get data (id n) <> None) ->
    forall n, In n (MemStorage.st_nodes st') -> data_get data (id n) <> None.
Proof.
  induction budget as [|b IH]; intros st st'; simpl.
  - destruct (MemStorage.st_queue st); [|discriminate].
    intro H. injection H as <-. auto.
  - destruct (MemStorage.st_queue st) as [|[cw cd] rest].
    + intro H. injection H as <-. auto.
    + destruct (JsMemStorage.visit data maxDepth cw cd
                  (MemStorage.shift st rest)) as [st1| | |] eqn:V;
        simpl; try discriminate.
      intros H Hst. apply (IH st1 st' H).
      apply (js_visit_nodes_keys cw cd _ _ V). exact Hst.
Qed.

End ServerOnView.

(** The BFS of the server returns or throws a [TypeError]. *)
Lemma js_bfs_outcome (data : EtymologyData) (root : string) (maxDepth : Z) :
  (exists st, JsMemStorage.bfs data root maxDepth = Returns st)
  \/ JsMemStorage.bfs data root maxDepth = TypeError.
Proof.
  unfold JsMemStorage.bfs.
  destruct (JsMemStorage.bfsLoop (JsMemStorage.bfsBudget data) data maxDepth
              (MemStorage.initial root)) as [st| | |] eqn:B.
  - left. eauto.
  - right. reflexivity.
  - exfalso. exact (js_bfsLoop_no_error data maxDepth _ _ B).
  - exfalso. apply js_bfsLoop_running in B. apply B.
    apply (bfs_queue_empty (lookupView data) maxDepth root).
Qed.

Lemma js_bfs_view (data : EtymologyData) (root : string) (maxDepth : Z)
  (st : MemStorage.BfsState) :
  JsMemStorage.bfs data root maxDepth = Returns st ->
  st = MemStorage.bfs (lookupView data) root maxDepth.
Proof.
  intro H. apply (js_bfsLoop_view data maxDepth _ _ _ H).
Qed.

(** The BFS throws exactly when an inherited member lies within the depth
    limit. *)
Lemma js_bfs_throws_iff (data : EtymologyData) (root : string)
  (maxDepth : Z) :
  resolves data root = true ->
  (JsMemStorage.bfs data root maxDepth = TypeError
   <-> memberWithin data root maxDepth).
Proof.
  intro Hroot. apply resolves_lookupView in Hroot.
  pose proof (mem_bfsCorrect (lookupView data) root maxDepth Hroot)
    as (Hmin & _ & Hall).
  split.
  - intro T. apply js_bfsLoop_throws in T. destruct T as [n [Hn Hm]].
    destruct (Hmin n Hn) as [[Hh _] Hd].
    exists (id n), (depth n). split; [|auto].
    apply hops_lookupView. exact Hh.
  - intros (w & k & Hh & Hk & Hm).
    destruct (js_bfs_outcome data root maxDepth) as [[st E]|E]; [|exact E].
    exfalso. pose proof (js_bfs_view _ _ _ _ E) as V.
    apply hops_lookupView in Hh. specialize (Hall w k Hh Hk).
    rewrite <- V in Hall. apply in_map_iff in Hall.
    destruct Hall as [n [Hid Hn]].
    apply (js_bfsLoop_nodes_keys data maxDepth _ _ _ E) in Hn.
    + apply lookup_member in Hm. rewrite Hid in Hn. tauto.
    + intros m [].
Qed.

(** A call of the server's [getWordGraph] returns or throws a [TypeError]. *)
Lemma server_outcome (data : EtymologyData) (word : string) (maxDepth : Z) :
  (exists g, JsMemStorage.getWordGraph data word maxDepth = Returns g)
  \/ JsMemStorage.getWordGraph data word maxDepth = TypeError.
Proof.
  unfold JsMemStorage.getWordGraph.
  destruct (resolves data (normalize word)); [|left; eauto].
  destruct (js_bfs_outcome data (normalize word) maxDepth) as [[st E]|E];
    rewrite E; simpl; [left; eauto|right; reflexivity].
Qed.

(** A call that returns, returns what [MemStorage.getWordGraph] returns on
    [lookupView data]. *)
Lemma server_run_on_view (data : EtymologyData) (word : string)
  (maxDepth : Z) (g : WordGraph) :
  JsMemStorage.getWordGraph data word maxDepth = Returns g ->
  g = MemStorage.getWordGraph (lookupView data) word maxDepth.
Proof.
  unfold JsMemStorage.getWordGraph, MemStorage.getWordGraph.
  rewrite data_get_lookupView. unfold resolves.
  destruct (lookup data (normalize word)) eqn:L;
    try (destruct (JsMemStorage.bfs data (normalize word) maxDepth)
           as [st| | |] eqn:B; simpl; try discriminate;
         apply js_bfs_view in B; rewrite <- B; congruence).
  congruence.
Qed.

(** The call throws exactly when [data[word]] is truthy and an inherited
    member lies within the depth limit. *)
Lemma server_throws_iff (data : EtymologyData) (word : string)
  (maxDepth : Z) :
  JsMemStorage.getWordGraph data word maxDepth = TypeError
  <-> resolves data (normalize word) = true
      /\ memberWithin data (normalize word) maxDepth.
Proof.
  unfold JsMemStorage.getWordGraph.
  destruct (resolves data (normalize word)) eqn:R.
  - rewrite <- (js_bfs_throws_iff data (normalize word) maxDepth R).
    destruct (JsMemStorage.bfs data (normalize word) maxDepth);
      simpl; split; try tauto; try congruence; intros [_ H]; congruence.
  - split; [discriminate|intros [H _]; discriminate].
Qed.

(** The nodes of a returned graph are built from keys. *)
Lemma server_nodes_keys (data : EtymologyData) (word : string)
  (maxDepth : Z) (g : WordGraph) (n : GraphNode) :
  JsMemStorage.getWordGraph data word maxDepth = Returns g ->
  In n (nodes g) -> data_get data (id n) <> None.
Proof.
  unfold JsMemStorage.getWordGraph.
  destruct (resolves data (normalize word)).
  - destruct (JsMemStorage.bfs data (normalize word) maxDepth)
      as [st| | |] eqn:B; simpl; try discriminate.
    intro H. injection H as <-. unfold pruneHubs. simpl. intro Hn.
    apply filter_In in Hn. destruct Hn as [Hn _].
    apply (js_bfsLoop_nodes_keys data maxDepth _ _ _ B); [|exact Hn].
    intros m [].
  - intro H. injection H as <-. intros [].
Qed.

(** In a returned graph the root of a key is a node of depth 0, and the
    graph is empty exactly when the normalized word is no key. *)
Lemma server_returned_root (data : EtymologyData) (word : string)
  (maxDepth : Z) (g : WordGraph) :
  0 <= maxDepth ->
  JsMemStorage.getWordGraph data word maxDepth = Returns g ->
  data_get data (normalize word) <> None ->
  exists n, In n (nodes g) /\ id n = normalize word /\ depth n = 0.
Proof.
  intros Hd Hg K. pose proof (server_run_on_view _ _ _ _ Hg) as E. subst g.
  apply getWordGraph_root; [exact Hd|].
  rewrite data_get_lookupView.
  destruct (data_get data (normalize word)) as [entry|] eqn:G;
    [|congruence].
  apply lookup_key in G. rewrite G. discriminate.
Qed.

Lemma server_member_throws (data : EtymologyData) (word : string)
  (maxDepth : Z) :
  0 <= maxDepth -> lookup data (normalize word) = Member ->
  JsMemStorage.getWordGraph data word maxDepth = TypeError.
Proof.
  intros Hd L. apply server_throws_iff. split.
  - unfold resolves. rewrite L. reflexivity.
  - exists (normalize word), 0. split; [constructor|]. auto.
Qed.

Lemma server_undefined_empty (data : EtymologyData) (word : string)
  (maxDepth : Z) :
  lookup data (normalize word) = Undefined ->
  JsMemStorage.getWordGraph data word maxDepth = Returns (mkGraph [] []).
Proof.
  intro U. unfold JsMemStorage.getWordGraph, resolves. rewrite U.
  reflexivity.
Qed.

Lemma server_returned_empty (data : EtymologyData) (word : string)
  (maxDepth : Z) (g : WordGraph) :
  0 <= maxDepth ->
  JsMemStorage.getWordGraph data word maxDepth = Returns g ->
  (nodes g = [] <-> lookup data (normalize word) = Undefined)
  /\ (lookup data (normalize word) = Undefined -> g = mkGraph [] []).
Proof.
  intros Hd Hg. split; [split|].
  - intro E. destruct (lookup data (normalize word)) as [entry| |] eqn:L.
    + exfalso. apply lookup_key in L.
      destruct (server_returned_root data word maxDepth g Hd Hg)
        as [n [Hn _]]; [congruence|].
      rewrite E in Hn. destruct Hn.
    + exfalso. pose proof (server_member_throws data word maxDepth Hd L).
      congruence.
    + reflexivity.
  - intro U. rewrite (server_undefined_empty data word maxDepth U) in Hg.
    injection Hg as <-. reflexivity.
  - intro U. rewrite (server_undefined_empty data word maxDepth U) in Hg.
    congruence.
Qed.

(** ** A run of the Lambda port is the run on [lookupView data] *)

Lemma jsNodeOf_key (data : EtymologyData) (w d : string) (k : Z)
  (rs : list string) (entry : WordEntry) :
  data_get data w = Some entry ->
  jsNodeOf data (mkNode w w d k rs) = mkJsNode w w (Some d) k (Some rs).
Proof. intro H. unfold jsNodeOf. simpl. rewrite H. reflexivity. Qed.

Lemma jsNodeOf_member (data : EtymologyData) (w d : string) (k : Z)
  (rs : list string) :
  data_get data w = None ->
  jsNodeOf data (mkNode w w d k rs) = mkJsNode w w None k None.
Proof. intro H. unfold jsNodeOf. simpl. rewrite H. reflexivity. Qed.

Section LambdaOnView.

Variable data : EtymologyData.
Variable maxDepth : Z.

Lemma jl_processRelated_view (cw : string) (cd : Z) (st : Lambda.BfsState)
  (r : string) :
  JsLambda.processRelated data (Limit maxDepth) cw cd (jsStateOf data st) r
  = jsStateOf data (Lambda.processRelated (lookupView data) maxDepth cw cd
                      st r).
Proof.
  unfold JsLambda.processRelated, Lambda.processRelated.
  rewrite data_get_lookupView. unfold resolves. cbn [JsLambda.st_visited
    JsLambda.st_edges JsLambda.st_nodes JsLambda.st_queue jsStateOf
    depthBelow].
  destruct (lookup data (normalize r));
    destruct (set_has (Lambda.st_visited st) (normalize r));
    try reflexivity;
    cbn [negb andb]; destruct (cd <? maxDepth); reflexivity.
Qed.

Lemma jl_fold_processRelated_view (cw : string) (cd : Z) (rs : list string) :
  forall st,
    fold_left (JsLambda.processRelated data (Limit maxDepth) cw cd) rs
      (jsStateOf data st)
    = jsStateOf data
        (fold_left (Lambda.processRelated (lookupView data) maxDepth cw cd)
           rs st).
Proof.
  induction rs as [|r rs IH]; intro st; simpl; [reflexivity|].
  rewrite jl_processRelated_view. apply IH.
Qed.

Lemma jl_visit_view (cw : string) (cd : Z) (st : Lambda.BfsState) :
  JsLambda.visit data (Limit maxDepth) cw cd (jsStateOf data st)
  = jsStateOf data (Lambda.visit (lookupView data) maxDepth cw cd st).
Proof.
  unfold JsLambda.visit, Lambda.visit.
  rewrite data_get_lookupView.
  cbn [JsLambda.st_visited JsLambda.st_edges JsLambda.st_nodes
       JsLambda.st_queue jsStateOf depthAbove].
  destruct (set_has (Lambda.st_visited st) cw || (cd >? maxDepth))%bool;
    [reflexivity|].
  destruct (lookup data cw) as [entry| |] eqn:L.
  - apply lookup_key in L.
    rewrite <- jl_fold_processRelated_view. f_equal.
    unfold jsStateOf. cbn [Lambda.st_nodes Lambda.st_edges
      Lambda.st_visited Lambda.st_queue].
    rewrite map_app. cbn [map].
    rewrite (jsNodeOf_key data cw _ cd _ entry L). reflexivity.
  - apply lookup_member in L. destruct L as [L _].
    unfold memberEntry. cbn [relatedWords definition fold_left].
    unfold jsStateOf. cbn [Lambda.st_nodes Lambda.st_edges
      Lambda.st_visited Lambda.st_queue].
    rewrite map_app. cbn [map].
    rewrite (jsNodeOf_member data cw _ cd _ L). reflexivity.
  - reflexivity.
Qed.

Lemma jl_bfsLoop_view (budget : nat) :
  forall st,
    JsLambda.bfsLoop budget data (Limit maxDepth) (jsStateOf data st)
    = jsStateOf data (Lambda.bfsLoop budget (lookupView data) maxDepth st).
Proof.
  induction budget as [|b IH]; intro st; simpl; [reflexivity|].
  destruct (Lambda.st_queue st) as [|[cw cd] rest] eqn:Q; [reflexivity|].
  rewrite <- IH. f_equal.
  rewrite <- jl_visit_view. reflexivity.
Qed.

Lemma jl_bfs_view (root : string) :
  JsLambda.bfs data root (Limit maxDepth)
  = jsStateOf data (Lambda.bfs (lookupView data) root maxDepth).
Proof.
  unfold JsLambda.bfs, Lambda.bfs, JsLambda.bfsBudget.
  rewrite <- jl_bfsLoop_view. reflexivity.
Qed.

End LambdaOnView.

Lemma jsNodeOf_id (data : EtymologyData) (n : GraphNode) :
  jid (jsNodeOf data n) = id n.
Proof. unfold jsNodeOf. destruct (data_get data (id n)); reflexivity. Qed.

Lemma jsNodeOf_depth (data : EtymologyData) (n : GraphNode) :
  jdepth (jsNodeOf data n) = depth n.
Proof. unfold jsNodeOf. destruct (data_get data (id n)); reflexivity. Qed.

Lemma jsNodeOf_ids (data : EtymologyData) (ns : list GraphNode) :
  map jid (map (jsNodeOf data) ns) = map id ns.
Proof.
  rewrite map_map. apply map_ext. intro n. apply jsNodeOf_id.
Qed.

Lemma js_depthMapOf_view (data : EtymologyData) (ns : list GraphNode) :
  JsLambda.depthMapOf (map (jsNodeOf data) ns) = Lambda.depthMapOf ns.
Proof.
  unfold JsLambda.depthMapOf, Lambda.depthMapOf.
  generalize (@nil (string * Z)).
  induction ns as [|n ns IH]; intro m; simpl; [reflexivity|].
  rewrite jsNodeOf_id, jsNodeOf_depth. apply IH.
Qed.

Lemma js_pruneHubs_view (data : EtymologyData) (dm : list (string * Z))
  (ns : list GraphNode) (es : list GraphEdge) :
  JsLambda.pruneHubs dm (map (jsNodeOf data) ns) es
  = jsGraphOf data (pruneHubs dm ns es).
Proof.
  unfold JsLambda.pruneHubs, pruneHubs, jsGraphOf. cbn [nodes edges].
  f_equal. induction ns as [|n ns IH]; simpl; [reflexivity|].
  rewrite jsNodeOf_id.
  destruct (negb (set_has (nodesToRemoveOf dm es) (id n))); simpl;
    rewrite IH; reflexivity.
Qed.

(** The port returns the graph of [Lambda.getWordGraph] on
    [lookupView data], with the fields of the inherited members
    [undefined]. *)
Lemma lambda_run_on_view (data : EtymologyData) (word : string)
  (maxDepth : Z) :
  JsLambda.getWordGraph data word (Limit maxDepth)
  = jsGraphOf data (Lambda.getWordGraph (lookupView data) word maxDepth).
Proof.
  unfold JsLambda.getWordGraph, Lambda.getWordGraph.
  rewrite data_get_lookupView. unfold resolves.
  destruct (lookup data (normalize word)); try reflexivity;
    rewrite jl_bfs_view; cbn [JsLambda.st_nodes JsLambda.st_edges jsStateOf];
    rewrite js_depthMapOf_view; apply js_pruneHubs_view.
Qed.

Lemma lambdaBfsOnly_run_on_view (data : EtymologyData) (word : string)
  (maxDepth : Z) :
  JsLambdaBfsOnly.getWordGraph data word (Limit maxDepth)
  = jsGraphOf data
      (LambdaBfsOnly.getWordGraph (lookupView data) word maxDepth).
Proof.
  unfold JsLambdaBfsOnly.getWordGraph, LambdaBfsOnly.getWordGraph.
  rewrite data_get_lookupView. unfold resolves.
  destruct (lookup data (normalize word)); try reflexivity;
    rewrite jl_bfs_view; reflexivity.
Qed.

(** ** The port with [NaN] as the depth *)

Section LambdaNaN.

Variable data : EtymologyData.

Lemma jl_fold_queue0 (cw : string) (rs : list string) :
  forall st,
    JsLambda.st_queue
      (fold_left (JsLambda.processRelated data (Limit 0) cw 0) rs st)
    = JsLambda.st_queue st.
Proof.
  induction rs as [|r rs IH]; intro st; simpl; [reflexivity|].
  rewrite IH. unfold JsLambda.processRelated.
  destruct (negb (set_has (JsLambda.st_visited st) (normalize r))
            && resolves data (normalize r))%bool; reflexivity.
Qed.

Lemma jl_visit_nan (cw : string) (st : JsLambda.BfsState) :
  JsLambda.visit data NotANumberDepth cw 0 st
  = JsLambda.visit data (Limit 0) cw 0 st.
Proof.
  unfold JsLambda.visit. cbn [depthAbove].
  change (0 >? 0) with false.
  destruct (set_has (JsLambda.st_visited st) cw || false)%bool;
    [reflexivity|].
  destruct (lookup data cw); reflexivity.
Qed.

Lemma jl_visit_queue0 (cw : string) (st : JsLambda.BfsState) :
  JsLambda.st_queue (JsLambda.visit data (Limit 0) cw 0 st)
  = JsLambda.st_queue st.
Proof.
  unfold JsLambda.visit.
  destruct (set_has (JsLambda.st_visited st) cw || depthAbove 0 (Limit 0))%bool;
    [reflexivity|].
  destruct (lookup data cw); try reflexivity.
  rewrite jl_fold_queue0. reflexivity.
Qed.

Lemma jl_bfsLoop_done (budget : nat) (depth : DepthArg)
  (st : JsLambda.BfsState) :
  JsLambda.st_queue st = [] -> JsLambda.bfsLoop budget data depth st = st.
Proof.
  intro Q. destruct budget; simpl; [reflexivity|]. rewrite Q. reflexivity.
Qed.

(** With [NaN] the loop does what it does for depth 0: the root is visited
    and no word enters the queue. *)
Lemma jl_bfs_nan (root : string) :
  JsLambda.bfs data root NotANumberDepth = JsLambda.bfs data root (Limit 0).
Proof.
  unfold JsLambda.bfs, JsLambda.bfsBudget, Lambda.bfsBudget.
  cbn [JsLambda.bfsLoop JsLambda.initial JsLambda.st_queue].
  rewrite jl_visit_nan.
  match goal with
  | |- context [JsLambda.visit data (Limit 0) root 0 ?s] =>
      set (st1 := JsLambda.visit data (Limit 0) root 0 s)
  end.
  assert (Q : JsLambda.st_queue st1 = [])
    by (unfold st1; rewrite jl_visit_queue0; reflexivity).
  rewrite !(fun b d => jl_bfsLoop_done b d st1 Q). reflexivity.
Qed.

Lemma lambda_nan_as_zero (word : string) :
  JsLambda.getWordGraph data word NotANumberDepth
  = JsLambda.getWordGraph data word (Limit 0)
  /\ JsLambdaBfsOnly.getWordGraph data word NotANumberDepth
     = JsLambdaBfsOnly.getWordGraph data word (Limit 0).
Proof.
  unfold JsLambda.getWordGraph, JsLambdaBfsOnly.getWordGraph.
  rewrite jl_bfs_nan. split; reflexivity.
Qed.

End LambdaNaN.

(** ** The counting BFS of the precomputer *)

Section CountingBfs.

Variable data : EtymologyData.
Variable maxDepth : Z.

Lemma size_processRelated_inStep (cw : string) (cd : Z)
  (s : StatsPrecomputer.SizeState) (l : Lambda.BfsState) (r : string) :
  inStep s l ->
  inStep (StatsPrecomputer.processRelated data maxDepth cd s r)
         (Lambda.processRelated (lookupView data) maxDepth cw cd l r).
Proof.
  intros [Hv Hq].
  unfold StatsPrecomputer.processRelated, Lambda.processRelated.
  rewrite Hv, Hq, data_get_lookupView. unfold resolves.
  destruct (lookup data (normalize r));
    destruct (set_has (Lambda.st_visited l) (normalize r)); simpl;
    try (split; assumption);
    destruct (cd <? maxDepth); split; simpl; auto.
Qed.

Lemma size_fold_inStep (cw : string) (cd : Z) (rs : list string) :
  forall s l,
    inStep s l ->
    inStep (fold_left (StatsPrecomputer.processRelated data maxDepth cd) rs s)
           (fold_left (Lambda.processRelated (lookupView data) maxDepth cw cd)
              rs l).
Proof.
  induction rs as [|r rs IH]; intros s l H; simpl; [exact H|].
  apply IH, size_processRelated_inStep, H.
Qed.

Lemma size_visit_inStep (cw : string) (cd : Z)
  (s : StatsPrecomputer.SizeState) (l : Lambda.BfsState) :
  inStep s l ->
  inStep (StatsPrecomputer.visit data maxDepth cw cd s)
         (Lambda.visit (lookupView data) maxDepth cw cd l).
Proof.
  intros [Hv Hq]. unfold StatsPrecomputer.visit, Lambda.visit.
  rewrite Hv, Hq, data_get_lookupView.
  destruct (set_has (Lambda.st_visited l) cw || (cd >? maxDepth))%bool;
    [split; assumption|].
  destruct (lookup data cw) as [entry| |]; [| |split; reflexivity].
  - apply size_fold_inStep. split; reflexivity.
  - split; reflexivity.
Qed.

Lemma sizeLoop_inStep (budget : nat) :
  forall s l,
    inStep s l ->
    inStep (StatsPrecomputer.sizeLoop budget data maxDepth s)
           (Lambda.bfsLoop budget (lookupView data) maxDepth l).
Proof.
  induction budget as [|b IH]; intros s l H; simpl; [exact H|].
  destruct H as [Hv Hq]. rewrite Hq.
  destruct (Lambda.st_queue l) as [|[cw cd] rest] eqn:Q;
    [split; [exact Hv|congruence]|].
  apply IH, size_visit_inStep. split; [exact Hv|reflexivity].
Qed.

(** The counting loop ends with the queue empty and with the visited set of
    the Lambda port's BFS. *)
Lemma sizeLoop_final (root : string) :
  let s := StatsPrecomputer.sizeLoop (Lambda.bfsBudget (lookupView data))
             data maxDepth (StatsPrecomputer.mkState [] [(root, 0)]) in
  StatsPrecomputer.st_queue s = []
  /\ StatsPrecomputer.st_visited s
     = JsLambda.st_visited (JsLambda.bfs data root (Limit maxDepth)).
Proof.
  intro s.
  destruct (sizeLoop_inStep (Lambda.bfsBudget (lookupView data))
              (StatsPrecomputer.mkState [] [(root, 0)])
              (Lambda.initial root)) as [Hv Hq]; [split; reflexivity|].
  fold s in Hv, Hq. rewrite jl_bfs_view. split; [|exact Hv].
  rewrite Hq. apply lam_bfs_queue_empty.
Qed.

Lemma lam_visited_nodes (D : EtymologyData) (root : string) :
  data_get D root <> None ->
  Lambda.st_visited (Lambda.bfs D root maxDepth)
  = map id (Lambda.st_nodes (Lambda.bfs D root maxDepth)).
Proof.
  intro Hroot. destruct (Z_lt_le_dec maxDepth 0) as [Hneg|Hpos].
  - rewrite lam_bfs_negative_depth by assumption. reflexivity.
  - apply (lam_bfs_final D root maxDepth Hpos Hroot).
Qed.

(** The count is the number of nodes the port's BFS emits. *)
Lemma computeGraphSize_length (word : string) :
  StatsPrecomputer.computeGraphSize word maxDepth data
  = Z.of_nat
      (length (jnodes (JsLambdaBfsOnly.getWordGraph data word (Limit maxDepth)))).
Proof.
  unfold StatsPrecomputer.computeGraphSize, JsLambdaBfsOnly.getWordGraph.
  destruct (resolves data (normalize word)) eqn:G; [|reflexivity].
  cbn [jnodes].
  destruct (sizeLoop_final (normalize word)) as [_ Hv]. rewrite Hv.
  rewrite jl_bfs_view. cbn [JsLambda.st_visited JsLambda.st_nodes jsStateOf].
  rewrite lam_visited_nodes by (apply resolves_lookupView; exact G).
  rewrite !length_map. reflexivity.
Qed.

(** Two node lists that are both correct have the same length. *)
Lemma bfsCorrect_same_length (D : EtymologyData) (root : string)
  (ns ns' : list GraphNode) :
  bfsCorrect D root maxDepth ns -> bfsCorrect D root maxDepth ns' ->
  length ns = length ns'.
Proof.
  assert (H : forall a b, bfsCorrect D root maxDepth a ->
                          bfsCorrect D root maxDepth b ->
                          (length a <= length b)%nat).
  { intros a b (A1 & A2 & A3) (B1 & B2 & B3).
    rewrite <- (length_map id a), <- (length_map id b).
    apply NoDup_incl_length; [exact A2|].
    intros w Hw. apply in_map_iff in Hw. destruct Hw as [n [<- Hn]].
    destruct (A1 n Hn) as [[Hh _] Hd]. eapply B3; eauto. }
  intros Ha Hb. apply Nat.le_antisymm; apply H; assumption.
Qed.

End CountingBfs.

(** ** C1, C3, C8, C9 on the dictionary object *)

(** A word reached through keys is the root or a key. *)
Lemma hops_key (data : EtymologyData) (root w : string) (k : Z) :
  hops data root w k -> w = root \/ data_get data w <> None.
Proof.
  intro H. destruct H as [|u v k H L]; [left; reflexivity|].
  right. destruct L as (entry & r & _ & _ & _ & Hk). exact Hk.
Qed.

Lemma bfsCorrect_resolved (data : EtymologyData) (root : string)
  (maxDepth : Z) (ns : list GraphNode) :
  bfsCorrect (lookupView data) root maxDepth ns ->
  bfsCorrectResolved data root maxDepth
    (map (fun n => (id n, depth n)) ns).
Proof.
  intros (Hmin & Hnd & Hall). split; [|split].
  - intros w d Hin. apply in_map_iff in Hin.
    destruct Hin as [n [E Hn]]. injection E as <- <-.
    destruct (Hmin n Hn) as [[Hh Hle] Hd]. split; [|exact Hd]. split.
    + apply hops_lookupView. exact Hh.
    + intros k Hk. apply Hle. apply hops_lookupView. exact Hk.
  - rewrite map_map. exact Hnd.
  - intros w k Hh Hk. rewrite map_map. apply (Hall w k); [|exact Hk].
    apply hops_lookupView. exact Hh.
Qed.

Lemma js_node_pairs (data : EtymologyData) (ns : list GraphNode) :
  map (fun n => (jid n, jdepth n)) (map (jsNodeOf data) ns)
  = map (fun n => (id n, depth n)) ns.
Proof.
  rewrite map_map. apply map_ext. intro n.
  rewrite jsNodeOf_id, jsNodeOf_depth. reflexivity.
Qed.

Lemma lambdaBfsOnly_bfs_nodes (D : EtymologyData) (word : string)
  (maxDepth : Z) :
  data_get D (normalize word) <> None ->
  nodes (LambdaBfsOnly.getWordGraph D word maxDepth)
  = Lambda.st_nodes (Lambda.bfs D (normalize word) maxDepth).
Proof.
  intro H. unfold LambdaBfsOnly.getWordGraph.
  destruct (data_get D (normalize word)); [reflexivity|congruence].
Qed.

(** C1: the claim fails on an index in which a related word normalizes to
    the name of an inherited member (as in [{a: [constructor]}]).  For
    every index, every root word that is a key and every depth limit within
    which such a name is reached: the server's [getWordGraph] throws a
    [TypeError]; the BFS of the Lambda port emits a node for the name,
    which is no key of the index and which no path of hops through keys
    reaches, so its depth is not a hop count over the index. *)
Theorem bfs_breaks_on_inherited_member :
  forall (data : EtymologyData) (word : string) (maxDepth : Z),
    data_get data (normalize word) <> None ->
    memberWithin data (normalize word) maxDepth ->
    JsMemStorage.getWordGraph data word maxDepth = TypeError
    /\ exists n,
         In n (jnodes (JsLambdaBfsOnly.getWordGraph data word (Limit maxDepth)))
         /\ data_get data (jid n) = None
         /\ jdefinition n = None /\ jrelatedWords n = None
         /\ forall k, ~ hops data (normalize word) (jid n) k.
Proof.
  intros data word maxDepth Hroot Hm.
  assert (R : resolves data (normalize word) = true).
  { destruct (data_get data (normalize word)) as [entry|] eqn:G;
      [|congruence]. eapply resolves_key; eauto. }
  split; [apply server_throws_iff; auto|].
  destruct Hm as (w & k & Hh & Hk & Hw).
  assert (RD : data_get (lookupView data) (normalize word) <> None)
    by (apply resolves_lookupView; exact R).
  destruct (lam_bfsCorrect (lookupView data) (normalize word) maxDepth RD)
    as (_ & _ & Hall).
  apply hops_lookupView in Hh. specialize (Hall w k Hh Hk).
  apply in_map_iff in Hall. destruct Hall as [n0 [Hid Hn0]].
  apply lookup_member in Hw. destruct Hw as [Hnone _].
  exists (jsNodeOf data n0).
  split.
  - rewrite lambdaBfsOnly_run_on_view. unfold jsGraphOf. cbn [jnodes].
    rewrite lambdaBfsOnly_bfs_nodes by exact RD. apply in_map. exact Hn0.
  - unfold jsNodeOf. rewrite Hid, Hnone.
    cbn [jid jdefinition jrelatedWords].
    repeat split; try assumption.
    intros j Hj. apply hops_key in Hj. destruct Hj as [->|Hj]; congruence.
Qed.

Lemma bfs_breaks_on_inherited_member_witness :
  JsMemStorage.getWordGraph memberData "a" 1 = TypeError
  /\ exists n,
       In n (jnodes (JsLambdaBfsOnly.getWordGraph memberData "a" (Limit 1)))
       /\ data_get memberData (jid n) = None
       /\ jdefinition n = None /\ jrelatedWords n = None
       /\ forall k, ~ hops memberData (normalize "a") (jid n) k.
Proof.
  apply (bfs_breaks_on_inherited_member memberData "a" 1).
  - discriminate.
  - exists "constructor", 1. split; [|split; [lia|reflexivity]].
    apply (resolvedHops_next memberData (normalize "a") "a" "constructor" 0).
    + apply resolvedHops_root.
    + exists (mkWordEntry "A" ["constructor"]), "constructor".
      repeat split. left. reflexivity.
Defined.

(** C3: the claim fails for a word whose normalization is the name of an
    inherited member and no key of the index (as ["constructor"]): for
    every index and every depth limit that is not negative, the server's
    [getWordGraph] throws a [TypeError] where the claim has it return empty
    nodes and empty edges. *)
Theorem getWordGraph_throws_for_member_word :
  forall (data : EtymologyData) (word : string) (maxDepth : Z),
    lookup data (normalize word) = Member -> 0 <= maxDepth ->
    data_get data (normalize word) = None
    /\ JsMemStorage.getWordGraph data word maxDepth = TypeError.
Proof.
  intros data word maxDepth Hm Hd. split; [apply lookup_member, Hm|].
  apply server_member_throws; assumption.
Qed.

Lemma getWordGraph_throws_for_member_word_witness :
  data_get scenarioA (normalize " Constructor ") = None
  /\ JsMemStorage.getWordGraph scenarioA " Constructor " 1 = TypeError.
Proof.
  apply (getWordGraph_throws_for_member_word scenarioA " Constructor " 1).
  - reflexivity.
  - lia.
Defined.



(** C9, amended: in every graph the server's [getWordGraph] returns, the
    [from] end of every edge is the id of a returned node and [data[to]]
    is truthy (the [to] end is a key of the index or the name of an
    inherited member); the [to] end is the id of a returned node too,
    unless the edge leaves a returned node at the maximum depth. *)
Theorem getWordGraph_edge_endpoints :
  forall (data : EtymologyData) (word : string) (maxDepth : Z)
         (g : WordGraph) (e : GraphEdge),
    JsMemStorage.getWordGraph data word maxDepth = Returns g ->
    In e (edges g) ->
    In (from e) (map id (nodes g))
    /\ resolves data (to e) = true
    /\ (In (to e) (map id (nodes g))
        \/ exists n, In n (nodes g) /\ id n = from e /\ depth n = maxDepth).
Proof.
  intros data word maxDepth g e Hg He.
  apply server_run_on_view in Hg. subst g.
  destruct (mem_edge_endpoints (lookupView data) word maxDepth e He)
    as (H1 & H2 & H3).
  split; [exact H1|]. split; [|exact H3].
  apply resolves_lookupView. exact H2.
Qed.

Lemma getWordGraph_edge_endpoints_witness :
  JsMemStorage.getWordGraph chainData "a" 1
  = Returns (MemStorage.getWordGraph chainData "a" 1)
  /\ In (mkEdge "b" "c") (edges (MemStorage.getWordGraph chainData "a" 1))
  /\ In "b" (map id (nodes (MemStorage.getWordGraph chainData "a" 1)))
  /\ resolves chainData "c" = true.
Proof.
  assert (G : JsMemStorage.getWordGraph chainData "a" 1
              = Returns (MemStorage.getWordGraph chainData "a" 1))
    by reflexivity.
  assert (H : In (mkEdge "b" "c")
                (edges (MemStorage.getWordGraph chainData "a" 1)))
    by (vm_compute; right; left; reflexivity).
  split; [exact G|]. split; [exact H|].
  pose proof (getWordGraph_edge_endpoints chainData "a" 1 _
                (mkEdge "b" "c") G H) as [H1 [H2 _]].
  split; [exact H1|exact H2].
Defined.

(** X29: for every index and every root word for which [data[word]] is
    truthy, counting hops through related words whose normalization
    resolves on the dictionary object (a key or the name of an inherited
    member): the node list of the Lambda port's BFS gives each word the
    minimum hop count as its depth, holds no word twice and holds every
    word within the depth limit; so does the node list of the server's BFS
    whenever the loop completes, and then the queue is empty; and the nodes
    the server returns after hub pruning have these depths, each word
    once. *)
Theorem bfs_depths_minimal_resolved :
  forall (data : EtymologyData) (word : string) (maxDepth : Z),
    resolves data (normalize word) = true ->
    bfsCorrectResolved data (normalize word) maxDepth
      (map (fun n => (jid n, jdepth n))
         (jnodes (JsLambdaBfsOnly.getWordGraph data word (Limit maxDepth))))
    /\ (forall st,
          JsMemStorage.bfs data (normalize word) maxDepth = Returns st ->
          MemStorage.st_queue st = []
          /\ bfsCorrectResolved data (normalize word) maxDepth
               (map (fun n => (id n, depth n)) (MemStorage.st_nodes st)))
    /\ (forall g,
          JsMemStorage.getWordGraph data word maxDepth = Returns g ->
          NoDup (map id (nodes g))
          /\ forall n, In n (nodes g) ->
               minResolvedHops data (normalize word) (id n) (depth n)).
Proof.
  intros data word maxDepth R.
  assert (RD : data_get (lookupView data) (normalize word) <> None)
    by (apply resolves_lookupView; exact R).
  pose proof (mem_bfsCorrect (lookupView data) (normalize word) maxDepth RD)
    as HA.
  pose proof (lam_bfsCorrect (lookupView data) (normalize word) maxDepth RD)
    as HL.
  split; [|split].
  - rewrite lambdaBfsOnly_run_on_view. unfold jsGraphOf. cbn [jnodes].
    rewrite js_node_pairs, lambdaBfsOnly_bfs_nodes by exact RD.
    apply bfsCorrect_resolved. exact HL.
  - intros st Hst. pose proof (js_bfs_view _ _ _ _ Hst) as E. subst st.
    split; [apply bfs_queue_empty|]. apply bfsCorrect_resolved. exact HA.
  - intros g Hg. apply server_run_on_view in Hg. subst g.
    rewrite getWordGraph_present by exact RD. cbv zeta.
    destruct HA as (H1 & H2 & _). split.
    + unfold pruneHubs. simpl. apply filtered_ids_distinct. exact H2.
    + intros n Hn. unfold pruneHubs in Hn. simpl in Hn.
      apply filter_In in Hn. destruct Hn as [Hn _].
      destruct (H1 n Hn) as [[Hh Hle] _]. split.
      * apply hops_lookupView. exact Hh.
      * intros k Hk. apply Hle. apply hops_lookupView. exact Hk.
Qed.

Lemma bfs_depths_minimal_resolved_witness :
  resolves memberData (normalize "a") = true
  /\ bfsCorrectResolved memberData (normalize "a") 1
       (map (fun n => (jid n, jdepth n))
          (jnodes (JsLambdaBfsOnly.getWordGraph memberData "a" (Limit 1)))).
Proof.
  assert (R : resolves memberData (normalize "a") = true) by reflexivity.
  split; [exact R|].
  exact (proj1 (bfs_depths_minimal_resolved memberData "a" 1 R)).
Defined.

(** X30: for every index, word and depth limit that is not negative: when
    [data[word]] is [undefined] for the normalized word, the server's
    [getWordGraph] returns empty nodes and empty edges; and whenever it
    returns a graph, the graph is empty exactly when the normalized word is
    no key of the index, and for a key the root is a node of depth 0, which
    hub pruning never removes. *)
Theorem getWordGraph_empty_iff_undefined :
  forall (data : EtymologyData) (word : string) (maxDepth : Z),
    0 <= maxDepth ->
    (lookup data (normalize word) = Undefined ->
     JsMemStorage.getWordGraph data word maxDepth = Returns (mkGraph [] []))
    /\ (forall g,
          JsMemStorage.getWordGraph data word maxDepth = Returns g ->
          (g = mkGraph [] [] <-> data_get data (normalize word) = None)
          /\ (data_get data (normalize word) <> None ->
              nodes g <> []
              /\ exists n, In n (nodes g) /\ id n = normalize word
                           /\ depth n = 0)).
Proof.
  intros data word maxDepth Hd. split; [apply server_undefined_empty|].
  intros g Hg.
  destruct (server_returned_empty data word maxDepth g Hd Hg) as [He Hu].
  assert (Hroot : data_get data (normalize word) <> None ->
                  exists n, In n (nodes g) /\ id n = normalize word
                            /\ depth n = 0)
    by (apply (server_returned_root data word maxDepth g Hd Hg)).
  split; [split|].
  - intro E. destruct (data_get data (normalize word)) eqn:G;
      [|reflexivity].
    destruct Hroot as [n [Hn _]]; [congruence|].
    rewrite E in Hn. destruct Hn.
  - intro K. apply Hu.
    destruct (lookup data (normalize word)) as [entry| |] eqn:L.
    + apply lookup_key in L. congruence.
    + exfalso. pose proof (server_member_throws data word maxDepth Hd L).
      congruence.
    + reflexivity.
  - intro K. destruct (Hroot K) as [n [Hn Hrest]].
    split; [|eauto]. intro E. rewrite E in Hn. destruct Hn.
Qed.

Lemma getWordGraph_empty_iff_undefined_witness :
  0 <= 1
  /\ lookup scenarioA (normalize "ghost") = Undefined
  /\ JsMemStorage.getWordGraph scenarioA "ghost" 1 = Returns (mkGraph [] []).
Proof.
  assert (H0 : 0 <= 1) by lia.
  assert (U : lookup scenarioA (normalize "ghost") = Undefined)
    by reflexivity.
  split; [exact H0|]. split; [exact U|].
  exact (proj1 (getWordGraph_empty_iff_undefined scenarioA "ghost" 1 H0) U).
Defined.

(** X31: for every index, word and depth bound, [computeGraphSize] is the
    number of nodes the BFS without hub pruning emits for the same word
    and depth; for a bound that is not negative it is 0 exactly when
    [data[word]] is [undefined] for the normalized word; and it is the
    number of nodes the server's BFS has built whenever that loop
    completes. *)
Theorem computeGraphSize_counts_emitted_nodes :
  forall (data : EtymologyData) (word : string) (maxDepth : Z),
    StatsPrecomputer.computeGraphSize word maxDepth data
    = Z.of_nat
        (length (jnodes (JsLambdaBfsOnly.getWordGraph data word (Limit maxDepth))))
    /\ (0 <= maxDepth ->
        (StatsPrecomputer.computeGraphSize word maxDepth data = 0
         <-> lookup data (normalize word) = Undefined))
    /\ (forall st,
          resolves data (normalize word) = true ->
          JsMemStorage.bfs data (normalize word) maxDepth = Returns st ->
          StatsPrecomputer.computeGraphSize word maxDepth data
          = Z.of_nat (length (MemStorage.st_nodes st))).
Proof.
  intros data word maxDepth.
  pose proof (computeGraphSize_length data maxDepth word) as Hlen.
  split; [exact Hlen|]. split.
  - intro Hd. rewrite Hlen, lambdaBfsOnly_run_on_view.
    unfold jsGraphOf. cbn [jnodes]. rewrite length_map.
    unfold LambdaBfsOnly.getWordGraph.
    destruct (data_get (lookupView data) (normalize word)) eqn:G.
    + assert (L : lookup data (normalize word) <> Undefined).
      { intro U. rewrite data_get_lookupView, U in G. discriminate. }
      split; [|intro U; congruence]. simpl nodes. intro H0. exfalso.
      destruct (lam_bfs_final (lookupView data) (normalize word) maxDepth Hd)
        as (_ & _ & _ & [n [Hn _]] & _); [congruence|].
      destruct (Lambda.st_nodes
                  (Lambda.bfs (lookupView data) (normalize word) maxDepth));
        [destruct Hn|simpl in H0; lia].
    + split; [|reflexivity]. intros _.
      rewrite data_get_lookupView in G.
      destruct (lookup data (normalize word)); congruence.
  - intros st R Hst. rewrite Hlen, lambdaBfsOnly_run_on_view.
    unfold jsGraphOf. cbn [jnodes]. rewrite length_map.
    assert (RD : data_get (lookupView data) (normalize word) <> None)
      by (apply resolves_lookupView; exact R).
    rewrite lambdaBfsOnly_bfs_nodes by exact RD.
    apply js_bfs_view in Hst. subst st. f_equal.
    apply (bfsCorrect_same_length maxDepth (lookupView data)
             (normalize word)).
    + apply lam_bfsCorrect. exact RD.
    + apply mem_bfsCorrect. exact RD.
Qed.

Lemma computeGraphSize_counts_emitted_nodes_witness :
  0 <= 3
  /\ (StatsPrecomputer.computeGraphSize "ghost" 3 scenarioA = 0
      <-> lookup scenarioA (normalize "ghost") = Undefined).
Proof.
  assert (H : 0 <= 3) by lia.
  split; [exact H|].
  exact (proj1 (proj2
           (computeGraphSize_counts_emitted_nodes scenarioA "ghost" 3)) H).
Defined.

(** ** What the hub pruner marks *)

Section MarksSatisfy.

Variable P : string -> Prop.

Lemma fold_set_add_all (cs r : list string) :
  (forall x, In x r -> P x) -> (forall c, In c cs -> P c) ->
  forall x, In x (fold_left set_add cs r) -> P x.
Proof.
  intros Hr Hcs x Hx. apply fold_set_add_In in Hx.
  destruct Hx; auto.
Qed.

Lemma markHub_fold_all (nodeDepthMap : list (string * Z))
  (m : list (string * list string)) :
  (forall p cs d c,
     In (p, cs) m -> map_get nodeDepthMap p = Some d -> 1 <= d ->
     (HUB_THRESHOLD <= length cs)%nat -> In c cs -> P c) ->
  forall r, (forall x, In x r -> P x) ->
  forall x, In x (fold_left (markHub nodeDepthMap) m r) -> P x.
Proof.
  induction m as [|[p cs] m IH]; intros Hm r Hr; cbn [fold_left];
    [exact Hr|].
  apply IH.
  - intros p' cs' d c Hin. apply (Hm p' cs' d c). right. exact Hin.
  - unfold markHub.
    destruct (map_get nodeDepthMap p) as [d|] eqn:G; [|exact Hr].
    destruct ((1 <=? d) && Nat.leb HUB_THRESHOLD (length cs))%bool eqn:E;
      [|exact Hr].
    apply andb_true_iff in E. destruct E as [E1 E2].
    apply Z.leb_le in E1. apply Nat.leb_le in E2.
    apply fold_set_add_all; [exact Hr|].
    intros c Hc. apply (Hm p cs d c); auto. left. reflexivity.
Qed.

Lemma markChild_fold_all (cs : list string) :
  (forall c, In c cs -> P c) ->
  forall r ch, (forall x, In x r -> P x) ->
  forall x, In x (fst (fold_left markChild cs (r, ch))) -> P x.
Proof.
  intros Hcs r ch Hr x Hx.
  destruct (markChild_fold_spec cs r ch) as (_ & H2 & _).
  destruct (H2 x Hx); auto.
Qed.

Lemma markDescendants_fold_all (m : list (string * list string)) :
  (forall p cs c, In (p, cs) m -> P p -> In c cs -> P c) ->
  forall r ch, (forall x, In x r -> P x) ->
  forall x, In x (fst (fold_left markDescendants m (r, ch))) -> P x.
Proof.
  induction m as [|[p cs] m IH]; intros Hm r ch Hr; cbn [fold_left];
    [exact Hr|].
  unfold markDescendants at 2. cbn [fst].
  assert (Hm' : forall p' cs' c, In (p', cs') m -> P p' -> In c cs' -> P c).
  { intros p' cs' c Hin. apply (Hm p' cs' c). right. exact Hin. }
  destruct (set_has r p) eqn:E.
  - apply set_has_In in E.
    destruct (fold_left markChild cs (r, ch)) as [r1 ch1] eqn:F.
    apply IH; [exact Hm'|].
    intros x Hx. change r1 with (fst (r1, ch1)) in Hx. rewrite <- F in Hx.
    revert x Hx. apply markChild_fold_all; [|exact Hr].
    intros c Hc. apply (Hm p cs c); auto. left. reflexivity.
  - apply IH; assumption.
Qed.

Lemma closureLoop_all (m : list (string * list string)) (budget : nat) :
  (forall p cs c, In (p, cs) m -> P p -> In c cs -> P c) ->
  forall r, (forall x, In x r -> P x) ->
  forall x, In x (closureLoop budget m r) -> P x.
Proof.
  intro Hm. induction budget as [|b IH]; intros r Hr; simpl; [exact Hr|].
  pose proof (markDescendants_fold_all m Hm r false Hr) as Hpass.
  fold (closurePass m r) in Hpass.
  destruct (closurePass m r) as [r1 changed]. simpl in Hpass.
  destruct changed; [apply IH|]; exact Hpass.
Qed.

(** Every mark satisfies [P] when the children of the hubs do and the
    derived children of a word that satisfies [P] do. *)
Lemma nodesToRemoveOf_all (nodeDepthMap : list (string * Z))
  (es : list GraphEdge) :
  (forall N c, isHub nodeDepthMap es N ->
               derivedChild nodeDepthMap es N c -> P c) ->
  (forall p c, P p -> derivedChild nodeDepthMap es p c -> P c) ->
  forall x, In x (nodesToRemoveOf nodeDepthMap es) -> P x.
Proof.
  intros Hhub Hstep. unfold nodesToRemoveOf.
  pose proof (buildChildrenByParent_sound nodeDepthMap es) as Hsound.
  apply closureLoop_all.
  - intros p cs c Hin Hp Hc. apply (Hstep p c Hp). eapply Hsound; eauto.
  - apply markHub_fold_all; [|intros x []].
    intros p cs d c Hin Hd Hd1 Hlen Hc.
    apply (Hhub p c); [|eapply Hsound; eauto].
    split; [eauto|]. exists cs. split; [|split; [exact Hlen|]].
    + eapply (fold_addEdge_NoDup nodeDepthMap es []); [|exact Hin].
      intros k ks [].
    + intros y Hy. eapply Hsound; eauto.
Qed.

End MarksSatisfy.

(** X1: The pruner removes the words that descend from a child of a hub, and
    no other word. *)
Theorem pruned_exactly_hub_descendants :
  forall (nodeDepthMap : list (string * Z)) (ns : list GraphNode)
         (es : list GraphEdge),
    (forall x,
       In x (nodesToRemoveOf nodeDepthMap es)
       <-> hubDescendant nodeDepthMap es x)
    /\ (forall n,
          In n (nodes (pruneHubs nodeDepthMap ns es))
          <-> In n ns /\ ~ hubDescendant nodeDepthMap es (id n))
    /\ (forall e,
          In e (edges (pruneHubs nodeDepthMap ns es))
          <-> In e es /\ ~ hubDescendant nodeDepthMap es (from e)
              /\ ~ hubDescendant nodeDepthMap es (to e)).
Proof.
  intros dm ns es.
  assert (M : forall x, In x (nodesToRemoveOf dm es)
                        <-> hubDescendant dm es x).
  { intro x. split.
    - revert x. apply nodesToRemoveOf_all.
      + intros N c HN Hc. exists N, c. split; [exact HN|].
        split; [exact Hc|constructor].
      + intros p c [N [c0 [HN [Hc0 Hd]]]] Hpc. exists N, c0.
        split; [exact HN|]. split; [exact Hc0|].
        econstructor; eauto.
    - intros [N [c [HN [Hc Hd]]]].
      eapply descendant_marked; [|exact Hd].
      eapply hub_children_marked; eauto. }
  split; [exact M|]. split.
  - intro n. unfold pruneHubs. simpl. rewrite filter_In, negb_true_iff,
      set_has_not_In, M. tauto.
  - intro e. unfold pruneHubs. simpl.
    rewrite filter_In, andb_true_iff, !negb_true_iff, !set_has_not_In, !M.
    tauto.
Qed.

Lemma no_hub_no_marks (nodeDepthMap : list (string * Z))
  (es : list GraphEdge) :
  (forall N, ~ isHub nodeDepthMap es N) ->
  nodesToRemoveOf nodeDepthMap es = [].
Proof.
  intro Hno.
  destruct (nodesToRemoveOf nodeDepthMap es) as [|x l] eqn:M; [reflexivity|].
  exfalso.
  assert (Hx : In x (nodesToRemoveOf nodeDepthMap es))
    by (rewrite M; left; auto).
  exact (nodesToRemoveOf_all (fun _ => False) nodeDepthMap es
           (fun N c HN _ => Hno N HN) (fun p c F _ => F) x Hx).
Qed.

Lemma pruneHubs_no_marks (nodeDepthMap : list (string * Z))
  (ns : list GraphNode) (es : list GraphEdge) :
  nodesToRemoveOf nodeDepthMap es = [] ->
  pruneHubs nodeDepthMap ns es = mkGraph ns es.
Proof.
  intro E.
  assert (F : forall (A : Type) (f : A -> bool) (l : list A),
             (forall a, f a = true) -> filter f l = l).
  { intros A f l Hf. induction l as [|a l IH]; simpl; [reflexivity|].
    rewrite Hf, IH. reflexivity. }
  unfold pruneHubs. rewrite E. cbv zeta.
  f_equal; apply F; intro; reflexivity.
Qed.

(** A depth map without a depth above 1 has no hub. *)
Lemma shallow_map_no_hub (nodeDepthMap : list (string * Z))
  (es : list GraphEdge) :
  (forall x, depthOr0 nodeDepthMap x <= 1) ->
  forall N, ~ isHub nodeDepthMap es N.
Proof.
  intros Hall N [[d [Hd Hd1]] [cs [_ [Hlen Hcs]]]].
  destruct cs as [|c cs]; [unfold HUB_THRESHOLD in Hlen; simpl in Hlen; lia|].
  destruct (Hcs c (or_introl eq_refl)) as [e [_ [_ Hlt]]].
  unfold depthOr0 in Hlt at 1. rewrite Hd in Hlt.
  specialize (Hall c). lia.
Qed.

(** X2: Without a hub the pruner returns the graph it was given. *)
Theorem no_hub_no_pruning :
  forall (nodeDepthMap : list (string * Z)) (ns : list GraphNode)
         (es : list GraphEdge),
    (forall N, ~ isHub nodeDepthMap es N) ->
    pruneHubs nodeDepthMap ns es = mkGraph ns es.
Proof.
  intros dm ns es Hno.
  apply pruneHubs_no_marks, no_hub_no_marks, Hno.
Qed.

Lemma no_hub_no_pruning_witness :
  (forall N, ~ isHub [("a", 0); ("b", 1)] [mkEdge "a" "b"] N)
  /\ pruneHubs [("a", 0); ("b", 1)] [] [mkEdge "a" "b"]
     = mkGraph [] [mkEdge "a" "b"].
Proof.
  assert (H : forall N, ~ isHub [("a", 0); ("b", 1)] [mkEdge "a" "b"] N).
  { apply shallow_map_no_hub. intro x. unfold depthOr0. cbn [map_get].
    destruct (String.eqb "a" x); [lia|].
    destruct (String.eqb "b" x); lia. }
  split; [exact H|].
  exact (no_hub_no_pruning [("a", 0); ("b", 1)] [] [mkEdge "a" "b"] H).
Defined.

(** Every mark lies at depth 2 or more. *)
Lemma marks_deep (nodeDepthMap : list (string * Z)) (es : list GraphEdge)
  (x : string) :
  In x (nodesToRemoveOf nodeDepthMap es) -> 2 <= depthOr0 nodeDepthMap x.
Proof.
  apply (nodesToRemoveOf_all (fun x => 2 <= depthOr0 nodeDepthMap x)).
  - intros N c [[d [Hd Hd1]] _] [e [_ [_ Hlt]]].
    unfold depthOr0 in Hlt at 1. rewrite Hd in Hlt. lia.
  - intros p c Hp [e [_ [_ Hlt]]]. lia.
Qed.

(** X3: The pruner keeps every node of depth 0 or 1 and every edge between
    such nodes. *)
Theorem shallow_nodes_survive_pruning :
  forall (nodeDepthMap : list (string * Z)) (ns : list GraphNode)
         (es : list GraphEdge),
    (forall n, In n ns -> depthOr0 nodeDepthMap (id n) <= 1 ->
               In n (nodes (pruneHubs nodeDepthMap ns es)))
    /\ (forall e, In e es ->
          depthOr0 nodeDepthMap (from e) <= 1 ->
          depthOr0 nodeDepthMap (to e) <= 1 ->
          In e (edges (pruneHubs nodeDepthMap ns es))).
Proof.
  intros dm ns es. split.
  - intros n Hn Hd. apply pruneHubs_node_kept; [exact Hn|].
    intro Hm. apply marks_deep in Hm. lia.
  - intros e He Hf Ht. unfold pruneHubs. simpl. apply filter_In.
    split; [exact He|]. apply andb_true_iff.
    split; apply negb_true_iff, set_has_not_In; intro Hm;
      apply marks_deep in Hm; lia.
Qed.

Lemma shallow_nodes_survive_pruning_witness :
  In (mkNode "h" "h" "H" 1 (map hubChildName (seq 1 80)))
     (MemStorage.st_nodes (MemStorage.bfs scenarioB "r" 2))
  /\ In (mkNode "h" "h" "H" 1 (map hubChildName (seq 1 80)))
        (nodes (MemStorage.getWordGraph scenarioB "r" 2)).
Proof.
  assert (H1 : In (mkNode "h" "h" "H" 1 (map hubChildName (seq 1 80)))
                 (MemStorage.st_nodes (MemStorage.bfs scenarioB "r" 2)))
    by (vm_compute; right; left; reflexivity).
  split; [exact H1|].
  refine (proj1 (shallow_nodes_survive_pruning
                   (MemStorage.st_nodeDepthMap (MemStorage.bfs scenarioB "r" 2))
                   (MemStorage.st_nodes (MemStorage.bfs scenarioB "r" 2))
                   (MemStorage.st_edges (MemStorage.bfs scenarioB "r" 2)))
            _ H1 _).
  vm_compute. discriminate.
Defined.

Lemma depthMapOf_get (ns : list GraphNode) (x : string) (d : Z) :
  map_get (Lambda.depthMapOf ns) x = Some d ->
  exists n, In n ns /\ id n = x /\ depth n = d.
Proof.
  unfold Lambda.depthMapOf.
  assert (G : forall l m,
             map_get (fold_left
                        (fun m node => map_set m (id node) (depth node)) l m)
               x = Some d ->
             map_get m x = Some d
             \/ exists n, In n l /\ id n = x /\ depth n = d).
  { induction l as [|n l IH]; intros m H; simpl in *; [auto|].
    destruct (IH _ H) as [H'|[n' [Hn' H']]].
    - destruct (string_dec (id n) x) as [E|E].
      + rewrite E, map_get_set_same in H'. injection H' as <-.
        right. exists n. auto.
      + rewrite map_get_set_other in H' by assumption. auto.
    - right. exists n'. auto. }
  intro H. destruct (G ns [] H) as [H'|H']; [discriminate|exact H'].
Qed.

Section ShallowGraphs.

Variable data : EtymologyData.
Variable word : string.
Variable maxDepth : Z.

(** The depths in the server's map are those of its nodes, within the
    limit. *)
Lemma bfs_depth_map :
  0 <= maxDepth -> data_get data (normalize word) <> None ->
  let st := MemStorage.bfs data (normalize word) maxDepth in
  (forall n, In n (MemStorage.st_nodes st) ->
     map_get (MemStorage.st_nodeDepthMap st) (id n) = Some (depth n))
  /\ (forall x, 0 <= depthOr0 (MemStorage.st_nodeDepthMap st) x <= maxDepth).
Proof.
  intros Hd Hroot st.
  pose proof (bfs_queue_empty data maxDepth (normalize word)) as Q.
  fold st in Q.
  destruct (bfs_inv data (normalize word) maxDepth Hd Hroot)
    as [lvl [cur Inv]]. fold st in Inv.
  destruct Inv as [Ivis _ _ Ins _ _ _ _ Idep _ _ _].
  split; [intros n Hn; apply (Ins n Hn)|].
  intro x. unfold depthOr0.
  destruct (map_get (MemStorage.st_nodeDepthMap st) x) as [d|] eqn:G;
    [|lia].
  destruct (Idep x d G) as [H0 Hv]. split; [exact H0|].
  apply Ivis in Hv. rewrite Q in Hv. destruct Hv as [Hv|[]].
  apply in_map_iff in Hv. destruct Hv as [n [Hid Hn]].
  destruct (Ins n Hn) as (_ & Hmax & Hdm & _).
  rewrite Hid, G in Hdm. injection Hdm as ->. exact Hmax.
Qed.

End ShallowGraphs.

(** X4: With a depth limit of 0 or 1 hub pruning removes nothing: the server
    returns the nodes and edges its BFS built, and the Lambda port returns
    what its version without pruning returns. *)
Theorem depth1_graph_unpruned :
  forall (data : EtymologyData) (word : string) (maxDepth : Z),
    maxDepth <= 1 ->
    (data_get data (normalize word) <> None ->
     MemStorage.getWordGraph data word maxDepth
     = mkGraph
         (MemStorage.st_nodes
            (MemStorage.bfs data (normalize word) maxDepth))
         (MemStorage.st_edges
            (MemStorage.bfs data (normalize word) maxDepth)))
    /\ Lambda.getWordGraph data word maxDepth
       = LambdaBfsOnly.getWordGraph data word maxDepth.
Proof.
  intros data word maxDepth Hle. split.
  - intro Hroot. rewrite getWordGraph_present by assumption. cbv zeta.
    destruct (Z_lt_le_dec maxDepth 0) as [Hneg|Hd].
    + rewrite bfs_negative_depth by assumption. reflexivity.
    + apply pruneHubs_no_marks, no_hub_no_marks, shallow_map_no_hub.
      intro x.
      pose proof (proj2 (bfs_depth_map data word maxDepth Hd Hroot) x). lia.
  - unfold Lambda.getWordGraph, LambdaBfsOnly.getWordGraph.
    destruct (data_get data (normalize word)) eqn:G; [|reflexivity].
    apply pruneHubs_no_marks, no_hub_no_marks, shallow_map_no_hub.
    intro x. unfold depthOr0.
    destruct (map_get _ x) as [d|] eqn:M; [|lia].
    apply depthMapOf_get in M. destruct M as [n [Hn [_ <-]]].
    destruct (Z_lt_le_dec maxDepth 0) as [Hneg|Hd].
    + rewrite lam_bfs_negative_depth in Hn by assumption. destruct Hn.
    + assert (Hroot : data_get data (normalize word) <> None) by congruence.
      destruct (lam_bfs_final data (normalize word) maxDepth Hd Hroot)
        as (_ & _ & _ & _ & Hh & _).
      destruct (Hh n Hn). lia.
Qed.

Lemma depth1_graph_unpruned_witness :
  1 <= 1
  /\ Lambda.getWordGraph scenarioB "r" 1
     = LambdaBfsOnly.getWordGraph scenarioB "r" 1.
Proof.
  assert (H : 1 <= 1) by lia.
  split; [exact H|].
  exact (proj2 (depth1_graph_unpruned scenarioB "r" 1 H)).
Defined.

(** With lookups among the keys and a depth limit of at least 1, every
    related word of the root that is a key is a node of the result, at
    depth 1 at most. *)
Lemma mem_neighbours_returned :
  forall (data : EtymologyData) (word : string) (maxDepth : Z) (v : string),
    1 <= maxDepth ->
    linked data (normalize word) v ->
    exists n, In n (nodes (MemStorage.getWordGraph data word maxDepth))
              /\ id n = v /\ depth n <= 1.
Proof.
  intros data word maxDepth v Hd Hl.
  assert (Hroot : data_get data (normalize word) <> None).
  { destruct Hl as [entry [r [Hget _]]]. congruence. }
  assert (Hd0 : 0 <= maxDepth) by lia.
  destruct (mem_bfsCorrect data (normalize word) maxDepth Hroot)
    as (Hmin & _ & Hall).
  assert (Hh : hops data (normalize word) v (0 + 1))
    by (econstructor; [constructor|exact Hl]).
  pose proof (Hall v (0 + 1) Hh ltac:(lia)) as Hin.
  apply in_map_iff in Hin. destruct Hin as [n [Hid Hn]].
  destruct (Hmin n Hn) as [[_ Hleast] _].
  rewrite Hid in Hleast. specialize (Hleast _ Hh).
  exists n. split; [|split; [exact Hid|lia]].
  rewrite getWordGraph_present by assumption. cbv zeta.
  apply pruneHubs_node_kept; [exact Hn|].
  intro Hm. apply marks_deep in Hm.
  destruct (bfs_depth_map data word maxDepth Hd0 Hroot) as [Hdm _].
  unfold depthOr0 in Hm. rewrite (Hdm n Hn) in Hm. lia.
Qed.


(** ** What the returned nodes hold *)

Section NodeContents.

Variable data : EtymologyData.
Variable maxDepth : Z.

Lemma mem_visit_nodeOfEntry (cw : string) (cd : Z)
  (st : MemStorage.BfsState) :
  (forall n, In n (MemStorage.st_nodes st) -> nodeOfEntry data n) ->
  forall n, In n (MemStorage.st_nodes (MemStorage.visit data maxDepth cw cd st))
            -> nodeOfEntry data n.
Proof.
  intros H n. unfold MemStorage.visit.
  destruct (cd >? maxDepth); [apply H|].
  destruct (data_get data cw) as [entry|] eqn:G; [|apply H].
  rewrite fold_processRelated_nodes. simpl. intro Hn.
  apply in_app_iff in Hn. destruct Hn as [Hn|[<-|[]]]; [apply H, Hn|].
  split; [reflexivity|]. exists entry. simpl. auto.
Qed.

Lemma mem_bfsLoop_nodeOfEntry (budget : nat) :
  forall st,
    (forall n, In n (MemStorage.st_nodes st) -> nodeOfEntry data n) ->
    forall n,
      In n (MemStorage.st_nodes (MemStorage.bfsLoop budget data maxDepth st))
      -> nodeOfEntry data n.
Proof.
  induction budget as [|b IH]; intros st H; simpl; [exact H|].
  destruct (MemStorage.st_queue st) as [|[cw cd] rest]; [exact H|].
  apply IH. apply mem_visit_nodeOfEntry. exact H.
Qed.

Lemma lam_fold_processRelated_nodes (cw : string) (cd : Z)
  (rs : list string) :
  forall st,
    Lambda.st_nodes (fold_left (Lambda.processRelated data maxDepth cw cd)
                       rs st)
    = Lambda.st_nodes st.
Proof.
  induction rs as [|r rs IH]; intro st; simpl; [reflexivity|].
  rewrite IH. apply lam_processRelated_nodes.
Qed.

Lemma lam_visit_nodeOfEntry (cw : string) (cd : Z) (st : Lambda.BfsState) :
  (forall n, In n (Lambda.st_nodes st) -> nodeOfEntry data n) ->
  forall n, In n (Lambda.st_nodes (Lambda.visit data maxDepth cw cd st))
            -> nodeOfEntry data n.
Proof.
  intros H n. unfold Lambda.visit.
  destruct (set_has (Lambda.st_visited st) cw || (cd >? maxDepth))%bool;
    [apply H|].
  destruct (data_get data cw) as [entry|] eqn:G; [|apply H].
  rewrite lam_fold_processRelated_nodes. simpl. intro Hn.
  apply in_app_iff in Hn. destruct Hn as [Hn|[<-|[]]]; [apply H, Hn|].
  split; [reflexivity|]. exists entry. simpl. auto.
Qed.

Lemma lam_bfsLoop_nodeOfEntry (budget : nat) :
  forall st,
    (forall n, In n (Lambda.st_nodes st) -> nodeOfEntry data n) ->
    forall n,
      In n (Lambda.st_nodes (Lambda.bfsLoop budget data maxDepth st))
      -> nodeOfEntry data n.
Proof.
  induction budget as [|b IH]; intros st H; simpl; [exact H|].
  destruct (Lambda.st_queue st) as [|[cw cd] rest]; [exact H|].
  apply IH. apply lam_visit_nodeOfEntry. exact H.
Qed.

End NodeContents.

Lemma lambda_nodes_of_bfs (data : EtymologyData) (word : string)
  (maxDepth : Z) (n : GraphNode) :
  In n (nodes (Lambda.getWordGraph data word maxDepth)) ->
  data_get data (normalize word) <> None
  /\ In n (Lambda.st_nodes (Lambda.bfs data (normalize word) maxDepth)).
Proof.
  unfold Lambda.getWordGraph.
  destruct (data_get data (normalize word)); [|intros []].
  unfold pruneHubs. simpl. intro H. apply filter_In in H.
  split; [congruence|tauto].
Qed.

Lemma server_nodes_of_bfs (data : EtymologyData) (word : string)
  (maxDepth : Z) (n : GraphNode) :
  In n (nodes (MemStorage.getWordGraph data word maxDepth)) ->
  data_get data (normalize word) <> None
  /\ In n (MemStorage.st_nodes
             (MemStorage.bfs data (normalize word) maxDepth)).
Proof.
  unfold MemStorage.getWordGraph.
  destruct (data_get data (normalize word)); [|intros []].
  unfold pruneHubs. simpl. intro H. apply filter_In in H.
  split; [congruence|tauto].
Qed.

(** With lookups among the keys, every returned node is made from the
    dictionary entry of its word and has a depth between 0 and the limit. *)
Lemma nodes_of_entries_on_keys :
  forall (data : EtymologyData) (word : string) (maxDepth : Z)
         (n : GraphNode),
    In n (nodes (MemStorage.getWordGraph data word maxDepth))
    \/ In n (nodes (Lambda.getWordGraph data word maxDepth)) ->
    nodeOfEntry data n /\ 0 <= depth n <= maxDepth.
Proof.
  intros data word maxDepth n [H|H].
  - apply server_nodes_of_bfs in H. destruct H as [Hroot Hn]. split.
    + revert n Hn. apply mem_bfsLoop_nodeOfEntry. intros n [].
    + destruct (mem_bfsCorrect data (normalize word) maxDepth Hroot)
        as (Hmin & _).
      destruct (Hmin n Hn) as [[Hh _] Hmax].
      apply hops_nonneg in Hh. lia.
  - apply lambda_nodes_of_bfs in H. destruct H as [Hroot Hn]. split.
    + revert n Hn. apply lam_bfsLoop_nodeOfEntry. intros n [].
    + destruct (lam_bfsCorrect data (normalize word) maxDepth Hroot)
        as (Hmin & _).
      destruct (Hmin n Hn) as [[Hh _] Hmax].
      apply hops_nonneg in Hh. lia.
Qed.


(** ** The root node *)

Lemma hops_zero (data : EtymologyData) (root w : string) (k : Z) :
  hops data root w k -> k = 0 -> w = root.
Proof.
  intros H. destruct H as [|u v k Hu Hl]; [reflexivity|].
  intro E. apply hops_nonneg in Hu. lia.
Qed.

Lemma find_first_some (A : Type) (f : A -> bool) (l : list A) (a : A) :
  In a l -> f a = true -> exists b, find f l = Some b.
Proof.
  induction l as [|x l IH]; simpl; [intros []|].
  intros [<-|Hin] Hf.
  - rewrite Hf. eauto.
  - destruct (f x); [eauto|auto].
Qed.

(** With lookups among the keys, the root is the only node of depth 0 in
    the server's result, and the first node of depth 0 is the root whenever
    the word is a key and the limit is not negative. *)
Lemma root_depth0_on_keys :
  forall (data : EtymologyData) (word : string) (maxDepth : Z),
    let g := MemStorage.getWordGraph data word maxDepth in
    (forall n, In n (nodes g) -> depth n = 0 -> id n = normalize word)
    /\ (0 <= maxDepth -> data_get data (normalize word) <> None ->
        exists n, findRootNode (nodes g) = Some n
                  /\ id n = normalize word /\ depth n = 0).
Proof.
  intros data word maxDepth g.
  assert (Hzero : forall n, In n (nodes g) -> depth n = 0 ->
                            id n = normalize word).
  { intros n Hn Hd. apply server_nodes_of_bfs in Hn.
    destruct Hn as [Hroot Hn].
    destruct (mem_bfsCorrect data (normalize word) maxDepth Hroot)
      as (Hmin & _).
    destruct (Hmin n Hn) as [[Hh _] _]. eapply hops_zero; eauto. }
  split; [exact Hzero|].
  intros Hd Hroot.
  destruct (getWordGraph_root data word maxDepth Hd Hroot)
    as [r [Hr [Hid Hdep]]]. fold g in Hr.
  destruct (find_first_some _ (fun n => depth n =? 0) (nodes g) r Hr)
    as [n Hfind]; [apply Z.eqb_eq; exact Hdep|].
  exists n. unfold findRootNode. split; [exact Hfind|].
  apply find_some in Hfind. destruct Hfind as [Hn Hz].
  apply Z.eqb_eq in Hz. auto.
Qed.


(** ** The Lambda port: empty results and distinct edges *)

Lemma lambda_root_kept (data : EtymologyData) (word : string)
  (maxDepth : Z) :
  0 <= maxDepth -> data_get data (normalize word) <> None ->
  exists n, In n (nodes (Lambda.getWordGraph data word maxDepth))
            /\ id n = normalize word /\ depth n = 0.
Proof.
  intros Hd Hroot.
  destruct (lam_bfs_final data (normalize word) maxDepth Hd Hroot)
    as (_ & _ & Hnd & [n [Hn [Hid Hdep]]] & _).
  unfold Lambda.getWordGraph.
  destruct (data_get data (normalize word)) eqn:G; [|congruence].
  exists n. split; [|auto].
  apply pruneHubs_node_kept; [exact Hn|].
  intro Hmark. apply marks_deep in Hmark.
  unfold depthOr0 in Hmark.
  destruct (map_get _ (id n)) as [d|] eqn:M; [|lia].
  apply depthMapOf_get in M. destruct M as [n' [Hn' [Hid' Hd']]].
  assert (n' = n) by (eapply NoDup_map_eq; eauto).
  subst n'. lia.
Qed.

(** With lookups among the keys and a limit that is not negative, the
    port returns no node exactly when the normalized word is no key; under
    a negative limit the result is empty for every word. *)
Lemma lambda_empty_on_keys :
  forall (data : EtymologyData) (word : string) (maxDepth : Z),
    (0 <= maxDepth ->
     (nodes (Lambda.getWordGraph data word maxDepth) = []
      <-> data_get data (normalize word) = None))
    /\ (maxDepth < 0 ->
        Lambda.getWordGraph data word maxDepth = mkGraph [] []).
Proof.
  intros data word maxDepth. split.
  - intro Hd. split.
    + intro Hnil.
      destruct (data_get data (normalize word)) as [entry|] eqn:G;
        [|reflexivity].
      destruct (lambda_root_kept data word maxDepth Hd) as [n [Hn _]];
        [congruence|].
      rewrite Hnil in Hn. destruct Hn.
    + intro Hnone. unfold Lambda.getWordGraph. rewrite Hnone. reflexivity.
  - intro Hneg. unfold Lambda.getWordGraph.
    destruct (data_get data (normalize word)); [|reflexivity].
    rewrite lam_bfs_negative_depth by exact Hneg. reflexivity.
Qed.


Section LambdaEdges.

Import Lambda.

Variable data : EtymologyData.
Variable maxDepth : Z.
Hypothesis Hrel : noRepeatedRelated data.

Lemma lam_processRelated_edges (cur : string) (cd : Z)
  (done : list string) (r : string) (st : BfsState) :
  ~ In (normalize r) (map normalize done) ->
  In cur (st_visited st) ->
  lamEdgesInv cur done st ->
  lamEdgesInv cur (done ++ [r]) (processRelated data maxDepth cur cd st r).
Proof.
  intros Hfresh Hcur (Hfrom & Hdist & Hcurs).
  assert (Keep : lamEdgesInv cur (done ++ [r]) st).
  { split; [exact Hfrom|]. split; [exact Hdist|].
    intros e He Hf. rewrite map_app. apply in_or_app. left. auto. }
  unfold processRelated.
  destruct (data_get data (normalize r)); [|exact Keep].
  destruct (set_has (st_visited st) (normalize r)) eqn:V; [exact Keep|].
  apply set_has_not_In in V.
  assert (New : lamEdgesInv cur (done ++ [r])
                  (mkState (st_nodes st)
                     (st_edges st ++ [mkEdge cur (normalize r)])
                     (st_visited st) (st_queue st))).
  { split; [|split]; simpl.
    - intros e He. apply in_app_iff in He.
      destruct He as [He|[<-|[]]]; [auto|exact Hcur].
    - apply distinctPairs_snoc; [exact Hdist|].
      intros e' He' [[Hf Ht]|[Hf Ht]]; simpl in Hf, Ht.
      + apply Hfresh. rewrite <- Ht. auto.
      + apply V. rewrite <- Hf. auto.
    - intros e He Hf. rewrite map_app. apply in_or_app.
      apply in_app_iff in He. destruct He as [He|[<-|[]]].
      + left. auto.
      + right. simpl. auto. }
  destruct (cd <? maxDepth);
    (destruct New as (N1 & N2 & N3); split; [exact N1|split; assumption]).
Qed.

Lemma lam_fold_processRelated_edges (cur : string) (cd : Z)
  (todo : list string) :
  forall (done : list string) (st : BfsState),
    NoDup (map normalize (done ++ todo)) ->
    In cur (st_visited st) ->
    lamEdgesInv cur done st ->
    lamEdgesInv cur (done ++ todo)
      (fold_left (processRelated data maxDepth cur cd) todo st).
Proof.
  induction todo as [|r todo IH]; intros done st Hnd Hcur Inv; simpl.
  - rewrite app_nil_r. exact Inv.
  - replace (done ++ r :: todo) with ((done ++ [r]) ++ todo)
      by (rewrite <- app_assoc; reflexivity).
    apply IH.
    + rewrite <- app_assoc. exact Hnd.
    + rewrite lam_processRelated_visited. exact Hcur.
    + apply lam_processRelated_edges; [|exact Hcur|exact Inv].
      rewrite map_app in Hnd. simpl in Hnd.
      apply NoDup_remove_2 in Hnd. intro Hin. apply Hnd.
      apply in_or_app. left. exact Hin.
Qed.

Lemma lam_visit_edges (cur : string) (cd : Z) (st : BfsState) :
  (forall e, In e (st_edges st) -> In (from e) (st_visited st)) ->
  distinctPairs (st_edges st) ->
  let st' := visit data maxDepth cur cd st in
  (forall e, In e (st_edges st') -> In (from e) (st_visited st'))
  /\ distinctPairs (st_edges st').
Proof.
  intros Hfrom Hdist. unfold visit.
  destruct (set_has (st_visited st) cur || (cd >? maxDepth))%bool eqn:C;
    [split; assumption|].
  apply orb_false_iff in C. destruct C as [V _].
  apply set_has_not_In in V.
  assert (Hsub : forall x, In x (st_visited st) ->
                           In x (set_add (st_visited st) cur))
    by (intros x Hx; apply set_add_In; auto).
  destruct (data_get data cur) as [entry|] eqn:G; cbv zeta.
  - destruct (lam_fold_processRelated_edges cur cd (relatedWords entry) []
                (mkState (st_nodes st
                            ++ [mkNode cur cur (definition entry) cd
                                  (relatedWords entry)])
                   (st_edges st) (set_add (st_visited st) cur)
                   (st_queue st)))
      as (F1 & F2 & _).
    + simpl. exact (Hrel cur entry G).
    + simpl. apply set_add_In. auto.
    + split; [|split]; simpl; auto.
      intros e He Hf. apply V. rewrite <- Hf. auto.
    + split; assumption.
  - simpl. split; [auto|exact Hdist].
Qed.

Lemma lam_bfsLoop_edges (budget : nat) :
  forall st,
    (forall e, In e (st_edges st) -> In (from e) (st_visited st)) ->
    distinctPairs (st_edges st) ->
    distinctPairs (st_edges (bfsLoop budget data maxDepth st)).
Proof.
  induction budget as [|b IH]; intros st Hfrom Hdist; simpl; [exact Hdist|].
  destruct (st_queue st) as [|[cw cd] rest]; [exact Hdist|].
  destruct (lam_visit_edges cw cd (shift st rest) Hfrom Hdist) as [H1 H2].
  apply IH; assumption.
Qed.

Lemma lam_bfs_edges (root : string) :
  distinctPairs (st_edges (bfs data root maxDepth)).
Proof.
  apply lam_bfsLoop_edges; simpl; [intros e []|exact distinctPairs_nil].
Qed.

End LambdaEdges.

(** X9: When no list of related words of the dictionary names the same
    normalized word twice, the Lambda port returns at most one edge per
    unordered pair of words, with and without hub pruning, although it has
    no duplicate test of its own. *)
Theorem lambda_edges_distinct :
  forall (data : EtymologyData) (word : string) (maxDepth : Z),
    noRepeatedRelated data ->
    distinctPairs (edges (Lambda.getWordGraph data word maxDepth))
    /\ distinctPairs (edges (LambdaBfsOnly.getWordGraph data word maxDepth)).
Proof.
  intros data word maxDepth Hrel.
  unfold Lambda.getWordGraph, LambdaBfsOnly.getWordGraph.
  destruct (data_get data (normalize word));
    [|split; exact distinctPairs_nil].
  split.
  - unfold pruneHubs. simpl. apply distinctPairs_filter.
    apply lam_bfs_edges. exact Hrel.
  - simpl. apply lam_bfs_edges. exact Hrel.
Qed.

Lemma scenarioA_noRepeatedRelated : noRepeatedRelated scenarioA.
Proof.
  intros w entry. unfold data_get, scenarioA. cbn [map_get].
  repeat (match goal with
          | |- context [if ?b then _ else _] => destruct b
          end;
          [intros [= <-]; simpl;
           repeat (constructor; [simpl; intuition discriminate|]);
           constructor|]).
  discriminate.
Qed.

Lemma lambda_edges_distinct_witness :
  noRepeatedRelated scenarioA
  /\ distinctPairs (edges (Lambda.getWordGraph scenarioA "a" 2)).
Proof.
  split; [exact scenarioA_noRepeatedRelated|].
  exact (proj1 (lambda_edges_distinct scenarioA "a" 2
                  scenarioA_noRepeatedRelated)).
Defined.

(** ** The client's depth filter *)

Lemma validNodeIds_In (ns : list GraphNode) (x : string) :
  set_has (fold_left set_add (map id ns) []) x = true <-> In x (map id ns).
Proof.
  rewrite set_has_In, fold_set_add_In. simpl. tauto.
Qed.

Lemma filter_agree (A : Type) (f g : A -> bool) (l : list A) :
  (forall a, In a l -> f a = g a) -> filter f l = filter g l.
Proof.
  induction l as [|x l IH]; intro H; simpl; [reflexivity|].
  rewrite (H x) by (left; reflexivity).
  rewrite IH by (intros a Ha; apply H; right; exact Ha). reflexivity.
Qed.

Lemma filter_twice (A : Type) (f g : A -> bool) (l : list A) :
  (forall a, In a l -> f a = true -> g a = true) ->
  filter f (filter g l) = filter f l.
Proof.
  induction l as [|x l IH]; intro H; simpl; [reflexivity|].
  assert (Hl : forall a, In a l -> f a = true -> g a = true)
    by (intros a Ha; apply H; right; exact Ha).
  destruct (g x) eqn:G; simpl.
  - rewrite IH by exact Hl. reflexivity.
  - destruct (f x) eqn:F.
    + rewrite (H x) in G by (auto; left; reflexivity). discriminate.
    + apply IH, Hl.
Qed.

(** X13: Filtering to a limit and then to a smaller one gives what filtering to
    the smaller one gives directly; in particular filtering twice to the
    same limit changes nothing more. *)
Theorem filterGraphByDepth_composes :
  forall (ns : list GraphNode) (es : list GraphEdge) (d d' : Z),
    d' <= d ->
    filterGraphByDepth (nodes (filterGraphByDepth ns es d))
      (edges (filterGraphByDepth ns es d)) d'
    = filterGraphByDepth ns es d'.
Proof.
  intros ns es d d' Hle. unfold filterGraphByDepth. simpl.
  assert (Hn : filter (fun node => depth node <=? d')
                 (filter (fun node => depth node <=? d) ns)
               = filter (fun node => depth node <=? d') ns).
  { apply filter_twice. intros a _ Ha.
    apply Z.leb_le in Ha. apply Z.leb_le. lia. }
  rewrite Hn. f_equal.
  apply filter_twice. intros e _ He.
  apply andb_true_iff in He. destruct He as [H1 H2].
  apply validNodeIds_In in H1. apply validNodeIds_In in H2.
  assert (Sub : forall x,
             In x (map id (filter (fun node => depth node <=? d') ns)) ->
             In x (map id (filter (fun node => depth node <=? d) ns))).
  { intros x Hx. apply in_map_iff in Hx. destruct Hx as [n [Hid Hn']].
    apply filter_In in Hn'. destruct Hn' as [Hin Hd].
    apply in_map_iff. exists n. split; [exact Hid|].
    apply filter_In. split; [exact Hin|].
    apply Z.leb_le in Hd. apply Z.leb_le. lia. }
  apply andb_true_iff. split; apply validNodeIds_In, Sub; assumption.
Qed.

Lemma filterGraphByDepth_composes_witness :
  1 <= 2
  /\ filterGraphByDepth
       (nodes (filterGraphByDepth
                 (nodes (MemStorage.getWordGraph scenarioA "a" 2))
                 (edges (MemStorage.getWordGraph scenarioA "a" 2)) 2))
       (edges (filterGraphByDepth
                 (nodes (MemStorage.getWordGraph scenarioA "a" 2))
                 (edges (MemStorage.getWordGraph scenarioA "a" 2)) 2)) 1
     = filterGraphByDepth
         (nodes (MemStorage.getWordGraph scenarioA "a" 2))
         (edges (MemStorage.getWordGraph scenarioA "a" 2)) 1.
Proof.
  assert (H : 1 <= 2) by lia.
  split; [exact H|].
  exact (filterGraphByDepth_composes _ _ 2 1 H).
Defined.

Lemma minHops_unique (data : EtymologyData) (root w : string) (d d' : Z) :
  minHops data root w d -> minHops data root w d' -> d = d'.
Proof.
  intros [H1 M1] [H2 M2]. specialize (M1 _ H2). specialize (M2 _ H1). lia.
Qed.

Lemma node_determined (data : EtymologyData) (n n' : GraphNode) :
  nodeOfEntry data n -> nodeOfEntry data n' ->
  id n = id n' -> depth n = depth n' -> n = n'.
Proof.
  intros [Hw [entry [Hg [Hdef Hrel]]]] [Hw' [entry' [Hg' [Hdef' Hrel']]]]
         Hid Hdep.
  rewrite Hid in Hg. assert (entry' = entry) by congruence. subst entry'.
  destruct n, n'. simpl in *. congruence.
Qed.

Lemma lambdaBfsOnly_nodes (data : EtymologyData) (word : string)
  (maxDepth : Z) (n : GraphNode) :
  In n (nodes (LambdaBfsOnly.getWordGraph data word maxDepth)) ->
  data_get data (normalize word) <> None
  /\ In n (Lambda.st_nodes (Lambda.bfs data (normalize word) maxDepth)).
Proof.
  unfold LambdaBfsOnly.getWordGraph.
  destruct (data_get data (normalize word)); [|intros []].
  simpl. intro H. split; [congruence|exact H].
Qed.

Lemma lambdaBfsOnly_nodes_present (data : EtymologyData) (word : string)
  (maxDepth : Z) :
  data_get data (normalize word) <> None ->
  nodes (LambdaBfsOnly.getWordGraph data word maxDepth)
  = Lambda.st_nodes (Lambda.bfs data (normalize word) maxDepth).
Proof.
  unfold LambdaBfsOnly.getWordGraph.
  destruct (data_get data (normalize word)); [reflexivity|congruence].
Qed.

(** X14: The client fetches a graph at one depth and filters it down locally.
    For the graph built by the BFS alone (the Lambda version without
    pruning), the nodes left by filtering the depth-[D] graph to [d <= D]
    are the nodes of the graph fetched at depth [d]. *)
Theorem filter_matches_shallower_fetch :
  forall (data : EtymologyData) (word : string) (D d : Z) (n : GraphNode),
    d <= D ->
    let deep := LambdaBfsOnly.getWordGraph data word D in
    (In n (nodes (filterGraphByDepth (nodes deep) (edges deep) d))
     <-> In n (nodes (LambdaBfsOnly.getWordGraph data word d))).
Proof.
  intros data word D d n Hle deep. unfold filterGraphByDepth. simpl.
  rewrite filter_In, Z.leb_le. unfold deep. split.
  - intros [Hn Hd]. apply lambdaBfsOnly_nodes in Hn.
    destruct Hn as [Hroot Hn].
    rewrite lambdaBfsOnly_nodes_present by exact Hroot.
    destruct (lam_bfsCorrect data (normalize word) D Hroot) as (HD & _ & _).
    destruct (lam_bfsCorrect data (normalize word) d Hroot)
      as (Hd1 & _ & Hd3).
    destruct (HD n Hn) as [Hmin _].
    assert (Hin : In (id n)
                    (map id (Lambda.st_nodes
                               (Lambda.bfs data (normalize word) d))))
      by (apply (Hd3 (id n) (depth n)); [exact (proj1 Hmin)|exact Hd]).
    apply in_map_iff in Hin. destruct Hin as [n' [Hid Hn']].
    destruct (Hd1 n' Hn') as [Hmin' _]. rewrite Hid in Hmin'.
    assert (n' = n).
    { apply (node_determined data).
      - revert n' Hn' Hid Hmin'. intros n' Hn' _ _. revert n' Hn'.
        apply lam_bfsLoop_nodeOfEntry. intros x [].
      - revert n Hn Hd Hmin Hid Hmin'. intros n Hn _ _ _ _. revert n Hn.
        apply lam_bfsLoop_nodeOfEntry. intros x [].
      - exact Hid.
      - eapply minHops_unique; eauto. }
    subst n'. exact Hn'.
  - intro Hn. apply lambdaBfsOnly_nodes in Hn. destruct Hn as [Hroot Hn].
    rewrite lambdaBfsOnly_nodes_present by exact Hroot.
    destruct (lam_bfsCorrect data (normalize word) D Hroot)
      as (HD1 & _ & HD3).
    destruct (lam_bfsCorrect data (normalize word) d Hroot) as (Hd1 & _ & _).
    destruct (Hd1 n Hn) as [Hmin Hdep]. split; [|exact Hdep].
    assert (Hin : In (id n)
                    (map id (Lambda.st_nodes
                               (Lambda.bfs data (normalize word) D))))
      by (apply (HD3 (id n) (depth n)); [exact (proj1 Hmin)|lia]).
    apply in_map_iff in Hin. destruct Hin as [n' [Hid Hn']].
    destruct (HD1 n' Hn') as [Hmin' _]. rewrite Hid in Hmin'.
    assert (n' = n).
    { apply (node_determined data).
      - revert n' Hn' Hid Hmin'. intros n' Hn' _ _. revert n' Hn'.
        apply lam_bfsLoop_nodeOfEntry. intros x [].
      - revert n Hn Hdep Hmin Hid Hmin'. intros n Hn _ _ _ _. revert n Hn.
        apply lam_bfsLoop_nodeOfEntry. intros x [].
      - exact Hid.
      - eapply minHops_unique; eauto. }
    subst n'. exact Hn'.
Qed.

Lemma filter_matches_shallower_fetch_witness :
  1 <= 2
  /\ (In (mkNode "b" "b" "B" 1 ["a"])
        (nodes (filterGraphByDepth
                  (nodes (LambdaBfsOnly.getWordGraph scenarioA "a" 2))
                  (edges (LambdaBfsOnly.getWordGraph scenarioA "a" 2)) 1))
      <-> In (mkNode "b" "b" "B" 1 ["a"])
            (nodes (LambdaBfsOnly.getWordGraph scenarioA "a" 1))).
Proof.
  assert (H : 1 <= 2) by lia.
  split; [exact H|].
  exact (filter_matches_shallower_fetch scenarioA "a" 2 1 _ H).
Defined.

(** X15: Filtering what the server returned for depth [m] to any limit [d >= m]
    keeps every node; of the edges it keeps those between returned nodes, so
    the edges towards words beyond the depth limit are dropped. *)
Theorem filter_at_fetch_depth :
  forall (data : EtymologyData) (word : string) (m d : Z),
    m <= d ->
    let g := MemStorage.getWordGraph data word m in
    nodes (filterGraphByDepth (nodes g) (edges g) d) = nodes g
    /\ (forall e, In e (edges (filterGraphByDepth (nodes g) (edges g) d))
                  <-> In e (edges g) /\ In (from e) (map id (nodes g))
                      /\ In (to e) (map id (nodes g))).
Proof.
  intros data word m d Hle g.
  assert (Hn : filter (fun node => depth node <=? d) (nodes g) = nodes g).
  { rewrite (filter_agree _ _ (fun _ => true)).
    - clear. induction (nodes g) as [|x l IH]; simpl; congruence.
    - intros n Hin. apply Z.leb_le. unfold g in Hin.
      apply server_nodes_of_bfs in Hin. destruct Hin as [Hroot Hin].
      destruct (mem_bfsCorrect data (normalize word) m Hroot) as (H1 & _).
      destruct (H1 n Hin) as [_ Hm]. lia. }
  split.
  - unfold filterGraphByDepth. simpl. exact Hn.
  - intro e. unfold filterGraphByDepth. simpl. rewrite Hn.
    rewrite filter_In, andb_true_iff, !validNodeIds_In. tauto.
Qed.

Lemma filter_at_fetch_depth_witness :
  2 <= 3
  /\ nodes (filterGraphByDepth
              (nodes (MemStorage.getWordGraph scenarioA "a" 2))
              (edges (MemStorage.getWordGraph scenarioA "a" 2)) 3)
     = nodes (MemStorage.getWordGraph scenarioA "a" 2).
Proof.
  assert (H : 2 <= 3) by lia.
  split; [exact H|].
  exact (proj1 (filter_at_fetch_depth scenarioA "a" 2 3 H)).
Defined.

(** ** Depths in URLs *)

Lemma digit_not_sign (c : ascii) :
  isDigit c = true ->
  isSpace c = false /\ Ascii.eqb c "-" = false /\ Ascii.eqb c "+" = false.
Proof.
  destruct c as [[] [] [] [] [] [] [] []]; vm_compute; intro H;
    try discriminate H; auto.
Qed.

Lemma digitChar_digit (k : nat) :
  (k < 10)%nat ->
  isDigit (digitChar k) = true /\ digitValue (digitChar k) = Z.of_nat k.
Proof.
  intro H.
  do 10 (destruct k as [|k]; [vm_compute; auto|]). lia.
Qed.

Lemma leadingDigits_all (s : string) :
  allDigits s = true -> leadingDigits s = s.
Proof.
  induction s as [|c s IH]; simpl; [reflexivity|].
  intro H. apply andb_true_iff in H. destruct H as [Hc Hs].
  rewrite Hc, IH by exact Hs. reflexivity.
Qed.

Lemma decimalDigits_shape (fuel : nat) :
  forall (n : Z) (acc : string),
    0 <= n -> n < 10 ^ Z.of_nat (S fuel) ->
    exists c ds,
      decimalDigits (S fuel) n acc = String c (String.append ds acc)
      /\ isDigit c = true /\ allDigits ds = true
      /\ forall a, mathInt a (String c ds)
                   = mathInt (10 * a + digitValue c) ds
                   /\ mathInt 0 (String c ds) = n.
Proof.
  induction fuel as [|f IH]; intros n acc H0 Hlt.
  - change (10 ^ Z.of_nat 1) with 10 in Hlt.
    assert (Hq : n / 10 = 0) by (apply Z.div_small; lia).
    assert (Hm : n mod 10 = n) by (apply Z.mod_small; lia).
    simpl decimalDigits. rewrite Hq, Hm. simpl.
    destruct (digitChar_digit (Z.to_nat n)) as [D V]; [lia|].
    exists (digitChar (Z.to_nat n)), EmptyString. simpl.
    repeat split; auto. rewrite V. lia.
  - cbn [decimalDigits].
    pose proof (Z.mod_pos_bound n 10 ltac:(lia)) as Hm.
    destruct (digitChar_digit (Z.to_nat (n mod 10))) as [D V]; [lia|].
    destruct (n / 10 =? 0) eqn:Q.
    + apply Z.eqb_eq in Q.
      exists (digitChar (Z.to_nat (n mod 10))), EmptyString. simpl.
      repeat split; auto. rewrite V.
      pose proof (Z.div_mod n 10 ltac:(lia)). lia.
    + apply Z.eqb_neq in Q.
      assert (Hq0 : 0 <= n / 10) by (apply Z.div_pos; lia).
      assert (Hq : n / 10 < 10 ^ Z.of_nat (S f)).
      { apply Z.div_lt_upper_bound; [lia|].
        replace (Z.of_nat (S (S f))) with (Z.succ (Z.of_nat (S f))) in Hlt
          by lia.
        rewrite Z.pow_succ_r in Hlt by lia. exact Hlt. }
      destruct (IH (n / 10)
                  (String (digitChar (Z.to_nat (n mod 10))) acc) Hq0 Hq)
        as [c [ds [E [Dc [Dall Hval]]]]].
      exists c, (String.append ds
                   (String (digitChar (Z.to_nat (n mod 10))) EmptyString)).
      change (decimalDigits (S f) (n / 10)
                (String (digitChar (Z.to_nat (n mod 10))) acc)
              = String c
                  (String.append ds
                     (String (digitChar (Z.to_nat (n mod 10))) acc))) in E.
      assert (App : forall p a q,
                 mathInt a (String.append p q) = mathInt (mathInt a p) q).
      { induction p as [|x p IHp]; intros a q; simpl; [reflexivity|].
        apply IHp. }
      assert (All : forall p q, allDigits p = true -> allDigits q = true ->
                               allDigits (String.append p q) = true).
      { induction p as [|x p IHp]; intros q Hp Hq'; simpl; [exact Hq'|].
        simpl in Hp. apply andb_true_iff in Hp. destruct Hp as [Hx Hp].
        rewrite Hx. simpl. apply IHp; assumption. }
      assert (Assoc : forall p x q,
                 String.append (String.append p (String x EmptyString)) q
                 = String.append p (String x q)).
      { induction p as [|y p IHp]; intros x q; simpl; [reflexivity|].
        rewrite IHp. reflexivity. }
      split; [|split; [exact Dc|split]].
      * cbn [decimalDigits] in E. rewrite Assoc. exact E.
      * apply All; [exact Dall|]. cbn [allDigits]. rewrite D. reflexivity.
      * intro a. split; [reflexivity|].
        change (String c (String.append ds
                            (String (digitChar (Z.to_nat (n mod 10)))
                               EmptyString)))
          with (String.append (String c ds)
                  (String (digitChar (Z.to_nat (n mod 10))) EmptyString)).
        rewrite App. destruct (Hval 0) as [_ Hv]. rewrite Hv.
        cbn [mathInt]. rewrite V. pose proof (Z.div_mod n 10 ltac:(lia)). lia.
Qed.

Lemma decimal_fuel (n : Z) :
  0 <= n -> n < 10 ^ Z.of_nat (S (Z.to_nat (Z.log2 n))).
Proof.
  intro H. destruct (Z.eq_dec n 0) as [->|Hn]; [reflexivity|].
  pose proof (Z.log2_nonneg n) as Hl.
  destruct (Z.log2_spec n ltac:(lia)) as [_ Hup].
  replace (Z.of_nat (S (Z.to_nat (Z.log2 n)))) with (Z.succ (Z.log2 n))
    by lia.
  eapply Z.lt_le_trans; [exact Hup|].
  apply Z.pow_le_mono_l. lia.
Qed.

Lemma parseInt10_digits (c : ascii) (ds : string) :
  isDigit c = true -> allDigits ds = true ->
  mathInt 0 (String c ds) <= maxExact ->
  parseInt10 (String c ds) = Integer (mathInt 0 (String c ds))
  /\ parseInt10 (String "-" (String c ds))
     = Integer (- mathInt 0 (String c ds)).
Proof.
  intros Hc Hds Hle.
  destruct (digit_not_sign c Hc) as (S1 & S2 & S3).
  assert (L : leadingDigits (String c ds) = String c ds)
    by (apply leadingDigits_all; simpl; rewrite Hc; exact Hds).
  apply Z.leb_le in Hle.
  split.
  - unfold parseInt10. cbn [trimStart]. rewrite S1, S2, S3, L.
    cbv zeta. rewrite Hle. reflexivity.
  - unfold parseInt10. cbn [trimStart].
    change (isSpace "-") with false. cbv iota.
    change (Ascii.eqb "-" "-") with true. cbv iota. rewrite L.
    cbv zeta. rewrite Hle. reflexivity.
Qed.

Lemma append_empty (p : string) : String.append p EmptyString = p.
Proof. induction p as [|x p IHp]; simpl; congruence. Qed.

(** The digits written for an exact integer are read back as that
    integer. *)
Lemma parseInt10_numberToString (z : Z) (s : string) :
  numberToString (Integer z) = Some s ->
  parseInt10 s = Integer z /\ MemStorage.truthy s = true.
Proof.
  unfold numberToString.
  destruct (Z.abs z <=? maxExact) eqn:M; [|discriminate].
  apply Z.leb_le in M.
  destruct (z <? 0) eqn:N; intro Es.
  - apply Z.ltb_lt in N.
    destruct (decimalDigits_shape (Z.to_nat (Z.log2 (- z))) (- z)
                EmptyString) as [c [ds [E [Dc [Dall Hval]]]]];
      [lia|apply decimal_fuel; lia|].
    rewrite E, append_empty in Es. injection Es as <-.
    split; [|reflexivity].
    destruct (Hval 0) as [_ Hv].
    rewrite (proj2 (parseInt10_digits c ds Dc Dall ltac:(lia))).
    rewrite Hv. f_equal. lia.
  - apply Z.ltb_ge in N.
    destruct (decimalDigits_shape (Z.to_nat (Z.log2 z)) z EmptyString)
      as [c [ds [E [Dc [Dall Hval]]]]]; [lia|apply decimal_fuel; lia|].
    rewrite E, append_empty in Es. injection Es as <-.
    split; [|reflexivity].
    destruct (Hval 0) as [_ Hv].
    rewrite (proj1 (parseInt10_digits c ds Dc Dall ltac:(lia))).
    rewrite Hv. reflexivity.
Qed.

(** X16: The depth written to the page's URL with [depth.toString()] is the
    depth read back with [parseInt(_, 10)] when the page is opened from that
    URL, for every depth that is [NaN] or an integer that a number holds
    exactly (of magnitude at most [2 ^ 53]): such a depth has a string, and
    the string is read back as the same depth.  A URL without the parameter
    gives depth 2. *)
Theorem depth_survives_url :
  (forall x s, numberToString x = Some s -> depthFromUrl (Some s) = x)
  /\ (forall z, Z.abs z <= 2 ^ 53 ->
                exists s, numberToString (Integer z) = Some s)
  /\ numberToString NotANumber = Some "NaN"
  /\ depthFromUrl None = Integer 2.
Proof.
  split; [|split; [|split; reflexivity]].
  - intros x s H. destruct x as [|z|negative].
    + injection H as <-. reflexivity.
    + unfold depthFromUrl.
      destruct (parseInt10_numberToString z s H) as [P T].
      rewrite T. exact P.
    + discriminate H.
  - intros z Hz. unfold numberToString.
    assert (M : (Z.abs z <=? maxExact) = true) by (apply Z.leb_le; exact Hz).
    rewrite M. eauto.
Qed.

Lemma depth_survives_url_witness :
  numberToString (Integer (-17)) = Some "-17"
  /\ depthFromUrl (Some "-17") = Integer (-17).
Proof.
  assert (H : numberToString (Integer (-17)) = Some "-17")
    by (vm_compute; reflexivity).
  split; [exact H|].
  exact (proj1 depth_survives_url (Integer (-17)) "-17" H).
Defined.

(** ** The HTTP API *)

Lemma length_zero_empty (s : string) :
  Nat.eqb (String.length s) 0 = true <-> s = EmptyString.
Proof.
  destruct s; simpl; split; intro H; try reflexivity; discriminate.
Qed.

Lemma blank_word (word : string) :
  (negb (MemStorage.truthy word)
   || Nat.eqb (String.length (trim word)) 0)%bool = true
  <-> trim word = EmptyString.
Proof.
  rewrite orb_true_iff, length_zero_empty. split; [|auto].
  intros [H|H]; [|exact H].
  unfold MemStorage.truthy in H. rewrite negb_involutive in H.
  apply String.eqb_eq in H. subst word. reflexivity.
Qed.

(** A request with a word and a depth from 1 to 3 is answered from what
    [getWordGraph] does. *)
Lemma getWords_accepted (data : EtymologyData) (word : string)
  (depthParam : option string) (d : Z) :
  trim word <> EmptyString ->
  Routes.requestedDepth depthParam = Integer d -> 1 <= d <= 3 ->
  Routes.getWords data word depthParam
  = match JsMemStorage.getWordGraph data word d with
    | Returns result =>
        if Nat.eqb (length (nodes result)) 0
        then mkResponse 404
               (ErrorBody
                  (String.append "Word '"
                     (String.append word
                        "' not found in the etymology database.")))
        else mkResponse 200 (GraphBody result)
    | _ => Routes.serverError
    end.
Proof.
  intros Hw Hr Hd. unfold Routes.getWords.
  destruct (negb (MemStorage.truthy word)
            || Nat.eqb (String.length (trim word)) 0)%bool eqn:B.
  { apply blank_word in B. congruence. }
  rewrite Hr.
  assert (V : ((d <? 1) || (d >? Routes.maxDepth))%bool = false).
  { apply orb_false_iff. unfold Routes.maxDepth.
    rewrite Z.ltb_ge, Z.gtb_ltb, Z.ltb_ge. lia. }
  rewrite V. reflexivity.
Qed.

(** Every other request is answered with status 400. *)
Lemma getWords_refused (data : EtymologyData) (word : string)
  (depthParam : option string) :
  ~ (exists d, trim word <> EmptyString
               /\ Routes.requestedDepth depthParam = Integer d
               /\ 1 <= d <= 3) ->
  status (Routes.getWords data word depthParam) = 400
  /\ forall g, body (Routes.getWords data word depthParam) <> GraphBody g.
Proof.
  intro N. unfold Routes.getWords.
  destruct (negb (MemStorage.truthy word)
            || Nat.eqb (String.length (trim word)) 0)%bool eqn:B;
    [split; [reflexivity|discriminate]|].
  assert (Hw : trim word <> EmptyString).
  { intro E. apply blank_word in E. congruence. }
  destruct (Routes.requestedDepth depthParam) as [|d|negative];
    try (split; [reflexivity|discriminate]).
  destruct ((d <? 1) || (d >? Routes.maxDepth))%bool eqn:V;
    [split; [reflexivity|discriminate]|].
  exfalso. apply N. exists d. split; [exact Hw|]. split; [reflexivity|].
  apply orb_false_iff in V. unfold Routes.maxDepth in V.
  rewrite Z.ltb_ge, Z.gtb_ltb, Z.ltb_ge in V. lia.
Qed.

(** X17: [GET /api/words/:word] answers 400 exactly when the word is blank
    or the depth parameter does not parse to a number from 1 to 3 (an absent
    or empty parameter counts as 3).  Otherwise it answers 404 exactly when
    [data[word]] is [undefined] for the normalized word; 500 exactly when
    [getWordGraph] throws, which is when an inherited member of the
    dictionary object (as [constructor]) is the normalized word or lies
    within the depth limit of it; and 200 exactly when the normalized word
    is a key and no inherited member lies within the depth limit.  A graph
    is sent with status 200 only: it is the one [getWordGraph] returned, and
    the root is one of its nodes, at depth 0. *)
Theorem getWords_status :
  forall (data : EtymologyData) (word : string) (depthParam : option string),
    let r := Routes.getWords data word depthParam in
    let accepted := fun d =>
      trim word <> EmptyString
      /\ Routes.requestedDepth depthParam = Integer d /\ 1 <= d <= 3 in
    (status r = 400 <-> ~ exists d, accepted d)
    /\ (forall d, accepted d ->
          (status r = 404 <-> lookup data (normalize word) = Undefined)
          /\ (status r = 500
              <-> JsMemStorage.getWordGraph data word d = TypeError)
          /\ (status r = 500
              <-> resolves data (normalize word) = true
                  /\ memberWithin data (normalize word) d)
          /\ (status r = 200
              <-> data_get data (normalize word) <> None
                  /\ ~ memberWithin data (normalize word) d))
    /\ (forall g, body r = GraphBody g ->
          status r = 200
          /\ (exists d, accepted d
                        /\ JsMemStorage.getWordGraph data word d = Returns g)
          /\ exists n, In n (nodes g) /\ id n = normalize word
                       /\ depth n = 0).
Proof.
  intros data word depthParam r accepted.
  assert (Cases : forall d, accepted d ->
            (lookup data (normalize word) = Undefined /\ status r = 404
             /\ forall g, body r <> GraphBody g)
            \/ (JsMemStorage.getWordGraph data word d = TypeError
                /\ status r = 500 /\ forall g, body r <> GraphBody g)
            \/ (exists g, JsMemStorage.getWordGraph data word d = Returns g
                          /\ data_get data (normalize word) <> None
                          /\ r = mkResponse 200 (GraphBody g))).
  { intros d (Hw & Hr & Hd). unfold r.
    rewrite (getWords_accepted data word depthParam d Hw Hr Hd).
    destruct (server_outcome data word d) as [[g Hg]|T].
    - rewrite Hg.
      destruct (server_returned_empty data word d g ltac:(lia) Hg)
        as [He _].
      destruct (Nat.eqb (length (nodes g)) 0) eqn:N.
      + left. apply Nat.eqb_eq in N.
        assert (E : nodes g = []) by (destruct (nodes g); [auto|discriminate]).
        split; [apply He; exact E|]. split; [reflexivity|discriminate].
      + right. right. exists g. split; [reflexivity|].
        split; [|reflexivity].
        intro K. assert (U : lookup data (normalize word) = Undefined).
        { destruct (lookup data (normalize word)) as [entry| |] eqn:L.
          - apply lookup_key in L. congruence.
          - pose proof (server_member_throws data word d ltac:(lia) L).
            congruence.
          - reflexivity. }
        apply He in U. rewrite U in N. discriminate.
    - right. left. rewrite T. split; [reflexivity|].
      split; [reflexivity|discriminate]. }
  assert (Throws : forall d,
            JsMemStorage.getWordGraph data word d = TypeError
            <-> resolves data (normalize word) = true
                /\ memberWithin data (normalize word) d)
    by (intro d; apply server_throws_iff).
  split; [|split].
  - split.
    + intros S [d Hacc].
      destruct (Cases d Hacc) as [(_ & E & _)|[(_ & E & _)|(g & _ & _ & E)]];
        [| |rewrite E in S; simpl in S]; congruence.
    + intro N. apply (getWords_refused data word depthParam N).
  - intros d Hacc. pose proof (Cases d Hacc) as C.
    assert (K : forall entry, lookup data (normalize word) = Entry entry ->
                              data_get data (normalize word) <> None).
    { intros entry L. apply lookup_key in L. congruence. }
    split; [|split; [|split]].
    + split.
      * intro S. destruct C as [(U & _)|[(_ & E & _)|(g & _ & _ & E)]];
          [exact U| |rewrite E in S; simpl in S]; congruence.
      * intro U. destruct C as [(_ & E & _)|[(T & _)|(g & _ & G & _)]];
          [exact E| |].
        -- apply Throws in T. destruct T as [R _].
           unfold resolves in R. rewrite U in R. discriminate.
        -- exfalso. apply G. unfold lookup in U.
           destruct (data_get data (normalize word)); [discriminate|].
           reflexivity.
    + split.
      * intro S. destruct C as [(_ & E & _)|[(T & _)|(g & _ & _ & E)]];
          [congruence|exact T|rewrite E in S; simpl in S; congruence].
      * intro T. destruct C as [(U & _)|[(_ & E & _)|(g & G & _)]];
          [|exact E|congruence].
        apply Throws in T. destruct T as [R _].
        unfold resolves in R. rewrite U in R. discriminate.
    + rewrite <- Throws. split.
      * intro S. destruct C as [(_ & E & _)|[(T & _)|(g & _ & _ & E)]];
          [congruence|exact T|rewrite E in S; simpl in S; congruence].
      * intro T. destruct C as [(U & _)|[(_ & E & _)|(g & G & _)]];
          [|exact E|congruence].
        apply Throws in T. destruct T as [R _].
        unfold resolves in R. rewrite U in R. discriminate.
    + split.
      * intro S. destruct C as [(_ & E & _)|[(_ & E & _)|(g & G & Kk & _)]];
          [congruence|congruence|].
        split; [exact Kk|]. intro M.
        assert (T : JsMemStorage.getWordGraph data word d = TypeError).
        { apply Throws. split; [|exact M].
          destruct (data_get data (normalize word)) as [entry|] eqn:Ge;
            [|congruence]. eapply resolves_key; eauto. }
        congruence.
      * intros [Kk M].
        destruct C as [(U & _)|[(T & _)|(g & _ & _ & E)]].
        -- exfalso. apply Kk. unfold lookup in U.
           destruct (data_get data (normalize word)); [discriminate|].
           reflexivity.
        -- exfalso. apply M. apply Throws in T. tauto.
        -- rewrite E. reflexivity.
  - intros g B.
    assert (Hacc : exists d, accepted d).
    { destruct (Routes.requestedDepth depthParam) as [|d|negative] eqn:R.
      - exfalso.
        apply (proj2 (getWords_refused data word depthParam
                 ltac:(intros [d (_ & E & _)]; congruence)) g B).
      - destruct (Z_le_dec 1 d) as [L1|L1];
          [destruct (Z_le_dec d 3) as [L3|L3]|].
        + destruct (string_dec (trim word) EmptyString) as [Eb|Nb].
          * exfalso.
            apply (proj2 (getWords_refused data word depthParam
                     ltac:(intros [x (Nx & _)]; congruence)) g B).
          * exists d. repeat split; auto.
        + exfalso.
          apply (proj2 (getWords_refused data word depthParam
                   ltac:(intros [x (_ & E & Bx)];
                         assert (x = d) by congruence; lia)) g B).
        + exfalso.
          apply (proj2 (getWords_refused data word depthParam
                   ltac:(intros [x (_ & E & Bx)];
                         assert (x = d) by congruence; lia)) g B).
      - exfalso.
        apply (proj2 (getWords_refused data word depthParam
                 ltac:(intros [d (_ & E & _)]; congruence)) g B). }
    destruct Hacc as [d Hacc].
    destruct (Cases d Hacc) as [(_ & _ & N)|[(_ & _ & N)|(g' & G & Kk & E)]];
      [exfalso; exact (N g B)|exfalso; exact (N g B)|].
    rewrite E in B. simpl in B. injection B as <-.
    split; [rewrite E; reflexivity|]. split; [exists d; auto|].
    destruct Hacc as (_ & _ & Hd).
    apply (server_returned_root data word d g' ltac:(lia) G Kk).
Qed.

Lemma getWords_status_witness :
  body (Routes.getWords scenarioA "a" (Some "2"))
  = GraphBody (MemStorage.getWordGraph scenarioA "a" 2)
  /\ status (Routes.getWords scenarioA "a" (Some "2")) = 200.
Proof.
  assert (H : body (Routes.getWords scenarioA "a" (Some "2"))
              = GraphBody (MemStorage.getWordGraph scenarioA "a" 2))
    by reflexivity.
  split; [exact H|].
  exact (proj1 (proj2 (proj2
           (getWords_status scenarioA "a" (Some "2"))) _ H)).
Defined.

(** ** Random words of the server *)






(** ** What the precomputed table holds *)

Lemma collectStats_In (data : EtymologyData) (s : WordStats) :
  In s (StatsPrecomputer.collectStats data)
  <-> exists w entry,
        In w (data_keys data) /\ data_get data w = Some entry
        /\ s = mkWordStats w (Z.of_nat (length (relatedWords entry)))
                 (StatsPrecomputer.computeGraphSize w 3 data).
Proof.
  unfold StatsPrecomputer.collectStats. rewrite in_flat_map. split.
  - intros [w [Hw Hs]].
    destruct (data_get data w) as [entry|] eqn:G; [|destruct Hs].
    destruct Hs as [<-|[]]. exists w, entry. auto.
  - intros [w [entry [Hw [G ->]]]]. exists w. split; [exact Hw|].
    rewrite G. left. reflexivity.
Qed.

Lemma insertByGraphSize_sorted (s : WordStats) (l : list WordStats) :
  StronglySorted (fun a b => ws_graphSize a <= ws_graphSize b) l ->
  StronglySorted (fun a b => ws_graphSize a <= ws_graphSize b)
    (StatsPrecomputer.insertByGraphSize s l).
Proof.
  induction l as [|x l IH]; intro Hs; simpl.
  - constructor; constructor.
  - destruct (ws_graphSize s <=? ws_graphSize x) eqn:C.
    + apply Z.leb_le in C. constructor; [exact Hs|].
      constructor; [exact C|].
      apply StronglySorted_inv in Hs. destruct Hs as [_ Hall].
      eapply Forall_impl; [|exact Hall]. simpl. intros a Ha. lia.
    + apply Z.leb_gt in C. apply StronglySorted_inv in Hs.
      destruct Hs as [Hl Hall]. constructor; [apply IH; exact Hl|].
      apply Forall_forall. intros a Ha.
      apply insertByGraphSize_In in Ha. destruct Ha as [->|Ha]; [lia|].
      rewrite Forall_forall in Hall. apply Hall. exact Ha.
Qed.

Lemma sortByGraphSize_sorted (l : list WordStats) :
  StronglySorted (fun a b => ws_graphSize a <= ws_graphSize b)
    (StatsPrecomputer.sortByGraphSize l).
Proof.
  induction l as [|s l IH]; simpl; [constructor|].
  apply insertByGraphSize_sorted. exact IH.
Qed.

Lemma main_stats (data : EtymologyData) :
  map statsOfEntry (words (StatsPrecomputer.main data))
  = StatsPrecomputer.sortByGraphSize
      (filter StatsPrecomputer.manageable
         (StatsPrecomputer.collectStats data)).
Proof.
  rewrite main_words. apply withCumulative_entries.
Qed.

Lemma main_entry_stats (data : EtymologyData) (e : SamplingEntry) :
  In e (words (StatsPrecomputer.main data)) ->
  exists entry,
    In (entry_word e) (data_keys data)
    /\ data_get data (entry_word e) = Some entry
    /\ numConnections e = Z.of_nat (length (relatedWords entry))
    /\ graphSize e = StatsPrecomputer.computeGraphSize (entry_word e) 3 data
    /\ 1 < graphSize e <= 850 /\ 0 < numConnections e.
Proof.
  intro Hin.
  assert (Hs : In (statsOfEntry e)
                 (map statsOfEntry (words (StatsPrecomputer.main data))))
    by (apply in_map; exact Hin).
  rewrite main_stats in Hs.
  apply sortByGraphSize_In, filter_In in Hs. destruct Hs as [Hc Hm].
  apply collectStats_In in Hc. destruct Hc as [w [entry [Hw [G E]]]].
  unfold statsOfEntry in E. injection E as E1 E2 E3.
  unfold StatsPrecomputer.manageable in Hm. simpl in Hm.
  rewrite !andb_true_iff, !Z.gtb_ltb, !Z.ltb_lt, Z.leb_le in Hm.
  unfold StatsPrecomputer.MAX_NODES in Hm.
  exists entry. rewrite E1.
  repeat split; auto; try lia; try (rewrite E3; reflexivity).
Qed.

(** X19: The table written by the precomputer lists exactly the manageable
    words: each entry is for a key of the dictionary, with its number of
    related words (at least one) and its graph size at depth 3 (more than 1
    and at most 850); every key that meets these bounds has an entry; and
    the entries are in nondecreasing order of graph size. *)
Theorem main_table_entries :
  forall (data : EtymologyData),
    let t := StatsPrecomputer.main data in
    (forall e, In e (words t) ->
       exists entry,
         In (entry_word e) (data_keys data)
         /\ data_get data (entry_word e) = Some entry
         /\ numConnections e = Z.of_nat (length (relatedWords entry))
         /\ graphSize e
            = StatsPrecomputer.computeGraphSize (entry_word e) 3 data
         /\ 1 < graphSize e <= 850 /\ 0 < numConnections e)
    /\ (forall w entry,
          In w (data_keys data) -> data_get data w = Some entry ->
          relatedWords entry <> [] ->
          1 < StatsPrecomputer.computeGraphSize w 3 data <= 850 ->
          exists e, In e (words t) /\ entry_word e = w)
    /\ (forall i j ei ej, i <= j ->
          at_index (words t) i = Some ei -> at_index (words t) j = Some ej ->
          graphSize ei <= graphSize ej).
Proof.
  intros data t. split; [|split].
  - intros e He. apply main_entry_stats. exact He.
  - intros w entry Hw G Hrel Hsize.
    set (s := mkWordStats w (Z.of_nat (length (relatedWords entry)))
                (StatsPrecomputer.computeGraphSize w 3 data)).
    assert (Hs : In s (map statsOfEntry (words t))).
    { unfold t. rewrite main_stats.
      apply sortByGraphSize_In, filter_In. split.
      - apply collectStats_In. exists w, entry. auto.
      - unfold StatsPrecomputer.manageable, StatsPrecomputer.MAX_NODES.
        simpl. rewrite !andb_true_iff, !Z.gtb_ltb, !Z.ltb_lt, Z.leb_le.
        destruct (relatedWords entry); [congruence|]. simpl length. lia. }
    apply in_map_iff in Hs. destruct Hs as [e [E He]].
    exists e. split; [exact He|].
    unfold statsOfEntry, s in E. congruence.
  - intros i j ei ej Hij Hi Hj.
    apply at_index_nth in Hi, Hj. destruct Hi as [Hi0 Hi], Hj as [Hj0 Hj].
    destruct (Z.eq_dec i j) as [->|Hne]; [assert (ei = ej) by congruence;
                                          subst; lia|].
    pose proof (sortByGraphSize_sorted
                  (filter StatsPrecomputer.manageable
                     (StatsPrecomputer.collectStats data))) as Hs.
    rewrite <- main_stats in Hs. fold t in Hs.
    apply (sorted_nth _ _ _ Hs (Z.to_nat i) (Z.to_nat j)
             (statsOfEntry ei) (statsOfEntry ej)); [lia| |].
    + rewrite nth_error_map, Hi. reflexivity.
    + rewrite nth_error_map, Hj. reflexivity.
Qed.

Lemma main_table_entries_witness :
  In (mkEntry "a" 2 3 2) (words (StatsPrecomputer.main scenarioA))
  /\ exists entry,
       In "a" (data_keys scenarioA)
       /\ data_get scenarioA "a" = Some entry
       /\ 2 = Z.of_nat (length (relatedWords entry))
       /\ 3 = StatsPrecomputer.computeGraphSize "a" 3 scenarioA
       /\ 1 < 3 <= 850 /\ 0 < 2.
Proof.
  assert (H : In (mkEntry "a" 2 3 2)
                (words (StatsPrecomputer.main scenarioA)))
    by (vm_compute; auto).
  split; [exact H|].
  exact (proj1 (main_table_entries scenarioA) _ H).
Defined.

(** ** Sampling from the precomputed table *)

Lemma main_runningSums (data : EtymologyData) :
  runningSums 0 (words (StatsPrecomputer.main data)).
Proof.
  rewrite main_words. apply withCumulative_runningSums.
Qed.

Lemma main_lastCumulativeWeight (data : EtymologyData) :
  totalWeight (StatsPrecomputer.main data)
  = lastCumulativeWeight (words (StatsPrecomputer.main data)).
Proof.
  rewrite main_totalWeight, main_words, withCumulative_total.
  apply last_cumulativeWeight.
Qed.

Lemma main_nondecreasing (data : EtymologyData) :
  nondecreasing (words (StatsPrecomputer.main data)).
Proof.
  intros i j ei ej Hij Hi Hj.
  apply at_index_nth in Hi, Hj. destruct Hi as [Hi0 Hi], Hj as [Hj0 Hj].
  destruct (Z.eq_dec i j) as [->|Hne];
    [assert (ei = ej) by congruence; subst; lia|].
  apply Z.lt_le_incl.
  eapply (runningSums_increasing _ 0 (Z.to_nat i) (Z.to_nat j)); eauto.
  - apply main_runningSums.
  - apply main_connected.
  - lia.
Qed.

Lemma main_totalWeight_pos (data : EtymologyData) :
  words (StatsPrecomputer.main data) <> [] ->
  0 < totalWeight (StatsPrecomputer.main data).
Proof.
  intro Hne. rewrite main_lastCumulativeWeight.
  unfold lastCumulativeWeight.
  pose proof (nonempty_length _ _ Hne) as Hlen.
  destruct (at_index_in_range (words (StatsPrecomputer.main data))
              (Z.of_nat (length (words (StatsPrecomputer.main data))) - 1))
    as [e He]; [lia|].
  rewrite He.
  apply (runningSums_above (words (StatsPrecomputer.main data)) 0 e).
  - apply main_runningSums.
  - apply main_connected.
  - eapply at_index_In; eauto.
Qed.

(** X20: Precomputing the table and then sampling from it fit together:
    when the table has an entry and its total weight is below [2 ^ 53], the
    server's sampler and the Lambda port's sampler both return, for every
    value of [Math.random()] in [0,1), the word of the first entry whose
    cumulative weight reaches the target (the double
    [Math.random() * totalWeight]), and that word is a key of the dictionary
    with at least one related word and a graph of more than 1 and at most
    850 nodes at depth 3. *)
Theorem sample_from_precomputed_table :
  forall (data : EtymologyData) (randomUnit : Q),
    words (StatsPrecomputer.main data) <> [] ->
    totalWeight (StatsPrecomputer.main data) < 2 ^ 53 ->
    (0 <= randomUnit)%Q -> (randomUnit < 1)%Q ->
    let t := StatsPrecomputer.main data in
    exists i e entry,
      smallest_reaching (words t)
        (doubleMul randomUnit (inject_Z (totalWeight t))) i
      /\ at_index (words t) i = Some e
      /\ MemStorageStats.getRandomWord data (Some t) randomUnit
         = Returns (Some (entry_word e))
      /\ LambdaRandom.getRandomWord data (Some t) randomUnit
         = Returns (Some (entry_word e))
      /\ data_get data (entry_word e) = Some entry
      /\ relatedWords entry <> []
      /\ 1 < StatsPrecomputer.computeGraphSize (entry_word e) 3 data <= 850.
Proof.
  intros data u Hne Hsafe Hu0 Hu1 t.
  pose proof (main_totalWeight_pos data Hne) as Hpos. fold t in Hpos.
  destruct (sampleAt_smallest (words t)
              (doubleMul u (inject_Z (totalWeight t))))
    as [i [e [Hsm [Hat Hs]]]].
  - exact Hne.
  - apply main_nondecreasing.
  - unfold t at 2. rewrite <- main_lastCumulativeWeight. fold t.
    unfold doubleMul. apply toDouble_below; [| |exact Hsafe].
    + apply Qmult_le_0_compat; [exact Hu0|].
      change 0%Q with (inject_Z 0). rewrite <- Zle_Qle. lia.
    + apply target_below_total; [exact Hu1|lia].
  - assert (Hin : In e (words t)) by (eapply at_index_In; eauto).
    destruct (main_entry_stats data e Hin)
      as [entry (Hk & G & Hn & Hg & Hsize & Hc)].
    assert (Hlen : Nat.ltb 0 (length (words t)) = true).
    { apply Nat.ltb_lt. apply nonempty_length. exact Hne. }
    exists i, e, entry. split; [exact Hsm|]. split; [exact Hat|].
    split; [|split; [|split; [exact G|split]]].
    + unfold MemStorageStats.getRandomWord. rewrite Hlen.
      unfold sample. rewrite Hs. reflexivity.
    + unfold LambdaRandom.getRandomWord, LambdaRandom.loadWordStats.
      assert (Z : (totalWeight t =? 0) = false) by (apply Z.eqb_neq; lia).
      rewrite Z, Hlen. unfold sample. rewrite Hs. reflexivity.
    + intro E. rewrite E in Hn. simpl in Hn. lia.
    + rewrite <- Hg. exact Hsize.
Qed.

Lemma sample_from_precomputed_table_witness :
  exists i e entry,
    smallest_reaching (words (StatsPrecomputer.main scenarioA))
      (doubleMul (1 # 2)
         (inject_Z (totalWeight (StatsPrecomputer.main scenarioA)))) i
    /\ at_index (words (StatsPrecomputer.main scenarioA)) i = Some e
    /\ MemStorageStats.getRandomWord scenarioA
         (Some (StatsPrecomputer.main scenarioA)) (1 # 2)
       = Returns (Some (entry_word e))
    /\ LambdaRandom.getRandomWord scenarioA
         (Some (StatsPrecomputer.main scenarioA)) (1 # 2)
       = Returns (Some (entry_word e))
    /\ data_get scenarioA (entry_word e) = Some entry
    /\ relatedWords entry <> []
    /\ 1 < StatsPrecomputer.computeGraphSize (entry_word e) 3 scenarioA
       <= 850.
Proof.
  apply (sample_from_precomputed_table scenarioA (1 # 2)).
  - vm_compute. discriminate.
  - vm_compute. reflexivity.
  - vm_compute. discriminate.
  - vm_compute. reflexivity.
Defined.

(** ** Bounds on the graph size *)

Lemma bfsOnly_correct (data : EtymologyData) (word : string) (d : Z) :
  data_get data (normalize word) <> None ->
  bfsCorrect data (normalize word) d
    (nodes (LambdaBfsOnly.getWordGraph data word d)).
Proof.
  intro Hroot. rewrite lambdaBfsOnly_nodes_present by exact Hroot.
  apply lam_bfsCorrect. exact Hroot.
Qed.

(** With lookups among the keys: the number of nodes the BFS without
    pruning emits bounds the nodes that [getWordGraph] returns, is at most
    the number of keys, and does not decrease when the depth grows. *)
Lemma emitted_nodes_bounds (data : EtymologyData) (word : string)
  (d d' : Z) :
  let size := fun k =>
    Z.of_nat (length (nodes (LambdaBfsOnly.getWordGraph data word k))) in
  Z.of_nat (length (nodes (MemStorage.getWordGraph data word d))) <= size d
  /\ Z.of_nat (length (nodes (Lambda.getWordGraph data word d))) <= size d
  /\ size d <= Z.of_nat (length (data_keys data))
  /\ (d <= d' -> size d <= size d').
Proof.
  intros size. unfold size.
  destruct (data_get data (normalize word)) as [entry|] eqn:G.
  2:{ unfold MemStorage.getWordGraph, Lambda.getWordGraph,
        LambdaBfsOnly.getWordGraph. rewrite G. simpl. repeat split; lia. }
  assert (Hroot : data_get data (normalize word) <> None) by congruence.
  pose proof (bfsOnly_correct data word d Hroot) as Hd.
  pose proof (bfsOnly_correct data word d' Hroot) as Hd'.
  split; [|split; [|split]].
  - rewrite getWordGraph_present by exact Hroot. cbv zeta.
    unfold pruneHubs. simpl nodes.
    rewrite (bfsCorrect_same_length d data (normalize word) _
               (MemStorage.st_nodes
                  (MemStorage.bfs data (normalize word) d)) Hd)
      by (apply mem_bfsCorrect; exact Hroot).
    apply inj_le. apply filter_length_bound.
  - unfold Lambda.getWordGraph. rewrite G. unfold pruneHubs. simpl nodes.
    rewrite lambdaBfsOnly_nodes_present by exact Hroot.
    apply inj_le. apply filter_length_bound.
  - apply inj_le. destruct Hd as (H1 & H2 & _).
    rewrite <- (length_map id). apply NoDup_incl_length; [exact H2|].
    intros w Hw. apply in_map_iff in Hw. destruct Hw as [n [<- Hn]].
    apply lambdaBfsOnly_nodes in Hn. destruct Hn as [_ Hn].
    assert (Hnode : nodeOfEntry data n).
    { revert n Hn. apply lam_bfsLoop_nodeOfEntry. intros x []. }
    destruct Hnode as [_ [e [Ge _]]]. apply data_get_key. congruence.
  - intro Hle. apply inj_le.
    destruct Hd as (H1 & H2 & _). destruct Hd' as (_ & _ & H3').
    rewrite <- (length_map id
                  (nodes (LambdaBfsOnly.getWordGraph data word d))),
            <- (length_map id
                  (nodes (LambdaBfsOnly.getWordGraph data word d'))).
    apply NoDup_incl_length; [exact H2|].
    intros w Hw. apply in_map_iff in Hw. destruct Hw as [n [<- Hn]].
    destruct (H1 n Hn) as [[Hh _] Hdep].
    apply (H3' (id n) (depth n)); [exact Hh|lia].
Qed.

Lemma computeGraphSize_on_view (data : EtymologyData) (word : string)
  (d : Z) :
  StatsPrecomputer.computeGraphSize word d data
  = Z.of_nat
      (length (nodes (LambdaBfsOnly.getWordGraph (lookupView data) word d))).
Proof.
  rewrite computeGraphSize_length, lambdaBfsOnly_run_on_view.
  unfold jsGraphOf. cbn [jnodes]. rewrite length_map. reflexivity.
Qed.

(** X21: The size computed by [computeGraphSize] (and by the [getGraphSize]
    copies of the random-word Lambda) bounds the graphs that are served:
    a graph that the server's [getWordGraph] returns, and the graph of the
    Lambda port, have at most that many nodes for the same word and depth.
    The size is at most the number of keys of the dictionary plus the
    number of inherited members of the dictionary object, and it does not
    decrease when the depth grows. *)
Theorem graph_size_bounds :
  forall (data : EtymologyData) (word : string) (d d' : Z),
    let size := fun k => StatsPrecomputer.computeGraphSize word k data in
    (forall g, JsMemStorage.getWordGraph data word d = Returns g ->
               Z.of_nat (length (nodes g)) <= size d)
    /\ Z.of_nat (length (jnodes (JsLambda.getWordGraph data word (Limit d))))
       <= size d
    /\ size d
       <= Z.of_nat (length (data_keys data) + length inheritedNames)
    /\ (d <= d' -> size d <= size d').
Proof.
  intros data word d d' size. unfold size.
  rewrite !computeGraphSize_on_view.
  destruct (emitted_nodes_bounds (lookupView data) word d d')
    as (H1 & H2 & H3 & H4).
  split; [|split; [|split]].
  - intros g Hg. apply server_run_on_view in Hg. subst g. exact H1.
  - rewrite lambda_run_on_view. unfold jsGraphOf. cbn [jnodes].
    rewrite length_map. exact H2.
  - unfold data_keys, lookupView in *.
    rewrite map_app, length_app, !length_map in H3.
    rewrite length_map. exact H3.
  - exact H4.
Qed.

Lemma graph_size_bounds_witness :
  2 <= 3
  /\ StatsPrecomputer.computeGraphSize "a" 2 scenarioA
     <= StatsPrecomputer.computeGraphSize "a" 3 scenarioA.
Proof.
  assert (H : 2 <= 3) by lia.
  split; [exact H|].
  exact (proj2 (proj2 (proj2 (graph_size_bounds scenarioA "a" 2 3))) H).
Defined.

(** ** Products of doubles as array indices *)

Lemma roundHalfEven_strict (n d t : Z) :
  0 < d -> 2 * n < (2 * t - 1) * d -> roundHalfEven n d < t.
Proof.
  intros Hd Hlt. unfold roundHalfEven.
  pose proof (Z.div_mod n d ltac:(lia)) as E.
  pose proof (Z.mod_pos_bound n d Hd) as R.
  destruct (2 * (n mod d) <? d) eqn:A.
  - apply Z.ltb_lt in A. nia.
  - apply Z.ltb_ge in A. destruct (d <? 2 * (n mod d)) eqn:B.
    + apply Z.ltb_lt in B. nia.
    + apply Z.ltb_ge in B. destruct (Z.even (n / d)); nia.
Qed.

Lemma roundHalfEven_nonneg (n d : Z) :
  0 <= n -> 0 < d -> 0 <= roundHalfEven n d.
Proof.
  intros Hn Hd. unfold roundHalfEven.
  pose proof (Z.div_pos n d Hn Hd) as F.
  destruct (2 * (n mod d) <? d); [lia|].
  destruct (d <? 2 * (n mod d)); [lia|].
  destruct (Z.even (n / d)); lia.
Qed.

(** The floor of a product [u * n] rounded to a double is an index below
    [n], for [u] at most the largest double below 1. *)
Lemma floor_doubleMul_in_range (u : Q) (n : Z) :
  (0 <= u)%Q -> (u <= 1 - (1 # 9007199254740992))%Q ->
  0 < n -> n < 2 ^ 53 ->
  0 <= Qfloor (doubleMul u (inject_Z n)) < n.
Proof.
  destruct u as [a p]. unfold Qle, Qminus, Qplus, Qopp.
  cbn [Qnum Qden inject_Z].
  intros H0 H1 Hn Hsafe. rewrite Z.mul_1_r in H0.
  assert (Ha : 0 <= a) by lia.
  change (Z.pos (1 * 9007199254740992)) with (2 ^ 53) in H1.
  change (1 * Z.pos 9007199254740992 + -1 * 1) with (2 ^ 53 - 1) in H1.
  unfold doubleMul, toDouble. cbn [Qmult Qnum Qden inject_Z].
  rewrite Pos.mul_1_r.
  set (N := a * n). set (d := Z.pos p).
  assert (HN : 0 <= N) by (unfold N; nia).
  assert (Hd : 0 < d) by (unfold d; lia).
  assert (Hup : N * 2 ^ 53 <= n * d * (2 ^ 53 - 1)).
  { unfold N, d.
    replace (a * n * 2 ^ 53) with (n * (a * 2 ^ 53)) by ring.
    replace (n * Z.pos p * (2 ^ 53 - 1))
      with (n * ((1 * 9007199254740992 + - (1) * 1) * Z.pos p))
      by (change (2 ^ 53) with 9007199254740992; ring).
    apply Z.mul_le_mono_nonneg_l; [lia|exact H1]. }
  clearbody N d. clear H0 H1 Ha a p.
  assert (ND : 0 < n * d) by (apply Z.mul_pos_pos; lia).
  assert (Hlt : N < n * d) by lia.
  rewrite (Z.abs_eq N) by exact HN.
  destruct (N =? 0) eqn:Z0; [change (0 <= 0 < n); lia|].
  apply Z.eqb_neq in Z0.
  assert (Neg : (N <? 0) = false) by (apply Z.ltb_ge; exact HN).
  rewrite Neg.
  set (L := floorLog2 N d).
  assert (HL : 0 <= L -> 2 ^ L * d <= N)
    by (apply floorLog2_lower; lia).
  assert (L52 : L <= 52).
  { destruct (Z_le_gt_dec L 52) as [|G]; [assumption|]. exfalso.
    assert (M : 2 ^ 53 <= 2 ^ L) by (apply Z.pow_le_mono_r; lia).
    specialize (HL ltac:(lia)). nia. }
  assert (HnL : 0 <= L -> 2 ^ L < n).
  { intro P. specialize (HL P).
    assert (0 < 2 ^ L) by (apply Z.pow_pos_nonneg; lia). nia. }
  set (e := Z.max (L - 52) (-1074)).
  destruct (e <? 0) eqn:E.
  - apply Z.ltb_lt in E. unfold pow2.
    assert (E' : (e <? 0) = true) by (apply Z.ltb_lt; exact E).
    rewrite E'.
    assert (P : 0 < 2 ^ (- e)) by (apply Z.pow_pos_nonneg; lia).
    unfold Qfloor, Qmult, inject_Z. cbn [Qnum Qden].
    rewrite ?Pos.mul_1_l, ?Z.mul_1_r. rewrite Z2Pos.id by exact P.
    assert (Big : 2 ^ 53 < 2 * 2 ^ (- e) * n).
    { destruct (Z_lt_le_dec L 0) as [Lneg|Lpos].
      - assert (M : 2 ^ 53 <= 2 ^ (- e))
          by (apply Z.pow_le_mono_r; unfold e; lia).
        nia.
      - specialize (HnL Lpos).
        assert (e = L - 52) by (unfold e; lia).
        assert (X : 2 ^ (- e) * 2 ^ L = 2 ^ 52).
        { rewrite <- Z.pow_add_r by lia. f_equal. lia. }
        change (2 ^ 53) with (2 * 2 ^ 52). nia. }
    assert (R : roundHalfEven (N * 2 ^ (- e)) d < n * 2 ^ (- e)).
    { apply roundHalfEven_strict; [exact Hd|].
      assert (S1 : 2 * (N * 2 ^ (- e)) * 2 ^ 53
                   <= 2 * 2 ^ (- e) * (n * d * (2 ^ 53 - 1))) by nia.
      assert (S2 : 2 * 2 ^ (- e) * (n * d * (2 ^ 53 - 1))
                   < (2 * (n * 2 ^ (- e)) - 1) * d * 2 ^ 53) by nia.
      nia. }
    pose proof (roundHalfEven_nonneg (N * 2 ^ (- e)) d ltac:(nia) Hd) as R0.
    split.
    + apply Z.div_pos; lia.
    + apply Z.div_lt_upper_bound; [exact P|]. lia.
  - apply Z.ltb_ge in E. unfold pow2.
    assert (E' : (e <? 0) = false) by (apply Z.ltb_ge; exact E).
    rewrite E'.
    assert (e = 0) by (unfold e in *; lia).
    assert (L = 52) by (unfold e in *; lia).
    replace e with 0 by lia.
    unfold Qfloor, Qmult, inject_Z. cbn [Qnum Qden]. change (2 ^ 0) with 1.
    rewrite ?Z.mul_1_r, ?Pos.mul_1_l. rewrite Z.div_1_r.
    specialize (HnL ltac:(lia)). replace L with 52 in HnL by lia.
    pose proof (roundHalfEven_nonneg N d HN Hd) as R0.
    split; [exact R0|].
    apply roundHalfEven_strict; [exact Hd|].
    change (2 ^ 53) with (2 * 2 ^ 52) in *. nia.
Qed.


(** ** Random words of the Lambda functions *)

Lemma firstConnected_sound (data : EtymologyData) (ks : list string)
  (w : string) :
  firstConnected data ks = Some w ->
  In w ks /\ exists entry, data_get data w = Some entry
                           /\ relatedWords entry <> [].
Proof.
  induction ks as [|k ks IH]; simpl; [discriminate|].
  destruct (data_get data k) as [entry|] eqn:G.
  - destruct (Nat.ltb 0 (length (relatedWords entry))) eqn:L.
    + intros [= <-]. split; [auto|]. exists entry. split; [exact G|].
      apply Nat.ltb_lt in L. intro E. rewrite E in L. simpl in L. lia.
    + intro H. destruct (IH H) as [Hin Hc]. auto.
  - intro H. destruct (IH H) as [Hin Hc]. auto.
Qed.

Lemma at_index_pair_in_range (A : Type) (l : list A) (i : Z) :
  0 <= i < Z.of_nat (length l) -> exists x, at_index l i = Some x.
Proof.
  intros [H0 H1]. unfold at_index.
  assert (E : (i <? 0) = false) by (apply Z.ltb_ge; exact H0).
  rewrite E. destruct (nth_error l (Z.to_nat i)) as [x|] eqn:N; [eauto|].
  apply nth_error_None in N. lia.
Qed.


Lemma acceptable_outcome (data : EtymologyData) (w : string) :
  (exists b, ConnectionSampler.acceptable data w = Returns b)
  \/ (ConnectionSampler.acceptable data w = TypeError
      /\ lookup data w = Member).
Proof.
  unfold ConnectionSampler.acceptable.
  destruct (lookup data w); [left; eauto|right; auto|left; eauto].
Qed.

Lemma acceptable_connected (data : EtymologyData) (w : string) :
  ConnectionSampler.acceptable data w = Returns true ->
  In w (data_keys data)
  /\ (exists entry, data_get data w = Some entry
                    /\ relatedWords entry <> [])
  /\ ConnectionSampler.getGraphSize w 3 data <= 850.
Proof.
  unfold ConnectionSampler.acceptable.
  destruct (lookup data w) as [entry| |] eqn:L; try discriminate.
  apply lookup_key in L.
  destruct (Nat.leb ConnectionSampler.MIN_CONNECTIONS
              (length (relatedWords entry))
            && (ConnectionSampler.getGraphSize w 3 data
                <=? ConnectionSampler.MAX_NODES))%bool eqn:H;
    [intros _|discriminate].
  rewrite andb_true_iff, Nat.leb_le, Z.leb_le in H.
  unfold ConnectionSampler.MIN_CONNECTIONS, ConnectionSampler.MAX_NODES in H.
  destruct H as [Hl S]. split; [apply data_get_key; congruence|].
  split; [|exact S].
  exists entry. split; [exact L|].
  intro E. rewrite E in Hl. simpl in Hl. lia.
Qed.

(** A key with related words that is not acceptable has a graph of more
    than 850 words. *)
Lemma unacceptable_large (data : EtymologyData) (w : string)
  (entry : WordEntry) :
  data_get data w = Some entry -> relatedWords entry <> [] ->
  ConnectionSampler.acceptable data w = Returns false ->
  850 < ConnectionSampler.getGraphSize w 3 data.
Proof.
  intros G Hne. unfold ConnectionSampler.acceptable.
  apply lookup_key in G. rewrite G.
  destruct (Nat.leb ConnectionSampler.MIN_CONNECTIONS
              (length (relatedWords entry))
            && (ConnectionSampler.getGraphSize w 3 data
                <=? ConnectionSampler.MAX_NODES))%bool eqn:H;
    [discriminate|intros _].
  apply andb_false_iff in H. destruct H as [H|H].
  - apply Nat.leb_gt in H. unfold ConnectionSampler.MIN_CONNECTIONS in H.
    destruct (relatedWords entry); [congruence|simpl in H; lia].
  - apply Z.leb_gt in H. exact H.
Qed.

(** The pairs of the [connections] array: a key with related words, and
    the normalization of one of them for which [data[_]] is truthy. *)
Lemma connectionsOf_pair (data : EtymologyData) (w1 w2 : string) :
  In (w1, w2) (ConnectionSampler.connectionsOf data) ->
  In w1 (data_keys data)
  /\ resolves data w2 = true
  /\ exists entry, data_get data w1 = Some entry
                   /\ relatedWords entry <> []
                   /\ exists r, In r (relatedWords entry)
                                /\ w2 = normalize r.
Proof.
  unfold ConnectionSampler.connectionsOf. intro Hin.
  apply in_flat_map in Hin. destruct Hin as [w [Hw Hp]].
  destruct (data_get data w) as [entry|] eqn:G; [|destruct Hp].
  destruct (Nat.ltb 0 (length (relatedWords entry))) eqn:L; [|destruct Hp].
  apply in_flat_map in Hp. destruct Hp as [r [Hr Hp]].
  destruct (resolves data (normalize r)) eqn:R; [|destruct Hp].
  destruct Hp as [E|[]]. injection E as <- <-.
  split; [exact Hw|]. split; [exact R|].
  exists entry. split; [exact G|]. split; [|eauto].
  intro E. rewrite E in Hr. destruct Hr.
Qed.

Lemma sampler_index_in_range (u : Q) (n : nat) :
  randomValue u -> (0 < n)%nat -> Z.of_nat n < 2 ^ 53 ->
  0 <= ConnectionSampler.randomIndexOf u n < Z.of_nat n.
Proof.
  intros [H0 H1] Hn Hs. unfold ConnectionSampler.randomIndexOf.
  apply floor_doubleMul_in_range; try assumption. lia.
Qed.

(** What the attempts do: no word found, an acceptable word, or a
    [TypeError] at a pair whose second word is an inherited member while
    the graph of the first has more than 850 words. *)
Lemma attempts_outcome (attemptsLeft : nat) (data : EtymologyData)
  (rand : nat -> Q) :
  ConnectionSampler.connectionsOf data <> [] ->
  Z.of_nat (length (ConnectionSampler.connectionsOf data)) < 2 ^ 53 ->
  (forall k, randomValue (rand k)) ->
  forall calls,
    ConnectionSampler.attempts attemptsLeft data
      (ConnectionSampler.connectionsOf data) rand calls = Returns None
    \/ (exists w,
          ConnectionSampler.attempts attemptsLeft data
            (ConnectionSampler.connectionsOf data) rand calls
          = Returns (Some w)
          /\ ConnectionSampler.acceptable data w = Returns true)
    \/ (ConnectionSampler.attempts attemptsLeft data
          (ConnectionSampler.connectionsOf data) rand calls = TypeError
        /\ exists w1 w2,
             In (w1, w2) (ConnectionSampler.connectionsOf data)
             /\ lookup data w2 = Member
             /\ 850 < ConnectionSampler.getGraphSize w1 3 data).
Proof.
  intros Hne Hs Hrand.
  induction attemptsLeft as [|k IH]; intro calls; simpl; [auto|].
  destruct (at_index_pair_in_range _ (ConnectionSampler.connectionsOf data)
              (ConnectionSampler.randomIndexOf (rand calls)
                 (length (ConnectionSampler.connectionsOf data))))
    as [[word1 word2] Hp].
  { apply sampler_index_in_range; auto.
    apply nonempty_length. exact Hne. }
  rewrite Hp.
  assert (Hin : In (word1, word2) (ConnectionSampler.connectionsOf data))
    by (eapply at_index_member; eauto).
  destruct (connectionsOf_pair data word1 word2 Hin)
    as (_ & _ & entry & G & Hrel & _).
  destruct (acceptable_outcome data word1) as [[b1 A1]|[_ M1]].
  2:{ apply lookup_member in M1. destruct M1. congruence. }
  rewrite A1. simpl. destruct b1; [right; left; eauto|].
  destruct (acceptable_outcome data word2) as [[b2 A2]|[A2 M2]];
    rewrite A2; simpl.
  - destruct b2; [right; left; eauto|]. apply IH.
  - right. right. split; [reflexivity|]. exists word1, word2.
    split; [exact Hin|]. split; [exact M2|].
    eapply unacceptable_large; eauto.
Qed.

Lemma connectionsOf_connected (data : EtymologyData) :
  ConnectionSampler.connectionsOf data <> [] ->
  exists w entry, In w (data_keys data) /\ data_get data w = Some entry
                  /\ relatedWords entry <> [].
Proof.
  intro Hne.
  destruct (ConnectionSampler.connectionsOf data) as [|[w1 w2] ps] eqn:C;
    [congruence|].
  assert (Hin : In (w1, w2) (ConnectionSampler.connectionsOf data))
    by (rewrite C; left; reflexivity).
  destruct (connectionsOf_pair data w1 w2 Hin)
    as (Hk & _ & entry & G & Hrel & _).
  exists w1, entry. auto.
Qed.

Lemma sampler_random_key (data : EtymologyData) (u : Q) :
  randomValue u -> data_keys data <> [] ->
  Z.of_nat (length (data_keys data)) < 2 ^ 53 ->
  exists w, at_index (data_keys data)
              (ConnectionSampler.randomIndexOf u (length (data_keys data)))
            = Some w
            /\ In w (data_keys data).
Proof.
  intros Hu Hne Hs.
  destruct (at_index_pair_in_range _ (data_keys data)
              (ConnectionSampler.randomIndexOf u (length (data_keys data))))
    as [w Hw].
  - apply sampler_index_in_range; auto. apply nonempty_length. exact Hne.
  - exists w. split; [exact Hw|]. eapply at_index_member; eauto.
Qed.

(** X22: The Lambda [getRandomWord] that samples connections, for values of
    [Math.random()] (doubles in [0,1)) and arrays of fewer than [2 ^ 53]
    elements.  On an empty dictionary it throws its error.  Otherwise it
    returns a key of the dictionary, which has at least one related word
    when some related word of some key resolves on the dictionary object;
    or it throws a [TypeError], and then the [connections] array holds a
    pair whose second word is the name of an inherited member (as
    [constructor]) and no key, while the graph of its first word has more
    than 850 words. *)
Theorem connection_sampler_returns_key :
  forall (data : EtymologyData) (rand : nat -> Q),
    (forall k, randomValue (rand k)) ->
    Z.of_nat (length (data_keys data)) < 2 ^ 53 ->
    Z.of_nat (length (ConnectionSampler.connectionsOf data)) < 2 ^ 53 ->
    (data_keys data = [] ->
     ConnectionSampler.getRandomWord data rand = ErrorThrown)
    /\ (data_keys data <> [] ->
        (exists w,
           ConnectionSampler.getRandomWord data rand = Returns (Some w)
           /\ In w (data_keys data)
           /\ (ConnectionSampler.connectionsOf data <> [] ->
               exists entry, data_get data w = Some entry
                             /\ relatedWords entry <> []))
        \/ (ConnectionSampler.getRandomWord data rand = TypeError
            /\ exists w1 w2,
                 In (w1, w2) (ConnectionSampler.connectionsOf data)
                 /\ lookup data w2 = Member
                 /\ 850 < ConnectionSampler.getGraphSize w1 3 data)).
Proof.
  intros data rand Hrand Hk Hc. split.
  - intro E. unfold ConnectionSampler.getRandomWord. rewrite E. reflexivity.
  - intro Hne. unfold ConnectionSampler.getRandomWord.
    assert (Hl : Nat.eqb (length (data_keys data)) 0 = false).
    { apply Nat.eqb_neq. pose proof (nonempty_length _ _ Hne). lia. }
    rewrite Hl. cbv zeta.
    destruct (ConnectionSampler.connectionsOf data) as [|p ps] eqn:C.
    + left. simpl.
      destruct (sampler_random_key data (rand O) (Hrand O) Hne Hk)
        as [w [Hw Hin]].
      exists w. rewrite Hw. split; [reflexivity|]. split; [exact Hin|].
      congruence.
    + rewrite <- C in *.
      assert (Hcn : ConnectionSampler.connectionsOf data <> [])
        by (rewrite C; discriminate).
      assert (Hl' : Nat.eqb (length (ConnectionSampler.connectionsOf data)) 0
                    = false).
      { apply Nat.eqb_neq. pose proof (nonempty_length _ _ Hcn). lia. }
      rewrite Hl'.
      destruct (attempts_outcome ConnectionSampler.MAX_ATTEMPTS data rand
                  Hcn Hc Hrand 0%nat)
        as [E|[[w [E A]]|[E W]]]; rewrite E.
      * left.
        destruct (firstConnected_some data (data_keys data)
                    (connectionsOf_connected data Hcn)) as [w Hw].
        rewrite Hw. apply firstConnected_sound in Hw.
        destruct Hw as [Hin Hcon]. exists w. auto.
      * left. apply acceptable_connected in A.
        destruct A as (Hin & Hcon & _). exists w. auto.
      * right. split; [reflexivity|exact W].
Qed.

Lemma connection_sampler_returns_key_witness :
  (forall k : nat, randomValue 0)
  /\ data_keys scenarioA <> []
  /\ ((exists w,
         ConnectionSampler.getRandomWord scenarioA (fun _ => 0%Q)
         = Returns (Some w)
         /\ In w (data_keys scenarioA)
         /\ (ConnectionSampler.connectionsOf scenarioA <> [] ->
             exists entry, data_get scenarioA w = Some entry
                           /\ relatedWords entry <> []))
      \/ (ConnectionSampler.getRandomWord scenarioA (fun _ => 0%Q)
          = TypeError
          /\ exists w1 w2,
               In (w1, w2) (ConnectionSampler.connectionsOf scenarioA)
               /\ lookup scenarioA w2 = Member
               /\ 850 < ConnectionSampler.getGraphSize w1 3 scenarioA)).
Proof.
  assert (H : forall k : nat, randomValue 0)
    by (intro k; split; vm_compute; discriminate).
  assert (K : data_keys scenarioA <> []) by discriminate.
  assert (S1 : Z.of_nat (length (data_keys scenarioA)) < 2 ^ 53)
    by (vm_compute; reflexivity).
  assert (S2 : Z.of_nat (length (ConnectionSampler.connectionsOf scenarioA))
               < 2 ^ 53) by (vm_compute; reflexivity).
  split; [exact H|]. split; [exact K|].
  exact (proj2 (connection_sampler_returns_key scenarioA (fun _ => 0%Q)
                  H S1 S2) K).
Defined.



(** ** Normalized words *)

Lemma lowerChar_space (c : ascii) : isSpace (lowerChar c) = isSpace c.
Proof.
  destruct c as [[] [] [] [] [] [] [] []]; vm_compute; reflexivity.
Qed.

Lemma lowerChar_twice (c : ascii) : lowerChar (lowerChar c) = lowerChar c.
Proof.
  destruct c as [[] [] [] [] [] [] [] []]; vm_compute; reflexivity.
Qed.

Lemma toLowerCase_twice (s : string) :
  toLowerCase (toLowerCase s) = toLowerCase s.
Proof.
  induction s as [|c s IH]; simpl; [reflexivity|].
  rewrite lowerChar_twice, IH. reflexivity.
Qed.

Lemma trimStart_lower (s : string) :
  trimStart (toLowerCase s) = toLowerCase (trimStart s).
Proof.
  induction s as [|c s IH]; [reflexivity|].
  cbn [toLowerCase trimStart]. rewrite lowerChar_space.
  destruct (isSpace c); [exact IH|reflexivity].
Qed.

Lemma allSpaces_lower (s : string) :
  allSpaces (toLowerCase s) = allSpaces s.
Proof.
  induction s as [|c s IH]; [reflexivity|].
  cbn [toLowerCase allSpaces]. rewrite lowerChar_space, IH. reflexivity.
Qed.

Lemma trimEnd_lower (s : string) :
  trimEnd (toLowerCase s) = toLowerCase (trimEnd s).
Proof.
  induction s as [|c s IH]; [reflexivity|].
  cbn [toLowerCase trimEnd].
  change (allSpaces (String (lowerChar c) (toLowerCase s)))
    with (allSpaces (toLowerCase (String c s))).
  rewrite allSpaces_lower.
  destruct (allSpaces (String c s)); [reflexivity|].
  cbn [toLowerCase]. rewrite IH. reflexivity.
Qed.

Lemma trim_lower (s : string) : trim (toLowerCase s) = toLowerCase (trim s).
Proof.
  unfold trim. rewrite trimStart_lower, trimEnd_lower. reflexivity.
Qed.

Lemma trimEnd_not_blank (s : string) :
  allSpaces s = false -> allSpaces (trimEnd s) = false.
Proof.
  induction s as [|c s IH]; [discriminate|].
  intro H. cbn [trimEnd]. rewrite H. cbn [allSpaces] in *.
  destruct (isSpace c); [|reflexivity].
  simpl in *. apply IH. exact H.
Qed.

Lemma trimEnd_twice (s : string) : trimEnd (trimEnd s) = trimEnd s.
Proof.
  induction s as [|c s IH]; [reflexivity|].
  cbn [trimEnd]. destruct (allSpaces (String c s)) eqn:A; [reflexivity|].
  cbn [trimEnd].
  assert (A' : allSpaces (String c (trimEnd s)) = false).
  { cbn [allSpaces] in *. destruct (isSpace c); [|reflexivity].
    simpl in *. apply trimEnd_not_blank. exact A. }
  rewrite A', IH. reflexivity.
Qed.

Lemma trimStart_head (s : string) :
  match trimStart s with
  | EmptyString => True
  | String c _ => isSpace c = false
  end.
Proof.
  induction s as [|c s IH]; simpl; [exact I|].
  destruct (isSpace c) eqn:E; [exact IH|exact E].
Qed.

Lemma trim_twice (s : string) : trim (trim s) = trim s.
Proof.
  unfold trim. pose proof (trimStart_head s) as H.
  destruct (trimStart s) as [|c t]; [reflexivity|].
  assert (E : trimEnd (String c t) = String c (trimEnd t))
    by (cbn [trimEnd allSpaces]; rewrite H; reflexivity).
  rewrite E. cbn [trimStart]. rewrite H. rewrite <- E.
  apply trimEnd_twice.
Qed.

Lemma normalize_twice (s : string) : normalize (normalize s) = normalize s.
Proof.
  unfold normalize. rewrite !trim_lower, toLowerCase_twice, trim_twice.
  reflexivity.
Qed.

(** X24: On text in the Latin-1 range (code units below 256), normalizing
    is idempotent, and the word that the client keeps after a search
    ([trim] first, then [toLowerCase]) is the word the server derives from
    it ([toLowerCase] first, then [trim]): the server's normalization
    leaves the client's word as it is, so [getWordEntry] and [getWordGraph]
    do for the client's word what they do for the typed text. *)
Theorem normalize_agrees :
  forall (s : string) (data : EtymologyData),
    normalize (normalize s) = normalize s
    /\ HomePage.searchedWord s = normalize s
    /\ normalize (HomePage.searchedWord s) = HomePage.searchedWord s
    /\ MemStorage.getWordEntry data (HomePage.searchedWord s)
       = MemStorage.getWordEntry data s
    /\ (forall d,
          JsMemStorage.getWordGraph data (HomePage.searchedWord s) d
          = JsMemStorage.getWordGraph data s d).
Proof.
  intros s data.
  assert (E : HomePage.searchedWord s = normalize s)
    by (unfold HomePage.searchedWord, normalize; rewrite trim_lower;
        reflexivity).
  split; [apply normalize_twice|]. split; [exact E|].
  split; [rewrite E; apply normalize_twice|]. split.
  - unfold MemStorage.getWordEntry. rewrite E, normalize_twice. reflexivity.
  - intro d. unfold JsMemStorage.getWordGraph.
    rewrite E, normalize_twice. reflexivity.
Qed.

Lemma hops_normalized (data : EtymologyData) (root w : string) (k : Z) :
  hops data root w k -> w = root \/ exists r, w = normalize r.
Proof.
  intros [|u v k' _ [entry [r [_ [_ [E _]]]]]]; [auto|eauto].
Qed.


(** ** The list of recent searches *)

Lemma includes_In (l : list string) (w : string) :
  HomePage.includes l w = true <-> In w l.
Proof.
  unfold HomePage.includes. rewrite existsb_exists. split.
  - intros [x [Hx E]]. apply String.eqb_eq in E. subst. exact Hx.
  - intro H. exists w. split; [exact H|apply String.eqb_refl].
Qed.

Lemma firstn_member (A : Type) (k : nat) (l : list A) (x : A) :
  In x (firstn k l) -> In x l.
Proof.
  intro H. rewrite <- (firstn_skipn k l). apply in_or_app. left. exact H.
Qed.

Lemma firstn_NoDup (A : Type) (k : nat) (l : list A) :
  NoDup l -> NoDup (firstn k l).
Proof.
  revert k. induction l as [|x l IH]; intros k H.
  - rewrite firstn_nil. constructor.
  - destruct k as [|k]; simpl; [constructor|].
    inversion H as [|? ? Hx Hl]; subst. constructor; [|apply IH; exact Hl].
    intro Hin. apply Hx. eapply firstn_member; eauto.
Qed.

Lemma applyRecent_bounded (l : list string) (a : HomePage.RecentAction) :
  NoDup l /\ (length l <= 5)%nat ->
  NoDup (HomePage.applyRecent l a)
  /\ (length (HomePage.applyRecent l a) <= 5)%nat.
Proof.
  intros [Hnd Hlen]. destruct a as [w|w]; simpl.
  - unfold HomePage.addRecent.
    destruct (HomePage.includes l w) eqn:I; [auto|]. split.
    + constructor; [|apply firstn_NoDup; exact Hnd].
      intro Hin. apply firstn_member in Hin.
      apply includes_In in Hin. congruence.
    + cbn [length]. pose proof (firstn_le_length 4 l). lia.
  - unfold HomePage.handleRemoveRecent. split.
    + apply NoDup_filter. exact Hnd.
    + pose proof (filter_length_bound _
                    (fun x => negb (String.eqb x w)) l). lia.
Qed.

(** X26: The list of recent searches, started from the two example words and
    changed only by searches and removals, never holds a word twice and
    never holds more than five words; a word that was just searched is in
    the list, and a word that was just removed is not. *)
Theorem recent_searches_bounded :
  forall (actions : list HomePage.RecentAction),
    let final := fold_left HomePage.applyRecent actions
                   HomePage.EXAMPLE_WORDS in
    NoDup final /\ (length final <= 5)%nat
    /\ (forall w, In w (HomePage.applyRecent final (HomePage.Searched w)))
    /\ (forall w, ~ In w (HomePage.applyRecent final (HomePage.Removed w))).
Proof.
  intros actions final.
  assert (Inv : NoDup final /\ (length final <= 5)%nat).
  { assert (G : forall l, NoDup l /\ (length l <= 5)%nat ->
                  NoDup (fold_left HomePage.applyRecent actions l)
                  /\ (length (fold_left HomePage.applyRecent actions l)
                      <= 5)%nat).
    { induction actions as [|a actions IH]; intros l Hl; simpl; [exact Hl|].
      apply IH. apply applyRecent_bounded. exact Hl. }
    unfold final. apply G. split; [|simpl; lia].
    unfold HomePage.EXAMPLE_WORDS.
    repeat (constructor; [simpl; intuition discriminate|]). constructor. }
  destruct Inv as [Hnd Hlen]. split; [exact Hnd|]. split; [exact Hlen|].
  split.
  - intro w. simpl. unfold HomePage.addRecent.
    destruct (HomePage.includes final w) eqn:I.
    + apply includes_In. exact I.
    + left. reflexivity.
  - intros w Hin. simpl in Hin. unfold HomePage.handleRemoveRecent in Hin.
    apply filter_In in Hin. destruct Hin as [_ H].
    rewrite String.eqb_refl in H. discriminate.
Qed.

(** ** The list of related words in the detail panel *)

Lemma firstn_all_app (A : Type) (k : nat) (l r : list A) :
  length l = k -> firstn k (l ++ r) = l /\ skipn k (l ++ r) = r.
Proof.
  intros <-. split.
  - rewrite firstn_app, Nat.sub_diag, firstn_all. simpl.
    apply app_nil_r.
  - rewrite skipn_app, Nat.sub_diag, skipn_all. reflexivity.
Qed.

(** X27: The detail panel accounts for every related word.  For a list of more
    than 30 words that is not expanded it shows the first 20 words, then
    the button with the count of hidden words, then the last 10 words; the
    words shown and the hidden ones make up the whole list in order, and
    the count on the button is the number of hidden words.  A list of at
    most 30 words, or an expanded one, is shown whole. *)
Theorem panel_accounts_for_all_words :
  forall (relatedWords : list string),
    (WordDetailPanel.shouldTruncate relatedWords = true ->
     exists hidden,
       relatedWords
       = WordDetailPanel.shownBefore relatedWords false ++ hidden
           ++ WordDetailPanel.shownAfter relatedWords false
       /\ Z.of_nat (length hidden) = WordDetailPanel.hiddenCount relatedWords
       /\ length (WordDetailPanel.shownBefore relatedWords false) = 20%nat
       /\ length (WordDetailPanel.shownAfter relatedWords false) = 10%nat
       /\ 0 < WordDetailPanel.hiddenCount relatedWords)
    /\ (WordDetailPanel.shouldTruncate relatedWords = false ->
        WordDetailPanel.shownBefore relatedWords false = relatedWords
        /\ WordDetailPanel.shownAfter relatedWords false = []
        /\ WordDetailPanel.hiddenCount relatedWords = 0)
    /\ WordDetailPanel.shownBefore relatedWords true = relatedWords
    /\ WordDetailPanel.shownAfter relatedWords true = [].
Proof.
  intro rw.
  unfold WordDetailPanel.shownBefore, WordDetailPanel.shownAfter,
    WordDetailPanel.displayedWords, WordDetailPanel.hiddenCount,
    WordDetailPanel.sliceLast.
  split; [|split; [|split]].
  - intro T. rewrite T. cbn [negb andb].
    unfold WordDetailPanel.shouldTruncate in T. apply Nat.ltb_lt in T.
    assert (L20 : length (firstn 20 rw) = 20%nat)
      by (rewrite length_firstn; lia).
    destruct (firstn_all_app _ 20 (firstn 20 rw)
                (skipn (length rw - 10) rw) L20) as [E1 E2].
    rewrite E1, E2.
    exists (firstn (length rw - 30) (skipn 20 rw)).
    split; [|split; [|split; [exact L20|split]]].
    + rewrite <- (firstn_skipn 20 rw) at 1. f_equal.
      rewrite <- (firstn_skipn (length rw - 30) (skipn 20 rw)) at 1.
      f_equal. rewrite skipn_skipn. f_equal. lia.
    + rewrite length_firstn, length_skipn. lia.
    + rewrite length_skipn. lia.
    + lia.
  - intro T. rewrite T. cbn [andb]. rewrite firstn_all. auto.
  - rewrite andb_false_r. apply firstn_all.
  - rewrite andb_false_r. reflexivity.
Qed.

Lemma panel_accounts_for_all_words_witness :
  WordDetailPanel.shouldTruncate (map hubChildName (seq 1 80)) = true
  /\ exists hidden,
       map hubChildName (seq 1 80)
       = WordDetailPanel.shownBefore (map hubChildName (seq 1 80)) false
           ++ hidden
           ++ WordDetailPanel.shownAfter (map hubChildName (seq 1 80)) false
       /\ Z.of_nat (length hidden)
          = WordDetailPanel.hiddenCount (map hubChildName (seq 1 80))
       /\ length (WordDetailPanel.shownBefore
                    (map hubChildName (seq 1 80)) false) = 20%nat
       /\ length (WordDetailPanel.shownAfter
                    (map hubChildName (seq 1 80)) false) = 10%nat
       /\ 0 < WordDetailPanel.hiddenCount (map hubChildName (seq 1 80)).
Proof.
  assert (H : WordDetailPanel.shouldTruncate (map hubChildName (seq 1 80))
              = true) by reflexivity.
  split; [exact H|].
  exact (proj1 (panel_accounts_for_all_words (map hubChildName (seq 1 80)))
           H).
Defined.

(** ** Edges are links of the dictionary *)

Section ServerEdgesLinked.

Import MemStorage.

Variable data : EtymologyData.
Variable maxDepth : Z.

Lemma mem_processRelated_linked (cw : string) (cd : Z) (entry : WordEntry)
  (st : BfsState) (r : string) :
  data_get data cw = Some entry -> In r (relatedWords entry) ->
  (forall e, In e (st_edges st) -> linked data (from e) (to e)) ->
  forall e, In e (st_edges (processRelated data maxDepth cw cd st r)) ->
            linked data (from e) (to e).
Proof.
  intros G Hr H e. unfold processRelated.
  destruct (data_get data (normalize r)) as [er|] eqn:Gr; [|apply H].
  assert (New : forall e',
             In e' (if edgeExists (st_edges st) cw (normalize r)
                    then st_edges st
                    else st_edges st ++ [mkEdge cw (normalize r)]) ->
             linked data (from e') (to e')).
  { intros e' He'. destruct (edgeExists _ _ _); [apply H; exact He'|].
    apply in_app_iff in He'. destruct He' as [He'|[<-|[]]]; [apply H; auto|].
    exists entry, r. simpl. repeat split; auto. congruence. }
  destruct (set_has _ _); [apply New|].
  destruct (_ <=? _); apply New.
Qed.

Lemma mem_fold_linked (cw : string) (cd : Z) (entry : WordEntry)
  (rs : list string) :
  data_get data cw = Some entry ->
  (forall r, In r rs -> In r (relatedWords entry)) ->
  forall st,
    (forall e, In e (st_edges st) -> linked data (from e) (to e)) ->
    forall e,
      In e (st_edges (fold_left (processRelated data maxDepth cw cd) rs st))
      -> linked data (from e) (to e).
Proof.
  intro G. induction rs as [|r rs IH]; intros Hsub st H; simpl; [exact H|].
  apply IH; [intros x Hx; apply Hsub; right; exact Hx|].
  eapply mem_processRelated_linked; eauto. apply Hsub. left. reflexivity.
Qed.

Lemma mem_bfsLoop_linked (budget : nat) :
  forall st,
    (forall e, In e (st_edges st) -> linked data (from e) (to e)) ->
    forall e, In e (st_edges (bfsLoop budget data maxDepth st)) ->
              linked data (from e) (to e).
Proof.
  induction budget as [|b IH]; intros st H; simpl; [exact H|].
  destruct (st_queue st) as [|[cw cd] rest]; [exact H|].
  apply IH. unfold visit.
  destruct (cd >? maxDepth); [exact H|].
  destruct (data_get data cw) as [entry|] eqn:G; [|exact H].
  eapply mem_fold_linked; eauto.
Qed.

End ServerEdgesLinked.

Section LambdaEdgeEnds.

Import Lambda.

Variable data : EtymologyData.
Variable maxDepth : Z.

Lemma lam_processRelated_ends (cw : string) (cd : Z) (entry : WordEntry)
  (st : BfsState) (r : string) :
  data_get data cw = Some entry -> In r (relatedWords entry) ->
  cd <= maxDepth ->
  (exists n, In n (st_nodes st) /\ id n = cw /\ depth n = cd) ->
  lamEdgeEnds data maxDepth st ->
  lamEdgeEnds data maxDepth (processRelated data maxDepth cw cd st r).
Proof.
  intros G Hr Hcd [nc [Hnc [Hid Hdep]]] H. unfold processRelated.
  destruct (data_get data (normalize r)) as [er|] eqn:Gr; [|exact H].
  destruct (set_has (st_visited st) (normalize r)); [exact H|].
  assert (Hl : linked data cw (normalize r)).
  { exists entry, r. repeat split; auto. congruence. }
  destruct (cd <? maxDepth) eqn:C; intros e He; simpl in He;
    apply in_app_iff in He; destruct He as [He|[<-|[]]]; simpl.
  - destruct (H e He) as [L [n [Hn [Hi Ht]]]]. split; [exact L|].
    exists n. repeat split; auto.
    destruct Ht as [Ht|[Ht|Ht]]; auto.
    right. left. rewrite map_app. apply in_or_app. auto.
  - split; [exact Hl|]. exists nc. repeat split; auto.
    right. left. rewrite map_app. apply in_or_app. right. simpl. auto.
  - apply H. exact He.
  - split; [exact Hl|]. exists nc. repeat split; auto.
    right. right. apply Z.ltb_ge in C. lia.
Qed.

Lemma lam_fold_ends (cw : string) (cd : Z) (entry : WordEntry)
  (rs : list string) :
  data_get data cw = Some entry ->
  (forall r, In r rs -> In r (relatedWords entry)) ->
  cd <= maxDepth ->
  forall st,
    (exists n, In n (st_nodes st) /\ id n = cw /\ depth n = cd) ->
    lamEdgeEnds data maxDepth st ->
    lamEdgeEnds data maxDepth
      (fold_left (processRelated data maxDepth cw cd) rs st).
Proof.
  intros G. induction rs as [|r rs IH]; intros Hsub Hcd st Hn H; simpl;
    [exact H|].
  apply IH; [intros x Hx; apply Hsub; right; exact Hx|exact Hcd| |].
  - rewrite lam_processRelated_nodes. exact Hn.
  - eapply lam_processRelated_ends; eauto. apply Hsub. left. reflexivity.
Qed.

Lemma lam_visit_ends (u : string) (du : Z) (rest : list (string * Z))
  (st : BfsState) :
  st_queue st = (u, du) :: rest -> du <= maxDepth ->
  lamEdgeEnds data maxDepth st ->
  lamEdgeEnds data maxDepth (visit data maxDepth u du (shift st rest)).
Proof.
  intros Q Hdu H. unfold visit. simpl.
  destruct (set_has (st_visited st) u || (du >? maxDepth))%bool eqn:C.
  - apply orb_true_iff in C. destruct C as [C|C];
      [|rewrite Z.gtb_ltb in C; apply Z.ltb_lt in C; lia].
    apply set_has_In in C. intros e He. simpl in He.
    destruct (H e He) as [L [n [Hn [Hi Ht]]]]. split; [exact L|].
    exists n. simpl. repeat split; auto.
    destruct Ht as [Ht|[Ht|Ht]]; auto.
    rewrite Q in Ht. simpl in Ht. destruct Ht as [<-|Ht]; auto.
  - assert (Shifted : forall nodes',
               (forall n, In n (st_nodes st) -> In n nodes') ->
               lamEdgeEnds data maxDepth
                 (mkState nodes' (st_edges st)
                    (set_add (st_visited st) u) rest)).
    { intros nodes' Hsub e He. simpl in He.
      destruct (H e He) as [L [n [Hn [Hi Ht]]]]. split; [exact L|].
      exists n. simpl. split; [apply Hsub; exact Hn|]. split; [exact Hi|].
      destruct Ht as [Ht|[Ht|Ht]]; auto.
      - left. apply set_add_In. auto.
      - rewrite Q in Ht. simpl in Ht. destruct Ht as [<-|Ht]; auto.
        left. apply set_add_In. auto. }
    destruct (data_get data u) as [entry|] eqn:G.
    + eapply lam_fold_ends; eauto.
      * simpl. eexists. split; [apply in_or_app; right; left; reflexivity|].
        simpl. auto.
      * apply Shifted. intros n Hn. apply in_or_app. auto.
    + apply Shifted. auto.
Qed.

Lemma lam_bfsLoop_ends (root : string) (budget : nat) :
  forall st lvl cur,
    LamInv data root maxDepth lvl cur [] st ->
    lamEdgeEnds data maxDepth st ->
    lamEdgeEnds data maxDepth (bfsLoop budget data maxDepth st).
Proof.
  induction budget as [|b IH]; intros st lvl cur Inv H; simpl; [exact H|].
  destruct (st_queue st) as [|[u du] rest] eqn:Q; [exact H|].
  apply (IH _ du u).
  - eapply lam_visit_inv; eauto.
  - eapply lam_visit_ends; eauto.
    destruct (li_queue _ _ _ _ _ _ _ Inv u du) as (_ & Hmax & _);
      [rewrite Q; left; reflexivity|exact Hmax].
Qed.

Lemma lam_bfs_ends (root : string) :
  0 <= maxDepth -> data_get data root <> None ->
  forall e, In e (st_edges (bfs data root maxDepth)) ->
    linked data (from e) (to e)
    /\ exists n, In n (st_nodes (bfs data root maxDepth)) /\ id n = from e
                 /\ (In (to e) (map id (st_nodes (bfs data root maxDepth)))
                     \/ depth n = maxDepth).
Proof.
  intros Hd Hroot e He.
  assert (H : lamEdgeEnds data maxDepth (bfs data root maxDepth)).
  { eapply lam_bfsLoop_ends; [apply lam_initial_inv; assumption|].
    intros x []. }
  destruct (lam_bfs_final data root maxDepth Hd Hroot)
    as (Q & V & _).
  destruct (H e He) as [L [n [Hn [Hi Ht]]]]. split; [exact L|].
  exists n. split; [exact Hn|]. split; [exact Hi|].
  destruct Ht as [Ht|[Ht|Ht]]; auto.
  - left. rewrite <- V. exact Ht.
  - cbv zeta in Q. rewrite Q in Ht. destruct Ht.
Qed.

End LambdaEdgeEnds.

Lemma lambda_negative_depth_graph (data : EtymologyData) (word : string)
  (maxDepth : Z) :
  maxDepth < 0 -> Lambda.getWordGraph data word maxDepth = mkGraph [] [].
Proof.
  intro Hneg. unfold Lambda.getWordGraph.
  destruct (data_get data (normalize word)); [|reflexivity].
  rewrite lam_bfs_negative_depth by exact Hneg. reflexivity.
Qed.

Lemma lambda_edges_of_bfs (data : EtymologyData) (word : string)
  (maxDepth : Z) (e : GraphEdge) :
  In e (edges (Lambda.getWordGraph data word maxDepth)) ->
  0 <= maxDepth /\ data_get data (normalize word) <> None
  /\ In e (Lambda.st_edges (Lambda.bfs data (normalize word) maxDepth))
  /\ ~ In (from e)
         (nodesToRemoveOf
            (Lambda.depthMapOf
               (Lambda.st_nodes (Lambda.bfs data (normalize word) maxDepth)))
            (Lambda.st_edges (Lambda.bfs data (normalize word) maxDepth)))
  /\ ~ In (to e)
         (nodesToRemoveOf
            (Lambda.depthMapOf
               (Lambda.st_nodes (Lambda.bfs data (normalize word) maxDepth)))
            (Lambda.st_edges (Lambda.bfs data (normalize word) maxDepth))).
Proof.
  intro He. destruct (Z_lt_le_dec maxDepth 0) as [Hneg|Hpos].
  { rewrite lambda_negative_depth_graph in He by exact Hneg. destruct He. }
  split; [exact Hpos|]. unfold Lambda.getWordGraph in He.
  destruct (data_get data (normalize word)); [|destruct He].
  split; [congruence|]. apply pruneHubs_edge_kept in He. exact He.
Qed.

(** With lookups among the keys: in the port's result the source of every
    edge is a returned node and the target is a key; the target is a
    returned node too unless the source lies at the depth limit. *)
Lemma lambda_edge_ends_on_keys :
  forall (data : EtymologyData) (word : string) (maxDepth : Z)
         (e : GraphEdge),
    let g := Lambda.getWordGraph data word maxDepth in
    In e (edges g) ->
    In (from e) (map id (nodes g))
    /\ data_get data (to e) <> None
    /\ (In (to e) (map id (nodes g))
        \/ exists n, In n (nodes g) /\ id n = from e /\ depth n = maxDepth).
Proof.
  intros data word maxDepth e g He. unfold g in *.
  destruct (lambda_edges_of_bfs data word maxDepth e He)
    as (Hd & Hroot & Hb & Hf & Ht).
  destruct (lam_bfs_ends data maxDepth (normalize word) Hd Hroot e Hb)
    as [[entry [r [_ [_ [_ Hkey]]]]] [n [Hn [Hi Hto]]]].
  assert (Kept : forall x, In x (Lambda.st_nodes
                                   (Lambda.bfs data (normalize word) maxDepth))
                   -> ~ In (id x)
                          (nodesToRemoveOf
                             (Lambda.depthMapOf
                                (Lambda.st_nodes
                                   (Lambda.bfs data (normalize word)
                                      maxDepth)))
                             (Lambda.st_edges
                                (Lambda.bfs data (normalize word) maxDepth)))
                   -> In x (nodes (Lambda.getWordGraph data word maxDepth))).
  { intros x Hx Hnot. unfold Lambda.getWordGraph.
    destruct (data_get data (normalize word)); [|congruence].
    apply pruneHubs_node_kept; assumption. }
  assert (Hnk : In n (nodes (Lambda.getWordGraph data word maxDepth)))
    by (apply Kept; [exact Hn|rewrite Hi; exact Hf]).
  split; [apply in_map_iff; exists n; auto|]. split; [exact Hkey|].
  destruct Hto as [Hto|Hto].
  - left. apply in_map_iff in Hto. destruct Hto as [n' [Hi' Hn']].
    apply in_map_iff. exists n'. split; [exact Hi'|].
    apply Kept; [exact Hn'|rewrite Hi'; exact Ht].
  - right. exists n. auto.
Qed.


Lemma server_edges_of_bfs (data : EtymologyData) (word : string)
  (maxDepth : Z) (e : GraphEdge) :
  In e (edges (MemStorage.getWordGraph data word maxDepth)) ->
  data_get data (normalize word) <> None
  /\ In e (MemStorage.st_edges
             (MemStorage.bfs data (normalize word) maxDepth)).
Proof.
  unfold MemStorage.getWordGraph.
  destruct (data_get data (normalize word)); [|intros []].
  intro He. apply pruneHubs_edge_kept in He. split; [congruence|tauto].
Qed.

Lemma closed_edge_depth (data : EtymologyData) (root : string)
  (maxDepth : Z) (ns : list GraphNode) (n n' : GraphNode) :
  bfsCorrect data root maxDepth ns ->
  In n ns -> In n' ns -> linked data (id n) (id n') ->
  depth n' <= depth n + 1.
Proof.
  intros (H1 & _ & _) Hn Hn' L.
  destruct (H1 n Hn) as [[Hh _] _]. destruct (H1 n' Hn') as [[_ Hmin] _].
  apply Hmin. econstructor; eauto.
Qed.

(** With lookups among the keys, every returned edge is a link of the
    dictionary, and between two returned nodes it leads at most one level
    down. *)
Lemma edges_are_links_on_keys :
  forall (data : EtymologyData) (word : string) (maxDepth : Z),
    (forall e, In e (edges (MemStorage.getWordGraph data word maxDepth)) ->
       linked data (from e) (to e)
       /\ forall n n',
            In n (nodes (MemStorage.getWordGraph data word maxDepth)) ->
            In n' (nodes (MemStorage.getWordGraph data word maxDepth)) ->
            id n = from e -> id n' = to e -> depth n' <= depth n + 1)
    /\ (forall e, In e (edges (Lambda.getWordGraph data word maxDepth)) ->
          linked data (from e) (to e)
          /\ forall n n',
               In n (nodes (Lambda.getWordGraph data word maxDepth)) ->
               In n' (nodes (Lambda.getWordGraph data word maxDepth)) ->
               id n = from e -> id n' = to e -> depth n' <= depth n + 1).
Proof.
  intros data word maxDepth. split; intros e He.
  - apply server_edges_of_bfs in He. destruct He as [Hroot He].
    assert (L : linked data (from e) (to e)).
    { revert e He. apply mem_bfsLoop_linked. intros x []. }
    split; [exact L|]. intros n n' Hn Hn' Hi Hi'.
    apply server_nodes_of_bfs in Hn, Hn'.
    apply (closed_edge_depth data (normalize word) maxDepth
             (MemStorage.st_nodes
                (MemStorage.bfs data (normalize word) maxDepth)));
      [apply mem_bfsCorrect; exact Hroot|tauto|tauto|].
    rewrite Hi, Hi'. exact L.
  - destruct (lambda_edges_of_bfs data word maxDepth e He)
      as (Hd & Hroot & Hb & _).
    destruct (lam_bfs_ends data maxDepth (normalize word) Hd Hroot e Hb)
      as [L _].
    split; [exact L|]. intros n n' Hn Hn' Hi Hi'.
    apply lambda_nodes_of_bfs in Hn, Hn'.
    apply (closed_edge_depth data (normalize word) maxDepth
             (Lambda.st_nodes (Lambda.bfs data (normalize word) maxDepth)));
      [apply lam_bfsCorrect; exact Hroot|tauto|tauto|].
    rewrite Hi, Hi'. exact L.
Qed.


(** ** The order of the node list *)

Lemma sorted_depths_filter (keep : GraphNode -> bool) (ns : list GraphNode) :
  StronglySorted Z.le (map depth ns) ->
  StronglySorted Z.le (map depth (filter keep ns)).
Proof.
  induction ns as [|n ns IH]; simpl; intro H; [constructor|].
  apply StronglySorted_inv in H. destruct H as [Hs Hall].
  destruct (keep n); [|apply IH; exact Hs].
  simpl. constructor; [apply IH; exact Hs|].
  rewrite Forall_forall in *. intros d Hd. apply Hall.
  apply in_map_iff in Hd. destruct Hd as [x [<- Hx]].
  apply filter_In in Hx. apply in_map. tauto.
Qed.

Section NodeOrder.

Variable data : EtymologyData.
Variable root : string.
Variable maxDepth : Z.

Lemma mem_visit_appends (u : string) (du : Z) (st : MemStorage.BfsState) :
  MemStorage.st_nodes (MemStorage.visit data maxDepth u du st)
  = MemStorage.st_nodes st
  \/ exists n, depth n = du
               /\ MemStorage.st_nodes (MemStorage.visit data maxDepth u du st)
                  = MemStorage.st_nodes st ++ [n].
Proof.
  unfold MemStorage.visit.
  destruct (du >? maxDepth); [auto|].
  destruct (data_get data u) as [entry|]; [|auto].
  right. rewrite fold_processRelated_nodes. simpl.
  eexists. split; [|reflexivity]. reflexivity.
Qed.

Lemma mem_bfsLoop_sorted (budget : nat) :
  forall st lvl cur,
    MemInv data root maxDepth lvl cur [] st ->
    StronglySorted Z.le (map depth (MemStorage.st_nodes st)) ->
    StronglySorted Z.le
      (map depth
         (MemStorage.st_nodes (MemStorage.bfsLoop budget data maxDepth st))).
Proof.
  induction budget as [|b IH]; intros st lvl cur Inv Hs; simpl; [exact Hs|].
  destruct (MemStorage.st_queue st) as [|[u du] rest] eqn:Q; [exact Hs|].
  apply (IH _ du u); [eapply visit_inv; eauto|].
  destruct (mem_visit_appends u du (MemStorage.shift st rest))
    as [E|[n [Hn E]]]; rewrite E; simpl; [exact Hs|].
  rewrite map_app. simpl. apply StronglySorted_snoc; [exact Hs|].
  intros y Hy. apply in_map_iff in Hy. destruct Hy as [x [<- Hx]].
  pose proof (mi_level_nodes _ _ _ _ _ _ _ Inv x Hx) as H1.
  assert (H2 : lvl <= du <= lvl + 1).
  { apply (mi_level_queue _ _ _ _ _ _ _ Inv u du).
    rewrite Q. left. reflexivity. }
  lia.
Qed.

Lemma lam_visit_appends (u : string) (du : Z) (st : Lambda.BfsState) :
  Lambda.st_nodes (Lambda.visit data maxDepth u du st) = Lambda.st_nodes st
  \/ exists n, depth n = du
               /\ Lambda.st_nodes (Lambda.visit data maxDepth u du st)
                  = Lambda.st_nodes st ++ [n].
Proof.
  unfold Lambda.visit.
  destruct (set_has (Lambda.st_visited st) u || (du >? maxDepth))%bool;
    [auto|].
  destruct (data_get data u) as [entry|]; [|auto].
  right. rewrite lam_fold_processRelated_nodes. simpl.
  eexists. split; [|reflexivity]. reflexivity.
Qed.

Lemma lam_bfsLoop_sorted (budget : nat) :
  forall st lvl cur,
    LamInv data root maxDepth lvl cur [] st ->
    StronglySorted Z.le (map depth (Lambda.st_nodes st)) ->
    StronglySorted Z.le
      (map depth
         (Lambda.st_nodes (Lambda.bfsLoop budget data maxDepth st))).
Proof.
  induction budget as [|b IH]; intros st lvl cur Inv Hs; simpl; [exact Hs|].
  destruct (Lambda.st_queue st) as [|[u du] rest] eqn:Q; [exact Hs|].
  apply (IH _ du u); [eapply lam_visit_inv; eauto|].
  destruct (lam_visit_appends u du (Lambda.shift st rest))
    as [E|[n [Hn E]]]; rewrite E; simpl; [exact Hs|].
  rewrite map_app. simpl. apply StronglySorted_snoc; [exact Hs|].
  intros y Hy. apply in_map_iff in Hy. destruct Hy as [x [<- Hx]].
  pose proof (li_level_nodes _ _ _ _ _ _ _ Inv x Hx) as H1.
  assert (H2 : lvl <= du <= lvl + 1).
  { apply (li_level_queue _ _ _ _ _ _ _ Inv u du).
    rewrite Q. left. reflexivity. }
  lia.
Qed.

End NodeOrder.

Lemma server_nodes_sorted (data : EtymologyData) (word : string)
  (maxDepth : Z) :
  StronglySorted Z.le
    (map depth (nodes (MemStorage.getWordGraph data word maxDepth))).
Proof.
  unfold MemStorage.getWordGraph.
  destruct (data_get data (normalize word)) as [entry|] eqn:G;
    [|constructor].
  unfold pruneHubs. simpl nodes. apply sorted_depths_filter.
  destruct (Z_lt_le_dec maxDepth 0) as [Hneg|Hpos].
  - rewrite bfs_negative_depth by exact Hneg. constructor.
  - eapply mem_bfsLoop_sorted; [|constructor].
    apply initial_inv; [exact Hpos|congruence].
Qed.

Lemma lambda_nodes_sorted (data : EtymologyData) (word : string)
  (maxDepth : Z) :
  StronglySorted Z.le
    (map depth (nodes (Lambda.getWordGraph data word maxDepth))).
Proof.
  unfold Lambda.getWordGraph.
  destruct (data_get data (normalize word)) as [entry|] eqn:G;
    [|constructor].
  unfold pruneHubs. simpl nodes. apply sorted_depths_filter.
  destruct (Z_lt_le_dec maxDepth 0) as [Hneg|Hpos].
  - rewrite lam_bfs_negative_depth by exact Hneg. constructor.
  - eapply lam_bfsLoop_sorted; [|constructor].
    apply lam_initial_inv; [exact Hpos|congruence].
Qed.

(** X28: [getWordGraph] lists the nodes in the order of the traversal: along
    the returned node list the depth never decreases, on the server and in
    the Lambda port; and the first node of the server's list is the root,
    at depth 0. *)
Theorem nodes_in_bfs_order :
  forall (data : EtymologyData) (word : string) (maxDepth : Z),
    (forall i j ni nj, (i <= j)%nat ->
       nth_error (nodes (MemStorage.getWordGraph data word maxDepth)) i
       = Some ni ->
       nth_error (nodes (MemStorage.getWordGraph data word maxDepth)) j
       = Some nj ->
       depth ni <= depth nj)
    /\ (forall i j ni nj, (i <= j)%nat ->
          nth_error (nodes (Lambda.getWordGraph data word maxDepth)) i
          = Some ni ->
          nth_error (nodes (Lambda.getWordGraph data word maxDepth)) j
          = Some nj ->
          depth ni <= depth nj)
    /\ (forall n,
          nth_error (nodes (MemStorage.getWordGraph data word maxDepth)) 0
          = Some n ->
          id n = normalize word /\ depth n = 0).
Proof.
  intros data word maxDepth.
  assert (Order : forall ns : list GraphNode,
             StronglySorted Z.le (map depth ns) ->
             forall i j ni nj, (i <= j)%nat ->
               nth_error ns i = Some ni -> nth_error ns j = Some nj ->
               depth ni <= depth nj).
  { intros ns Hs i j ni nj Hij Hi Hj.
    destruct (Nat.eq_dec i j) as [->|Hne];
      [assert (ni = nj) by congruence; subst; lia|].
    apply (sorted_nth _ Z.le (map depth ns) Hs i j); [lia| |].
    - rewrite nth_error_map, Hi. reflexivity.
    - rewrite nth_error_map, Hj. reflexivity. }
  split; [apply Order, server_nodes_sorted|].
  split; [apply Order, lambda_nodes_sorted|].
  intros n Hn.
  assert (Hin : In n (nodes (MemStorage.getWordGraph data word maxDepth)))
    by (eapply nth_error_In; eauto).
  pose proof Hin as Hb. apply server_nodes_of_bfs in Hb.
  destruct Hb as [Hroot Hb].
  destruct (mem_bfsCorrect data (normalize word) maxDepth Hroot)
    as (H1 & _).
  destruct (H1 n Hb) as [[Hh _] Hmax].
  pose proof (hops_nonneg _ _ _ _ Hh) as H0.
  destruct (getWordGraph_root data word maxDepth) as [r [Hr [Hid Hdep]]];
    [lia|exact Hroot|].
  apply In_nth_error in Hr. destruct Hr as [k Hk].
  assert (Hle : depth n <= depth r).
  { apply (Order _ (server_nodes_sorted data word maxDepth) 0%nat k);
      [lia|exact Hn|exact Hk]. }
  assert (Hz : depth n = 0) by lia.
  split; [|exact Hz]. eapply hops_zero; eauto.
Qed.

Lemma nodes_in_bfs_order_witness :
  (0 <= 1)%nat
  /\ depth (mkNode "a" "a" "A" 0 ["b"; "c"])
     <= depth (mkNode "b" "b" "B" 1 ["a"]).
Proof.
  assert (H : (0 <= 1)%nat) by lia.
  split; [exact H|].
  refine (proj1 (nodes_in_bfs_order scenarioA "a" 2) 0%nat 1%nat _ _ H _ _);
    vm_compute; reflexivity.
Defined.

(** ** The graphs served from the dictionary object *)

Lemma lookupView_key (data : EtymologyData) (w : string) (entry : WordEntry) :
  data_get data w <> None ->
  data_get (lookupView data) w = Some entry -> data_get data w = Some entry.
Proof.
  intros K H. rewrite data_get_lookupView in H.
  destruct (lookup data w) as [e| |] eqn:L.
  - apply lookup_key in L. congruence.
  - apply lookup_member in L. tauto.
  - discriminate.
Qed.

Lemma js_nodes_in (data : EtymologyData) (g : WordGraph) (n : JsGraphNode) :
  In n (jnodes (jsGraphOf data g)) ->
  exists n0, In n0 (nodes g) /\ n = jsNodeOf data n0.
Proof.
  unfold jsGraphOf. cbn [jnodes]. intro H. apply in_map_iff in H.
  destruct H as [n0 [E Hn0]]. eauto.
Qed.

(** X5: The direct neighbours of the root are always returned: for a depth
    limit of at least 1, in every graph the server's [getWordGraph]
    returns, every related word of the root whose normalization resolves
    on the dictionary object is a key and a node of the graph, at depth 1
    at most. *)
Theorem server_neighbours_returned :
  forall (data : EtymologyData) (word : string) (maxDepth : Z)
         (g : WordGraph) (v : string),
    1 <= maxDepth ->
    JsMemStorage.getWordGraph data word maxDepth = Returns g ->
    resolvedLink data (normalize word) v ->
    data_get data v <> None
    /\ exists n, In n (nodes g) /\ id n = v /\ depth n <= 1.
Proof.
  intros data word maxDepth g v Hd Hg Hl.
  pose proof (server_run_on_view _ _ _ _ Hg) as E.
  apply linked_lookupView in Hl.
  destruct (mem_neighbours_returned (lookupView data) word maxDepth v Hd Hl)
    as [n [Hn [Hid Hdep]]].
  rewrite <- E in Hn.
  split; [|eauto].
  rewrite <- Hid. apply (server_nodes_keys data word maxDepth g n Hg Hn).
Qed.

Lemma server_neighbours_returned_witness :
  (1 <= 1
   /\ JsMemStorage.getWordGraph scenarioA "a" 1
      = Returns (MemStorage.getWordGraph scenarioA "a" 1)
   /\ resolvedLink scenarioA (normalize "a") "b")
  /\ data_get scenarioA "b" <> None
  /\ exists n, In n (nodes (MemStorage.getWordGraph scenarioA "a" 1))
               /\ id n = "b" /\ depth n <= 1.
Proof.
  assert (H1 : 1 <= 1) by lia.
  assert (H2 : JsMemStorage.getWordGraph scenarioA "a" 1
               = Returns (MemStorage.getWordGraph scenarioA "a" 1))
    by (vm_compute; reflexivity).
  assert (H3 : resolvedLink scenarioA (normalize "a") "b").
  { exists (mkWordEntry "A" ["b"; "c"]), "b".
    split; [reflexivity|]. split; [left; reflexivity|].
    split; reflexivity. }
  split; [split; [exact H1|split; [exact H2|exact H3]]|].
  exact (server_neighbours_returned scenarioA "a" 1
           (MemStorage.getWordGraph scenarioA "a" 1) "b" H1 H2 H3).
Defined.

(** X6: Every node of a graph that the server's [getWordGraph] returns is
    made from the dictionary entry of its word ([word] equal to [id], [id]
    a key, same definition, same raw list of related words).  Every node
    of the Lambda port's graph is made from what [data[id]] is: from the
    entry for a key, and with [undefined] definition and related words for
    an inherited member of the dictionary object.  The depth of every node
    lies between 0 and the limit. *)
Theorem returned_nodes_faithful :
  forall (data : EtymologyData) (word : string) (maxDepth : Z),
    (forall g n,
       JsMemStorage.getWordGraph data word maxDepth = Returns g ->
       In n (nodes g) ->
       nodeOfEntry data n /\ 0 <= depth n <= maxDepth)
    /\ (forall n,
          In n (jnodes (JsLambda.getWordGraph data word (Limit maxDepth))) ->
          nodeOfLookup data n /\ 0 <= jdepth n <= maxDepth).
Proof.
  intros data word maxDepth. split.
  - intros g n Hg Hn.
    pose proof (server_nodes_keys data word maxDepth g n Hg Hn) as K.
    apply server_run_on_view in Hg. subst g.
    destruct (nodes_of_entries_on_keys (lookupView data) word maxDepth n
                (or_introl Hn)) as [[Hw [entry [G [Hdef Hrel]]]] Hdep].
    split; [|exact Hdep]. split; [exact Hw|].
    exists entry. split; [|auto]. apply lookupView_key; assumption.
  - intros n Hn. rewrite lambda_run_on_view in Hn.
    apply js_nodes_in in Hn. destruct Hn as [n0 [Hn0 ->]].
    destruct (nodes_of_entries_on_keys (lookupView data) word maxDepth n0
                (or_intror Hn0)) as [[Hw [entry [G [Hdef Hrel]]]] Hdep].
    rewrite jsNodeOf_depth. split; [|exact Hdep].
    unfold nodeOfLookup. rewrite jsNodeOf_id.
    rewrite data_get_lookupView in G. unfold jsNodeOf.
    destruct (lookup data (id n0)) as [e| |] eqn:L; [| |discriminate].
    + injection G as <-. apply lookup_key in L. rewrite L.
      cbn [jword jid jdefinition jrelatedWords].
      rewrite Hdef, Hrel. auto.
    + apply lookup_member in L. destruct L as [L _]. rewrite L.
      cbn [jword jid jdefinition jrelatedWords]. auto.
Qed.

Lemma returned_nodes_faithful_witness :
  In (mkJsNode "constructor" "constructor" None 1 None)
     (jnodes (JsLambda.getWordGraph memberData "a" (Limit 1)))
  /\ nodeOfLookup memberData
       (mkJsNode "constructor" "constructor" None 1 None).
Proof.
  assert (H : In (mkJsNode "constructor" "constructor" None 1 None)
                (jnodes (JsLambda.getWordGraph memberData "a" (Limit 1))))
    by (vm_compute; right; left; reflexivity).
  split; [exact H|].
  exact (proj1 (proj2 (returned_nodes_faithful memberData "a" 1)
                  (mkJsNode "constructor" "constructor" None 1 None) H)).
Defined.

(** X7: The node the client selects when a graph arrives, the first node of
    depth 0, is the root: in every graph the server's [getWordGraph]
    returns, the root is the only node of depth 0, and it is there whenever
    the word is a key and the limit is not negative. *)
Theorem root_is_the_depth0_node :
  forall (data : EtymologyData) (word : string) (maxDepth : Z)
         (g : WordGraph),
    JsMemStorage.getWordGraph data word maxDepth = Returns g ->
    (forall n, In n (nodes g) -> depth n = 0 -> id n = normalize word)
    /\ (0 <= maxDepth -> data_get data (normalize word) <> None ->
        exists n, findRootNode (nodes g) = Some n
                  /\ id n = normalize word /\ depth n = 0).
Proof.
  intros data word maxDepth g Hg.
  apply server_run_on_view in Hg. subst g.
  destruct (root_depth0_on_keys (lookupView data) word maxDepth) as [H1 H2].
  split; [exact H1|]. intros Hd K. apply H2; [exact Hd|].
  rewrite data_get_lookupView.
  destruct (data_get data (normalize word)) as [entry|] eqn:G;
    [|congruence].
  apply lookup_key in G. rewrite G. discriminate.
Qed.

Lemma root_is_the_depth0_node_witness :
  (JsMemStorage.getWordGraph scenarioA "a" 2
   = Returns (MemStorage.getWordGraph scenarioA "a" 2)
   /\ 0 <= 2 /\ data_get scenarioA (normalize "a") <> None)
  /\ exists n, findRootNode (nodes (MemStorage.getWordGraph scenarioA "a" 2))
               = Some n
               /\ id n = normalize "a" /\ depth n = 0.
Proof.
  assert (Hg : JsMemStorage.getWordGraph scenarioA "a" 2
               = Returns (MemStorage.getWordGraph scenarioA "a" 2))
    by (vm_compute; reflexivity).
  assert (H0 : 0 <= 2) by lia.
  assert (H1 : data_get scenarioA (normalize "a") <> None) by discriminate.
  split; [split; [exact Hg|split; [exact H0|exact H1]]|].
  exact (proj2 (root_is_the_depth0_node scenarioA "a" 2
                  (MemStorage.getWordGraph scenarioA "a" 2) Hg) H0 H1).
Defined.

(** X8: For a limit that is not negative, the Lambda port's [getWordGraph]
    returns no node exactly when [data[word]] is [undefined] for the
    normalized word (the case its handler answers with 404); for the name
    of an inherited member of the dictionary object that is no key it
    returns a root node with [undefined] definition and related words.
    Under a negative limit the result is empty for every word, and with
    [NaN] as the limit (a [depth] parameter that does not parse) the
    result is the one for limit 0. *)
Theorem lambda_empty_iff_absent :
  forall (data : EtymologyData) (word : string) (maxDepth : Z),
    (0 <= maxDepth ->
     (jnodes (JsLambda.getWordGraph data word (Limit maxDepth)) = []
      <-> lookup data (normalize word) = Undefined)
     /\ (lookup data (normalize word) = Member ->
         In (mkJsNode (normalize word) (normalize word) None 0 None)
            (jnodes (JsLambda.getWordGraph data word (Limit maxDepth)))))
    /\ (maxDepth < 0 ->
        JsLambda.getWordGraph data word (Limit maxDepth) = mkJsGraph [] [])
    /\ JsLambda.getWordGraph data word NotANumberDepth
       = JsLambda.getWordGraph data word (Limit 0).
Proof.
  intros data word maxDepth.
  destruct (lambda_empty_on_keys (lookupView data) word maxDepth)
    as [H1 H2].
  split; [|split; [|apply lambda_nan_as_zero]].
  - intro Hd. rewrite lambda_run_on_view. unfold jsGraphOf. cbn [jnodes].
    split.
    + split.
      * intro E. apply map_eq_nil in E. apply H1 in E; [|exact Hd].
        rewrite data_get_lookupView in E.
        destruct (lookup data (normalize word)); congruence.
      * intro U. rewrite (proj2 (H1 Hd)); [reflexivity|].
        rewrite data_get_lookupView, U. reflexivity.
    + intro M.
      assert (RD : data_get (lookupView data) (normalize word) <> None).
      { rewrite data_get_lookupView, M. discriminate. }
      destruct (lambda_root_kept (lookupView data) word maxDepth Hd RD)
        as [n [Hn [Hid Hdep]]].
      destruct (nodes_of_entries_on_keys (lookupView data) word maxDepth n
                  (or_intror Hn)) as [[Hw _] _].
      apply lookup_member in M. destruct M as [M _].
      replace (mkJsNode (normalize word) (normalize word) None 0 None)
        with (jsNodeOf data n); [apply in_map; exact Hn|].
      unfold jsNodeOf. rewrite Hw, Hid, Hdep, M. reflexivity.
  - intro Hneg. rewrite lambda_run_on_view, (H2 Hneg). reflexivity.
Qed.

Lemma lambda_empty_iff_absent_witness :
  0 <= 2
  /\ (jnodes (JsLambda.getWordGraph scenarioA "zzz" (Limit 2)) = []
      <-> lookup scenarioA (normalize "zzz") = Undefined).
Proof.
  assert (H : 0 <= 2) by lia.
  split; [exact H|].
  exact (proj1 (proj1 (lambda_empty_iff_absent scenarioA "zzz" 2) H)).
Defined.

(** X10: In the Lambda port's result the source of every edge is a
    returned node and [data[target]] is truthy (the target is a key of the
    dictionary or the name of an inherited member); the target is a
    returned node too unless the source lies at the depth limit (then the
    edge may point at a word beyond the limit). *)
Theorem lambda_edge_endpoints :
  forall (data : EtymologyData) (word : string) (maxDepth : Z)
         (e : GraphEdge),
    let g := JsLambda.getWordGraph data word (Limit maxDepth) in
    In e (jedges g) ->
    In (from e) (map jid (jnodes g))
    /\ resolves data (to e) = true
    /\ (In (to e) (map jid (jnodes g))
        \/ exists n, In n (jnodes g) /\ jid n = from e
                     /\ jdepth n = maxDepth).
Proof.
  intros data word maxDepth e g. unfold g. clear g.
  rewrite lambda_run_on_view. unfold jsGraphOf. cbn [jnodes jedges].
  rewrite jsNodeOf_ids. intro He.
  destruct (lambda_edge_ends_on_keys (lookupView data) word maxDepth e He)
    as (H1 & H2 & H3).
  split; [exact H1|]. split; [apply resolves_lookupView; exact H2|].
  destruct H3 as [H3|[n [Hn [Hid Hdep]]]]; [left; exact H3|].
  right. exists (jsNodeOf data n).
  rewrite jsNodeOf_id, jsNodeOf_depth. split; [apply in_map; exact Hn|auto].
Qed.

Lemma lambda_edge_endpoints_witness :
  In (mkEdge "a" "constructor")
     (jedges (JsLambda.getWordGraph memberData "a" (Limit 1)))
  /\ In "a" (map jid (jnodes (JsLambda.getWordGraph memberData "a" (Limit 1))))
  /\ resolves memberData "constructor" = true.
Proof.
  assert (H : In (mkEdge "a" "constructor")
                (jedges (JsLambda.getWordGraph memberData "a" (Limit 1))))
    by (vm_compute; left; reflexivity).
  split; [exact H|].
  pose proof (lambda_edge_endpoints memberData "a" 1
                (mkEdge "a" "constructor") H) as [H1 [H2 _]].
  split; [exact H1|exact H2].
Defined.

(** X11: Every edge of a graph that [getWordGraph] returns, on the server
    and in the Lambda port, is a link of the dictionary: its source is a
    key, and its target is the normalization of a related word of the
    source for which [data[target]] is truthy.  Between two returned nodes
    an edge leads at most one level down: the depth of the target is at
    most the depth of the source plus 1. *)
Theorem returned_edges_are_links :
  forall (data : EtymologyData) (word : string) (maxDepth : Z),
    (forall g e,
       JsMemStorage.getWordGraph data word maxDepth = Returns g ->
       In e (edges g) ->
       resolvedLink data (from e) (to e)
       /\ forall n n',
            In n (nodes g) -> In n' (nodes g) ->
            id n = from e -> id n' = to e -> depth n' <= depth n + 1)
    /\ (forall e,
          In e (jedges (JsLambda.getWordGraph data word (Limit maxDepth))) ->
          resolvedLink data (from e) (to e)
          /\ forall n n',
               In n (jnodes (JsLambda.getWordGraph data word (Limit maxDepth))) ->
               In n' (jnodes (JsLambda.getWordGraph data word (Limit maxDepth))) ->
               jid n = from e -> jid n' = to e ->
               jdepth n' <= jdepth n + 1).
Proof.
  intros data word maxDepth.
  destruct (edges_are_links_on_keys (lookupView data) word maxDepth)
    as [HS HL].
  split.
  - intros g e Hg He. apply server_run_on_view in Hg. subst g.
    destruct (HS e He) as [L D]. split; [|exact D].
    apply linked_lookupView. exact L.
  - intro e. rewrite lambda_run_on_view. unfold jsGraphOf.
    cbn [jnodes jedges]. intro He.
    destruct (HL e He) as [L D]. split; [apply linked_lookupView; exact L|].
    intros n n' Hn Hn' Hi Hi'.
    apply in_map_iff in Hn, Hn'.
    destruct Hn as [m [<- Hm]]. destruct Hn' as [m' [<- Hm']].
    rewrite jsNodeOf_id in Hi, Hi'. rewrite !jsNodeOf_depth.
    apply D; assumption.
Qed.

Lemma returned_edges_are_links_witness :
  JsMemStorage.getWordGraph scenarioA "a" 1
  = Returns (MemStorage.getWordGraph scenarioA "a" 1)
  /\ In (mkEdge "a" "b") (edges (MemStorage.getWordGraph scenarioA "a" 1))
  /\ resolvedLink scenarioA "a" "b".
Proof.
  assert (G : JsMemStorage.getWordGraph scenarioA "a" 1
              = Returns (MemStorage.getWordGraph scenarioA "a" 1))
    by (vm_compute; reflexivity).
  assert (H : In (mkEdge "a" "b")
                (edges (MemStorage.getWordGraph scenarioA "a" 1)))
    by (vm_compute; left; reflexivity).
  split; [exact G|]. split; [exact H|].
  exact (proj1 (proj1 (returned_edges_are_links scenarioA "a" 1)
                  (MemStorage.getWordGraph scenarioA "a" 1)
                  (mkEdge "a" "b") G H)).
Defined.

(** X25: Every word shown as a node can itself be explored: a node of a
    graph that the server returned is a key, so asking the server for the
    graph of that node's word is not answered with 404; at any depth that
    is not negative, a graph that the server returns for it has that
    word as the root at depth 0. *)
Theorem returned_nodes_explorable :
  forall (data : EtymologyData) (w : string) (d d' : Z) (g : WordGraph)
         (n : GraphNode),
    JsMemStorage.getWordGraph data w d = Returns g ->
    In n (nodes g) -> 0 <= d' ->
    data_get data (normalize (word n)) <> None
    /\ forall g',
         JsMemStorage.getWordGraph data (word n) d' = Returns g' ->
         exists r, In r (nodes g') /\ id r = word n /\ depth r = 0.
Proof.
  intros data w d d' g n Hg Hn Hd'.
  pose proof (server_nodes_keys data w d g n Hg Hn) as K.
  apply server_run_on_view in Hg. subst g.
  apply server_nodes_of_bfs in Hn. destruct Hn as [Hroot Hn].
  assert (Hnode : nodeOfEntry (lookupView data) n).
  { revert n Hn K. intros n Hn _. revert n Hn.
    apply mem_bfsLoop_nodeOfEntry. intros x []. }
  destruct Hnode as [Hw _].
  destruct (mem_bfsCorrect (lookupView data) (normalize w) d Hroot)
    as (H1 & _).
  destruct (H1 n Hn) as [[Hh _] _].
  assert (Hnorm : normalize (id n) = id n).
  { destruct (hops_normalized _ _ _ _ Hh) as [E|[r E]];
      rewrite E; apply normalize_twice. }
  rewrite Hw, Hnorm. split; [exact K|].
  intros g' Hg'.
  destruct (server_returned_root data (id n) d' g' Hd' Hg')
    as [r [Hr [Hid Hdep]]]; [rewrite Hnorm; exact K|].
  exists r. rewrite Hnorm in Hid. auto.
Qed.

Lemma returned_nodes_explorable_witness :
  data_get scenarioA (normalize (word (mkNode "b" "b" "B" 1 ["a"]))) <> None
  /\ forall g',
       JsMemStorage.getWordGraph scenarioA
         (word (mkNode "b" "b" "B" 1 ["a"])) 3 = Returns g' ->
       exists r, In r (nodes g')
                 /\ id r = word (mkNode "b" "b" "B" 1 ["a"]) /\ depth r = 0.
Proof.
  apply (returned_nodes_explorable scenarioA "a" 1 3
           (MemStorage.getWordGraph scenarioA "a" 1)
           (mkNode "b" "b" "B" 1 ["a"])).
  - vm_compute. reflexivity.
  - vm_compute. right. left. reflexivity.
  - lia.
Defined.
